(* ===== verification/_CoqProject ===== *)
-Q . S2P
Prelude.v
Text.v
Channels.v
Float.v
FloatError.v
Config.v
Cli.v
Limiter.v
Metrics.v
MetricsReg.v
Protocol.v
Json.v
Msgpack.v
Jwt.v
RateLimit.v
RateBound.v
Registry.v
RegistrySpec.v
RegistryConc.v
Nats.v
Publish.v
Replay.v
ReplayTask.v
ReplayPool.v
Consumer.v
Durable.v
Presence.v
Handler.v
HandlerSpec.v
PresenceLife.v
Outbound.v
System.v
Resume.v
Progress.v
Echo.v
Socket.v
Sockets.v
Token.v
Upgrade.v
Server.v
Run.v
Tests.v
MsgpackTests.v
