(* ===== verification/Prelude.v ===== *)
(** * turbocable-server: a verification development

    turbocable-server is a WebSocket gateway: clients connect to [/cable], subscribe to
    streams and receive, as WebSocket frames, the messages published on those streams through
    NATS JetStream.  A client that reconnects says which sequence number it saw last and gets
    the messages it missed replayed.  The program is in [src/src]; this library models its
    logic as Rocq functions and step relations and proves what makes it correct.

    ** The program's parts and the files that model them

    - [connection/registry.rs]: who is connected and who listens to which stream, and the
      fan-out of a message to the subscribers.  [Registry] has the state (three finite maps,
      the id and the connection counter), one definition per operation and the invariant tying
      the forward to the reverse map; [RegistrySpec] has the abstract registry (a set of
      connections and a set of subscriptions), the refinement of every operation to it, the
      delivery and eviction guarantees, and the executions of the operations in any order;
      [RegistryConc] splits the operations into single map accesses, with the [DashMap] guards
      they keep, and interleaves those of all tasks.
    - [connection/limiter.rs]: [Limiter], the per-IP limit.  [release] is two critical
      sections; the theorems are about all interleavings of these steps.
    - [connection/handler.rs] is the life of a connection.  [Handler]: the
      inbound task ([inbound_loop], [handle_client_frame], [dispatch_command],
      [stream_key_from_identifier]) as functions on a [World] that holds its variables, the
      registry, the metrics and an ordered log of what it asks of the outside;
      [HandlerSpec]: its properties, over sessions interleaved with other tasks' registry
      operations.  [ReplayTask]: the task a resuming subscribe spawns; [ReplayPool]: many of
      them under the replay semaphore, over the bounded channels of their connections.  [Outbound]: [outbound_loop], one definition per branch
      of the biased [select!].  [Upgrade]: [ws_upgrade].  [Socket]: [handle_socket], from
      admission to release; [Sockets]: any number of them over the shared limiter, registry
      and gauge.  [System]: the tasks of a connection, the consumer and other connections
      together; [Resume]: what a resuming client gets from them; [Progress]: that they catch up,
      and what a shutdown leaves behind.
    - [pubsub/nats.rs]: [Nats] (subjects, payloads, publish), [Replay] ([replay_since]),
      [Consumer] ([process_nats_message], [run_consumer], the reconnect loop); [Durable]: its
      sessions against the durable consumer it asks JetStream for.
    - [fanout/mod.rs]: [RateLimit], the token buckets, over [Float], IEEE 754 binary64
      arithmetic as the Standard Library specifies it.  [FloatError] is the rounding error of
      each operation, in rationals; [RateBound] carries it through any number of calls.
    - [protocol/], [errors.rs]: [Protocol], frames, their serde form as trees, the codecs and
      the sub-protocol negotiation.
    - [auth/]: [Jwt], token verification, stream patterns, key rotation; [Token], tokens that
      were issued: an interface of the signing library with its laws, what a key rotation
      means for the sockets of [Socket], and the unit tests that sign tokens.
    - [presence/mod.rs]: [Presence], keys, writes and heartbeats against a bucket with expiry;
      [PresenceLife], a connection's presence from its first subscribe to its end, with the
      heartbeat tasks writing at any moment and requests that may fail.
    - [config.rs]: [Config] (the record, the override string) and [Cli] (the arguments and
      [Config::parse]).  [metrics.rs]: [Metrics] (the values) and [MetricsReg] (registration,
      the process-wide handle, rendering).  [server.rs], [main.rs]: [Server] (startup
      decisions, endpoints, shutdown) and [Run] (listener, routes, [run], [start], [main]).
    - [bin/publish.rs]: [Publish], the load-test publisher.
    - [Json] and [Msgpack] read and print JSON text and MessagePack bytes: instances of the
      serialization library the codecs are parametric in, with its laws proved; with them
      [Tests] and [MsgpackTests] run the unit tests of the sources on the model.
    - [Echo] composes [Handler], [Nats], [Consumer] and [Protocol] into the way of a message
      from one client to another.
    - [Prelude] (this file) has results, 64-bit integers, shared list lemmas, automation and
      the reachable states of a step relation; [Text] has the [str] methods the code calls;
      [Channels] has the interface of tokio's bounded channels with its laws, and an instance.

    ** How parts interact

    The consumer takes a message from JetStream, asks the rate limiter, encodes it once per
    wire format and calls the registry's fan-out, which sends to the subscribers' channels
    ([Consumer] over [RateLimit] and [Registry]); the outbound task moves frames from the
    channels to the socket ([Outbound]).  The inbound task changes the registry on behalf of
    its client ([Handler] over [Registry], [Jwt], [Protocol]) and spawns replay tasks, which
    read JetStream and write to the same connection's replay channel ([ReplayTask] over
    [Replay]).  Channels are the interface between these: [Registry] and [Outbound] are
    proved against the class [Mpsc] and its laws, which [Channels] discharges for bounded
    queues.  [System] runs consumer, inbound, replay and outbound tasks of one connection over
    the same channels and registry, in any interleaving.

    ** What is shown

    - Delivery: a fan-out reaches every subscriber with room exactly once in its encoding and
      evicts exactly the others; over a whole run of the consumer a connection gets one frame
      per message of its streams, in order, that the limiter lets through; over sessions that
      fail anywhere every stored message is taken at least once, and nothing else is
      acknowledged; rate-limited messages have no other effect.
    - Resuming: replayed frames are strictly ordered, beyond the client's cursor and bounded;
      a gap is refused; within the window the replay is complete and the confirmation comes
      after it; queued replay frames leave the socket before live ones; replays run at most
      [max_replay_concurrency] at a time, and all of them finish as long as the outbound tasks
      take frames or end.
    - End to end: in every interleaving of a connection's tasks each frame is on the socket or
      in its channel, in order, or the client is told to reconnect; a client that resumes on
      a plain identifier, within window and cap, gets every message after its cursor, and the
      JSON a client sends, the subscribers' clients read, but for messages the rate limiter
      drops; left alone the tasks catch up within a number
      of steps and get stuck nowhere; on shutdown all that is queued is written first.
    - State: the registry's invariant in all executions and its refinement, also when the
      accesses of its operations interleave one by one, which never deadlocks; the limit in
      all interleavings; a socket gives back everything it took, on every path (with
      capacities and a ping interval that tokio accepts), and whatever
      the interleaving of all sockets, limiter, gauge and registry match those that are there.
    - Sessions: subscriptions are authorized, nothing happens before the hello in the
      enforcing phases, every subscribe gets one answer; a user is shown on exactly the
      streams subscribed, and no longer than the expiry after the connection ended; each way
      a socket is served or refused has one cause; which tokens a key rotation admits.
    - Arithmetic and formats: bursts are exact in binary64; over any window a stream passes
      fewer than one message more than its burst and rate allow, and traffic one message below
      them loses nothing, rounding included; streams do not interfere; the
      codecs accept exactly the documented client frames, and what they encode reads back; the
      override string and the options are read as documented; the metrics register without a
      clash.
    - The process: the upgrade announces the protocol the socket speaks; [run] panics, exits,
      shuts down in order or runs on, for the stated reasons; the drain loop ends.  The
      publisher sends a gap-free series.
    - Conformance: all unit tests of registry, limiter, rate limiter, codecs, frame handler,
      consumer, configuration, presence, patterns and tokens hold of the model.
    - Two theorems show defects: [outbound_spins_when_abandoned] (the outbound task of a
      connection that closed normally never ends) and [zero_ping_interval_leaks].  Examples
      show where comments and code differ, among them [live_overtakes_replay],
      [drain_ends_before_outbound_flush], [late_heartbeat_resurrects_presence] and
      [expired_within_leeway_accepted]; [stalled_client_blocks_replays] shows a client that
      keeps a replay permit by not reading.

    ** Modelling choices

    A [u64] is a [Z] with its wrap-around written out; counts bounded by memory are [nat].
    Strings and byte strings are [string].  A [DashMap] or [HashMap] is a [gmap], a
    [SmallVec] a list.  Fallible code returns [result].  An awaited send waits for room, so
    its outcomes are success and a closed receiver.  What a loop receives from outside (the
    fetches of a replay, the resolutions of a [select!]) is a list of events; a list that ends
    is a source that stays silent.  Fuel appears in five places and is always enough: the
    drain of a channel takes the queue's length, [str::trim] and [str::replace] the string's
    length, the readers of [Json] and [Msgpack] the input's (their laws show it suffices for
    what they print), the shutdown drain 301 polls ([shutdown_terminates] proves the bound), and
    [outbound_run] counts iterations ([outbound_replay_before_live] gives the number needed).
    Code outside the repository is a parameter: the serialization libraries ([WireLib], laws
    [WireLaws]), the token library ([JwtLib], [JwtLaws]), JetStream ([ReplayServer], laws
    [ReplayServerLaws]; the consumer's sessions), the key-value buckets, the channels ([Mpsc], [MpscLaws]), the
    semaphore, the Prometheus registry, clap, axum's upgrade, the operating system and the
    socket.  Every law class has an instance.

    ** What is not modelled

    Logging, timing values of histograms, the HTTP side of axum
    beyond routes and upgrade, integration tests and benches; the fuzz targets call [decode]
    and [verify], total functions here, and look at no result.  [RateBound] takes clock
    readings below 2^53 seconds that do not go back, rates below 2^53, and windows in which
    the number of messages times the burst, and the messages the rate earns, are within 2^48;
    [Echo] and the reading back of server messages take payloads without floating-point
    numbers, nested at most 126 deep: the laws of the libraries ([WireLaws]) promise reading
    back up to [WIRE_DEPTH] levels and for whole numbers.  Requests made at startup are answered in [Run];
    serving and the last flush may go on for ever.  In [ReplayPool] the server's answers are
    there when a replay starts.  [PresenceLife] has one connection's writes, each taking
    effect when it is made; another connection of the same user has the same keys.  An access to one [DashMap] entry is atomic.
    Tokio's cooperative scheduling budget is left out.  [System] covers a connection while its
    inbound loop runs (what follows is in [PresenceLife], [Socket] and [Outbound]); it handles
    a client frame in one step ([RegistryConc] interleaves single accesses), and its sink
    accepts every frame: what a failing sink does is in [Outbound].  [Durable] has the consumer configuration's effect on
    acknowledgments; that [max_ack_pending] bounds what is in flight is JetStream's part. *)

From stdpp Require Import base list gmap strings fin_maps.
From Stdlib Require Import ZArith Lia.

(** ** Results *)

(** Rust's [Result<A, E>]. *)
Inductive result (A E : Type) : Type :=
| Ok (a : A)
| Err (e : E).
Arguments Ok {A E} a.
Arguments Err {A E} e.

#[export] Instance result_eq_dec {A E} `{EqDecision A} `{EqDecision E} : EqDecision (result A E).
Proof. solve_decision. Defined.

Definition is_ok {A E} (r : result A E) : bool :=
  match r with Ok _ => true | Err _ => false end.

Definition map_err {A E F} (f : E → F) (r : result A E) : result A F :=
  match r with Ok a => Ok a | Err e => Err (f e) end.

(** [Result::ok] *)
Definition ok_option {A E} (r : result A E) : option A :=
  match r with Ok a => Some a | Err _ => None end.

Declare Scope gw_scope.
Delimit Scope gw_scope with gw.

(** The [?] operator on results and on options. *)
Notation "'let?' x ':=' e 'in' k" :=
  (match e with Ok x => k | Err err => Err err end)
  (at level 10, x name, e at level 100, k at level 200) : gw_scope.
Notation "'let%' x ':=' e 'in' k" :=
  (match e with Some x => k | None => None end)
  (at level 10, x pattern, e at level 100, k at level 200) : gw_scope.

(** ** Unsigned 64-bit integers

    A [u64] is a [Z]; the operations write their overflow behaviour out. *)

Definition u64_modulus : Z := (2 ^ 64)%Z.
Definition u64_max : Z := (u64_modulus - 1)%Z.

Definition is_u64 (z : Z) : Prop := (0 ≤ z < u64_modulus)%Z.

#[export] Instance is_u64_dec z : Decision (is_u64 z).
Proof. unfold is_u64. apply _. Defined.

(** The most permits a tokio semaphore can have, [usize::MAX >> 3]; [Semaphore::new] panics
    above it. *)
Definition MAX_PERMITS : Z := (2 ^ 61 - 1)%Z.

Definition semaphore_fits (permits : nat) : bool := (Z.of_nat permits <=? MAX_PERMITS)%Z.

(** Atomic [fetch_add]/[fetch_sub], and release-profile [+]/[*], wrap around. *)
Definition wrapping_add (a b : Z) : Z := ((a + b) mod u64_modulus)%Z.
Definition wrapping_sub (a b : Z) : Z := ((a - b) mod u64_modulus)%Z.
Definition wrapping_mul (a b : Z) : Z := ((a * b) mod u64_modulus)%Z.
Definition saturating_add (a b : Z) : Z := Z.min (a + b)%Z u64_max.
Definition saturating_sub (a b : Z) : Z := Z.max (a - b)%Z 0%Z.

(** ** Automation *)

Create HintDb gw.

(** Case analysis on every [match] of the goal, with simplification. *)
Ltac split_matches :=
  repeat (case_match; simplify_eq/=; try done).

(** Unfolds the width bounds and closes the arithmetic goal. *)
Ltac u64_solve :=
  unfold is_u64, wrapping_add, wrapping_sub, wrapping_mul, saturating_add,
    saturating_sub, u64_max, u64_modulus in *;
  first [ lia | nia ].

Lemma wrapping_add_small a b :
  (0 ≤ a)%Z → (0 ≤ b)%Z → (a + b < u64_modulus)%Z → wrapping_add a b = (a + b)%Z.
Proof. intros. unfold wrapping_add. apply Z.mod_small. lia. Qed.

Lemma wrapping_add_is_u64 a b : is_u64 (wrapping_add a b).
Proof. unfold is_u64, wrapping_add. apply Z.mod_pos_bound. reflexivity. Qed.

Lemma wrapping_sub_is_u64 a b : is_u64 (wrapping_sub a b).
Proof. unfold is_u64, wrapping_sub. apply Z.mod_pos_bound. reflexivity. Qed.

Lemma wrapping_add_mod a b : wrapping_add (a mod u64_modulus)%Z b = ((a + b) mod u64_modulus)%Z.
Proof. unfold wrapping_add. by rewrite Zplus_mod_idemp_l. Qed.

Lemma wrapping_sub_mod a b : wrapping_sub (a mod u64_modulus)%Z b = ((a - b) mod u64_modulus)%Z.
Proof. unfold wrapping_sub. by rewrite Zminus_mod_idemp_l. Qed.

Lemma saturating_sub_is_u64 a b : is_u64 a → (0 ≤ b)%Z → is_u64 (saturating_sub a b).
Proof. intros [??] ?. unfold is_u64, saturating_sub. lia. Qed.

#[export] Hint Resolve wrapping_add_is_u64 wrapping_sub_is_u64 saturating_sub_is_u64 : gw.

(** ** Lists *)

(** [Vec::retain(|x| x != k)] *)
Definition retain_ne {A} `{EqDecision A} (k : A) (l : list A) : list A :=
  filter (λ x, x ≠ k) l.

Section ListLemmas.
Context {A : Type} `{EqDecision A}.
Implicit Types (k x : A) (l : list A).

Lemma elem_of_retain_ne k x l : x ∈ retain_ne k l ↔ x ≠ k ∧ x ∈ l.
Proof. unfold retain_ne. by rewrite list_elem_of_filter. Qed.

Lemma NoDup_retain_ne k l : NoDup l → NoDup (retain_ne k l).
Proof. intros. unfold retain_ne. by apply NoDup_filter. Qed.

Lemma retain_ne_id k l : k ∉ l → retain_ne k l = l.
Proof.
  unfold retain_ne. induction l as [|x l IH]; [done|].
  intros [Hx Hl]%not_elem_of_cons. rewrite filter_cons_True by congruence.
  by rewrite IH.
Qed.

Lemma retain_ne_retain_ne k l : retain_ne k (retain_ne k l) = retain_ne k l.
Proof. apply retain_ne_id. rewrite elem_of_retain_ne. naive_solver. Qed.

Lemma retain_ne_nil k l : retain_ne k l = [] ↔ ∀ x, x ∈ l → x = k.
Proof.
  split.
  - intros Hnil x Hx. destruct (decide (x = k)) as [|Hne]; [done|].
    assert (x ∈ retain_ne k l) as Hin by (by apply elem_of_retain_ne).
    rewrite Hnil in Hin. by apply not_elem_of_nil in Hin.
  - intros Hall. destruct (retain_ne k l) as [|y l'] eqn:E; [done|].
    assert (y ∈ retain_ne k l) as [Hne Hy]%elem_of_retain_ne by (rewrite E; left).
    by apply Hall in Hy.
Qed.

Lemma retain_ne_snoc k l : k ∉ l → retain_ne k (l ++ [k]) = l.
Proof.
  intros Hk. unfold retain_ne. rewrite filter_app. fold (retain_ne k l).
  rewrite retain_ne_id by done. rewrite filter_cons_False by auto.
  by rewrite filter_nil, app_nil_r.
Qed.
End ListLemmas.

(** ** Counting the entries of a map *)

Section Counting.
Context {K A : Type} `{Countable K} (P : A → bool).
Implicit Types (m : gmap K A).

Definition map_count m : nat := size (filter (λ kv, P kv.2 = true) m).

Lemma map_count_empty : map_count ∅ = 0%nat.
Proof. unfold map_count. by rewrite map_filter_empty, map_size_empty. Qed.

Lemma map_count_fresh m k x :
  m !! k = None → map_count (<[k := x]> m) = (map_count m + if P x then 1 else 0)%nat.
Proof.
  intros Hk. unfold map_count. destruct (P x) eqn:Hx.
  - rewrite map_filter_insert_True by done. rewrite map_size_insert_None; [lia|].
    apply map_lookup_filter_None. by left.
  - rewrite map_filter_insert_False by (cbn; congruence). rewrite delete_id by done. lia.
Qed.

Lemma map_count_update m k old x :
  m !! k = Some old →
  (map_count (<[k := x]> m) + if P old then 1 else 0)%nat = (map_count m + if P x then 1 else 0)%nat.
Proof.
  intros Hk. rewrite <- (insert_delete_id m k old Hk) at 2. rewrite <- insert_delete_eq.
  rewrite !map_count_fresh by apply lookup_delete_eq. lia.
Qed.

Lemma map_count_pos m k x : m !! k = Some x → P x = true → (0 < map_count m)%nat.
Proof.
  intros Hk Hx. unfold map_count.
  assert (size (filter (λ kv : K * A, P kv.2 = true) m) ≠ 0%nat); [|lia].
  apply (map_size_ne_0_lookup_2 _ k). exists x. by apply map_lookup_filter_Some.
Qed.

Lemma map_count_witness m : (0 < map_count m)%nat → ∃ k x, m !! k = Some x ∧ P x = true.
Proof.
  unfold map_count. intros Hc.
  destruct (map_size_ne_0_lookup_1 (filter (λ kv : K * A, P kv.2 = true) m))
    as (k & x & Hx); [lia|].
  apply map_lookup_filter_Some in Hx as [Hx HP]. eauto.
Qed.

Lemma map_count_zero m : map_count m = 0%nat ↔ ∀ k x, m !! k = Some x → P x = false.
Proof.
  split.
  - intros Hz k x Hk. destruct (P x) eqn:Hx; [|done].
    pose proof (map_count_pos _ _ _ Hk Hx). lia.
  - intros Hall. destruct (map_count m) as [|n] eqn:E; [done|].
    destruct (map_count_witness m) as (k & x & Hk & Hx); [lia|].
    by rewrite (Hall k x Hk) in Hx.
Qed.
End Counting.

(** The sum of a quantity over the entries of a map. *)
Definition map_sum {K A} `{Countable K} (f : A → nat) (m : gmap K A) : nat :=
  map_fold (λ _ x acc, (f x + acc)%nat) 0%nat m.

Lemma map_sum_fresh {K A} `{Countable K} (f : A → nat) (m : gmap K A) k x :
  m !! k = None → map_sum f (<[k := x]> m) = (f x + map_sum f m)%nat.
Proof.
  intros Hk. unfold map_sum.
  by rewrite (map_fold_insert_L (λ _ x acc, f x + acc)%nat) by (done || intros; lia).
Qed.

Lemma map_sum_update {K A} `{Countable K} (f : A → nat) (m : gmap K A) k old x :
  m !! k = Some old → (map_sum f (<[k := x]> m) + f old = map_sum f m + f x)%nat.
Proof.
  intros Hk. rewrite <- (insert_delete_id m k old Hk) at 2. rewrite <- insert_delete_eq.
  rewrite !map_sum_fresh by apply lookup_delete_eq. lia.
Qed.

(** [filter] only looks at the elements of the list. *)
Lemma filter_ext_in {A} (P Q : A → Prop) `{!∀ x, Decision (P x)} `{!∀ x, Decision (Q x)}
    (l : list A) :
  (∀ x, x ∈ l → P x ↔ Q x) → filter P l = filter Q l.
Proof.
  induction l as [|x l IH]; intros Hl; [done|]. rewrite !filter_cons.
  pose proof (Hl x ltac:(left)). rewrite IH by (intros; apply Hl; by right).
  repeat case_decide; tauto.
Qed.

#[export] Hint Resolve NoDup_retain_ne : gw.

(** ** Executions of a step relation *)

Section Executions.
Context {S : Type} (init : S → Prop) (step : S → S → Prop).

(** States reached from an initial state by finitely many steps. *)
Inductive reachable : S → Prop :=
| reachable_init s : init s → reachable s
| reachable_step s s' : reachable s → step s s' → reachable s'.

Lemma reachable_invariant (P : S → Prop) :
  (∀ s, init s → P s) →
  (∀ s s', P s → step s s' → P s') →
  ∀ s, reachable s → P s.
Proof. intros Hi Hs s. induction 1; eauto. Qed.
End Executions.

Lemma reachable_weaken {S} (init init' : S → Prop) (step : S → S → Prop) s :
  (∀ s, init s → init' s) → reachable init step s → reachable init' step s.
Proof. intros Hi. induction 1; [apply reachable_init; auto|by eapply reachable_step]. Qed.
