(* ===== verification/Text.v ===== *)
(** * Rust string operations

    A Rust [str] (and a byte buffer) is Stdlib's [string], one [ascii] per UTF-8 byte, so
    [as_bytes] is the identity.  This file holds the standard-library operations the
    gateway uses, with the lemmas the components share. *)

From stdpp Require Import base list strings.
From Stdlib Require Import ZArith Lia Ascii String DecimalString DecimalN DecimalPos.
From S2P Require Import Prelude.

Local Open Scope string_scope.
Local Open Scope list_scope.
Local Arguments String.append !_ _ /.

(** ** Prefixes, suffixes and search *)

(** [str::strip_prefix] with a string pattern. *)
Fixpoint strip_prefix (p s : string) : option string :=
  match p, s with
  | EmptyString, _ => Some s
  | String a p', String b s' => if decide (a = b) then strip_prefix p' s' else None
  | String _ _, EmptyString => None
  end.

(** [str::starts_with] *)
Definition starts_with (s p : string) : bool :=
  match strip_prefix p s with Some _ => true | None => false end.

(** [str::strip_suffix] with a [char] pattern. *)
Fixpoint strip_suffix_char (c : ascii) (s : string) : option string :=
  match s with
  | EmptyString => None
  | String a EmptyString => if decide (a = c) then Some EmptyString else None
  | String a s' => String a <$> strip_suffix_char c s'
  end.

(** [str::find] with a string pattern: the first byte offset. *)
Fixpoint find (needle hay : string) : option nat :=
  match strip_prefix needle hay with
  | Some _ => Some 0
  | None => match hay with EmptyString => None | String _ h => S <$> find needle h end
  end.

(** ** Splitting *)

(** [str::split] on a [char]; it yields at least one piece. *)
Fixpoint split (sep : ascii) (s : string) : list string :=
  match s with
  | EmptyString => [EmptyString]
  | String a s' =>
      if decide (a = sep) then EmptyString :: split sep s'
      else match split sep s' with
           | [] => [String a EmptyString]
           | x :: xs => String a x :: xs
           end
  end.

(** [str::split_once] on a [char]. *)
Fixpoint split_once (sep : ascii) (s : string) : option (string * string) :=
  match s with
  | EmptyString => None
  | String a s' =>
      if decide (a = sep) then Some (EmptyString, s')
      else match split_once sep s' with
           | Some (x, y) => Some (String a x, y)
           | None => None
           end
  end.

(** ** Trimming *)

Definition bytes_of (l : list N) : string :=
  fold_right (λ n s, String (ascii_of_N n) s) EmptyString l.

(** The UTF-8 encodings of the code points with the Unicode [White_Space] property, which
    is what [str::trim] removes. *)
Definition whitespace_encodings : list string :=
  map bytes_of
    ([[9]; [10]; [11]; [12]; [13]; [32]; [194; 133]; [194; 160]; [225; 154; 128];
      [226; 128; 128]; [226; 128; 129]; [226; 128; 130]; [226; 128; 131]; [226; 128; 132];
      [226; 128; 133]; [226; 128; 134]; [226; 128; 135]; [226; 128; 136]; [226; 128; 137];
      [226; 128; 138]; [226; 128; 168]; [226; 128; 169]; [226; 128; 175]; [226; 129; 159];
      [227; 128; 128]])%N.

(** The rest of the string after one leading pattern of the list. *)
Fixpoint strip_any (ps : list string) (s : string) : option string :=
  match ps with
  | [] => None
  | p :: ps' => match strip_prefix p s with Some r => Some r | None => strip_any ps' s end
  end.

(** Strips leading patterns until none matches; each strip shortens the string, so the
    string's length is enough fuel. *)
Fixpoint strip_all (fuel : nat) (ps : list string) (s : string) : string :=
  match fuel with
  | 0 => s
  | S fuel' => match strip_any ps s with Some r => strip_all fuel' ps r | None => s end
  end.

Definition trim_start (s : string) : string :=
  strip_all (String.length s) whitespace_encodings s.

Fixpoint str_rev_app (s acc : string) : string :=
  match s with EmptyString => acc | String a s' => str_rev_app s' (String a acc) end.

Definition str_rev (s : string) : string := str_rev_app s EmptyString.

Definition trim_end (s : string) : string :=
  str_rev (strip_all (String.length s) (map str_rev whitespace_encodings) (str_rev s)).

(** [str::trim] *)
Definition trim (s : string) : string := trim_end (trim_start s).

(** ** Numbers *)

Definition digit_value (a : ascii) : option Z :=
  let n := Z.of_N (N_of_ascii a) in
  if ((48 <=? n) && (n <=? 57))%Z then Some (n - 48)%Z else None.

(** The digit loop of [u64::from_str]: overflow is an error. *)
Fixpoint parse_digits (acc : Z) (s : string) : option Z :=
  match s with
  | EmptyString => Some acc
  | String a s' =>
      match digit_value a with
      | None => None
      | Some d =>
          let acc' := (acc * 10 + d)%Z in
          if (acc' <=? u64_max)%Z then parse_digits acc' s' else None
      end
  end.

(** [str::parse::<u64>]: a leading [+] is accepted, the empty string and a lone sign are
    errors. *)
Definition parse_u64 (s : string) : option Z :=
  match s with
  | EmptyString => None
  | String a s' =>
      if decide (a = "+"%char)
      then match s' with EmptyString => None | _ => parse_digits 0 s' end
      else parse_digits 0 s
  end.

(** [u64::to_string] *)
Definition print_N (n : N) : string := NilZero.string_of_uint (N.to_uint n).

(** [i64::to_string] *)
Definition print_Z (z : Z) : string :=
  if (z <? 0)%Z then String "-" (print_N (Z.to_N (- z))) else print_N (Z.to_N z).

(** ** UTF-8 *)

(** [std::str::from_utf8] as an automaton: [n] continuation bytes are owed, the next one
    in [lo..hi]. *)
Fixpoint utf8_run (n : nat) (lo hi : N) (s : string) : bool :=
  match s with
  | EmptyString => Nat.eqb n 0
  | String a s' =>
      let b := N_of_ascii a in
      let within x y := ((x <=? b) && (b <=? y))%N in
      match n with
      | S n' => if within lo hi then utf8_run n' 128 191 s' else false
      | 0 =>
          if (b <? 128)%N then utf8_run 0 128 191 s'
          else if within 194%N 223%N then utf8_run 1 128 191 s'
          else if (b =? 224)%N then utf8_run 2 160 191 s'
          else if (b =? 237)%N then utf8_run 2 128 159 s'
          else if within 225%N 239%N then utf8_run 2 128 191 s'
          else if (b =? 240)%N then utf8_run 3 144 191 s'
          else if within 241%N 243%N then utf8_run 3 128 191 s'
          else if (b =? 244)%N then utf8_run 3 128 143 s'
          else false
      end
  end.

Definition utf8_valid (s : string) : bool := utf8_run 0 128 191 s.

(** ** Lemmas *)

(** The characters of a string. *)
Fixpoint occurs (c : ascii) (s : string) : bool :=
  match s with
  | EmptyString => false
  | String a s' => bool_decide (a = c) || occurs c s'
  end.

Lemma str_app_assoc (a b c : string) : (a +:+ b) +:+ c = a +:+ (b +:+ c).
Proof. induction a as [|x a IH]; [done|]. exact (f_equal (String x) IH). Qed.

Lemma str_length_app (a b : string) :
  String.length (a +:+ b) = (String.length a + String.length b)%nat.
Proof. induction a as [|x a IH]; [done|]. exact (f_equal S IH). Qed.

Lemma append_inj_r (s s' t : string) : s +:+ t = s' +:+ t → s = s'.
Proof.
  revert s'. induction s as [|a s IH]; intros [|a' s'] Heq; [done| | |].
  - apply (f_equal String.length) in Heq. cbn in Heq. rewrite str_length_app in Heq. lia.
  - apply (f_equal String.length) in Heq. cbn in Heq. rewrite str_length_app in Heq. lia.
  - cbn in Heq. injection Heq as -> Heq. by rewrite (IH _ Heq).
Qed.

Lemma strip_prefix_Some p s r : strip_prefix p s = Some r ↔ s = p +:+ r.
Proof.
  revert s. induction p as [|a p IH]; intros s; simpl; [split; congruence|].
  destruct s as [|b s]; [split; discriminate|].
  case_decide as E; [rewrite IH; subst; split; congruence|split; congruence].
Qed.

Lemma strip_prefix_app p s : strip_prefix p (p +:+ s) = Some s.
Proof. by apply strip_prefix_Some. Qed.

Lemma starts_with_spec s p : starts_with s p = true ↔ ∃ r, s = p +:+ r.
Proof.
  unfold starts_with. destruct (strip_prefix p s) as [r|] eqn:E.
  - apply strip_prefix_Some in E. split; [by eauto|done].
  - split; [done|]. intros [r Hr%strip_prefix_Some]. congruence.
Qed.

Lemma strip_suffix_char_Some c s r :
  strip_suffix_char c s = Some r ↔ s = r +:+ String c EmptyString.
Proof.
  revert r. induction s as [|a s IH]; intros r.
  - split; [done|]. by destruct r.
  - simpl. destruct s as [|b s].
    + case_decide as E.
      * split; [intros [= <-]; by subst|]. destruct r as [|x r]; [done|].
        intros [= -> H]. by destruct r.
      * split; [done|]. destruct r as [|x r]; [intros [= ->]; done|].
        intros [= -> H]. by destruct r.
    + destruct (strip_suffix_char c (String b s)) as [r'|] eqn:E; simpl in *.
      * split; [intros [= <-]; simpl; f_equal; by apply IH|].
        destruct r as [|x r]; [by intros [= ??]|]. intros [= -> H].
        apply IH in H. by simplify_eq.
      * split; [done|]. destruct r as [|x r]; [by intros [= ??]|]. intros [= -> H].
        apply IH in H. by simplify_eq.
Qed.

Lemma substring_prefix p s : substring 0 (String.length p) (p +:+ s) = p.
Proof. induction p as [|a p IH]; simpl; [by destruct s|by rewrite IH]. Qed.

(** What [find] returns is an occurrence: the slice at that offset is the needle. *)
Lemma find_substring needle hay i :
  find needle hay = Some i → substring i (String.length needle) hay = needle.
Proof.
  revert i. induction hay as [|a h IH]; intros i Hf; simpl in Hf.
  - destruct (strip_prefix needle "") as [r|] eqn:E; [|done].
    apply strip_prefix_Some in E. injection Hf as <-. rewrite E. apply substring_prefix.
  - destruct (strip_prefix needle (String a h)) as [r|] eqn:E.
    + apply strip_prefix_Some in E. injection Hf as <-. rewrite E. apply substring_prefix.
    + destruct (find needle h) as [j|] eqn:F; [|done]. injection Hf as <-. by apply IH.
Qed.

Lemma split_not_nil sep s : split sep s ≠ [].
Proof. destruct s as [|a s]; simpl; [done|]. repeat case_match; done. Qed.

Lemma split_no_sep sep s : occurs sep s = false → split sep s = [s].
Proof.
  induction s as [|a s IH]; simpl; [done|].
  intros [Ha Hs]%orb_false_iff. apply bool_decide_eq_false in Ha.
  case_decide; [done|]. by rewrite IH.
Qed.

Lemma split_app_sep sep s t :
  occurs sep s = false → split sep (s +:+ String sep t) = s :: split sep t.
Proof.
  induction s as [|a s IH]; simpl; [by case_decide|].
  intros [Ha Hs]%orb_false_iff. apply bool_decide_eq_false in Ha.
  case_decide; [done|]. by rewrite IH.
Qed.

Lemma split_once_app sep s t :
  occurs sep s = false → split_once sep (s +:+ String sep t) = Some (s, t).
Proof.
  induction s as [|a s IH]; simpl; [by case_decide|].
  intros [Ha Hs]%orb_false_iff. apply bool_decide_eq_false in Ha.
  case_decide; [done|]. by rewrite IH.
Qed.

Lemma split_once_Some sep s x y :
  split_once sep s = Some (x, y) → s = x +:+ String sep y ∧ occurs sep x = false.
Proof.
  revert x y. induction s as [|a s IH]; intros x y; simpl; [done|].
  case_decide as E; [intros [= <- <-]; by subst|].
  destruct (split_once sep s) as [[x' y']|] eqn:F; [|done].
  intros [= <- <-]. destruct (IH _ _ eq_refl) as [-> Ho]. simpl.
  by rewrite Ho, bool_decide_eq_false_2.
Qed.

Lemma parse_digits_is_u64 acc s n :
  (0 ≤ acc)%Z → is_u64 acc → parse_digits acc s = Some n → is_u64 n.
Proof.
  revert acc. induction s as [|a s IH]; intros acc Hpos Hacc; simpl; [by intros [= <-]|].
  unfold digit_value.
  destruct ((48 <=? Z.of_N (N_of_ascii a)) && (Z.of_N (N_of_ascii a) <=? 57))%Z eqn:R; [|done].
  apply andb_true_iff in R as [?%Z.leb_le ?%Z.leb_le]. case_match eqn:L; [|done].
  apply Z.leb_le in L. apply IH; [lia|]. unfold u64_max in L. unfold is_u64. lia.
Qed.

(** A parsed number fits its type. *)
Lemma parse_u64_is_u64 s n : parse_u64 s = Some n → is_u64 n.
Proof.
  assert (is_u64 0) by (by vm_compute).
  unfold parse_u64. repeat case_match; try done; subst; intros;
    by eapply (parse_digits_is_u64 0).
Qed.

(** *** Printed numbers are read back *)

(** The value of digits after those with the value [acc]. *)
Fixpoint digits_value (acc : Z) (u : Decimal.uint) : Z :=
  match u with
  | Decimal.Nil => acc
  | Decimal.D0 u => digits_value (acc * 10 + 0) u
  | Decimal.D1 u => digits_value (acc * 10 + 1) u
  | Decimal.D2 u => digits_value (acc * 10 + 2) u
  | Decimal.D3 u => digits_value (acc * 10 + 3) u
  | Decimal.D4 u => digits_value (acc * 10 + 4) u
  | Decimal.D5 u => digits_value (acc * 10 + 5) u
  | Decimal.D6 u => digits_value (acc * 10 + 6) u
  | Decimal.D7 u => digits_value (acc * 10 + 7) u
  | Decimal.D8 u => digits_value (acc * 10 + 8) u
  | Decimal.D9 u => digits_value (acc * 10 + 9) u
  end%Z.

Lemma digits_value_ge u acc : (0 ≤ acc → acc ≤ digits_value acc u)%Z.
Proof.
  revert acc. induction u as [|u IH|u IH|u IH|u IH|u IH|u IH|u IH|u IH|u IH|u IH]; intros acc Ha;
    cbn [digits_value]; [lia|..]; (etrans; [|apply IH]); lia.
Qed.

Lemma parse_digits_step a d acc s :
  digit_value a = Some d → (acc * 10 + d ≤ u64_max)%Z →
  parse_digits acc (String a s) = parse_digits (acc * 10 + d) s.
Proof. intros Ha Hd. cbn [parse_digits]. by rewrite Ha, (proj2 (Z.leb_le _ _) Hd). Qed.

Lemma parse_digits_uint u acc :
  (0 ≤ acc)%Z → (digits_value acc u ≤ u64_max)%Z →
  parse_digits acc (NilEmpty.string_of_uint u) = Some (digits_value acc u).
Proof.
  revert acc. induction u as [|u IH|u IH|u IH|u IH|u IH|u IH|u IH|u IH|u IH|u IH]; intros acc Ha Hd;
    [done|..]; cbn [NilEmpty.string_of_uint digits_value] in *;
    (erewrite parse_digits_step; [apply IH; [lia|exact Hd]|reflexivity|];
     (etrans; [apply digits_value_ge|exact Hd]; lia)).
Qed.

Lemma digits_value_pos u p : digits_value (Zpos p) u = Zpos (Pos.of_uint_acc u p).
Proof.
  revert p. induction u as [|u IH|u IH|u IH|u IH|u IH|u IH|u IH|u IH|u IH|u IH]; intros p;
    cbn [digits_value Pos.of_uint_acc]; [done|..]; rewrite <- IH; f_equal; lia.
Qed.

Lemma digits_value_uint u : digits_value 0 u = Z.of_N (N.of_uint u).
Proof.
  unfold N.of_uint. induction u as [|u IH|u IH|u IH|u IH|u IH|u IH|u IH|u IH|u IH|u IH];
    cbn [digits_value Pos.of_uint]; [done|exact IH|..]; cbn [Z.of_N]; rewrite <- digits_value_pos; done.
Qed.

Lemma parse_print_digits n :
  (Z.of_N n ≤ u64_max)%Z → parse_digits 0 (print_N n) = Some (Z.of_N n).
Proof.
  intros Hn. unfold print_N.
  assert (digits_value 0 (N.to_uint n) = Z.of_N n) as E
    by (by rewrite digits_value_uint, DecimalN.Unsigned.of_to).
  destruct (N.to_uint n) eqn:Eu; [by cbn in E; rewrite <- E|..]; cbn [NilZero.string_of_uint]; rewrite <- E;
    apply (parse_digits_uint (_ _)); by rewrite ?E.
Qed.

Lemma print_N_head n : ∃ a s, print_N n = String a s ∧ is_Some (digit_value a).
Proof. unfold print_N. destruct (N.to_uint n); eexists _, _; (split; [reflexivity|by vm_compute; eexists]). Qed.

Lemma parse_print_u64 z : is_u64 z → parse_u64 (print_Z z) = Some z.
Proof.
  intros [Hz Hm]. unfold print_Z. destruct (Z.ltb_spec z 0); [lia|].
  pose proof (parse_print_digits (Z.to_N z)) as Hp. rewrite Z2N.id in Hp by done.
  destruct (print_N_head (Z.to_N z)) as (a & s & E & Ha). rewrite E in *. unfold parse_u64.
  rewrite decide_False by (intros ->; by destruct Ha). apply Hp. unfold u64_max. lia.
Qed.
