(* ===== verification/Channels.v ===== *)
(** * Interfaces of the runtime's channels

    The gateway's tasks talk through tokio's bounded [mpsc] channels and write to an axum
    WebSocket sink.  Neither is code of this repository: a component that uses them is
    parametric in the interfaces below, whose laws state the documented behaviour of the
    operations.  A heap of bounded FIFO queues, and a list of sent frames, are instances. *)

From stdpp Require Import base list gmap fin_maps.
From Stdlib Require Import Lia.
From S2P Require Import Prelude.

(** ** Polling *)

Inductive poll (A : Type) : Type :=
| Ready (a : A)
| Pending.
Arguments Ready {A} a.
Arguments Pending {A}.

(** ** Bounded multi-producer single-consumer channels

    [Ch] names a channel and [H] is the memory all channels of one message type live in;
    sender and receiver handles of a channel are its name.  The first four fields observe
    a channel: the messages sent and not yet received, its capacity, whether its receiver
    still exists, and whether some sender does. *)

Class Mpsc (Msg H Ch : Type) : Type := {
  queue : Ch → H → list Msg;
  capacity : Ch → H → nat;
  rx_open : Ch → H → bool;
  tx_open : Ch → H → bool;
  try_send : Ch → Msg → H → bool * H;
  poll_recv : Ch → H → poll (option Msg) * H;
  try_recv : Ch → H → option Msg * H;
}.

(** Whether [try_send] has somewhere to put a message. *)
Definition has_room `{Mpsc Msg H Ch} (c : Ch) (h : H) : bool :=
  rx_open c h && (length (queue c h) <? capacity c h).

(** An operation that moves messages leaves the ends of every channel as they were. *)
Definition same_ends `{Mpsc Msg H Ch} (h h' : H) : Prop :=
  ∀ c : Ch, capacity c h' = capacity c h ∧ rx_open c h' = rx_open c h ∧
            tx_open c h' = tx_open c h.

Class MpscLaws (Msg H Ch : Type) `{Mpsc Msg H Ch} : Prop := {
  (** [Sender::try_send] enqueues when there is room, *)
  try_send_ok (c : Ch) (m : Msg) (h : H) :
    has_room c h = true →
    (try_send c m h).1 = true ∧
    queue c (try_send c m h).2 = queue c h ++ [m];
  (** and fails without effect when the channel is full or its receiver is gone. *)
  try_send_err (c : Ch) (m : Msg) (h : H) :
    has_room c h = false → try_send c m h = (false, h);
  try_send_frame (c c' : Ch) (m : Msg) (h : H) :
    c ≠ c' → queue c' (try_send c m h).2 = queue c' h;
  try_send_ends (c : Ch) (m : Msg) (h : H) : same_ends h (try_send c m h).2;
  (** [Receiver::recv] yields the oldest message, *)
  poll_recv_msg (c : Ch) (h : H) m q :
    queue c h = m :: q →
    (poll_recv c h).1 = Ready (Some m) ∧ queue c (poll_recv c h).2 = q;
  (** [None] once every sender is gone and the queue is empty, and waits otherwise. *)
  poll_recv_closed (c : Ch) (h : H) :
    queue c h = [] → tx_open c h = false → poll_recv c h = (Ready None, h);
  poll_recv_empty (c : Ch) (h : H) :
    queue c h = [] → tx_open c h = true → poll_recv c h = (Pending, h);
  poll_recv_frame (c c' : Ch) (h : H) :
    c ≠ c' → queue c' (poll_recv c h).2 = queue c' h;
  poll_recv_ends (c : Ch) (h : H) : same_ends h (poll_recv c h).2;
  (** [Receiver::try_recv] is [recv] without the waiting. *)
  try_recv_msg (c : Ch) (h : H) m q :
    queue c h = m :: q →
    (try_recv c h).1 = Some m ∧ queue c (try_recv c h).2 = q;
  try_recv_empty (c : Ch) (h : H) :
    queue c h = [] → try_recv c h = (None, h);
  try_recv_frame (c c' : Ch) (h : H) :
    c ≠ c' → queue c' (try_recv c h).2 = queue c' h;
  try_recv_ends (c : Ch) (h : H) : same_ends h (try_recv c h).2;
}.

(** Messages are never lost or reordered by a receive. *)
Section MpscLemmas.
Context `{MpscLaws Msg H Ch} `{!EqDecision Ch}.
Implicit Types (c : Ch) (h : H) (m : Msg).

Lemma same_ends_refl h : same_ends h h.
Proof. done. Qed.

Lemma same_ends_trans h1 h2 h3 : same_ends h1 h2 → same_ends h2 h3 → same_ends h1 h3.
Proof.
  intros E1 E2 c. destruct (E1 c) as (?&?&?), (E2 c) as (?&?&?). split_and!; congruence.
Qed.

Lemma has_room_ends c h h' :
  same_ends h h' → queue c h' = queue c h → has_room c h' = has_room c h.
Proof. unfold has_room. intros Hs ->. by destruct (Hs c) as (->&->&_). Qed.

Lemma try_send_queue c m h c' :
  queue c' (try_send c m h).2 =
  if bool_decide (c' = c) && has_room c h then queue c h ++ [m] else queue c' h.
Proof using Type*.
  destruct (has_room c h) eqn:E.
  - rewrite andb_true_r. case_bool_decide; [subst; by apply try_send_ok|].
    by apply try_send_frame.
  - rewrite andb_false_r. by rewrite try_send_err.
Qed.

Lemma try_send_result c m h : (try_send c m h).1 = has_room c h.
Proof using Type*.
  destruct (has_room c h) eqn:E; [by apply try_send_ok|by rewrite try_send_err].
Qed.
(** A send to a channel with room. *)
Lemma send_room c frame (h : H) :
  has_room c h = true →
  queue c (try_send c frame h).2 = queue c h ++ [frame] ∧ length (queue c h) < capacity c h ∧
  (∀ c', c' ≠ c → queue c' (try_send c frame h).2 = queue c' h) ∧
  same_ends h (try_send c frame h).2.
Proof.
  intros Hr. split_and!.
  - by apply try_send_ok.
  - unfold has_room in Hr. by apply andb_true_iff in Hr as [_ Hr%Nat.ltb_lt].
  - intros. by apply try_send_frame.
  - apply try_send_ends.
Qed.
End MpscLemmas.

(** ** An instance: a heap of bounded queues *)

Record BoundedQueue (Msg : Type) : Type := mkQueue {
  bq_queue : list Msg;
  bq_capacity : nat;
  bq_rx : bool;
  bq_tx : bool;
}.
Arguments mkQueue {Msg}.
Arguments bq_queue {Msg}.
Arguments bq_capacity {Msg}.
Arguments bq_rx {Msg}.
Arguments bq_tx {Msg}.

Section BoundedQueues.
Context {Msg : Type}.
Abbreviation heap := (gmap nat (BoundedQueue Msg)).

(** A fresh, empty channel with both ends alive: [mpsc::channel(capacity)]. *)
Definition fresh_queue (cap : nat) : BoundedQueue Msg := mkQueue [] cap true true.

Definition bq_get (c : nat) (h : heap) : BoundedQueue Msg :=
  default (mkQueue [] 0 false false) (h !! c).

Definition bq_set (c : nat) (q : list Msg) (h : heap) : heap :=
  <[c := mkQueue q (bq_capacity (bq_get c h)) (bq_rx (bq_get c h)) (bq_tx (bq_get c h))]> h.

Definition bq_try_send (c : nat) (m : Msg) (h : heap) : bool * heap :=
  let b := bq_get c h in
  if bq_rx b && (length (bq_queue b) <? bq_capacity b)
  then (true, bq_set c (bq_queue b ++ [m]) h) else (false, h).

Definition bq_poll_recv (c : nat) (h : heap) : poll (option Msg) * heap :=
  match bq_queue (bq_get c h) with
  | m :: q => (Ready (Some m), bq_set c q h)
  | [] => if bq_tx (bq_get c h) then (Pending, h) else (Ready None, h)
  end.

Definition bq_try_recv (c : nat) (h : heap) : option Msg * heap :=
  match bq_queue (bq_get c h) with
  | m :: q => (Some m, bq_set c q h)
  | [] => (None, h)
  end.

#[export] Instance bounded_queue_mpsc : Mpsc Msg heap nat := {
  queue c h := bq_queue (bq_get c h);
  capacity c h := bq_capacity (bq_get c h);
  rx_open c h := bq_rx (bq_get c h);
  tx_open c h := bq_tx (bq_get c h);
  try_send := bq_try_send;
  poll_recv := bq_poll_recv;
  try_recv := bq_try_recv;
}.

Lemma bq_get_set c c' q h :
  bq_get c' (bq_set c q h) =
  if decide (c' = c)
  then mkQueue q (bq_capacity (bq_get c h)) (bq_rx (bq_get c h)) (bq_tx (bq_get c h))
  else bq_get c' h.
Proof.
  unfold bq_set, bq_get. case_decide; subst; by rewrite ?lookup_insert_eq, ?lookup_insert_ne.
Qed.

Lemma bq_set_ends c q h : same_ends h (bq_set c q h).
Proof.
  intros c'. cbn. rewrite bq_get_set. case_decide; subst; done.
Qed.

#[export] Instance bounded_queue_laws : MpscLaws Msg heap nat.
Proof.
  split; cbn; unfold bq_try_send, bq_poll_recv, bq_try_recv, has_room; cbn; intros.
  - rewrite H; simpl. by rewrite bq_get_set, decide_True.
  - by rewrite H.
  - case_match; simpl; [|done]. by rewrite bq_get_set, decide_False.
  - case_match; simpl; [apply bq_set_ends|done].
  - rewrite H; simpl. by rewrite bq_get_set, decide_True.
  - by rewrite H, H0.
  - by rewrite H, H0.
  - repeat case_match; simpl; try done. by rewrite bq_get_set, decide_False.
  - repeat case_match; simpl; try done. apply bq_set_ends.
  - rewrite H; simpl. by rewrite bq_get_set, decide_True.
  - by rewrite H.
  - case_match; simpl; [done|]. by rewrite bq_get_set, decide_False.
  - case_match; simpl; [done|]. apply bq_set_ends.
Qed.
End BoundedQueues.
