(* ===== verification/Float.v ===== *)
(** * Binary64 arithmetic

    The rate limiter computes in [f64].  The model uses the Standard Library's executable
    specification of IEEE 754 arithmetic at precision 53 and exponent bound 1024, with the
    conversions and the [min] of Rust.  The lemmas show that the arithmetic is exact on the
    integers below 2^53, which is where the limiter's token counts live. *)

From stdpp Require Import base numbers.
From Stdlib Require Import ZArith Lia SpecFloat.
From S2P Require Import Prelude.

Local Open Scope Z_scope.

Definition f64 : Type := spec_float.
Definition f64_prec : Z := 53.
Definition f64_emax : Z := 1024.

Definition f64_add : f64 → f64 → f64 := SFadd f64_prec f64_emax.
Definition f64_sub : f64 → f64 → f64 := SFsub f64_prec f64_emax.
Definition f64_mul : f64 → f64 → f64 := SFmul f64_prec f64_emax.
Definition f64_div : f64 → f64 → f64 := SFdiv f64_prec f64_emax.

(** [u64 as f64]: rounds to nearest, ties to even. *)
Definition f64_of_u64 (n : Z) : f64 := binary_normalize f64_prec f64_emax n 0 false.

(** [f64::min]: a NaN operand is ignored. *)
Definition f64_min (a b : f64) : f64 :=
  match a, b with
  | S754_nan, _ => b
  | _, S754_nan => a
  | _, _ => if SFltb b a then b else a
  end.

Definition i64_max : Z := 2 ^ 63 - 1.
Definition i64_min : Z := - 2 ^ 63.

(** The integer part of a finite magnitude [m * 2^e]. *)
Definition trunc_magnitude (m : positive) (e : Z) : Z :=
  if 0 <=? e then Z.shiftl (Zpos m) e else Z.shiftr (Zpos m) (- e).

(** [f64 as i64]: truncates toward zero and saturates; NaN becomes 0. *)
Definition f64_to_i64 (x : f64) : Z :=
  match x with
  | S754_nan | S754_zero _ => 0
  | S754_infinity s => if s then i64_min else i64_max
  | S754_finite s m e =>
      if s then Z.max (- trunc_magnitude m e) i64_min else Z.min (trunc_magnitude m e) i64_max
  end.

Definition NANOS_PER_SEC : Z := 1000000000.

(** [Duration::as_secs_f64] of a duration in nanoseconds. *)
Definition as_secs_f64 (nanos : Z) : f64 :=
  f64_add (f64_of_u64 (nanos / NANOS_PER_SEC))
          (f64_div (f64_of_u64 (nanos mod NANOS_PER_SEC)) (f64_of_u64 NANOS_PER_SEC)).

(** ** Shifting mantissas *)

(** [m] shifted left by [n] bits. *)
Definition shlp (m : positive) (n : nat) : positive := Nat.iter n xO m.

Lemma shlp_iter m d : Pos.iter xO m d = shlp m (Pos.to_nat d).
Proof. apply Pos2Nat.inj_iter. Qed.

Lemma shlp_add m a b : shlp m (a + b) = shlp (shlp m b) a.
Proof. unfold shlp. by rewrite Nat.iter_add. Qed.

Lemma shlp_value m n : Zpos (shlp m n) = Zpos m * 2 ^ Z.of_nat n.
Proof.
  induction n as [|n IH]; [simpl; lia|].
  change (Zpos (shlp m (S n))) with (2 * Zpos (shlp m n)). rewrite IH.
  rewrite Nat2Z.inj_succ, Z.pow_succ_r by lia. ring.
Qed.

Lemma digits2_shlp m n :
  Zpos (digits2_pos (shlp m n)) = Zpos (digits2_pos m) + Z.of_nat n.
Proof.
  induction n as [|n IH]; [simpl; lia|].
  change (digits2_pos (shlp m (S n))) with (Pos.succ (digits2_pos (shlp m n))).
  rewrite Pos2Z.inj_succ, IH. lia.
Qed.

Lemma digits2_lower m : 2 ^ (Zpos (digits2_pos m) - 1) <= Zpos m.
Proof.
  induction m as [m IH|m IH|]; [| |done];
  change (digits2_pos _) with (Pos.succ (digits2_pos m)); rewrite Pos2Z.inj_succ.
  all: replace (Z.succ (Zpos (digits2_pos m)) - 1) with (Z.succ (Zpos (digits2_pos m) - 1)) by lia.
  all: rewrite Z.pow_succ_r by lia; lia.
Qed.

Lemma digits2_le_53 m : Zpos m < 2 ^ 53 → Zpos (digits2_pos m) <= 53.
Proof.
  intros Hm. pose proof (digits2_lower m) as Hl.
  destruct (Z_lt_le_dec 53 (Zpos (digits2_pos m))); [|done].
  assert (2 ^ 53 <= 2 ^ (Zpos (digits2_pos m) - 1)) by (apply Z.pow_le_mono_r; lia). lia.
Qed.

(** Shifting out zero bits is exact. *)
Lemma iter_shr_1_exact m p n :
  iter_pos shr_1 p (Build_shr_record (Zpos (shlp m (Pos.to_nat p + n))) false false)
  = Build_shr_record (Zpos (shlp m n)) false false.
Proof.
  revert n. induction p as [p IH|p IH|]; intros n; cbn [iter_pos].
  - rewrite Pos2Nat.inj_xI.
    change (Zpos (shlp m (S (2 * Pos.to_nat p) + n)))
      with (Zpos (xO (shlp m (2 * Pos.to_nat p + n)))). cbn [shr_1 orb].
    replace (2 * Pos.to_nat p + n)%nat
      with (Pos.to_nat p + (Pos.to_nat p + n))%nat by lia.
    by rewrite !IH.
  - rewrite Pos2Nat.inj_xO.
    replace (2 * Pos.to_nat p + n)%nat with (Pos.to_nat p + (Pos.to_nat p + n))%nat by lia.
    by rewrite !IH.
  - done.
Qed.

(** ** Exactness on small integers *)

(** A positive integer with at most 53 bits, in canonical form. *)
Definition f64_small (m : positive) : f64 :=
  S754_finite false (shlp m (Z.to_nat (53 - Zpos (digits2_pos m))))
    (Zpos (digits2_pos m) - 53).

Lemma shr_fexp_id m e :
  fexp f64_prec f64_emax (Zpos (digits2_pos m) + e) = e →
  shr_fexp f64_prec f64_emax (Zpos m) e loc_Exact = (Build_shr_record (Zpos m) false false, e).
Proof.
  intros He. unfold shr_fexp, Zdigits2. rewrite He, Z.sub_diag. done.
Qed.

Lemma fexp_53 d : 1 <= d → fexp f64_prec f64_emax d = d - 53.
Proof. intros. unfold fexp, emin, f64_prec, f64_emax. lia. Qed.

(** Rounding a value that has a canonical form of exponent [d - 53] is exact. *)
Lemma round_aux_canonical m :
  Zpos (digits2_pos m) <= 53 →
  binary_round_aux f64_prec f64_emax false
    (Zpos (shlp m (Z.to_nat (53 - Zpos (digits2_pos m))))) (Zpos (digits2_pos m) - 53) loc_Exact
  = f64_small m.
Proof.
  intros Hd. set (n := Z.to_nat (53 - Zpos (digits2_pos m))).
  assert (fexp f64_prec f64_emax
            (Zpos (digits2_pos (shlp m n)) + (Zpos (digits2_pos m) - 53))
          = Zpos (digits2_pos m) - 53) as Hf.
  { rewrite digits2_shlp. rewrite fexp_53; lia. }
  unfold binary_round_aux. rewrite (shr_fexp_id _ _ Hf); simpl.
  rewrite (shr_fexp_id _ _ Hf); simpl.
  rewrite (proj2 (Z.leb_le _ _)); [done|]. unfold f64_emax, f64_prec. lia.
Qed.

(** Normalising [m * 2^j * 2^-j] gives back [m]. *)
Lemma binary_round_shlp m j :
  Zpos (digits2_pos m) <= 53 →
  binary_round f64_prec f64_emax false (shlp m j) (- Z.of_nat j) = f64_small m.
Proof.
  intros Hd. unfold binary_round. rewrite digits2_shlp.
  replace (Zpos (digits2_pos m) + Z.of_nat j + - Z.of_nat j) with (Zpos (digits2_pos m)) by lia.
  rewrite fexp_53 by lia. unfold shl_align.
  set (d := Zpos (digits2_pos m)) in *.
  destruct (d - 53 - - Z.of_nat j) as [|p|p] eqn:E.
  - replace (- Z.of_nat j) with (d - 53) by lia.
    replace j with (Z.to_nat (53 - d)) by lia. by apply round_aux_canonical.
  - unfold binary_round_aux. unfold shr_fexp at 1. unfold Zdigits2. rewrite digits2_shlp.
    fold d. replace (d + Z.of_nat j + - Z.of_nat j) with d by lia. rewrite fexp_53 by lia.
    rewrite E. unfold shr, shr_record_of_loc.
    assert (shlp m j = shlp m (Pos.to_nat p + Z.to_nat (53 - d))) as -> by (f_equal; lia).
    rewrite iter_shr_1_exact.
    replace (- Z.of_nat j + Zpos p) with (d - 53) by lia.
    pose proof (round_aux_canonical m Hd) as Hr. unfold binary_round_aux in Hr. fold d in Hr.
    assert (fexp f64_prec f64_emax
              (Zpos (digits2_pos (shlp m (Z.to_nat (53 - d)))) + (d - 53)) = d - 53) as Hf.
    { rewrite digits2_shlp. fold d. rewrite fexp_53; lia. }
    rewrite (shr_fexp_id _ _ Hf) in Hr. exact Hr.
  - rewrite shlp_iter, <- shlp_add.
    replace (Pos.to_nat p + j)%nat with (Z.to_nat (53 - d)) by lia.
    by apply round_aux_canonical.
Qed.

Lemma f64_of_u64_small n :
  0 < n < 2 ^ 53 → f64_of_u64 n = f64_small (Z.to_pos n).
Proof.
  intros Hn. destruct n as [|p|p]; try lia. unfold f64_of_u64; simpl.
  apply (binary_round_shlp p 0). apply digits2_le_53; lia.
Qed.

(** Aligning a small integer to the exponent -52 of 1.0. *)
Lemma shl_align_small m :
  Zpos (digits2_pos m) <= 53 →
  (shl_align (shlp m (Z.to_nat (53 - Zpos (digits2_pos m)))) (Zpos (digits2_pos m) - 53) (-52)).1
  = shlp m 52.
Proof.
  intros Hd. unfold shl_align. set (d := Zpos (digits2_pos m)) in *.
  assert (1 <= d) by lia.
  destruct (-52 - (d - 53)) as [|p|p] eqn:E; cbn [fst].
  - f_equal. lia.
  - lia.
  - rewrite shlp_iter, <- shlp_add. f_equal. lia.
Qed.

(** Taking one token is exact. *)
Lemma f64_sub_one n :
  1 <= n < 2 ^ 53 → f64_sub (f64_of_u64 n) (f64_of_u64 1) = f64_of_u64 (n - 1).
Proof.
  intros Hn. rewrite !f64_of_u64_small by lia.
  pose proof (digits2_le_53 (Z.to_pos n)) as Hd. rewrite Z2Pos.id in Hd by lia.
  specialize (Hd ltac:(lia)).
  unfold f64_sub, SFsub, f64_small at 1. unfold f64_small at 1.
  change (Zpos (digits2_pos (Z.to_pos 1)) - 53) with (-52).
  rewrite Z.min_r by lia. rewrite shl_align_small by done.
  change (shl_align _ (-52) (-52)).1 with (shlp 1 52).
  unfold cond_Zopp. rewrite !shlp_value, Z2Pos.id by lia.
  destruct (decide (n = 1)) as [->|]; [done|].
  replace (n * 2 ^ Z.of_nat 52 - 1 * 2 ^ Z.of_nat 52) with (Zpos (shlp (Z.to_pos (n - 1)) 52))
    by (rewrite shlp_value, Z2Pos.id by lia; ring).
  unfold binary_normalize. change (-52) with (- Z.of_nat 52).
  rewrite binary_round_shlp.
  - rewrite f64_of_u64_small by lia. done.
  - apply digits2_le_53. rewrite Z2Pos.id; lia.
Qed.

Lemma trunc_small m :
  Zpos (digits2_pos m) <= 53 →
  trunc_magnitude (shlp m (Z.to_nat (53 - Zpos (digits2_pos m)))) (Zpos (digits2_pos m) - 53)
  = Zpos m.
Proof.
  intros Hd. unfold trunc_magnitude. set (d := Zpos (digits2_pos m)) in *.
  case_match eqn:E.
  - apply Z.leb_le in E. replace d with 53 by lia. simpl. by rewrite Z.shiftl_0_r.
  - apply Z.leb_gt in E. rewrite Z.shiftr_div_pow2 by lia.
    rewrite shlp_value. rewrite Z2Nat.id by lia.
    replace (- (d - 53)) with (53 - d) by lia. apply Z.div_mul. lia.
Qed.

(** Reading a small integer back is exact. *)
Lemma f64_to_i64_small n : 0 <= n < 2 ^ 53 → f64_to_i64 (f64_of_u64 n) = n.
Proof.
  intros Hn. destruct (decide (n = 0)) as [->|]; [done|].
  rewrite f64_of_u64_small by lia. unfold f64_to_i64, f64_small.
  rewrite trunc_small.
  - rewrite Z2Pos.id by lia. unfold i64_max. lia.
  - apply digits2_le_53. rewrite Z2Pos.id; lia.
Qed.

(** A positive integer is at least 1.0, and 0 is not. *)
Lemma f64_one_le n : 1 <= n < 2 ^ 53 → SFleb (f64_of_u64 1) (f64_of_u64 n) = true.
Proof.
  intros Hn. rewrite !f64_of_u64_small by lia. unfold SFleb, SFcompare, f64_small.
  set (m := Z.to_pos n). assert (Zpos m = n) as Hm by (unfold m; rewrite Z2Pos.id; lia).
  change (Zpos (digits2_pos (Z.to_pos 1)) - 53) with (-52).
  destruct (Z.compare_spec (-52) (Zpos (digits2_pos m) - 53)) as [E|E|E]; [|done|lia].
  assert (Zpos (digits2_pos m) = 1) as Hd by lia.
  assert (m = 1%positive) as ->; [|done].
  destruct m as [m|m|]; simpl in Hd; [..|done];
    rewrite Pos2Z.inj_succ in Hd; lia.
Qed.

Lemma f64_of_u64_nonzero n : 0 < n < 2 ^ 53 → SFeqb (f64_of_u64 n) (S754_zero false) = false.
Proof. intros. rewrite f64_of_u64_small by lia. done. Qed.

Lemma SFltb_irrefl x : SFltb x x = false.
Proof.
  unfold SFltb, SFcompare. destruct x as [[]|[]| |[] m e]; try done;
  rewrite Z.compare_refl; change (Pos.compare_cont Eq m m) with (Pos.compare m m);
  by rewrite Pos.compare_refl.
Qed.

(** ** Order on small integers *)

Lemma digits2_upper m : Zpos m < 2 ^ Zpos (digits2_pos m).
Proof.
  induction m as [m IH|m IH|]; [| |done];
  change (digits2_pos _) with (Pos.succ (digits2_pos m)); rewrite Pos2Z.inj_succ;
  rewrite Z.pow_succ_r by lia; lia.
Qed.

Lemma digits2_mono m n : (m <= n)%positive → Zpos (digits2_pos m) <= Zpos (digits2_pos n).
Proof.
  intros Hmn. pose proof (digits2_lower m). pose proof (digits2_upper n).
  destruct (Z_le_gt_dec (Zpos (digits2_pos m)) (Zpos (digits2_pos n))); [done|].
  assert (2 ^ Zpos (digits2_pos n) <= 2 ^ (Zpos (digits2_pos m) - 1))
    by (apply Z.pow_le_mono_r; lia). lia.
Qed.

Lemma f64_small_order n b :
  0 <= n <= b → b < 2 ^ 53 → SFltb (f64_of_u64 b) (f64_of_u64 n) = false.
Proof.
  intros Hn Hb. destruct (decide (n = 0)) as [->|].
  { destruct (decide (b = 0)) as [->|]; [done|]. by rewrite f64_of_u64_small by lia. }
  rewrite !f64_of_u64_small by lia. unfold SFltb, SFcompare, f64_small.
  set (p := Z.to_pos n). set (q := Z.to_pos b).
  assert (Zpos p = n) as Hp by (unfold p; rewrite Z2Pos.id; lia).
  assert (Zpos q = b) as Hq by (unfold q; rewrite Z2Pos.id; lia).
  pose proof (digits2_mono p q ltac:(lia)).
  destruct (Z.compare_spec (Zpos (digits2_pos q) - 53) (Zpos (digits2_pos p) - 53)) as [E|E|E];
    [|lia|done].
  change (Pos.compare_cont Eq ?x ?y) with (Pos.compare x y).
  destruct (Pos.compare_spec (shlp q (Z.to_nat (53 - Zpos (digits2_pos q))))
              (shlp p (Z.to_nat (53 - Zpos (digits2_pos p))))) as [|F|]; [done| |done].
  apply Pos2Z.pos_lt_pos in F. rewrite !shlp_value in F.
  replace (Zpos (digits2_pos q)) with (Zpos (digits2_pos p)) in F by lia. nia.
Qed.

(** ** Signs *)

(** Neither NaN nor below zero. *)
Definition f64_nonneg (x : f64) : bool :=
  match x with
  | S754_zero _ | S754_infinity false | S754_finite false _ _ => true
  | _ => false
  end.

Lemma iter_shr_1_nonneg p r : 0 <= shr_m r → 0 <= shr_m (iter_pos shr_1 p r).
Proof.
  assert (∀ r, 0 <= shr_m r → 0 <= shr_m (shr_1 r)) as H1.
  { intros [m r' s]; simpl. destruct m as [|[]|]; simpl; lia. }
  revert r. induction p; simpl; auto.
Qed.

Lemma shr_fexp_nonneg m e l :
  0 <= m → 0 <= shr_m (shr_fexp f64_prec f64_emax m e l).1.
Proof.
  intros Hm. unfold shr_fexp, shr.
  assert (0 <= shr_m (shr_record_of_loc m l)) by (by destruct l as [|[]]).
  case_match; simpl; auto using iter_shr_1_nonneg.
Qed.

Lemma round_nearest_even_nonneg m l : 0 <= m → 0 <= round_nearest_even m l.
Proof. intros. unfold round_nearest_even. repeat case_match; lia. Qed.

Lemma binary_round_aux_nonneg m e l :
  0 <= m → f64_nonneg (binary_round_aux f64_prec f64_emax false m e l) = true.
Proof.
  intros Hm. unfold binary_round_aux.
  pose proof (shr_fexp_nonneg m e l Hm) as H1.
  destruct (shr_fexp _ _ m e l) as [r1 e1]; simpl in H1.
  pose proof (shr_fexp_nonneg _ e1 loc_Exact
    (round_nearest_even_nonneg _ (loc_of_shr_record r1) H1)) as H2.
  destruct (shr_fexp _ _ _ e1 loc_Exact) as [r2 e2]; simpl in H2.
  destruct (shr_m r2); [done| |lia]. by case_match.
Qed.

Lemma f64_of_u64_nonneg n : 0 <= n → f64_nonneg (f64_of_u64 n) = true.
Proof.
  intros Hn. unfold f64_of_u64, binary_normalize. destruct n; [done| |lia].
  unfold binary_round. case_match. by apply binary_round_aux_nonneg.
Qed.

(** A number that is not negative and not above zero is a zero. *)
Lemma f64_nonneg_not_pos x :
  f64_nonneg x = true → SFltb (S754_zero false) x = false → SFeqb x (S754_zero false) = true.
Proof. by destruct x as [[]|[]| |[] m e]. Qed.
