(* ===== verification/FloatError.v ===== *)
(** * Rounding errors of binary64 arithmetic

    What the operations of [Float] compute, as rational numbers: sum, product, quotient and
    conversion of non-negative floats are within a relative error of 2^-52 and an absolute one
    of 2^-1074 of the exact result, and comparing floats compares their values.  [RateBound]
    follows the token buckets with these bounds. *)

From stdpp Require Import base numbers.
From Stdlib Require Import ZArith QArith Qpower Lqa Lia SpecFloat.
From S2P Require Import Prelude Float.

Local Open Scope Z_scope.

(** ** Powers of two *)

Definition bpow (e : Z) : Q := Qpower (2 # 1) e.

Lemma bpow_pos e : (0 < bpow e)%Q.
Proof. by apply Qpower_0_lt. Qed.

Lemma bpow_add a b : (bpow (a + b) == bpow a * bpow b)%Q.
Proof. apply Qpower_plus. done. Qed.

Lemma bpow_le a b : a <= b → (bpow a <= bpow b)%Q.
Proof. intros. by apply Qpower_le_compat_l. Qed.

Lemma bpow_Z e : 0 <= e → (bpow e == inject_Z (2 ^ e))%Q.
Proof. intros. unfold bpow. rewrite Zpower_Qpower by done. reflexivity. Qed.

Lemma bpow_split a b : (bpow a == bpow b * bpow (a - b))%Q.
Proof. rewrite <- bpow_add. by replace (b + (a - b)) with a by lia. Qed.

(** ** Values *)

(** The value of a finite float that is not negative. *)
Definition fval (x : f64) : Q :=
  match x with S754_finite false m e => (inject_Z (Zpos m) * bpow e)%Q | _ => 0%Q end.

(** Finite, not negative, and in canonical form. *)
Definition f64_ok (x : f64) : bool :=
  match x with
  | S754_zero _ => true
  | S754_finite false m e => bounded f64_prec f64_emax m e
  | _ => false
  end.

Lemma fval_nonneg x : (0 <= fval x)%Q.
Proof.
  destruct x as [| | |[] m e]; cbn; try apply Qle_refl.
  apply Qmult_le_0_compat; [|apply Qlt_le_weak, bpow_pos].
  rewrite <- (Zle_Qle 0). lia.
Qed.

(** ** Shifting *)

(** [x] is what the record stands for, in units of its last place. *)
Definition enc (r : shr_record) (x : Q) : Prop :=
  (inject_Z (shr_m r) <= x <= inject_Z (shr_m r) + 1)%Q ∧
  (shr_r r = false → shr_s r = false → (x == inject_Z (shr_m r))%Q).

Lemma shr_1_m r : 0 <= shr_m r → shr_m (shr_1 r) = shr_m r / 2.
Proof.
  destruct r as [[|[p|p|]|p] rb s]; cbn [shr_1 shr_m]; intros; try done; try lia.
  - rewrite Pos2Z.inj_xI. apply Z.div_unique with 1; lia.
  - rewrite Pos2Z.inj_xO. apply Z.div_unique with 0; lia.
Qed.

Lemma shr_1_enc r x : 0 <= shr_m r → enc r x → enc (shr_1 r) (x * (1 # 2)).
Proof.
  destruct r as [m rb s]. unfold enc. cbn [shr_m shr_r shr_s]. intros Hm [Hx He].
  assert (∀ p, inject_Z (Zpos p~0) == 2 * inject_Z (Zpos p))%Q as H0.
  { intros p. change 2%Q with (inject_Z 2). by rewrite <- inject_Z_mult. }
  assert (∀ p, inject_Z (Zpos p~1) == 2 * inject_Z (Zpos p) + 1)%Q as H1.
  { intros p. change 2%Q with (inject_Z 2). change 1%Q with (inject_Z 1).
    by rewrite <- inject_Z_mult, <- inject_Z_plus. }
  destruct m as [|[p|p|]|p]; [| | | |lia]; cbn [shr_1 shr_m shr_r shr_s];
    rewrite ?H0, ?H1 in *; change (inject_Z 0) with 0%Q in *; change (inject_Z 1) with 1%Q in *.
  all: split; [split; lra|]; intros; try done.
  all: destruct rb, s; cbn in *; try done; specialize (He eq_refl eq_refl); lra.
Qed.

Lemma iter_shr_m p r :
  0 <= shr_m r → shr_m (iter_pos shr_1 p r) = shr_m r / 2 ^ Zpos p.
Proof.
  assert (∀ a b, 0 <= a → 0 <= b → 2 ^ a * 2 ^ b = 2 ^ (a + b)) as Hp
    by (intros; by rewrite Z.pow_add_r).
  revert r. induction p as [p IH|p IH|]; intros r Hr; cbn [iter_pos].
  - pose proof (iter_shr_1_nonneg p (shr_1 r)) as Hn. rewrite shr_1_m in Hn by done.
    assert (0 <= shr_m r / 2) by (apply Z.div_pos; lia). rewrite !IH by (rewrite ?shr_1_m; auto).
    rewrite shr_1_m, !Z.div_div, Hp by lia. f_equal.
    rewrite <- (Z.pow_1_r 2) at 1. rewrite Hp by lia. f_equal. lia.
  - pose proof (iter_shr_1_nonneg p r Hr) as Hn. rewrite !IH by auto.
    rewrite Z.div_div, Hp by lia. f_equal. f_equal. lia.
  - by rewrite shr_1_m.
Qed.

Lemma enc_proper r x y : (x == y)%Q → enc r x → enc r y.
Proof. intros E [Hx He]. split; [lra|]. intros. rewrite <- E. auto. Qed.

Lemma iter_shr_enc p r x :
  0 <= shr_m r → enc r x → enc (iter_pos shr_1 p r) (x * bpow (- Zpos p)).
Proof.
  revert r x. induction p as [p IH|p IH|]; intros r x Hr Hx; cbn [iter_pos].
  - assert (0 <= shr_m (shr_1 r)) as H1 by (rewrite shr_1_m by done; apply Z.div_pos; lia).
    apply (enc_proper _ (x * (1 # 2) * bpow (- Zpos p) * bpow (- Zpos p))%Q);
      [|by apply IH, IH, shr_1_enc; auto using iter_shr_1_nonneg].
    replace (- Zpos p~1) with (-1 + (- Zpos p + - Zpos p)) by lia. rewrite !bpow_add.
    change (bpow (-1)) with (1 # 2)%Q. ring.
  - apply (enc_proper _ (x * bpow (- Zpos p) * bpow (- Zpos p))%Q);
      [|by apply IH, IH; auto using iter_shr_1_nonneg].
    replace (- Zpos p~0) with (- Zpos p + - Zpos p) by lia. rewrite bpow_add. ring.
  - by apply shr_1_enc.
Qed.

(** ** Rounding *)

(** [y] is within a unit in the last place of [x], or one of the smallest unit. *)
Definition near (x y : Q) : Prop :=
  (x - (bpow (-52) * x + bpow (-1074)) <= y <= x + (bpow (-52) * x + bpow (-1074)))%Q.

Local Abbreviation fexp64 := (fexp f64_prec f64_emax).

Lemma fexp64_eq d : fexp64 d = Z.max (d - 53) (-1074).
Proof. reflexivity. Qed.

Lemma bounded_spec m e :
  bounded f64_prec f64_emax m e = true ↔
  Z.max (Zpos (digits2_pos m) + e - 53) (-1074) = e ∧ e <= 971.
Proof.
  unfold bounded, canonical_mantissa. rewrite andb_true_iff, Z.eqb_eq, Z.leb_le. done.
Qed.

(** The mantissa and exponent after the first shift. *)
Lemma shr_fexp_spec m e l x :
  0 < m → enc (shr_record_of_loc m l) x → e <= fexp64 (Zdigits2 m + e) →
  let E := fexp64 (Zdigits2 m + e) in
  ∃ r, shr_fexp f64_prec f64_emax m e l = (r, E) ∧ enc r (x * bpow (e - E)) ∧
       shr_m r = m / 2 ^ (E - e).
Proof.
  intros Hm Hx He E. unfold shr_fexp, shr.
  assert (shr_m (shr_record_of_loc m l) = m) as Hsm by (by destruct l as [|[]]).
  fold E. destruct (E - e) as [|p|p] eqn:En; [| |lia].
  - eexists. split; [f_equal; lia|]. rewrite Hsm, Z.pow_0_r, Z.div_1_r. split; [|done].
    eapply enc_proper, Hx. replace (e - E) with 0 by lia. change (bpow 0) with 1%Q. ring.
  - eexists. split; [f_equal; lia|]. rewrite iter_shr_m, Hsm by (rewrite Hsm; lia). split; [|done].
    replace (e - E) with (- Zpos p) by lia. apply iter_shr_enc; [rewrite Hsm; lia|done].
Qed.

Lemma rne_near r x :
  enc r x →
  let M := round_nearest_even (shr_m r) (loc_of_shr_record r) in
  shr_m r <= M <= shr_m r + 1 ∧ (x - 1 <= inject_Z M <= x + 1)%Q.
Proof.
  intros [Hx He]. destruct r as [m rb s]; cbn [shr_m shr_r shr_s] in *.
  assert (inject_Z (m + 1) == inject_Z m + 1)%Q as Hp by (by rewrite inject_Z_plus).
  destruct rb, s; cbn [loc_of_shr_record round_nearest_even]; try case_match;
    (split; [lia|]); rewrite ?Hp; lra.
Qed.

Lemma digits2_unique m k : 2 ^ (k - 1) <= Zpos m < 2 ^ k → 0 < k → Zpos (digits2_pos m) = k.
Proof.
  intros [Hl Hu] Hk. pose proof (digits2_lower m). pose proof (digits2_upper m).
  destruct (Z.lt_trichotomy (Zpos (digits2_pos m)) k) as [H1|[H1|H1]]; [|done|].
  - assert (2 ^ Zpos (digits2_pos m) <= 2 ^ (k - 1)) by (apply Z.pow_le_mono_r; lia). lia.
  - assert (2 ^ k <= 2 ^ (Zpos (digits2_pos m) - 1)) by (apply Z.pow_le_mono_r; lia). lia.
Qed.

(** The second shift of [binary_round_aux], of a mantissa of at most 53 bits, keeps the value
    and makes it canonical. *)
Lemma round_finish M E :
  0 <= M <= 2 ^ 53 → -1074 <= E <= 970 → (E = -1074 ∨ 2 ^ 52 <= M) →
  let '(r, e2) := shr_fexp f64_prec f64_emax M E loc_Exact in
  let y := match shr_m r with
           | Z0 => S754_zero false
           | Zpos m => if e2 <=? f64_emax - f64_prec then S754_finite false m e2
                       else S754_infinity false
           | _ => S754_nan
           end in
  f64_ok y = true ∧ (fval y == inject_Z M * bpow E)%Q.
Proof.
  intros HM HE Hc. unfold shr_fexp, shr, shr_record_of_loc. rewrite fexp64_eq.
  destruct (Z.eq_dec M (2 ^ 53)) as [->|Hne].
  { change (Zdigits2 (2 ^ 53)) with 54. replace (Z.max _ _ - E) with 1 by lia.
    change (iter_pos shr_1 1 _) with (Build_shr_record (2 ^ 52) false false). cbn [shr_m].
    change (2 ^ 52) with (Zpos (2 ^ 52)). cbv iota. unfold f64_emax, f64_prec.
    rewrite (proj2 (Z.leb_le _ _)) by lia. unfold f64_ok, fval. split.
    - apply bounded_spec. change (Zpos (digits2_pos _)) with 53. lia.
    - rewrite bpow_add. change (bpow 1) with (inject_Z 2).
      rewrite (Qmult_comm (bpow E)), Qmult_assoc, <- inject_Z_mult. done. }
  destruct M as [|m|m]; [| |lia].
  - cbn [Zdigits2]. destruct (Z.max _ _ - E) eqn:D; cbn [shr_m f64_ok fval];
      [split; [done|]; symmetry; apply Qmult_0_l|lia|split; [done|]; symmetry; apply Qmult_0_l].
  - cbn [Zdigits2]. pose proof (digits2_le_53 m ltac:(lia)) as Hd.
    assert (Z.max (Zpos (digits2_pos m) + E - 53) (-1074) = E) as Hx.
    { destruct Hc as [->|Hc]; [lia|]. rewrite (digits2_unique m 53) by lia. lia. }
    rewrite Hx, Z.sub_diag. cbn [shr_m]. unfold f64_emax, f64_prec.
    rewrite (proj2 (Z.leb_le _ _)) by lia. cbn [f64_ok fval]. split; [|done].
    apply bounded_spec. lia.
Qed.

(** One unit of the exponent that is chosen is small against the number. *)
Lemma unit_small m e x :
  0 < m → (inject_Z m <= x)%Q →
  (bpow (fexp64 (Zdigits2 m + e)) <= bpow (-52) * (x * bpow e) + bpow (-1074))%Q.
Proof.
  intros Hm Hx. destruct m as [|m|m]; try lia. cbn [Zdigits2]. rewrite fexp64_eq.
  pose proof (bpow_pos (-1074)) as Hp. pose proof (bpow_pos (-52)) as Hq. pose proof (bpow_pos e) as Hr.
  assert (bpow (Zpos (digits2_pos m) + e - 53) <= bpow (-52) * (x * bpow e))%Q as Hd.
  { replace (Zpos (digits2_pos m) + e - 53) with (-52 + (Zpos (digits2_pos m) - 1 + e)) by lia.
    rewrite !bpow_add. apply Qmult_le_l; [done|]. apply Qmult_le_r; [done|].
    rewrite bpow_Z by lia. eapply Qle_trans, Hx. rewrite <- Zle_Qle. apply digits2_lower. }
  destruct (Z.max_spec (Zpos (digits2_pos m) + e - 53) (-1074)) as [[_ ->]|[_ ->]].
  - pose proof (bpow_pos (Zpos (digits2_pos m) + e - 53)). lra.
  - lra.
Qed.

Lemma div_pow2_bounds m d n :
  2 ^ (d - 1) <= m < 2 ^ d → 0 <= n → (d - 1 < n ∨ 2 ^ (d - 1 - n) <= m / 2 ^ n) ∧
  (n <= d → m / 2 ^ n < 2 ^ (d - n)).
Proof.
  intros Hm Hn. assert (0 < 2 ^ n) by (apply Z.pow_pos_nonneg; lia). split.
  - destruct (Z_lt_le_dec (d - 1) n); [by left|right]. apply Z.div_le_lower_bound; [done|].
    rewrite <- Z.pow_add_r by lia. replace (n + (d - 1 - n)) with (d - 1) by lia. lia.
  - intros. apply Z.div_lt_upper_bound; [done|]. rewrite <- Z.pow_add_r by lia.
    replace (n + (d - n)) with d by lia. lia.
Qed.

(** Rounding a mantissa with at least as many bits as the format keeps. *)
Lemma round_aux_near m e l x :
  0 < m → enc (shr_record_of_loc m l) x → e <= fexp64 (Zdigits2 m + e) → Zdigits2 m + e <= 1000 →
  let y := binary_round_aux f64_prec f64_emax false m e l in
  f64_ok y = true ∧ near (x * bpow e) (fval y).
Proof.
  intros Hm Hx He Hmax. unfold binary_round_aux.
  destruct (shr_fexp_spec m e l x Hm Hx He) as (r & -> & Hr & Hrm).
  pose proof (unit_small m e x Hm) as Hu. pose proof (fexp64_eq (Zdigits2 m + e)) as HEq.
  set (E := fexp64 (Zdigits2 m + e)) in *. clearbody E.
  destruct (rne_near r _ Hr) as [HM HMx]. set (M := round_nearest_even _ _) in *.
  destruct m as [|m|m]; try lia. cbn [Zdigits2] in *. set (d := Zpos (digits2_pos m)) in *.
  destruct (div_pow2_bounds (Zpos m) d (E - e)) as [Hlo Hhi];
    [split; [apply digits2_lower|apply digits2_upper]|lia|].
  assert (0 <= Zpos m / 2 ^ (E - e)) by (apply Z.div_pos; [lia|apply Z.pow_pos_nonneg; lia]).
  assert (Zpos m / 2 ^ (E - e) < 2 ^ 53) as H53.
  { destruct (Z_le_gt_dec (E - e) d) as [Hle|Hgt].
    - eapply Z.lt_le_trans; [by apply Hhi|]. apply Z.pow_le_mono_r; lia.
    - rewrite Z.div_small; [lia|]. split; [lia|]. eapply Z.lt_trans; [apply digits2_upper|].
      apply Z.pow_lt_mono_r; lia. }
  pose proof (round_finish M E) as Hf.
  destruct (shr_fexp f64_prec f64_emax M E loc_Exact) as [r2 e2]. cbv zeta in Hf.
  destruct Hf as [Hok Hv]; [lia|lia| |].
  { destruct (Z.max_spec (d + e - 53) (-1074)) as [[_ HE]|[_ HE]]; [left; lia|right].
    destruct Hlo as [?|Hlo]; [lia|]. replace (d - 1 - (E - e)) with 52 in Hlo by lia. lia. }
  split; [done|]. unfold near. rewrite Hv.
  destruct Hx as [[Hxl _] _].
  assert (shr_m (shr_record_of_loc (Zpos m) l) = Zpos m) as Hsm by (by destruct l as [|[]]).
  rewrite Hsm in Hxl. specialize (Hu Hxl).
  assert (x * bpow e == (x * bpow (e - E)) * bpow E)%Q as HE.
  { rewrite <- Qmult_assoc, <- bpow_add. by replace (e - E + E) with e by lia. }
  set (t := (bpow (-52) * (x * bpow e) + bpow (-1074))%Q) in *. rewrite HE.
  pose proof (bpow_pos E) as Hp. clear - HMx Hu Hp.
  revert HMx Hu Hp. generalize (x * bpow (e - E))%Q (inject_Z M) (bpow E) t. intros. nra.
Qed.

(** ** Operations *)

Lemma near_refl x : (0 <= x)%Q → near x x.
Proof. unfold near. pose proof (bpow_pos (-52)). pose proof (bpow_pos (-1074)). nra. Qed.

#[export] Instance near_Proper : Proper (Qeq ==> Qeq ==> iff) near.
Proof. intros x x' Ex y y' Ey. unfold near. by rewrite Ex, Ey. Qed.

Lemma near_proper x x' y : (x == x')%Q → near x y → near x' y.
Proof. by intros ->. Qed.

(** The exponent of a number below 2^999. *)
Lemma digits_of_value m e k :
  (inject_Z (Zpos m) * bpow e < bpow k)%Q → Zpos (digits2_pos m) + e <= k.
Proof.
  intros Hv. destruct (Z_le_gt_dec (Zpos (digits2_pos m) + e) k) as [|Hgt]; [done|exfalso].
  assert (bpow k <= bpow (Zpos (digits2_pos m) - 1) * bpow e)%Q as Hk.
  { rewrite <- bpow_add. apply bpow_le. lia. }
  assert (bpow (Zpos (digits2_pos m) - 1) <= inject_Z (Zpos m))%Q as Hm.
  { rewrite bpow_Z by lia. rewrite <- Zle_Qle. apply digits2_lower. }
  pose proof (bpow_pos e). nra.
Qed.

Lemma shl_align_value m e e' :
  let '(m', e'') := shl_align m e e' in
  (inject_Z (Zpos m') * bpow e'' == inject_Z (Zpos m) * bpow e)%Q ∧
  Zpos (digits2_pos m') + e'' = Zpos (digits2_pos m) + e ∧ e'' = Z.min e e'.
Proof.
  unfold shl_align. destruct (e' - e) as [|p|p] eqn:E; [split_and!; [done|done|lia]..|].
  rewrite shlp_iter, digits2_shlp, shlp_value. split_and!; [|lia|lia].
  rewrite positive_nat_Z, inject_Z_mult, <- bpow_Z, <- Qmult_assoc, <- bpow_add by lia.
  by replace (Zpos p + e') with e by lia.
Qed.

Lemma binary_round_near m e :
  (inject_Z (Zpos m) * bpow e < bpow 999)%Q →
  let y := binary_round f64_prec f64_emax false m e in
  f64_ok y = true ∧ near (inject_Z (Zpos m) * bpow e) (fval y).
Proof.
  intros Hv%digits_of_value. unfold binary_round.
  pose proof (shl_align_value m e (fexp64 (Zpos (digits2_pos m) + e))) as Ha.
  destruct (shl_align _ _ _) as [m' e']. destruct Ha as (Hx & Hd & He).
  destruct (round_aux_near (Zpos m') e' loc_Exact (inject_Z (Zpos m'))) as [Hok Hn].
  - lia.
  - split; cbn; [|done]. split; [apply Qle_refl|lra].
  - cbn [Zdigits2]. rewrite Hd. lia.
  - cbn [Zdigits2]. lia.
  - split; [done|]. by eapply near_proper.
Qed.

Lemma binary_normalize_near n e :
  0 <= n → (inject_Z n * bpow e < bpow 999)%Q →
  let y := binary_normalize f64_prec f64_emax n e false in
  f64_ok y = true ∧ near (inject_Z n * bpow e) (fval y).
Proof.
  intros Hn Hv. destruct n as [|m|]; [| |lia]; [|by apply binary_round_near].
  cbn. split; [done|]. eapply near_proper, near_refl, Qle_refl. symmetry. apply Qmult_0_l.
Qed.

(** A small integer is converted exactly. *)
Lemma fval_small n : 0 <= n < 2 ^ 53 → f64_ok (f64_of_u64 n) = true ∧ (fval (f64_of_u64 n) == inject_Z n)%Q.
Proof.
  intros Hn. split.
  { apply (binary_normalize_near n 0); [lia|]. change (bpow 0) with 1%Q. rewrite Qmult_1_r.
    rewrite bpow_Z by lia. rewrite <- Zlt_Qlt. lia. }
  destruct (decide (n = 0)) as [->|]; [done|]. rewrite f64_of_u64_small by lia. cbn.
  pose proof (digits2_le_53 (Z.to_pos n) ltac:(lia)). rewrite shlp_value, inject_Z_mult.
  rewrite <- bpow_Z, <- Qmult_assoc, <- bpow_add, Z2Pos.id by lia.
  replace (Z.of_nat _ + _) with 0 by lia. change (bpow 0) with 1%Q. ring.
Qed.

Lemma f64_add_near a b :
  f64_ok a = true → f64_ok b = true → (fval a + fval b < bpow 999)%Q →
  f64_ok (f64_add a b) = true ∧ near (fval a + fval b) (fval (f64_add a b)).
Proof.
  intros Ha Hb Hs. pose proof (fval_nonneg a) as Hna. pose proof (fval_nonneg b) as Hnb.
  destruct a as [sa| | |[] ma ea], b as [sb| | |[] mb eb]; try done.
  - cbn in *. destruct sa, sb; (split; [done|]); by apply near_refl.
  - split; [done|]. eapply near_proper, near_refl, Hnb. unfold f64_add. cbn [SFadd fval]. ring.
  - split; [done|]. eapply near_proper, near_refl, Hna. unfold f64_add. cbn [SFadd fval]. ring.
  - unfold f64_add, SFadd. cbn [cond_Zopp].
    pose proof (shl_align_value ma ea (Z.min ea eb)) as Hxa.
    pose proof (shl_align_value mb eb (Z.min ea eb)) as Hxb.
    destruct (shl_align ma ea _) as [ma' ea'], (shl_align mb eb _) as [mb' eb'].
    destruct Hxa as (Hxa & _ & Hea), Hxb as (Hxb & _ & Heb). cbn [fst].
    assert (inject_Z (Zpos ma' + Zpos mb') * bpow (Z.min ea eb) ==
            fval (S754_finite false ma ea) + fval (S754_finite false mb eb))%Q as He.
    { cbn [fval]. rewrite <- Hxa, <- Hxb, inject_Z_plus. replace ea' with (Z.min ea eb) by lia.
      replace eb' with (Z.min ea eb) by lia. ring. }
    destruct (binary_normalize_near (Zpos ma' + Zpos mb') (Z.min ea eb)) as [Hok Hn]; [lia|by rewrite He|].
    split; [done|]. by eapply near_proper.
Qed.

Lemma f64_sub_near a b :
  f64_ok a = true → f64_ok b = true → (fval b <= fval a < bpow 999)%Q →
  f64_ok (f64_sub a b) = true ∧ near (fval a - fval b) (fval (f64_sub a b)).
Proof.
  intros Ha Hb Hs. pose proof (fval_nonneg a) as Hna. pose proof (fval_nonneg b) as Hnb.
  destruct a as [sa| | |[] ma ea], b as [sb| | |[] mb eb]; try done.
  - cbn in *. destruct sa, sb; (split; [done|]); by apply near_refl.
  - exfalso. cbn [fval] in Hs. assert (0 < inject_Z (Zpos mb))%Q by (by rewrite <- (Zlt_Qlt 0)).
    pose proof (bpow_pos eb). nra.
  - split; [done|]. eapply near_proper, near_refl, Hna. unfold f64_sub. cbn [SFsub fval]. ring.
  - unfold f64_sub, SFsub. cbn [cond_Zopp].
    pose proof (shl_align_value ma ea (Z.min ea eb)) as Hxa.
    pose proof (shl_align_value mb eb (Z.min ea eb)) as Hxb.
    destruct (shl_align ma ea _) as [ma' ea'], (shl_align mb eb _) as [mb' eb'].
    destruct Hxa as (Hxa & _ & Hea), Hxb as (Hxb & _ & Heb). cbn [fst].
    assert (inject_Z (Zpos ma' - Zpos mb') * bpow (Z.min ea eb) ==
            fval (S754_finite false ma ea) - fval (S754_finite false mb eb))%Q as He.
    { cbn [fval]. rewrite <- Hxa, <- Hxb. unfold Z.sub. rewrite inject_Z_plus, inject_Z_opp.
      replace ea' with (Z.min ea eb) by lia. replace eb' with (Z.min ea eb) by lia. ring. }
    destruct (binary_normalize_near (Zpos ma' - Zpos mb') (Z.min ea eb)) as [Hok Hn].
    + rewrite Zle_Qle. apply Qmult_lt_0_le_reg_r with (bpow (Z.min ea eb)); [apply bpow_pos|].
      rewrite He. change (inject_Z 0) with 0%Q. lra.
    + rewrite He. lra.
    + split; [done|]. by eapply near_proper.
Qed.

Lemma f64_mul_near a b :
  f64_ok a = true → f64_ok b = true → (fval a * fval b < bpow 999)%Q →
  f64_ok (f64_mul a b) = true ∧ near (fval a * fval b) (fval (f64_mul a b)).
Proof.
  intros Ha Hb Hs. pose proof (fval_nonneg a) as Hna. pose proof (fval_nonneg b) as Hnb.
  destruct a as [sa| | |[] ma ea], b as [sb| | |[] mb eb]; try done;
    try (split; [done|]; apply (near_proper 0); [cbn [fval]; ring|by apply near_refl]).
  unfold f64_mul, SFmul. cbn [xorb].
  assert (inject_Z (Zpos (ma * mb)) * bpow (ea + eb) ==
          fval (S754_finite false ma ea) * fval (S754_finite false mb eb))%Q as He.
  { cbn [fval]. rewrite Pos2Z.inj_mul, inject_Z_mult, bpow_add. ring. }
  assert (Zpos (digits2_pos (ma * mb)) + (ea + eb) <= 999) as Hd
    by (apply digits_of_value; by rewrite He).
  destruct (round_aux_near (Zpos (ma * mb)) (ea + eb) loc_Exact (inject_Z (Zpos (ma * mb)))) as [Hok Hn].
  - lia.
  - split; cbn; [|done]. split; [apply Qle_refl|lra].
  - cbn [Zdigits2]. rewrite fexp64_eq. apply bounded_spec in Ha as [Ha _], Hb as [Hb _].
    pose proof (digits2_mono ma (ma * mb) ltac:(nia)). pose proof (digits2_mono mb (ma * mb) ltac:(nia)).
    lia.
  - cbn [Zdigits2]. lia.
  - split; [done|]. by eapply near_proper.
Qed.

(** The remainder tells where the quotient lies. *)
Lemma new_location_enc q r n :
  0 <= r < Zpos n → 0 <= q →
  enc (shr_record_of_loc q (new_location (Zpos n) r))
      (inject_Z q + inject_Z r * / inject_Z (Zpos n)).
Proof.
  intros Hr Hq. assert (0 < inject_Z (Zpos n))%Q as Hn by (by rewrite <- (Zlt_Qlt 0)).
  assert (0 <= inject_Z r * / inject_Z (Zpos n) <= 1)%Q as Hb.
  { split; [apply Qmult_le_0_compat; [by rewrite <- (Zle_Qle 0); lia|by apply Qlt_le_weak, Qinv_lt_0_compat]|].
    apply Qle_shift_div_r; [done|]. rewrite Qmult_1_l, <- Zle_Qle. lia. }
  assert (∀ l, shr_m (shr_record_of_loc q l) = q) as Hm by (by intros [|[]]).
  split; rewrite Hm; [lra|].
  unfold new_location, new_location_even, new_location_odd.
  destruct (Z.eqb_spec r 0) as [->|Hne].
  - intros _ _. change (inject_Z 0) with 0%Q. ring.
  - destruct (Z.even (Zpos n)); [destruct (2 * r ?= Zpos n)|destruct (2 * r + 1 ?= Zpos n)];
      by rewrite (proj2 (Z.eqb_neq r 0) Hne).
Qed.

(** The integer quotient of a shifted numerator: its digits, between those of the exact one. *)
Lemma quotient_digits m n s q r :
  0 <= s → Zpos m * 2 ^ s = Zpos n * q + r → 0 <= r < Zpos n →
  let d := Zpos (digits2_pos m) + s - Zpos (digits2_pos n) in
  0 < d → 0 < q ∧ d <= Zdigits2 q ∧ Zdigits2 q <= d + 1.
Proof.
  intros Hs Hq Hr d Hd.
  pose proof (digits2_lower m). pose proof (digits2_upper m).
  pose proof (digits2_lower n). pose proof (digits2_upper n).
  assert (0 < 2 ^ s) by (apply Z.pow_pos_nonneg; lia).
  assert (2 ^ (d - 1) <= q) as Hql.
  { destruct (Z_le_gt_dec (2 ^ (d - 1)) q) as [|Hgt]; [done|exfalso].
    assert (2 ^ (Zpos (digits2_pos m) - 1) * 2 ^ s = 2 ^ (d - 1) * 2 ^ Zpos (digits2_pos n)) as E.
    { rewrite <- !Z.pow_add_r by lia. f_equal. lia. }
    nia. }
  assert (0 < 2 ^ (d - 1)) by (apply Z.pow_pos_nonneg; lia).
  destruct q as [|q|q]; try lia. cbn [Zdigits2].
  pose proof (digits2_lower q). pose proof (digits2_upper q). split_and!; [lia| |].
  - assert (2 ^ (d - 1) < 2 ^ Zpos (digits2_pos q)) as Hlt by lia.
    apply Z.pow_lt_mono_r_iff in Hlt; lia.
  - assert (2 ^ (Zpos (digits2_pos q) - 1) * 2 ^ (Zpos (digits2_pos n) - 1) <
            2 ^ Zpos (digits2_pos m) * 2 ^ s) as Hlt.
    { assert (0 < 2 ^ (Zpos (digits2_pos n) - 1)) by (apply Z.pow_pos_nonneg; lia). nia. }
    rewrite <- !Z.pow_add_r in Hlt by lia. apply Z.pow_lt_mono_r_iff in Hlt; lia.
Qed.

(** A quotient that neither underflows nor overflows. *)
Lemma f64_div_finite m ea n eb :
  let D := Zpos (digits2_pos m) + ea - (Zpos (digits2_pos n) + eb) in
  -1000 <= D <= 900 →
  let y := f64_div (S754_finite false m ea) (S754_finite false n eb) in
  f64_ok y = true ∧
  near (fval (S754_finite false m ea) * / fval (S754_finite false n eb)) (fval y).
Proof.
  intros D HD y. unfold y, f64_div, SFdiv, SFdiv_core_binary. cbn [xorb Zdigits2]. fold D.
  set (e := Z.min (fexp64 D) (ea - eb)). set (s := ea - eb - e).
  assert (match s with Z0 => Zpos m | Zpos _ => Z.shiftl (Zpos m) s | Zneg _ => 0 end
          = Zpos m * 2 ^ s) as ->.
  { destruct s as [|p|p] eqn:E; [lia|apply Z.shiftl_mul_pow2; lia|lia]. }
  pose proof (Z_div_mod (Zpos m * 2 ^ s) (Zpos n) ltac:(lia)) as Hdm.
  destruct (Z.div_eucl _ _) as [q r]. destruct Hdm as [Hq Hr].
  assert (0 <= s ∧ e <= D - 53) as [Hs0 HeD] by (unfold s, e; rewrite fexp64_eq; lia).
  destruct (quotient_digits m n s q r Hs0 Hq ltac:(lia) ltac:(lia)) as (Hq0 & Hlo & Hhi).
  assert (inject_Z q + inject_Z r * / inject_Z (Zpos n) ==
          inject_Z (Zpos m) * bpow s * / inject_Z (Zpos n))%Q as Hv.
  { rewrite bpow_Z, <- inject_Z_mult, Hq, inject_Z_plus, inject_Z_mult by lia. field.
    change 0%Q with (inject_Z 0). rewrite inject_Z_injective. lia. }
  destruct (round_aux_near q e (new_location (Zpos n) r)
    (inject_Z q + inject_Z r * / inject_Z (Zpos n))) as [Hok Hnr].
  - lia.
  - apply new_location_enc; lia.
  - unfold e. rewrite !fexp64_eq in *. fold e. lia.
  - lia.
  - split; [by destruct q|]. destruct q as [|q|q]; try lia. eapply near_proper, Hnr. rewrite Hv. cbn [fval].
    rewrite (bpow_split (ea) (eb)). unfold s.
    assert (bpow (ea - eb) == bpow (ea - eb - e) * bpow e)%Q as ->.
    { rewrite <- bpow_add. by replace (ea - eb - e + e) with (ea - eb) by lia. }
    pose proof (bpow_pos eb). field. split; [lra|].
    change 0%Q with (inject_Z 0). rewrite inject_Z_injective. lia.
Qed.

Lemma f64_div_small n m :
  0 <= n < 2 ^ 53 → 0 < m < 2 ^ 53 →
  let y := f64_div (f64_of_u64 n) (f64_of_u64 m) in
  f64_ok y = true ∧ near (inject_Z n * / inject_Z m) (fval y).
Proof.
  intros Hn Hm. destruct (fval_small m ltac:(lia)) as [_ Hvm], (fval_small n ltac:(lia)) as [_ Hvn].
  destruct (decide (n = 0)) as [->|Hn0].
  { rewrite (f64_of_u64_small m) by lia. split; [done|]. apply (near_proper 0); [|by apply near_refl].
    symmetry. apply Qmult_0_l. }
  rewrite !f64_of_u64_small in * by lia.
  destruct (f64_div_finite (shlp (Z.to_pos n) (Z.to_nat (53 - Zpos (digits2_pos (Z.to_pos n)))))
    (Zpos (digits2_pos (Z.to_pos n)) - 53)
    (shlp (Z.to_pos m) (Z.to_nat (53 - Zpos (digits2_pos (Z.to_pos m)))))
    (Zpos (digits2_pos (Z.to_pos m)) - 53)) as [Hok Hnr].
  - pose proof (digits2_le_53 (Z.to_pos n) ltac:(lia)). pose proof (digits2_le_53 (Z.to_pos m) ltac:(lia)).
    rewrite !digits2_shlp. lia.
  - split; [done|]. eapply near_proper, Hnr. unfold f64_small in *. by rewrite Hvn, Hvm.
Qed.

(** ** Order *)

(** Of two canonical floats the one with the smaller exponent is smaller. *)
Lemma exponent_order ma ea mb eb :
  bounded f64_prec f64_emax ma ea = true → bounded f64_prec f64_emax mb eb = true → ea < eb →
  (inject_Z (Zpos ma) * bpow ea < inject_Z (Zpos mb) * bpow eb)%Q.
Proof.
  intros [Ha _]%bounded_spec [Hb _]%bounded_spec Hlt.
  pose proof (digits2_upper ma) as Hua. pose proof (digits2_lower mb) as Hlb.
  assert (inject_Z (Zpos ma) < bpow (eb - ea) * inject_Z (Zpos mb))%Q as H.
  { rewrite bpow_Z, <- inject_Z_mult, <- Zlt_Qlt by lia. eapply Z.lt_le_trans; [apply Hua|].
    eapply Z.le_trans; [|apply Z.mul_le_mono_nonneg_l, Hlb; apply Z.pow_nonneg; lia].
    rewrite <- Z.pow_add_r by lia. apply Z.pow_le_mono_r; lia. }
  rewrite (bpow_split eb ea). pose proof (bpow_pos ea) as Hp. nra.
Qed.

Lemma fval_compare a b :
  f64_ok a = true → f64_ok b = true →
  SFcompare a b = Some (fval a ?= fval b)%Q.
Proof.
  intros Ha Hb.
  assert (∀ m e, 0 < inject_Z (Zpos m) * bpow e)%Q as Hpos.
  { intros m e. apply Qmult_lt_0_compat; [by rewrite <- (Zlt_Qlt 0)|apply bpow_pos]. }
  destruct a as [sa| | |[] ma ea], b as [sb| | |[] mb eb]; try done.
  - cbn [SFcompare fval]. f_equal. symmetry. apply Qlt_alt, Hpos.
  - cbn [SFcompare fval]. f_equal. symmetry. apply Qgt_alt, Hpos.
  - cbn [SFcompare fval]. f_equal. symmetry.
    destruct (Z.compare_spec ea eb) as [->|Hlt|Hgt].
    + change (Pos.compare_cont Eq ma mb) with (Zpos ma ?= Zpos mb).
      pose proof (bpow_pos eb). destruct (Z.compare_spec (Zpos ma) (Zpos mb)) as [E|E|E].
      * rewrite E. by apply Qeq_alt.
      * apply Qlt_alt. apply Qmult_lt_r; [done|]. by rewrite <- Zlt_Qlt.
      * apply Qgt_alt. apply Qmult_lt_r; [done|]. by rewrite <- Zlt_Qlt.
    + by apply Qlt_alt, exponent_order.
    + by apply Qgt_alt, exponent_order.
Qed.

Lemma SFleb_spec a b :
  f64_ok a = true → f64_ok b = true → SFleb a b = true ↔ (fval a <= fval b)%Q.
Proof.
  intros Ha Hb. unfold SFleb. rewrite fval_compare by done. rewrite Qle_alt.
  destruct (_ ?= _)%Q; naive_solver.
Qed.

(** [f64::min] is the minimum. *)
Lemma f64_min_spec a b :
  f64_ok a = true → f64_ok b = true →
  f64_ok (f64_min a b) = true ∧
  ((fval (f64_min a b) == fval a)%Q ∧ (fval a <= fval b)%Q ∨
   (fval (f64_min a b) == fval b)%Q ∧ (fval b <= fval a)%Q).
Proof.
  intros Ha Hb. assert (f64_min a b = if SFltb b a then b else a) as ->.
  { destruct a as [| | |[]], b as [| | |[]]; done. }
  unfold SFltb. rewrite fval_compare by done. destruct (Qcompare_spec (fval b) (fval a)) as [E|E|E].
  - split; [done|]. left. split; [done|]. rewrite E. apply Qle_refl.
  - split; [done|]. right. split; [done|lra].
  - split; [done|]. left. split; [done|lra].
Qed.
