(* ===== verification/Config.v ===== *)
(** * Configuration ([src/config.rs])

    The replay-enforcement phase, the configuration record, and the parser of the
    per-stream rate-limit overrides.  [Cli] has the arguments and how a [Config] is read from
    them. *)

From stdpp Require Import base list gmap strings fin_maps.
From Stdlib Require Import ZArith Lia Ascii String.
From S2P Require Import Prelude Text.

Local Open Scope string_scope.
Local Open Scope list_scope.
Local Arguments String.append !_ _ /.

(** ** Replay enforcement *)

Inductive ReplayEnforcement : Type := Compat | SoftEnforce | HardEnforce.

#[export] Instance ReplayEnforcement_eq_dec : EqDecision ReplayEnforcement.
Proof. solve_decision. Defined.

Definition requires_hello_first (m : ReplayEnforcement) : bool :=
  match m with SoftEnforce | HardEnforce => true | Compat => false end.

Definition rejects_non_replay_subscribe (m : ReplayEnforcement) : bool :=
  match m with HardEnforce => true | _ => false end.

(** ** The configuration record *)

Record Config : Type := mkConfig {
  port : Z;
  nats_url : string;
  node_id : string;
  ping_interval_secs : Z;
  max_connections_per_ip : Z;
  ws_channel_capacity : nat;
  ws_replay_channel_capacity : nat;
  jwt_public_key_path : option string;
  max_ack_pending : Z;
  nats_stream_replicas : nat;
  replay_enforcement : ReplayEnforcement;
  max_replay_concurrency : nat;
  stream_rate_limit_rps : Z;
  stream_rate_limit_burst : Z;
  stream_rate_overrides : string;
}.

(** The values of the [default_value] attributes; the node id is generated. *)
Definition default_config (node_id : string) : Config :=
  {| port := 9292; nats_url := "nats://localhost:4222"; node_id := node_id;
     ping_interval_secs := 30; max_connections_per_ip := 10;
     ws_channel_capacity := 4096; ws_replay_channel_capacity := 4096;
     jwt_public_key_path := None; max_ack_pending := 10000; nats_stream_replicas := 1;
     replay_enforcement := Compat; max_replay_concurrency := 1000;
     stream_rate_limit_rps := 0; stream_rate_limit_burst := 0;
     stream_rate_overrides := "" |}.

(** ** Rate-limit overrides *)

(** The closure of the [filter_map]: one ["name=rps:burst"] entry. *)
Definition parse_override_entry (entry : string) : option (string * (Z * Z)) :=
  (let% (name, rest) := split_once "="%char entry in
   let% (rps_str, burst_str) := split_once ":"%char rest in
   let% rps := parse_u64 (trim rps_str) in
   let% burst := parse_u64 (trim burst_str) in
   Some (trim name, (rps, burst)))%gw.

(** [Iterator::collect] into a [HashMap]: later entries replace earlier ones. *)
Definition collect_map {V} (l : list (string * V)) : gmap string V :=
  fold_left (λ m kv, <[kv.1 := kv.2]> m) l ∅.

Definition parse_stream_rate_overrides (cfg : Config) : gmap string (Z * Z) :=
  if decide (stream_rate_overrides cfg = "") then ∅
  else collect_map (omap parse_override_entry (split ";"%char (stream_rate_overrides cfg))).

(** ** What an entry means *)

(** [p] reads ["name=rps:burst"]: the name ends at the first [=], the rate at the first [:]
    after it; blanks around the three parts are ignored. *)
Definition entry_denotes (p name : string) (rps burst : Z) : Prop :=
  ∃ n r b, p = n +:+ "=" +:+ r +:+ ":" +:+ b ∧
    occurs "="%char n = false ∧ occurs ":"%char r = false ∧
    trim n = name ∧ parse_u64 (trim r) = Some rps ∧ parse_u64 (trim b) = Some burst.

(** The pieces with a separator between them. *)
Fixpoint join (sep : string) (ps : list string) : string :=
  match ps with
  | [] => ""
  | [p] => p
  | p :: ps' => p +:+ sep +:+ join sep ps'
  end.

(** ** Lemmas *)

Lemma parse_override_entry_spec p name rps burst :
  parse_override_entry p = Some (name, (rps, burst)) ↔ entry_denotes p name rps burst.
Proof.
  unfold parse_override_entry, entry_denotes. split.
  - destruct (split_once "=" p) as [[n rest]|] eqn:E1; [|done].
    destruct (split_once ":" rest) as [[r b]|] eqn:E2; [|done].
    destruct (parse_u64 (trim r)) eqn:E3; [|done].
    destruct (parse_u64 (trim b)) eqn:E4; [|done]. intros; simplify_eq.
    apply split_once_Some in E1 as [-> Hn]. apply split_once_Some in E2 as [-> Hr].
    exists n, r, b. done.
  - intros (n & r & b & -> & Hn & Hr & <- & Er & Eb).
    change (n +:+ "=" +:+ r +:+ ":" +:+ b) with (n +:+ String "=" (r +:+ String ":" b)).
    rewrite (split_once_app "=" n) by done. rewrite (split_once_app ":" r) by done.
    by rewrite Er, Eb.
Qed.

Lemma split_join (ps : list string) :
  ps ≠ [] → Forall (λ p, occurs ";"%char p = false) ps → split ";"%char (join ";" ps) = ps.
Proof.
  induction ps as [|p ps IH]; [done|]. intros _ [Hp Hps]%Forall_cons.
  destruct ps as [|q ps]; [by apply split_no_sep|].
  change (join ";" (p :: q :: ps)) with (p +:+ String ";" (join ";" (q :: ps))).
  by rewrite split_app_sep, IH.
Qed.

Lemma collect_map_snoc {V} (l : list (string * V)) k v :
  collect_map (l ++ [(k, v)]) = <[k := v]> (collect_map l).
Proof. unfold collect_map. by rewrite fold_left_app. Qed.

(** The entry a key keeps is the last one with that key. *)
Lemma lookup_collect_map {V} (l : list (string * V)) k v :
  collect_map l !! k = Some v ↔
  ∃ l1 l2, l = l1 ++ (k, v) :: l2 ∧ ∀ v', (k, v') ∉ l2.
Proof.
  revert k v. induction l as [|[k' v'] l IH] using rev_ind; intros k v.
  - split; [done|]. intros ([] & ? & ? & _); done.
  - rewrite collect_map_snoc. split.
    + destruct (decide (k' = k)) as [->|Hne].
      * rewrite lookup_insert_eq. intros [= ->]. exists l, []. set_solver.
      * rewrite lookup_insert_ne by done. intros (l1 & l2 & -> & Hn)%IH.
        exists l1, (l2 ++ [(k', v')]). rewrite <- app_assoc. set_solver.
    + intros (l1 & l2 & Heq & Hn). destruct l2 as [|[k2 v2] l2 _] using rev_ind.
      * apply app_inj_tail in Heq as [-> [= -> ->]]. by rewrite lookup_insert_eq.
      * rewrite app_comm_cons, app_assoc in Heq. apply app_inj_tail in Heq as [-> [= -> ->]].
        rewrite lookup_insert_ne by set_solver. apply IH. exists l1, l2. set_solver.
Qed.

Lemma omap_app_inv {A B} (f : A → option B) (l : list A) m1 y m2 :
  omap f l = m1 ++ y :: m2 →
  ∃ l1 x l2, l = l1 ++ x :: l2 ∧ f x = Some y ∧ omap f l2 = m2.
Proof.
  revert m1. induction l as [|a l IH]; intros m1; simpl.
  - intros H. by destruct m1.
  - destruct (f a) as [b|] eqn:E.
    + destruct m1 as [|c m1]; intros; simplify_eq/=.
      * by exists [], a, l.
      * destruct (IH m1) as (l1 & x & l2 & -> & ? & ?); [done|]. by exists (a :: l1), x, l2.
    + intros H. destruct (IH m1 H) as (l1 & x & l2 & -> & ? & ?). by exists (a :: l1), x, l2.
Qed.

(** ** Properties *)

(** The override string is read entry by entry between semicolons: a stream gets the
    rate and burst of the last entry that reads ["name=rps:burst"] for it, entries that do
    not read that way are skipped, and both numbers fit in 64 bits. *)
Theorem overrides_last_wellformed_wins cfg (ps : list string) :
  Forall (λ p, occurs ";"%char p = false) ps →
  stream_rate_overrides cfg = join ";" ps →
  stream_rate_overrides cfg ≠ "" →
  ∀ name rps burst,
  parse_stream_rate_overrides cfg !! name = Some (rps, burst) ↔
  is_u64 rps ∧ is_u64 burst ∧
  ∃ before p after, ps = before ++ p :: after ∧ entry_denotes p name rps burst ∧
    ∀ q r b, q ∈ after → ¬ entry_denotes q name r b.
Proof.
  intros Hps Hcfg Hne name rps burst. unfold parse_stream_rate_overrides.
  rewrite decide_False by done. rewrite Hcfg in *.
  rewrite split_join; [|by intros ->|done].
  rewrite lookup_collect_map. split.
  - intros (m1 & m2 & Heq & Hlast). apply omap_app_inv in Heq as (l1 & p & l2 & -> & Hp & <-).
    apply parse_override_entry_spec in Hp.
    split_and!.
    1,2: by destruct Hp as (? & ? & ? & _ & _ & _ & _ & ?%parse_u64_is_u64 & ?%parse_u64_is_u64).
    exists l1, p, l2. split_and!; [done|done|]. intros q r b Hq Hd.
    destruct (Hlast (r, b)). apply list_elem_of_omap. exists q.
    by rewrite parse_override_entry_spec.
  - intros (_ & _ & l1 & p & l2 & -> & Hp & Hlast).
    exists (omap parse_override_entry l1), (omap parse_override_entry l2). split.
    + rewrite omap_app; simpl. apply parse_override_entry_spec in Hp. by rewrite Hp.
    + intros [r b] (q & Hq & Hd%parse_override_entry_spec)%list_elem_of_omap.
      by eapply Hlast.
Qed.

(** ** Witnesses *)

Definition demo_overrides : list string := ["alerts=100:200"; "oops"; " alerts = 7 : 9 "].

Lemma overrides_last_wellformed_wins_witness :
  parse_stream_rate_overrides
    (mkConfig 9292 "" "" 30 10 1 1 None 1 1 Compat 1 0 0 (join ";" demo_overrides))
    !! "alerts" = Some (7, 9)%Z ↔
  is_u64 7 ∧ is_u64 9 ∧
  ∃ before p after, demo_overrides = before ++ p :: after ∧ entry_denotes p "alerts" 7 9 ∧
    ∀ q r b, q ∈ after → ¬ entry_denotes q "alerts" r b.
Proof.
  apply overrides_last_wellformed_wins; [by repeat constructor|reflexivity|by vm_compute].
Defined.

(** The documented example and the malformed-entry cases, evaluated. *)
Example demo_overrides_parsed :
  parse_stream_rate_overrides
    (mkConfig 9292 "" "" 30 10 1 1 None 1 1 Compat 1 0 0
       "alerts=100:200;bad;high_volume = 5000 : 10000 ;x=1;y=-1:2;z=+1:18446744073709551616")
  = {[ "alerts" := (100, 200)%Z; "high_volume" := (5000, 10000)%Z ]}.
Proof. by vm_compute. Qed.
