(* ===== verification/Cli.v ===== *)
(** * The command line ([Config::parse] of [src/config.rs])

    [Config] derives its parser: every field has a long option, an environment variable and,
    but for the key path, a default.  Finding the text of a value (command line, then
    environment, then default) is clap's job: a class with that law, and an instance.  Reading
    the text as the field's type is modelled. *)

From stdpp Require Import base list gmap strings fin_maps.
From Stdlib Require Import ZArith Lia Ascii String.
From S2P Require Import Prelude Text Config.

Local Open Scope string_scope.
Local Open Scope list_scope.
Local Open Scope Z_scope.

(** ** The attributes *)

Record Arg : Type := mkArg {
  a_long : string;
  a_env : string;
  a_default : option string;
}.

Definition arg_port : Arg := mkArg "port" "TURBOCABLE_PORT" (Some "9292").
Definition arg_nats_url : Arg :=
  mkArg "nats-url" "TURBOCABLE_NATS_URL" (Some "nats://localhost:4222").

(** [default_node_id]; the UUID is random. *)
Definition default_node_id (uuid_simple : string) : string := "node_" +:+ uuid_simple.

Definition arg_node_id (uuid_simple : string) : Arg :=
  mkArg "node-id" "TURBOCABLE_NODE_ID" (Some (default_node_id uuid_simple)).
Definition arg_ping_interval_secs : Arg :=
  mkArg "ping-interval-secs" "TURBOCABLE_PING_INTERVAL" (Some "30").
Definition arg_max_connections_per_ip : Arg :=
  mkArg "max-connections-per-ip" "TURBOCABLE_MAX_CONN_PER_IP" (Some "10").
Definition arg_ws_channel_capacity : Arg :=
  mkArg "ws-channel-capacity" "TURBOCABLE_WS_CHANNEL_CAPACITY" (Some "4096").
Definition arg_ws_replay_channel_capacity : Arg :=
  mkArg "ws-replay-channel-capacity" "TURBOCABLE_WS_REPLAY_CHANNEL_CAPACITY" (Some "4096").
Definition arg_jwt_public_key_path : Arg :=
  mkArg "jwt-public-key-path" "TURBOCABLE_JWT_PUBLIC_KEY_PATH" None.
Definition arg_max_ack_pending : Arg :=
  mkArg "max-ack-pending" "TURBOCABLE_MAX_ACK_PENDING" (Some "10000").
Definition arg_nats_stream_replicas : Arg :=
  mkArg "nats-stream-replicas" "TURBOCABLE_NATS_STREAM_REPLICAS" (Some "1").
Definition arg_replay_enforcement : Arg :=
  mkArg "replay-enforcement" "REPLAY_ENFORCEMENT" (Some "compat").
Definition arg_max_replay_concurrency : Arg :=
  mkArg "max-replay-concurrency" "TURBOCABLE_MAX_REPLAY_CONCURRENCY" (Some "1000").
Definition arg_stream_rate_limit_rps : Arg :=
  mkArg "stream-rate-limit-rps" "TURBOCABLE_STREAM_RATE_LIMIT_RPS" (Some "0").
Definition arg_stream_rate_limit_burst : Arg :=
  mkArg "stream-rate-limit-burst" "TURBOCABLE_STREAM_RATE_LIMIT_BURST" (Some "0").
Definition arg_stream_rate_overrides : Arg :=
  mkArg "stream-rate-overrides" "TURBOCABLE_STREAM_RATE_OVERRIDES" (Some "").

(** ** Values *)

(** [str::parse::<i64>] *)
Definition parse_i64 (s : string) : option Z :=
  match s with
  | String a s' =>
      if decide (a = "-"%char) then
        match s' with
        | EmptyString => None
        | _ => match parse_digits 0 s' with
               | Some m => if m <=? 2 ^ 63 then Some (- m) else None
               | None => None
               end
        end
      else match parse_u64 s with
           | Some m => if m <? 2 ^ 63 then Some m else None
           | None => None
           end
  | EmptyString => None
  end.

(** A [u16] is read as an [i64] and then checked against its range. *)
Definition parse_u16 (s : string) : option Z :=
  match parse_i64 s with
  | Some z => if (0 <=? z) && (z <? 65536) then Some z else None
  | None => None
  end.

(** [usize] on a 64-bit target. *)
Definition parse_usize (s : string) : option nat := Z.to_nat <$> parse_u64 s.

(** The [ValueEnum] names, [rename_all = "snake_case"]. *)
Definition enforcement_name (m : ReplayEnforcement) : string :=
  match m with
  | Compat => "compat"
  | SoftEnforce => "soft_enforce"
  | HardEnforce => "hard_enforce"
  end.

Definition parse_enforcement (s : string) : option ReplayEnforcement :=
  List.find (λ m, bool_decide (enforcement_name m = s)) [Compat; SoftEnforce; HardEnforce].

(** ** [Config::parse] *)

(** What the process was started with. *)
Record Invocation : Type := mkInvocation {
  on_command_line : string → option string;
  in_environment : string → option string;
}.

(** The text clap finds for an argument. *)
Class Clap : Type := { resolve : Invocation → Arg → option string }.

Class ClapLaws `{Clap} : Prop := {
  resolve_order inv a :
    resolve inv a = match on_command_line inv (a_long a) with
                    | Some v => Some v
                    | None => match in_environment inv (a_env a) with
                              | Some v => Some v
                              | None => a_default a
                              end
                    end;
}.

Section Parse.
Context `{Clap}.

(** A required argument of a type with its reader; an error names the argument. *)
Definition value_of {A} (parse : string → option A) (inv : Invocation) (a : Arg)
    : result A string :=
  match resolve inv a with
  | Some v => match parse v with Some x => Ok x | None => Err (a_long a) end
  | None => Err (a_long a)
  end.

Definition config_parse (uuid_simple : string) (inv : Invocation) : result Config string :=
  (let? port := value_of parse_u16 inv arg_port in
   let? nats_url := value_of Some inv arg_nats_url in
   let? node_id := value_of Some inv (arg_node_id uuid_simple) in
   let? ping := value_of parse_u64 inv arg_ping_interval_secs in
   let? per_ip := value_of parse_u64 inv arg_max_connections_per_ip in
   let? cap := value_of parse_usize inv arg_ws_channel_capacity in
   let? replay_cap := value_of parse_usize inv arg_ws_replay_channel_capacity in
   let? ack := value_of parse_i64 inv arg_max_ack_pending in
   let? replicas := value_of parse_usize inv arg_nats_stream_replicas in
   let? enforcement := value_of parse_enforcement inv arg_replay_enforcement in
   let? concurrency := value_of parse_usize inv arg_max_replay_concurrency in
   let? rps := value_of parse_u64 inv arg_stream_rate_limit_rps in
   let? burst := value_of parse_u64 inv arg_stream_rate_limit_burst in
   let? overrides := value_of Some inv arg_stream_rate_overrides in
   Ok (mkConfig port nats_url node_id ping per_ip cap replay_cap
         (resolve inv arg_jwt_public_key_path) ack replicas enforcement concurrency rps burst
         overrides))%gw.
End Parse.

(** ** Properties *)

Lemma parse_i64_range s z : parse_i64 s = Some z → - 2 ^ 63 ≤ z < 2 ^ 63.
Proof.
  unfold parse_i64. destruct s as [|a s']; [done|]. case_decide.
  - destruct s' as [|a' s']; [done|]. destruct (parse_digits 0 (String a' s')) as [m|] eqn:E; [|done].
    assert (is_u64 m) as [? _] by (eapply (parse_digits_is_u64 0); [..|exact E]; [lia|by vm_compute]).
    destruct (Z.leb_spec m (2 ^ 63)); [|done]. intros [= <-]. lia.
  - destruct (parse_u64 (String a s')) as [m|] eqn:E; [|done]. apply parse_u64_is_u64 in E as [? _].
    destruct (Z.ltb_spec m (2 ^ 63)); [|done]. intros [= <-]. lia.
Qed.

Lemma value_of_Ok `{Clap} {A} (parse : string → option A) inv a x :
  value_of parse inv a = Ok x → ∃ v, resolve inv a = Some v ∧ parse v = Some x.
Proof. unfold value_of. repeat case_match; intros; simplify_eq; eauto. Qed.

(** An enforcement phase's name denotes that phase and no other text does. *)
Lemma parse_enforcement_name m s : parse_enforcement s = Some m ↔ s = enforcement_name m.
Proof.
  unfold parse_enforcement; cbn. repeat case_bool_decide; subst; destruct m; cbn in *; naive_solver.
Qed.

(** The configuration's numbers fit the types of their fields. *)
Record config_typed (cfg : Config) : Prop := {
  ct_port : 0 ≤ port cfg < 65536;
  ct_ping : is_u64 (ping_interval_secs cfg);
  ct_per_ip : is_u64 (max_connections_per_ip cfg);
  ct_cap : is_u64 (Z.of_nat (ws_channel_capacity cfg));
  ct_replay_cap : is_u64 (Z.of_nat (ws_replay_channel_capacity cfg));
  ct_ack : - 2 ^ 63 ≤ max_ack_pending cfg < 2 ^ 63;
  ct_replicas : is_u64 (Z.of_nat (nats_stream_replicas cfg));
  ct_concurrency : is_u64 (Z.of_nat (max_replay_concurrency cfg));
  ct_rps : is_u64 (stream_rate_limit_rps cfg);
  ct_burst : is_u64 (stream_rate_limit_burst cfg);
}.

(** *** The documented options *)

(** An option as [docs/configuration.md] and [docs/rate-limiting.md] list it: flag, environment
    variable, default, and the text that stands for a configuration's value. *)
Record OptionRow : Type := mkRow {
  row_flag : string;
  row_env : string;
  row_default : option string;
  row_text : option string;
}.

Definition documented_options (uuid_simple : string) (cfg : Config) : list OptionRow :=
  let number z := Some (print_Z z) in
  let count n := Some (print_Z (Z.of_nat n)) in
  [mkRow "port" "TURBOCABLE_PORT" (Some "9292") (number (port cfg));
   mkRow "nats-url" "TURBOCABLE_NATS_URL" (Some "nats://localhost:4222") (Some (nats_url cfg));
   mkRow "node-id" "TURBOCABLE_NODE_ID" (Some ("node_" +:+ uuid_simple)) (Some (node_id cfg));
   mkRow "ping-interval-secs" "TURBOCABLE_PING_INTERVAL" (Some "30") (number (ping_interval_secs cfg));
   mkRow "max-connections-per-ip" "TURBOCABLE_MAX_CONN_PER_IP" (Some "10")
     (number (max_connections_per_ip cfg));
   mkRow "jwt-public-key-path" "TURBOCABLE_JWT_PUBLIC_KEY_PATH" None (jwt_public_key_path cfg);
   mkRow "max-ack-pending" "TURBOCABLE_MAX_ACK_PENDING" (Some "10000") (number (max_ack_pending cfg));
   mkRow "nats-stream-replicas" "TURBOCABLE_NATS_STREAM_REPLICAS" (Some "1")
     (count (nats_stream_replicas cfg));
   mkRow "replay-enforcement" "REPLAY_ENFORCEMENT" (Some "compat")
     (Some match replay_enforcement cfg with
           | Compat => "compat" | SoftEnforce => "soft_enforce" | HardEnforce => "hard_enforce"
           end);
   mkRow "ws-channel-capacity" "TURBOCABLE_WS_CHANNEL_CAPACITY" (Some "4096")
     (count (ws_channel_capacity cfg));
   mkRow "ws-replay-channel-capacity" "TURBOCABLE_WS_REPLAY_CHANNEL_CAPACITY" (Some "4096")
     (count (ws_replay_channel_capacity cfg));
   mkRow "max-replay-concurrency" "TURBOCABLE_MAX_REPLAY_CONCURRENCY" (Some "1000")
     (count (max_replay_concurrency cfg));
   mkRow "stream-rate-limit-rps" "TURBOCABLE_STREAM_RATE_LIMIT_RPS" (Some "0")
     (number (stream_rate_limit_rps cfg));
   mkRow "stream-rate-limit-burst" "TURBOCABLE_STREAM_RATE_LIMIT_BURST" (Some "0")
     (number (stream_rate_limit_burst cfg));
   mkRow "stream-rate-overrides" "TURBOCABLE_STREAM_RATE_OVERRIDES" (Some "")
     (Some (stream_rate_overrides cfg))].

(** The process was started with the row's text for the option: by its flag, or without the
    flag by its variable, or with neither and it is the default. *)
Definition given (inv : Invocation) (r : OptionRow) : Prop :=
  match on_command_line inv (row_flag r), in_environment inv (row_env r) with
  | Some v, _ => row_text r = Some v
  | None, Some v => row_text r = Some v
  | None, None => row_text r = row_default r
  end.

Lemma parse_print_i64 z : - 2 ^ 63 ≤ z < 2 ^ 63 → parse_i64 (print_Z z) = Some z.
Proof.
  intros Hz. destruct (Z.ltb_spec z 0) as [Hn|Hn].
  - unfold print_Z. rewrite (proj2 (Z.ltb_lt _ _) Hn). cbn [parse_i64]. rewrite decide_True by done.
    pose proof (parse_print_digits (Z.to_N (- z))) as Hp. rewrite Z2N.id in Hp by lia.
    destruct (print_N_head (Z.to_N (- z))) as (a & s & E & _). rewrite E in *.
    rewrite Hp by (unfold u64_max, u64_modulus; lia).
    rewrite (proj2 (Z.leb_le (- z) (2 ^ 63))) by lia. f_equal. lia.
  - pose proof (parse_print_u64 z ltac:(unfold is_u64, u64_modulus; lia)) as Hp.
    unfold print_Z in *. rewrite (proj2 (Z.ltb_ge _ _) Hn) in *.
    destruct (print_N_head (Z.to_N z)) as (a & s & E & Ha). rewrite E in *. unfold parse_i64.
    rewrite decide_False by (intros ->; by destruct Ha). rewrite Hp.
    by rewrite (proj2 (Z.ltb_lt z (2 ^ 63))) by lia.
Qed.

Lemma parse_print_u16 z : 0 ≤ z < 65536 → parse_u16 (print_Z z) = Some z.
Proof.
  intros Hz. unfold parse_u16. rewrite parse_print_i64 by lia.
  by rewrite (proj2 (Z.leb_le 0 z)), (proj2 (Z.ltb_lt z 65536)) by lia.
Qed.

Lemma parse_print_usize n : is_u64 (Z.of_nat n) → parse_usize (print_Z (Z.of_nat n)) = Some n.
Proof. intros Hn. unfold parse_usize. rewrite parse_print_u64 by done. cbn. by rewrite Nat2Z.id. Qed.

Section Properties.
Context `{ClapLaws}.

Lemma given_resolve inv a text :
  given inv (mkRow (a_long a) (a_env a) (a_default a) text) → resolve inv a = text.
Proof using Type*. unfold given. rewrite resolve_order. cbn. repeat case_match; congruence. Qed.

Lemma value_of_given {A} (parse : string → option A) inv a text x :
  given inv (mkRow (a_long a) (a_env a) (a_default a) (Some text)) → parse text = Some x →
  value_of parse inv a = Ok x.
Proof using Type*. intros Hg Hp. unfold value_of. by rewrite (given_resolve _ _ _ Hg), Hp. Qed.

(** An accepted configuration is well-typed. *)
Lemma config_parse_fits uuid inv cfg : config_parse uuid inv = Ok cfg → config_typed cfg.
Proof using Type*.
  intros Hp. unfold config_parse in Hp.
  repeat match type of Hp with
    | match value_of ?p inv ?a with _ => _ end = _ =>
        let v := fresh "v" in let Hr := fresh "Hr" in let Hv := fresh "Hv" in
        destruct (value_of p inv a) eqn:Hv; [|done];
        apply value_of_Ok in Hv as (v & Hr & Hv)
    end.
  injection Hp as <-.
  assert (∀ t n, parse_usize t = Some n → is_u64 (Z.of_nat n)) as Hus.
  { intros t n. unfold parse_usize. destruct (parse_u64 t) as [z|] eqn:E; cbn; [|done].
    intros [= <-]. apply parse_u64_is_u64 in E as [? ?]. unfold is_u64. lia. }
  split; cbn; try (by eapply parse_u64_is_u64); try (by eapply Hus).
  - match goal with Hv : parse_u16 ?t = Some _ |- _ =>
      unfold parse_u16 in Hv; destruct (parse_i64 t) as [z|]; [|done] end.
    destruct (Z.leb_spec 0 z), (Z.ltb_spec z 65536); simplify_eq/=; lia.
  - by eapply parse_i64_range.
Qed.

(** C39. The options mean what the documentation says.  A configuration whose numbers fit the
    types of their fields is what the program reads when every option is given its text: by
    the documented flag, else by the documented variable, else by being the documented
    default; so flags, variables, defaults and readers belong to their fields.  And whatever
    is accepted fits: numbers outside their field's type are refused. *)
Theorem config_parse_documented uuid inv :
  (∀ cfg, config_typed cfg → Forall (given inv) (documented_options uuid cfg) →
     config_parse uuid inv = Ok cfg) ∧
  (∀ cfg, config_parse uuid inv = Ok cfg → config_typed cfg).
Proof using Type*.
  split; [|apply config_parse_fits].
  intros cfg [] Hg. unfold documented_options in Hg. rewrite !Forall_cons in Hg.
  destruct Hg as (G1 & G2 & G3 & G4 & G5 & G6 & G7 & G8 & G9 & G10 & G11 & G12 & G13 & G14 & G15 & _).
  unfold config_parse.
  rewrite (value_of_given parse_u16 _ arg_port _ _ G1) by (by apply parse_print_u16).
  rewrite (value_of_given Some _ arg_nats_url _ _ G2) by done.
  rewrite (value_of_given Some _ (arg_node_id uuid) _ _ G3) by done.
  rewrite (value_of_given parse_u64 _ arg_ping_interval_secs _ _ G4) by (by apply parse_print_u64).
  rewrite (value_of_given parse_u64 _ arg_max_connections_per_ip _ _ G5) by (by apply parse_print_u64).
  rewrite (value_of_given parse_usize _ arg_ws_channel_capacity _ _ G10) by (by apply parse_print_usize).
  rewrite (value_of_given parse_usize _ arg_ws_replay_channel_capacity _ _ G11) by (by apply parse_print_usize).
  rewrite (value_of_given parse_i64 _ arg_max_ack_pending _ _ G7) by (by apply parse_print_i64).
  rewrite (value_of_given parse_usize _ arg_nats_stream_replicas _ _ G8) by (by apply parse_print_usize).
  rewrite (value_of_given parse_enforcement _ arg_replay_enforcement _ (replay_enforcement cfg) G9)
    by (apply parse_enforcement_name; by destruct (replay_enforcement cfg)).
  rewrite (value_of_given parse_usize _ arg_max_replay_concurrency _ _ G12) by (by apply parse_print_usize).
  rewrite (value_of_given parse_u64 _ arg_stream_rate_limit_rps _ _ G13) by (by apply parse_print_u64).
  rewrite (value_of_given parse_u64 _ arg_stream_rate_limit_burst _ _ G14) by (by apply parse_print_u64).
  rewrite (value_of_given Some _ arg_stream_rate_overrides _ _ G15) by done.
  rewrite (given_resolve _ arg_jwt_public_key_path _ G6). by destruct cfg.
Qed.
End Properties.

(** ** Instance and witness *)

#[export] Instance clap_order : Clap := {
  resolve inv a := match on_command_line inv (a_long a) with
                   | Some v => Some v
                   | None => match in_environment inv (a_env a) with
                             | Some v => Some v
                             | None => a_default a
                             end
                   end;
}.

#[export] Instance clap_order_laws : ClapLaws.
Proof. by split. Qed.

(** A process started with [--port 80] and an enforcement phase in its environment. *)
Definition demo_invocation : Invocation :=
  mkInvocation (λ a, if decide (a = "port") then Some "80" else None)
    (λ e, if decide (e = "REPLAY_ENFORCEMENT") then Some "hard_enforce" else None).

Definition demo_config : Config :=
  {| port := 80; nats_url := "nats://localhost:4222"; node_id := "node_u";
     ping_interval_secs := 30; max_connections_per_ip := 10;
     ws_channel_capacity := 4096; ws_replay_channel_capacity := 4096;
     jwt_public_key_path := None; max_ack_pending := 10000; nats_stream_replicas := 1;
     replay_enforcement := HardEnforce; max_replay_concurrency := 1000;
     stream_rate_limit_rps := 0; stream_rate_limit_burst := 0; stream_rate_overrides := "" |}.

Lemma config_parse_documented_witness : config_parse "u" demo_invocation = Ok demo_config.
Proof.
  apply (config_parse_documented "u" demo_invocation).
  - split; unfold is_u64, u64_modulus; cbn [demo_config port ping_interval_secs max_connections_per_ip
      ws_channel_capacity ws_replay_channel_capacity max_ack_pending nats_stream_replicas
      max_replay_concurrency stream_rate_limit_rps stream_rate_limit_burst]; lia.
  - unfold documented_options. repeat constructor.
Defined.

(** A value out of its field's range is refused. *)
Example port_out_of_range :
  is_ok (config_parse "u" (mkInvocation (λ a, if decide (a = "port") then Some "65536" else None)
    (λ _, None))) = false.
Proof. by vm_compute. Qed.
