(* ===== verification/Limiter.v ===== *)
(** * Per-IP connection limiter ([src/connection/limiter.rs])

    The limiter's map is a [gmap]; [try_acquire] holds the map entry for its whole body
    and is one atomic step, [release] is two (the decrement under the entry's guard, then
    [remove_if]).  The second half of the file runs those steps in any interleaving. *)

From stdpp Require Import base list gmap strings fin_maps sorting.
From Stdlib Require Import ZArith Lia.
From S2P Require Import Prelude.

(** ** Data *)

(** [std::net::IpAddr]: the address bits of either family. *)
Inductive IpAddr : Type :=
| V4 (bits : Z)
| V6 (bits : Z).

#[export] Instance IpAddr_eq_dec : EqDecision IpAddr.
Proof. solve_decision. Defined.

#[export] Instance IpAddr_countable : Countable IpAddr.
Proof.
  refine (inj_countable'
    (λ ip, match ip with V4 b => inl b | V6 b => inr b end)
    (λ c, match c with inl b => V4 b | inr b => V6 b end) _).
  by intros [].
Defined.

Record ConnectionLimiter : Type := mkLimiter {
  counts : gmap IpAddr Z;
  max_per_ip : Z;
}.

(** ** Operations *)

(** [ConnectionLimiter::new] *)
Definition new_limiter (max_per_ip : Z) : ConnectionLimiter := mkLimiter ∅ max_per_ip.

(** [try_acquire]: [entry(ip).or_insert(0)], the limit test, then [*entry += 1]. *)
Definition try_acquire (lim : ConnectionLimiter) (ip : IpAddr) : bool * ConnectionLimiter :=
  let entry := default 0%Z (counts lim !! ip) in
  if (max_per_ip lim <=? entry)%Z
  then (false, mkLimiter (<[ip := entry]> (counts lim)) (max_per_ip lim))
  else (true, mkLimiter (<[ip := wrapping_add entry 1]> (counts lim)) (max_per_ip lim)).

(** First half of [release]: the saturating decrement under the entry's guard; the
    boolean is [should_remove]. *)
Definition release_dec (lim : ConnectionLimiter) (ip : IpAddr) : bool * ConnectionLimiter :=
  match counts lim !! ip with
  | Some entry =>
      let entry' := saturating_sub entry 1 in
      ((entry' =? 0)%Z, mkLimiter (<[ip := entry']> (counts lim)) (max_per_ip lim))
  | None => (false, lim)
  end.

(** Second half of [release]: [remove_if(&ip, |_, v| *v == 0)]. *)
Definition release_remove_if (lim : ConnectionLimiter) (ip : IpAddr) : ConnectionLimiter :=
  match counts lim !! ip with
  | Some v => if (v =? 0)%Z then mkLimiter (delete ip (counts lim)) (max_per_ip lim) else lim
  | None => lim
  end.

Definition release (lim : ConnectionLimiter) (ip : IpAddr) : ConnectionLimiter :=
  let '(should_remove, lim') := release_dec lim ip in
  if should_remove then release_remove_if lim' ip else lim'.

Definition count_for (lim : ConnectionLimiter) (ip : IpAddr) : Z :=
  default 0%Z (counts lim !! ip).

(** ** Interleaved executions

    [held] lists the slots acquired and not yet given back (one entry per successful
    [try_acquire]); [removing] lists the tasks inside [release] that have decremented, saw
    zero and have not yet run [remove_if]. *)

Record LimiterState : Type := mkLimSt {
  lim : ConnectionLimiter;
  held : list IpAddr;
  removing : list IpAddr;
}.

Definition limiter_init (max : Z) (st : LimiterState) : Prop :=
  st = mkLimSt (new_limiter max) [] [].

Inductive limiter_step : LimiterState → LimiterState → Prop :=
| step_acquired l h r ip l' :
    try_acquire l ip = (true, l') →
    limiter_step (mkLimSt l h r) (mkLimSt l' (ip :: h) r)
| step_refused l h r ip l' :
    try_acquire l ip = (false, l') →
    limiter_step (mkLimSt l h r) (mkLimSt l' h r)
| step_release_dec l h1 h2 r ip l' rm :
    release_dec l ip = (rm, l') →
    limiter_step (mkLimSt l (h1 ++ ip :: h2) r)
                 (mkLimSt l' (h1 ++ h2) (if rm then ip :: r else r))
| step_release_remove l h r1 r2 ip :
    limiter_step (mkLimSt l h (r1 ++ ip :: r2))
                 (mkLimSt (release_remove_if l ip) h (r1 ++ r2)).

(** The number of slots an address holds. *)
Definition held_by (ip : IpAddr) (h : list IpAddr) : Z :=
  Z.of_nat (length (filter (λ x, x = ip) h)).

(** ** Lemmas *)

Section LimiterLemmas.
Implicit Types (l : ConnectionLimiter) (ip x : IpAddr).

(** What each operation does to the count of every address. *)
Lemma try_acquire_spec l ip :
  (0 ≤ count_for l ip)%Z → is_u64 (max_per_ip l) →
  let '(ok, l') := try_acquire l ip in
  (ok = true ↔ (count_for l ip < max_per_ip l)%Z) ∧
  max_per_ip l' = max_per_ip l ∧
  (∀ x, count_for l' x =
        if decide (x = ip) then (count_for l ip + if ok then 1 else 0)%Z else count_for l x).
Proof.
  unfold try_acquire, count_for. intros Hpos [? Hmax].
  destruct (Z.leb_spec (max_per_ip l) (default 0%Z (counts l !! ip))) as [Hle|Hlt]; cbn.
  - split_and!; [split; intros; [done|lia]|done|].
    intros x. case_decide; subst; simplify_map_eq; [lia|done].
  - rewrite wrapping_add_small by lia.
    split_and!; [split; intros; [lia|done]|done|].
    intros x. case_decide; subst; by simplify_map_eq.
Qed.

Lemma try_acquire_other l ip x :
  x ≠ ip → counts (try_acquire l ip).2 !! x = counts l !! x.
Proof. intros. unfold try_acquire. case_match; simpl; by rewrite lookup_insert_ne. Qed.

Lemma release_dec_other l ip x :
  x ≠ ip → counts (release_dec l ip).2 !! x = counts l !! x.
Proof. intros. unfold release_dec. case_match; simpl; by rewrite ?lookup_insert_ne. Qed.

Lemma release_dec_spec l ip :
  let '(rm, l') := release_dec l ip in
  max_per_ip l' = max_per_ip l ∧
  (rm = true → counts l' !! ip = Some 0%Z) ∧
  (∀ x, count_for l' x =
        if decide (x = ip)
        then match counts l !! ip with
             | Some c => saturating_sub c 1 | None => 0%Z end
        else count_for l x).
Proof.
  unfold release_dec, count_for.
  destruct (counts l !! ip) as [c|] eqn:E; cbn; split_and!; try done.
  - intros H%Z.eqb_eq. by rewrite lookup_insert_eq, H.
  - intros x. case_decide; subst; by simplify_map_eq.
  - intros x. case_decide; subst; by rewrite ?E.
Qed.

Lemma release_remove_if_count l ip x :
  count_for (release_remove_if l ip) x = count_for l x.
Proof.
  unfold release_remove_if, count_for.
  destruct (counts l !! ip) as [c|] eqn:E; [|done].
  destruct (Z.eqb_spec c 0) as [->|]; [|done]. cbn.
  destruct (decide (ip = x)) as [<-|]; by simplify_map_eq.
Qed.

Lemma release_remove_if_max l ip : max_per_ip (release_remove_if l ip) = max_per_ip l.
Proof. unfold release_remove_if. repeat case_match; done. Qed.

Lemma held_by_cons ip x (h : list IpAddr) :
  held_by ip (x :: h) = (held_by ip h + if decide (ip = x) then 1 else 0)%Z.
Proof.
  unfold held_by. rewrite filter_cons. repeat case_decide; simpl; subst; try congruence; lia.
Qed.

Lemma held_by_app ip (h1 h2 : list IpAddr) :
  held_by ip (h1 ++ h2) = (held_by ip h1 + held_by ip h2)%Z.
Proof. unfold held_by. rewrite filter_app, length_app. lia. Qed.

Lemma held_by_nonneg ip h : (0 ≤ held_by ip h)%Z.
Proof. unfold held_by. lia. Qed.

Lemma held_by_pos ip h : (0 < held_by ip h)%Z ↔ ip ∈ h.
Proof.
  induction h as [|x h IH].
  - rewrite elem_of_nil. unfold held_by. simpl. lia.
  - rewrite held_by_cons, elem_of_cons, <- IH.
    pose proof (held_by_nonneg ip h). case_decide; subst; split; [by left|lia|right; lia|].
    intros [->|?]; [done|lia].
Qed.
End LimiterLemmas.

(** ** Invariant *)

(** The bookkeeping the limiter keeps in every interleaving: counts equal the slots held,
    no address holds more than the limit, and a zero entry is one a releasing task is about
    to remove. *)
Record limiter_inv (max : Z) (st : LimiterState) : Prop := mkLimInv {
  inv_max : max_per_ip (lim st) = max;
  inv_counts : ∀ ip, count_for (lim st) ip = held_by ip (held st);
  inv_bound : ∀ ip, (held_by ip (held st) ≤ max)%Z;
  inv_zero : ∀ ip, counts (lim st) !! ip = Some 0%Z → ip ∈ removing st;
}.

Section LimiterInvariant.
Context (max : Z) (Hmax : is_u64 max) (Hpos : (0 < max)%Z).

Lemma limiter_inv_init st : limiter_init max st → limiter_inv max st.
Proof.
  intros ->. split; cbn; [done|by intros|unfold held_by; simpl; lia|].
  intros ip H. by rewrite lookup_empty in H.
Qed.

Lemma limiter_inv_acquire l h r ip ok l' :
  limiter_inv max (mkLimSt l h r) → try_acquire l ip = (ok, l') →
  limiter_inv max (mkLimSt l' (if ok then ip :: h else h) r).
Proof.
  intros [Hm Hc Hb Hz] Hop; simpl in *.
  pose proof (held_by_nonneg ip h) as Hnn.
  pose proof (try_acquire_spec l ip) as Hspec. rewrite Hop in Hspec.
  destruct Hspec as (Hok & Hm' & Hc'); [rewrite Hc; lia|by rewrite Hm|].
  split; simpl; [congruence| | |].
  - intros x. rewrite Hc', !Hc. destruct ok; rewrite ?held_by_cons;
      repeat case_decide; subst; try congruence; lia.
  - intros x. specialize (Hb x). destruct ok; [|done]. rewrite held_by_cons.
    case_decide; subst; [|lia]. rewrite <- Hc. assert (count_for l ip < max_per_ip l)%Z by tauto. lia.
  - intros x Hx. destruct (decide (x = ip)) as [->|Hne].
    + pose proof (Hc' ip) as E. unfold count_for at 1 in E. rewrite Hx in E. cbn in E.
      case_decide; [|done]. rewrite Hc in E. destruct ok; [lia|].
      destruct Hok as [_ Hok]. rewrite Hc in Hok. discriminate Hok. lia.
    + apply Hz. pose proof (try_acquire_other l ip x Hne) as Ho. rewrite Hop in Ho.
      by rewrite <- Ho.
Qed.

Lemma limiter_inv_release_dec l h1 h2 r ip rm l' :
  limiter_inv max (mkLimSt l (h1 ++ ip :: h2) r) → release_dec l ip = (rm, l') →
  limiter_inv max (mkLimSt l' (h1 ++ h2) (if rm then ip :: r else r)).
Proof.
  intros [Hm Hc Hb Hz] Hop; simpl in *.
  pose proof (release_dec_spec l ip) as Hspec. rewrite Hop in Hspec.
  destruct Hspec as (Hm' & Hrm & Hc').
  assert (∀ x, held_by x (h1 ++ ip :: h2) =
    (held_by x (h1 ++ h2) + if decide (x = ip) then 1 else 0)%Z) as Hsplit.
  { intros x. rewrite !held_by_app, held_by_cons. lia. }
  pose proof (Hc ip) as Hcip. rewrite Hsplit in Hcip. case_decide; [|done].
  pose proof (held_by_nonneg ip (h1 ++ h2)).
  assert (counts l !! ip = Some (held_by ip (h1 ++ h2) + 1)%Z) as Hin.
  { unfold count_for in Hcip. destruct (counts l !! ip); simpl in *; [congruence|lia]. }
  split; simpl; [congruence| | |].
  - intros x. rewrite Hc', Hin. case_decide; subst; [unfold saturating_sub; lia|].
    rewrite Hc, Hsplit. case_decide; [done|lia].
  - intros x. specialize (Hb x). rewrite Hsplit in Hb. case_decide; lia.
  - intros x Hx. destruct (decide (x = ip)) as [->|Hne].
    + revert Hop. unfold release_dec. rewrite Hin. intros; simplify_eq/=. simplify_map_eq.
      match goal with E : saturating_sub _ _ = 0%Z |- _ => rewrite E end. cbn. left.
    + assert (x ∈ r) as Hr.
      { apply Hz. pose proof (release_dec_other l ip x Hne) as Ho. rewrite Hop in Ho.
        by rewrite <- Ho. }
      destruct rm; [by right|done].
Qed.

Lemma limiter_inv_release_remove l h r1 r2 ip :
  limiter_inv max (mkLimSt l h (r1 ++ ip :: r2)) →
  limiter_inv max (mkLimSt (release_remove_if l ip) h (r1 ++ r2)).
Proof.
  intros [Hm Hc Hb Hz]; simpl in *. split; simpl; [by rewrite release_remove_if_max| |done|].
  - intros x. by rewrite release_remove_if_count.
  - intros x Hx.
    assert (x ≠ ip ∧ counts l !! x = Some 0%Z) as [Hne Hx'].
    { revert Hx. unfold release_remove_if. destruct (counts l !! ip) as [c|] eqn:E.
      - destruct (Z.eqb_spec c 0) as [->|Hc0]; simpl.
        + intros [? ?]%lookup_delete_Some. done.
        + intros Hx. split; [congruence|done].
      - intros Hx. split; [congruence|done]. }
    specialize (Hz _ Hx'). set_solver.
Qed.

Lemma limiter_inv_step st st' :
  limiter_inv max st → limiter_step st st' → limiter_inv max st'.
Proof.
  intros Hinv Hstep. inversion Hstep; subst.
  - by eapply (limiter_inv_acquire _ _ _ _ true).
  - by eapply (limiter_inv_acquire _ _ _ _ false).
  - by eapply limiter_inv_release_dec.
  - by eapply limiter_inv_release_remove.
Qed.

Lemma limiter_inv_reachable st :
  reachable (limiter_init max) limiter_step st → limiter_inv max st.
Proof.
  apply reachable_invariant; eauto using limiter_inv_init, limiter_inv_step.
Qed.
End LimiterInvariant.

(** ** Properties *)

(** C25. In every interleaving of acquisitions and releases, the count the limiter stores for
    an address is the number of slots that address holds, which never exceeds the limit, and
    [try_acquire] grants a slot exactly when fewer than the limit are held. *)
Theorem limiter_enforces_limit (max : Z) (Hmax : is_u64 max) (Hpos : (0 < max)%Z) st :
  reachable (limiter_init max) limiter_step st →
  ∀ ip, count_for (lim st) ip = held_by ip (held st) ∧
        (held_by ip (held st) ≤ max)%Z ∧
        ((try_acquire (lim st) ip).1 = true ↔ (held_by ip (held st) < max)%Z).
Proof.
  intros Hr ip. destruct (limiter_inv_reachable max Hmax Hpos st Hr) as [Hm Hc Hb _].
  pose proof (held_by_nonneg ip (held st)).
  pose proof (try_acquire_spec (lim st) ip) as Hs.
  rewrite Hm, Hc in Hs. destruct (try_acquire (lim st) ip) as [ok l'].
  destruct Hs as [Hok _]; [done|done|]. auto.
Qed.

(** Once no release is half done, the limiter's map has an entry exactly for the
    addresses that hold a slot: idle addresses leave nothing behind. *)
Theorem limiter_keeps_no_idle_entries (max : Z) (Hmax : is_u64 max) (Hpos : (0 < max)%Z) st :
  reachable (limiter_init max) limiter_step st →
  removing st = [] →
  dom (counts (lim st)) = list_to_set (held st).
Proof.
  intros Hr Hq. destruct (limiter_inv_reachable max Hmax Hpos st Hr) as [_ Hc _ Hz].
  apply set_eq. intros ip. rewrite elem_of_dom, elem_of_list_to_set, <- held_by_pos, <- Hc.
  unfold count_for. pose proof (held_by_nonneg ip (held st)) as Hn. rewrite <- Hc in Hn.
  unfold count_for in Hn. specialize (Hz ip). rewrite Hq in Hz.
  destruct (counts (lim st) !! ip) as [c|]; simpl in *.
  - split; [|by eauto]. intros _. destruct (decide (c = 0%Z)) as [->|]; [|lia].
    specialize (Hz eq_refl). set_solver.
  - split; [by intros [? ?]|lia].
Qed.

(** Acquiring a slot and releasing it restores the limiter's map exactly. *)
Lemma acquire_release_id l ip l' :
  is_u64 (max_per_ip l) →
  (∀ c, counts l !! ip = Some c → (0 < c)%Z) →
  try_acquire l ip = (true, l') →
  release l' ip = l.
Proof.
  destruct l as [m mx]. unfold try_acquire; simpl. intros [_ Hmx] Hpos Hop.
  destruct (Z.leb_spec mx (default 0%Z (m !! ip))) as [|Hlt]; simplify_eq/=.
  unfold release, release_dec, release_remove_if; simpl. rewrite lookup_insert_eq; simpl.
  destruct (m !! ip) as [c|] eqn:E; simpl in *.
  - specialize (Hpos c eq_refl). rewrite wrapping_add_small by lia.
    replace (saturating_sub (c + 1) 1) with c by (unfold saturating_sub; lia).
    destruct (Z.eqb_spec c 0); [lia|]. f_equal. by rewrite insert_insert_eq, insert_id.
  - rewrite lookup_insert_eq; simpl. f_equal. by rewrite insert_insert_eq, delete_insert_id.
Qed.

(** ** Witnesses *)

Definition demo_ip : IpAddr := V4 2130706433.

(** Two acquisitions of [demo_ip] under a limit of two, then the first half of a release. *)
Definition demo_limiter_state : LimiterState :=
  mkLimSt (mkLimiter {[demo_ip := 1%Z]} 2) [demo_ip] [].

Lemma demo_limiter_reachable :
  reachable (limiter_init 2) limiter_step demo_limiter_state.
Proof.
  eapply reachable_step; [eapply reachable_step; [eapply reachable_step|]|].
  - apply reachable_init. reflexivity.
  - apply (step_acquired _ _ _ demo_ip). reflexivity.
  - apply (step_acquired _ _ _ demo_ip). reflexivity.
  - apply (step_release_dec _ [] [demo_ip] [] demo_ip _ false). reflexivity.
Qed.

Lemma limiter_enforces_limit_witness :
  count_for (lim demo_limiter_state) demo_ip = held_by demo_ip (held demo_limiter_state) ∧
  (held_by demo_ip (held demo_limiter_state) ≤ 2)%Z ∧
  ((try_acquire (lim demo_limiter_state) demo_ip).1 = true ↔
   (held_by demo_ip (held demo_limiter_state) < 2)%Z).
Proof.
  apply (limiter_enforces_limit 2); [by vm_compute|lia|apply demo_limiter_reachable].
Defined.

Lemma limiter_keeps_no_idle_entries_witness :
  dom (counts (lim demo_limiter_state)) = list_to_set (held demo_limiter_state).
Proof.
  apply (limiter_keeps_no_idle_entries 2);
    [by vm_compute|lia|apply demo_limiter_reachable|reflexivity].
Defined.
