(* ===== verification/Metrics.v ===== *)
(** * Metrics ([src/metrics.rs])

    The fields of [Metrics] by name.  A counter is an [AtomicU64] and a gauge an
    [AtomicI64]; of a histogram the model keeps the number of observations.  The two
    labelled vectors are maps from the stream label. *)

From stdpp Require Import base list gmap strings fin_maps.
From Stdlib Require Import ZArith Lia.
From S2P Require Import Prelude.

Inductive metric : Type :=
| connections_active
| connections_total
| client_reconnect_handshake_total
| connections_rejected
| messages_fanned_out
| fanout_duration_secs
| nats_consumer_lag
| auth_duration_secs
| handshake_ok_replay_capable_total
| handshake_ok_legacy_total
| handshake_legacy_warn_total
| handshake_rejected_total
| handshake_rejected_non_replay_capable_total
| handshake_soft_non_replay_subscribe_allowed_total
| forced_reconnect_backpressure_total
| replay_success_total
| replay_failure_total
| replay_window_exceeded_total
| replay_aborted_peer_gone_total
| replay_truncated_total
| replay_in_flight
| replay_catch_up_duration_secs
| replay_first_delivery_secs.

#[export] Instance metric_eq_dec : EqDecision metric.
Proof. solve_decision. Defined.

Record Metrics : Type := mkMetrics {
  scalar : metric → Z;
  stream_rate_limited_total : gmap string Z;
  stream_tokens_available : gmap string Z;
}.

Definition no_metrics : Metrics := mkMetrics (λ _, 0%Z) ∅ ∅.

Definition with_scalar (k : metric) (f : Z → Z) (m : Metrics) : Metrics :=
  mkMetrics (λ k', if decide (k' = k) then f (scalar m k) else scalar m k')
    (stream_rate_limited_total m) (stream_tokens_available m).

(** [IntCounter::inc], [inc_by]: atomic adds of a [u64]. *)
Definition inc_by (k : metric) (n : Z) : Metrics → Metrics := with_scalar k (λ v, wrapping_add v n).
Definition inc (k : metric) : Metrics → Metrics := inc_by k 1.

(** One observation of a histogram. *)
Definition observe (k : metric) : Metrics → Metrics := inc_by k 1.

(** An [i64], two's complement. *)
Definition to_i64 (z : Z) : Z := ((z + 2 ^ 63) mod u64_modulus - 2 ^ 63)%Z.

Definition gauge_inc (k : metric) : Metrics → Metrics := with_scalar k (λ v, to_i64 (v + 1)).
Definition gauge_dec (k : metric) : Metrics → Metrics := with_scalar k (λ v, to_i64 (v - 1)).
Definition gauge_set (k : metric) (n : Z) : Metrics → Metrics := with_scalar k (λ _, n).

(** [stream_rate_limited_total.with_label_values(&[s]).inc()] *)
Definition rate_limited_inc (s : string) (m : Metrics) : Metrics :=
  mkMetrics (scalar m)
    (<[s := wrapping_add (default 0%Z (stream_rate_limited_total m !! s)) 1]>
       (stream_rate_limited_total m))
    (stream_tokens_available m).

(** [stream_tokens_available.with_label_values(&[s]).set(n)] *)
Definition tokens_set (s : string) (n : Z) (m : Metrics) : Metrics :=
  mkMetrics (scalar m) (stream_rate_limited_total m) (<[s := n]> (stream_tokens_available m)).

(** ** Reading after an update *)

Lemma scalar_with k k' f m :
  scalar (with_scalar k f m) k' = if decide (k' = k) then f (scalar m k) else scalar m k'.
Proof. done. Qed.

Lemma with_scalar_other k k' f m : k' ≠ k → scalar (with_scalar k f m) k' = scalar m k'.
Proof. intros. rewrite scalar_with. by rewrite decide_False. Qed.

Lemma to_i64_id z : (- 2 ^ 63 ≤ z < 2 ^ 63)%Z → to_i64 z = z.
Proof. intros. unfold to_i64. rewrite Z.mod_small; unfold u64_modulus; lia. Qed.

(** A gauge that counts something stays within its width. *)
Lemma gauge_inc_small k m n :
  scalar m k = Z.of_nat n → (Z.of_nat n < 2 ^ 61)%Z →
  scalar (gauge_inc k m) k = Z.of_nat (S n).
Proof.
  intros Hm Hn. unfold gauge_inc. rewrite scalar_with, decide_True by done.
  rewrite Hm, to_i64_id; lia.
Qed.

Lemma gauge_dec_small k m n :
  scalar m k = Z.of_nat (S n) → (Z.of_nat n < 2 ^ 61)%Z →
  scalar (gauge_dec k m) k = Z.of_nat n.
Proof.
  intros Hm Hn. unfold gauge_dec. rewrite scalar_with, decide_True by done.
  rewrite Hm, to_i64_id; lia.
Qed.

(** A gauge that is incremented and later decremented returns to its value. *)
Lemma gauge_dec_inc k m :
  (- 2 ^ 63 ≤ scalar m k < 2 ^ 63)%Z →
  scalar (gauge_dec k (gauge_inc k m)) k = scalar m k.
Proof.
  intros Hr. unfold gauge_dec, gauge_inc. rewrite !scalar_with, !decide_True by done.
  unfold to_i64.
  replace ((scalar m k + 1 + 2 ^ 63) mod u64_modulus - 2 ^ 63 - 1 + 2 ^ 63)%Z
    with ((scalar m k + 1 + 2 ^ 63) mod u64_modulus - 1)%Z by lia.
  rewrite Zminus_mod_idemp_l.
  replace (scalar m k + 1 + 2 ^ 63 - 1)%Z with (scalar m k + 2 ^ 63)%Z by lia.
  rewrite Z.mod_small; unfold u64_modulus; lia.
Qed.
