(* ===== verification/MetricsReg.v ===== *)
(** * Metric registration ([Metrics::new] and [create] of [src/metrics.rs])

    The metrics are registered once per process with the default Prometheus registry, and a
    failing registration is a panic.  The registry is the [prometheus] crate's: a class with
    the laws its documentation gives, and an instance. *)

From stdpp Require Import base list gmap strings fin_maps sets.
From Stdlib Require Import ZArith QArith Qcanon Lia Ascii String.
From S2P Require Import Prelude Text Metrics.

Local Open Scope string_scope.
Local Open Scope list_scope.
Local Open Scope nat_scope.

(** ** Descriptions *)

(** What the [register_*!] macros are given besides name and help text. *)
Inductive collector : Type :=
| IntGauge
| IntCounter
| Histogram (buckets : list Q)
| IntCounterVec (labels : list string)
| IntGaugeVec (labels : list string).

Record Desc : Type := mkDesc {
  d_collector : collector;
  d_name : string;
  d_help : string;
}.

(** ** The list of [create], in its order *)

Definition connection_metrics : list Desc :=
  [mkDesc IntGauge "turbocable_connections_active"
     "Current number of open WebSocket connections";
   mkDesc IntCounter "turbocable_connections_total"
     "Total WebSocket connections accepted since startup";
   mkDesc IntCounter "turbocable_client_reconnect_handshake_total"
     "Client hello frames with last_seq > 0 (resume / reconnect with delivery history)";
   mkDesc IntCounter "turbocable_connections_rejected_total"
     "Connections rejected due to auth failure or per-IP limit";
   mkDesc IntCounter "turbocable_messages_fanned_out_total"
     "Total WebSocket frames delivered to clients via fan-out";
   mkDesc (Histogram [0.00005; 0.0001; 0.00025; 0.0005; 0.001; 0.0025; 0.005; 0.01; 0.025;
                      0.05; 0.1; 0.25]%Q)
     "turbocable_fanout_duration_seconds" "Fan-out latency in seconds";
   mkDesc IntGauge "turbocable_nats_consumer_lag"
     "NATS JetStream consumer pending message count";
   mkDesc (Histogram [0.00005; 0.0001; 0.00025; 0.0005; 0.001; 0.0025; 0.005; 0.01; 0.025]%Q)
     "turbocable_auth_duration_seconds" "JWT verification latency in seconds"].

Definition handshake_metrics : list Desc :=
  [mkDesc IntCounter "turbocable_handshake_ok_replay_capable_total"
     "Clients that completed hello handshake with replay_v1 capability";
   mkDesc IntCounter "turbocable_handshake_ok_legacy_total"
     "Clients that completed hello handshake without replay_v1 capability";
   mkDesc IntCounter "turbocable_handshake_legacy_warn_total"
     "Commands received before hello in compat mode (legacy client signal)";
   mkDesc IntCounter "turbocable_handshake_rejected_total"
     "Commands rejected because client had not sent hello (enforce mode)";
   mkDesc IntCounter "turbocable_handshake_rejected_non_replay_capable_total"
     "Subscribe rejected in hard_enforce: client not replay_v1-capable";
   mkDesc IntCounter "turbocable_handshake_soft_non_replay_subscribe_allowed_total"
     "Subscribe allowed in soft_enforce without replay_v1 (legacy client signal)";
   mkDesc IntCounter "turbocable_forced_reconnect_backpressure_total"
     "Connections evicted due to full outbound channel (backpressure reconnect)"].

Definition replay_metrics : list Desc :=
  [mkDesc IntCounter "turbocable_replay_success_total"
     "Replay tasks that completed without error";
   mkDesc IntCounter "turbocable_replay_failure_total"
     "Replay tasks that failed with a transient JetStream error";
   mkDesc IntCounter "turbocable_replay_window_exceeded_total"
     "Replay tasks aborted due to client last_seq outside the retention window";
   mkDesc IntCounter "turbocable_replay_aborted_peer_gone_total"
     "Replay tasks stopped because the WebSocket outbound channel closed mid-replay";
   mkDesc IntCounter "turbocable_replay_truncated_total"
     "Replay tasks that hit the per-stream message cap and required client resync";
   mkDesc IntGauge "turbocable_replay_in_flight" "Number of active replay tasks";
   mkDesc (Histogram [0.05; 0.1; 0.25; 0.5; 1.0; 2.0; 5.0; 10.0; 30.0; 60.0]%Q)
     "turbocable_replay_catch_up_duration_seconds"
     "Total wall-clock time for a replay task from start to completion";
   mkDesc (Histogram [0.001; 0.005; 0.01; 0.025; 0.05; 0.1; 0.25; 0.5; 1.0; 2.0; 5.0]%Q)
     "turbocable_replay_first_delivery_seconds"
     "Time from replay start to first message enqueued in the outbound channel"].

Definition rate_limit_metrics : list Desc :=
  [mkDesc (IntCounterVec ["stream"]) "turbocable_stream_rate_limited_total"
     "Messages dropped due to per-stream rate limiting";
   mkDesc (IntGaugeVec ["stream"]) "turbocable_stream_tokens_available"
     "Current token count for the per-stream rate limiter (gauge sample)"].

Definition registrations : list Desc :=
  connection_metrics ++ handshake_metrics ++ replay_metrics ++ rate_limit_metrics.

(** The registration behind each field of [Metrics]. *)
Definition metric_desc (k : metric) : option Desc :=
  registrations !!
  match k with
  | connections_active => 0 | connections_total => 1
  | client_reconnect_handshake_total => 2 | connections_rejected => 3
  | messages_fanned_out => 4 | fanout_duration_secs => 5
  | nats_consumer_lag => 6 | auth_duration_secs => 7
  | handshake_ok_replay_capable_total => 8 | handshake_ok_legacy_total => 9
  | handshake_legacy_warn_total => 10 | handshake_rejected_total => 11
  | handshake_rejected_non_replay_capable_total => 12
  | handshake_soft_non_replay_subscribe_allowed_total => 13
  | forced_reconnect_backpressure_total => 14
  | replay_success_total => 15 | replay_failure_total => 16
  | replay_window_exceeded_total => 17 | replay_aborted_peer_gone_total => 18
  | replay_truncated_total => 19 | replay_in_flight => 20
  | replay_catch_up_duration_secs => 21 | replay_first_delivery_secs => 22
  end.

(** ** What the registry accepts *)

Definition name_start (a : ascii) : bool :=
  let n := nat_of_ascii a in
  ((65 <=? n) && (n <=? 90)) || ((97 <=? n) && (n <=? 122)) || (n =? 95) || (n =? 58).

Definition name_char (a : ascii) : bool :=
  let n := nat_of_ascii a in name_start a || ((48 <=? n) && (n <=? 57)).

(** [[a-zA-Z_:][a-zA-Z0-9_:]*], and the same without the colon for labels. *)
Definition valid_name (s : string) : bool :=
  match s with
  | EmptyString => false
  | String a s' => name_start a && forallb name_char (list_ascii_of_string s')
  end.

Definition valid_label (s : string) : bool := valid_name s && negb (occurs ":"%char s).

Fixpoint increasing (l : list Q) : bool :=
  match l with
  | q :: ((q' :: _) as l') => negb (Qle_bool q' q) && increasing l'
  | _ => true
  end.

Definition valid_collector (c : collector) : bool :=
  match c with
  | IntGauge | IntCounter => true
  | Histogram buckets => increasing buckets
  | IntCounterVec labels | IntGaugeVec labels =>
      forallb valid_label labels && bool_decide (NoDup labels)
  end.

Definition valid_desc (d : Desc) : bool :=
  valid_name (d_name d) && negb (bool_decide (d_help d = "")) && valid_collector (d_collector d).

(** The registry of the [prometheus] crate. *)
Class PromRegistry (R : Type) : Type := {
  register_desc : Desc → R → result R string;
  registered : R → gset string;
}.

(** [Registry::register]: it takes a valid collector under a name that is not taken yet, and
    refuses every other. *)
Class PromLaws (R : Type) `{PromRegistry R} : Prop := {
  register_ok d (r : R) :
    valid_desc d = true → d_name d ∉ registered r →
    ∃ r', register_desc d r = Ok r' ∧ registered r' = {[d_name d]} ∪ registered r;
  register_taken d (r : R) :
    d_name d ∈ registered r → ∃ e, register_desc d r = Err e;
}.

(** ** [create] and [new] *)

Section Registration.
Context {R : Type} `{PromRegistry R}.

(** A list of registrations, each with its [expect]; [None] is the panic. *)
Fixpoint register_all (ds : list Desc) (r : R) : option R :=
  match ds with
  | [] => Some r
  | d :: ds' => match register_desc d r with Ok r' => register_all ds' r' | Err _ => None end
  end.

(** [create]: the handle starts with every metric at zero. *)
Definition create (r : R) : option (Metrics * R) :=
  match register_all registrations r with
  | Some r' => Some (no_metrics, r')
  | None => None
  end.

(** The process-wide state: [METRICS_INSTANCE] and the default registry. *)
Record Process : Type := mkProcess {
  metrics_instance : option Metrics;
  default_registry : R;
}.

(** [new]: [get_or_init(create)]. *)
Definition new_metrics (p : Process) : option (Metrics * Process) :=
  match metrics_instance p with
  | Some m => Some (m, p)
  | None => match create (default_registry p) with
            | Some (m, r') => Some (m, mkProcess (Some m) r')
            | None => None
            end
  end.

(** [n] calls, one after the other, with the handles they return. *)
Fixpoint new_repeatedly (n : nat) (p : Process) : option (list Metrics * Process) :=
  match n with
  | O => Some ([], p)
  | S n' =>
      match new_metrics p with
      | Some (m, p1) =>
          match new_repeatedly n' p1 with
          | Some (ms, p2) => Some (m :: ms, p2)
          | None => None
          end
      | None => None
      end
  end.
End Registration.
Arguments Process R : clear implicits.

(** [render]; [gather] and the text encoder are the crate's. *)
Definition render {F} (gather : F) (encode_to_string : F → result string string) : string :=
  match encode_to_string gather with Ok s => s | Err _ => "" end.

(** ** Properties *)

Section Properties.
Context {R : Type} `{PromLaws R}.

(** Distinct valid names that are all free can be registered one after the other. *)
Lemma register_all_ok ds (r : R) :
  forallb valid_desc ds = true → NoDup (d_name <$> ds) →
  (∀ d, d ∈ ds → d_name d ∉ registered r) →
  ∃ r', register_all ds r = Some r' ∧
        registered r' = registered r ∪ list_to_set (d_name <$> ds).
Proof.
  revert r. induction ds as [|d ds IH]; intros r Hv Hnd Hfree; cbn in *.
  { exists r. split; [done|set_solver]. }
  apply andb_true_iff in Hv as [Hd Hv]. apply NoDup_cons in Hnd as [Hn Hnd].
  destruct (register_ok d r Hd) as (r1 & -> & Hr1); [apply Hfree; left|].
  destruct (IH r1 Hv Hnd) as (r2 & -> & Hr2).
  { intros d' Hd'. rewrite Hr1. intros [Hin|Hin]%elem_of_union.
    - apply elem_of_singleton in Hin. apply Hn. rewrite <- Hin. by apply list_elem_of_fmap_2.
    - by apply (Hfree d'); [right|]. }
  exists r2. split; [done|]. rewrite Hr2, Hr1. set_solver.
Qed.

(** The metrics always come up: in a process that has not registered them, the 25
    registrations, with distinct valid names and increasing buckets, succeed and export
    every field of [Metrics]; any number of calls of [Metrics::new] registers them once and
    hands out the same handle, where a second [create] would panic. *)
Theorem metrics_registered_once (r : R) n :
  (∀ d, d ∈ registrations → d_name d ∉ registered r) →
  ∃ r', new_repeatedly (S n) (mkProcess None r)
          = Some (replicate (S n) no_metrics, mkProcess (Some no_metrics) r') ∧
    registered r' = registered r ∪ list_to_set (d_name <$> registrations) ∧
    size (list_to_set (C := gset string) (d_name <$> registrations)) = 25 ∧
    (∀ k, ∃ d, metric_desc k = Some d ∧ d_name d ∈ registered r') ∧
    (∀ k k', metric_desc k = metric_desc k' → k = k') ∧
    create r' = None.
Proof using Type*.
  intros Hfree.
  destruct (register_all_ok registrations r) as (r' & Hr & Hreg); [by vm_compute| |done|].
  { apply (bool_decide_unpack (NoDup (d_name <$> registrations))). by vm_compute. }
  exists r'. split_and!.
  - cbn [new_repeatedly]. unfold new_metrics, create; cbn [metrics_instance default_registry].
    rewrite Hr. cbv iota beta.
    assert (new_repeatedly n (mkProcess (Some no_metrics) r')
            = Some (replicate n no_metrics, mkProcess (Some no_metrics) r')) as ->; [|done].
    induction n as [|n IH]; [done|]. cbn. by rewrite IH.
  - exact Hreg.
  - by vm_compute.
  - intros k. assert (∃ d, metric_desc k = Some d ∧ d ∈ registrations) as (d & Hd & Hin).
    { destruct (metric_desc k) as [d|] eqn:Hd; [|by destruct k]. exists d. split; [done|].
      unfold metric_desc in Hd. by eapply list_elem_of_lookup_2. }
    exists d. split; [done|]. rewrite Hreg. apply elem_of_union. right.
    apply elem_of_list_to_set. by apply list_elem_of_fmap_2.
  - intros k k'. destruct k, k'; vm_compute; congruence.
  - unfold create. cbn [registrations connection_metrics app register_all].
    match goal with |- context [register_desc ?d r'] =>
      destruct (register_taken d r') as [e ->]; [|done] end.
    rewrite Hreg. apply elem_of_union. right. apply elem_of_list_to_set.
    cbn [registrations connection_metrics app fmap list_fmap]. left.
Qed.
End Properties.

(** ** Instance and witness *)

#[export] Instance set_registry : PromRegistry (gset string) := {
  register_desc d r :=
    if valid_desc d && negb (bool_decide (d_name d ∈ r)) then Ok ({[d_name d]} ∪ r)
    else Err "duplicate metrics collector registration attempted";
  registered r := r;
}.

#[export] Instance set_registry_laws : PromLaws (gset string).
Proof.
  split; intros d r.
  - intros Hv Hd. cbn. rewrite Hv, bool_decide_false by done. cbn. eauto.
  - intros Hd. cbn in *. rewrite bool_decide_true by done. rewrite andb_false_r. eauto.
Qed.

Lemma metrics_registered_once_witness :
  ∃ r', new_repeatedly 3 (mkProcess None (∅ : gset string))
    = Some (replicate 3 no_metrics, mkProcess (Some no_metrics) r') ∧ create r' = None.
Proof.
  destruct (metrics_registered_once (∅ : gset string) 2) as (r' & Hn & _ & _ & _ & _ & Hc).
  - intros d _. apply not_elem_of_empty.
  - exists r'. split; [exact Hn|exact Hc].
Defined.

(** The eviction counter of the change log does not exist; the code's has another name. *)
Example eviction_counter_name :
  "turbocable_backpressure_evictions_total" ∉ d_name <$> registrations ∧
  "turbocable_forced_reconnect_backpressure_total" ∈ d_name <$> registrations.
Proof.
  split; [apply (bool_decide_unpack (_ ∉ _))|apply (bool_decide_unpack (_ ∈ _))];
    by vm_compute.
Qed.
