(* ===== verification/Protocol.v ===== *)
(** * Wire protocol ([src/protocol], [src/errors.rs])

    The frame types, their serde representation as trees ([value]), and the two codecs.
    Parsing bytes into a tree and printing a tree (serde_json, rmp-serde) are not code of
    this repository: a codec is parametric in a [WireLib].  What the [#[serde(...)]]
    attributes of [types.rs] make of a tree is the model: internally tagged enums, an
    untagged enum, defaults, skipped fields. *)

From stdpp Require Import base list strings sets.
From Stdlib Require Import ZArith Lia Ascii String.
From S2P Require Import Prelude Text.

Local Open Scope string_scope.
Local Open Scope list_scope.

(** ** Errors ([src/errors.rs]) *)

Inductive ReplayError : Type :=
| WindowExceeded (stream : string) (requested_seq oldest_available : Z)
| Truncated (stream : string) (delivered limit : nat)
| ReplayJetStream (e : string).

(** [first_delivery_elapsed] is a duration; the model keeps whether it was set. *)
Record ReplayDelivery : Type := mkDelivery {
  delivered : nat;
  peer_gone : bool;
  first_delivery_set : bool;
}.

Inductive GatewayError : Type :=
| Auth (e : string)
| Nats (e : string)
| JetStream (e : string)
| Protocol (e : string)
| Serialization (e : string).

(** The [#[error(...)]] texts. *)
Definition gateway_error_to_string (e : GatewayError) : string :=
  match e with
  | Auth s => "auth failed: " +:+ s
  | Nats s => "NATS error: " +:+ s
  | JetStream s => "JetStream error: " +:+ s
  | Protocol s => "protocol error: " +:+ s
  | Serialization s => "serialization error: " +:+ s
  end.

(** ** Trees *)

(** A number as serde sees it: a [u64], a negative [i64], or a float by its bits. *)
Inductive number : Type :=
| NPos (n : Z)
| NNeg (n : Z)
| NFloat (bits : Z).

Inductive value : Type :=
| VNull
| VBool (b : bool)
| VNum (n : number)
| VStr (s : string)
| VArr (l : list value)
| VObj (l : list (string * value)).

(** ** Frames ([src/protocol/types.rs]) *)

Record HelloCommand : Type := mkHello {
  last_seq : option Z;
  capabilities : list string;
}.

(** [is_replay_capable] *)
Definition is_replay_capable (h : HelloCommand) : bool :=
  existsb (λ c, bool_decide (c = "replay_v1")) (capabilities h).

Inductive ClientCommand : Type :=
| Subscribe (identifier : string)
| Unsubscribe (identifier : string)
| ClientMessage (identifier data : string).

Inductive ClientFrame : Type :=
| Hello (h : HelloCommand)
| Command (c : ClientCommand).

Inductive ServerMessage : Type :=
| Welcome
| Ping (message : Z)
| ConfirmSubscription (identifier : string)
| RejectSubscription (identifier : string)
| Disconnect (reason : string) (reconnect : option bool)
| Message (identifier : string) (message : value) (replayed : option bool) (seq : option Z).

(** ** Fields of an object *)

(** A derived struct visitor: a repeated field is an error, an unknown one is ignored. *)
Inductive field : Type :=
| Absent
| Once (v : value)
| Repeated.

Fixpoint get_field (k : string) (l : list (string * value)) : field :=
  match l with
  | [] => Absent
  | (k', v) :: l' =>
      if decide (k' = k)
      then match get_field k l' with Absent => Once v | _ => Repeated end
      else get_field k l'
  end.

Definition required (f : field) : option value :=
  match f with Once v => Some v | _ => None end.

Definition as_string (v : value) : option string :=
  match v with VStr s => Some s | _ => None end.

Definition as_u64 (v : value) : option Z :=
  match v with VNum (NPos n) => Some n | _ => None end.

(** [Vec<String>] *)
Fixpoint as_strings (l : list value) : option (list string) :=
  match l with
  | [] => Some []
  | v :: l' => match as_string v, as_strings l' with
               | Some s, Some ss => Some (s :: ss)
               | _, _ => None
               end
  end.

Definition as_string_vec (v : value) : option (list string) :=
  match v with VArr l => as_strings l | _ => None end.

(** [Option<u64>]: [null] is [None]. *)
Definition as_u64_option (v : value) : option (option Z) :=
  match v with VNull => Some None | _ => Some <$> as_u64 v end.

(** [Option<bool>] *)
Definition as_bool_option (v : value) : option (option bool) :=
  match v with VNull => Some None | VBool b => Some (Some b) | _ => None end.

(** A field with [#[serde(default)]]. *)
Definition defaulted {A} (d : A) (conv : value → option A) (f : field) : option A :=
  match f with Absent => Some d | Once v => conv v | Repeated => None end.

(** ** Decoding client frames *)

(** [HelloTag]: the unit variant ["hello"], externally tagged (a string, or the one-entry
    map serde also accepts for a unit variant). *)
Definition hello_tag (v : value) : option unit :=
  match v with
  | VStr s => if decide (s = "hello") then Some () else None
  | VObj [(k, VNull)] => if decide (k = "hello") then Some () else None
  | _ => None
  end.

(** [HelloCommand], from an object by field name or from an array by position. *)
Definition hello_of_value (v : value) : option HelloCommand :=
  (match v with
   | VObj l =>
       let% tag := required (get_field "type" l) in
       let% _ := hello_tag tag in
       let% seq := defaulted None as_u64_option (get_field "last_seq" l) in
       let% caps := defaulted [] as_string_vec (get_field "capabilities" l) in
       Some (mkHello seq caps)
   | VArr (tag :: rest) =>
       let% _ := hello_tag tag in
       match rest with
       | [] => Some (mkHello None [])
       | [s] => let% seq := as_u64_option s in Some (mkHello seq [])
       | [s; c] => let% seq := as_u64_option s in
                   let% caps := as_string_vec c in
                   Some (mkHello seq caps)
       | _ => None
       end
   | _ => None
   end)%gw.

(** A variant identifier: the variant's name, or its index. *)
Definition variant_name (names : list string) (v : value) : option string :=
  match v with
  | VStr s => if decide (s ∈ names) then Some s else None
  | VNum (NPos n) => names !! Z.to_nat n
  | _ => None
  end.

Inductive command_tag : Type := TSubscribe | TUnsubscribe | TMessage.

Definition command_tag_of_value (v : value) : option command_tag :=
  (let% t := variant_name ["subscribe"; "unsubscribe"; "message"] v in
   Some (if decide (t = "subscribe") then TSubscribe
         else if decide (t = "unsubscribe") then TUnsubscribe else TMessage))%gw.

Definition command_of_fields (t : command_tag) (identifier data : option value) :
    option ClientCommand :=
  (let% i := identifier in
   let% i := as_string i in
   match t with
   | TSubscribe => Some (Subscribe i)
   | TUnsubscribe => Some (Unsubscribe i)
   | TMessage => let% d := data in let% d := as_string d in Some (ClientMessage i d)
   end)%gw.

(** The data field only exists in the message variant; in the others a ["data"] key is an
    unknown field. *)
Definition command_of_value (v : value) : option ClientCommand :=
  (match v with
   | VObj l =>
       let% tag := required (get_field "command" l) in
       let% t := command_tag_of_value tag in
       command_of_fields t (required (get_field "identifier" l)) (required (get_field "data" l))
   | VArr (tag :: rest) =>
       let% t := command_tag_of_value tag in
       match t, rest with
       | TMessage, [i; d] => command_of_fields t (Some i) (Some d)
       | TMessage, _ => None
       | _, [i] => command_of_fields t (Some i) None
       | _, _ => None
       end
   | _ => None
   end)%gw.

(** The untagged enum: the variants are tried in order. *)
Definition client_frame_of_value (v : value) : option ClientFrame :=
  match hello_of_value v with
  | Some h => Some (Hello h)
  | None => Command <$> command_of_value v
  end.

(** ** Encoding *)

Definition option_u64_to_value (o : option Z) : value :=
  match o with Some n => VNum (NPos n) | None => VNull end.

(** A field with [skip_serializing_if = "Option::is_none"]. *)
Definition skip_none {A} (k : string) (f : A → value) (o : option A) : list (string * value) :=
  match o with Some a => [(k, f a)] | None => [] end.

Definition client_frame_to_value (f : ClientFrame) : value :=
  match f with
  | Hello h =>
      VObj [("type", VStr "hello"); ("last_seq", option_u64_to_value (last_seq h));
            ("capabilities", VArr (map VStr (capabilities h)))]
  | Command (Subscribe i) => VObj [("command", VStr "subscribe"); ("identifier", VStr i)]
  | Command (Unsubscribe i) => VObj [("command", VStr "unsubscribe"); ("identifier", VStr i)]
  | Command (ClientMessage i d) =>
      VObj [("command", VStr "message"); ("identifier", VStr i); ("data", VStr d)]
  end.

Definition server_message_to_value (m : ServerMessage) : value :=
  match m with
  | Welcome => VObj [("type", VStr "welcome")]
  | Ping ts => VObj [("type", VStr "ping"); ("message", VNum (NPos ts))]
  | ConfirmSubscription i =>
      VObj [("type", VStr "confirm_subscription"); ("identifier", VStr i)]
  | RejectSubscription i =>
      VObj [("type", VStr "reject_subscription"); ("identifier", VStr i)]
  | Disconnect r rc =>
      VObj ([("type", VStr "disconnect"); ("reason", VStr r)] ++ skip_none "reconnect" VBool rc)
  | Message i m rp sq =>
      VObj ([("type", VStr "message"); ("identifier", VStr i); ("message", m)] ++
            skip_none "replayed" VBool rp ++ skip_none "seq" (λ n, VNum (NPos n)) sq)
  end.

(** ** Decoding server messages

    [ServerMessage] also derives [Deserialize]; its payload field is a [serde_json::Value],
    which collects an object into a [BTreeMap]: keys sorted, the last duplicate kept.  The
    object form is modelled. *)

Fixpoint btree_insert (k : string) (v : value) (l : list (string * value)) :
    list (string * value) :=
  match l with
  | [] => [(k, v)]
  | (k', v') :: l' =>
      match String.compare k k' with
      | Lt => (k, v) :: l
      | Eq => (k, v) :: l'
      | Gt => (k', v') :: btree_insert k v l'
      end
  end.

Fixpoint to_json_value (v : value) : value :=
  match v with
  | VArr l => VArr (map to_json_value l)
  | VObj l =>
      VObj (fold_left (λ acc kv, btree_insert kv.1 kv.2 acc)
              (map (λ kv, (kv.1, to_json_value kv.2)) l) [])
  | _ => v
  end.

(** A tree as [serde_json::Value] holds it. *)
Definition json_canonical (v : value) : Prop := to_json_value v = v.

Definition server_message_of_value (v : value) : option ServerMessage :=
  (match v with
   | VObj l =>
       let% tag := required (get_field "type" l) in
       let% t := variant_name ["welcome"; "ping"; "confirm_subscription";
                   "reject_subscription"; "disconnect"; "message"] tag in
       let identifier := (let% i := required (get_field "identifier" l) in as_string i) in
       if decide (t = "welcome") then Some Welcome
       else if decide (t = "ping") then
         let% n := required (get_field "message" l) in let% n := as_u64 n in Some (Ping n)
       else if decide (t = "confirm_subscription") then
         let% i := identifier in Some (ConfirmSubscription i)
       else if decide (t = "reject_subscription") then
         let% i := identifier in Some (RejectSubscription i)
       else if decide (t = "disconnect") then
         let% r := required (get_field "reason" l) in
         let% r := as_string r in
         let% rc := defaulted None as_bool_option (get_field "reconnect" l) in
         Some (Disconnect r rc)
       else
         let% i := identifier in
         let% m := required (get_field "message" l) in
         let% rp := defaulted None as_bool_option (get_field "replayed" l) in
         let% sq := defaulted None as_u64_option (get_field "seq" l) in
         Some (Message i (to_json_value m) rp sq)
   | _ => None
   end)%gw.

(** ** Codecs *)

(** A serialization library: bytes to a tree and back, with its error texts; the text of
    the error it reports when a tree matches no frame. *)
Record WireLib : Type := mkWireLib {
  wire_parse : string → result value string;
  wire_print : value → result string string;
  wire_mismatch : string → string;
}.

(** The trait [Codec]. *)
Record Codec : Type := mkCodec {
  decode : string → result ClientFrame GatewayError;
  encode : ServerMessage → result string GatewayError;
}.

(** [from_slice::<ClientFrame>] *)
Definition frame_from_slice (lib : WireLib) (data : string) : result ClientFrame string :=
  (let? v := wire_parse lib data in
   match client_frame_of_value v with
   | Some f => Ok f
   | None => Err (wire_mismatch lib data)
   end)%gw.

(** [JsonCodec] ([src/protocol/json.rs]) *)
Definition json_codec (serde_json : WireLib) : Codec := {|
  decode data :=
    map_err (λ e, Protocol ("invalid JSON frame: " +:+ e)) (frame_from_slice serde_json data);
  encode msg :=
    map_err (λ e, Serialization ("JSON encode failed: " +:+ e))
      (wire_print serde_json (server_message_to_value msg)) |}.

(** [MsgpackCodec] ([src/protocol/msgpack.rs]) *)
Definition msgpack_codec (rmp_serde : WireLib) : Codec := {|
  decode data :=
    map_err (λ e, Protocol ("invalid msgpack frame: " +:+ e)) (frame_from_slice rmp_serde data);
  encode msg :=
    map_err (λ e, Serialization ("msgpack encode failed: " +:+ e))
      (wire_print rmp_serde (server_message_to_value msg)) |}.

Definition SUB_PROTOCOL_JSON : string := "actioncable-v1-json".
Definition SUB_PROTOCOL_MSGPACK : string := "turbocable-v1-msgpack".

Definition codec_for_protocol (serde_json rmp_serde : WireLib) (protocol : string) :
    option Codec :=
  if decide (protocol = SUB_PROTOCOL_JSON) then Some (json_codec serde_json)
  else if decide (protocol = SUB_PROTOCOL_MSGPACK) then Some (msgpack_codec rmp_serde)
  else None.

(** [negotiate_protocol] ([src/connection/handler.rs]): the loop over the header's items. *)
Fixpoint first_supported (items : list string) : string :=
  match items with
  | [] => SUB_PROTOCOL_JSON
  | item :: items' =>
      let proto := trim item in
      if decide (proto = SUB_PROTOCOL_MSGPACK) then SUB_PROTOCOL_MSGPACK
      else if decide (proto = SUB_PROTOCOL_JSON) then SUB_PROTOCOL_JSON
      else first_supported items'
  end.

Definition negotiate_protocol (header : string) : string :=
  first_supported (split ","%char header).

(** ** Lemmas *)

(** A tree without floating-point numbers, which printers and parsers keep exactly. *)
Fixpoint float_free (v : value) : bool :=
  match v with
  | VNum (NFloat _) => false
  | VArr l => forallb float_free l
  | VObj l => forallb (λ kv, float_free kv.2) l
  | _ => true
  end.

(** How deep arrays and objects are nested. *)
Fixpoint value_depth (v : value) : nat :=
  match v with
  | VArr l => S (list_max (map value_depth l))
  | VObj l => S (list_max (map (λ kv, value_depth kv.2) l))
  | _ => 0
  end.

(** serde_json reads at most 127 nested arrays and objects (rmp-serde more). *)
Definition WIRE_DEPTH : nat := 127.

(** What the codecs rely on: the library reads back the trees it prints, when they have no
    floating-point numbers and are not nested too deep for its reader. *)
Class WireLaws (lib : WireLib) : Prop := {
  wire_roundtrip v b :
    float_free v = true → (value_depth v ≤ WIRE_DEPTH)%nat → wire_print lib v = Ok b →
    wire_parse lib b = Ok v;
}.

Lemma as_strings_map l : as_strings (map VStr l) = Some l.
Proof. induction l as [|s l IH]; simpl; [done|by rewrite IH]. Qed.

Lemma float_free_strings l : forallb float_free (map VStr l) = true.
Proof. by induction l. Qed.

Lemma client_frame_of_to_value f : client_frame_of_value (client_frame_to_value f) = Some f.
Proof.
  destruct f as [[o caps]|[]]; try reflexivity.
  unfold client_frame_of_value; simpl. destruct o; simpl; by rewrite as_strings_map.
Qed.

Lemma depth_strings l : list_max (map value_depth (map VStr l)) = 0%nat.
Proof. by induction l. Qed.

Lemma client_frame_depth f : (value_depth (client_frame_to_value f) ≤ WIRE_DEPTH)%nat.
Proof.
  unfold WIRE_DEPTH. destruct f as [[[] caps]|[]]; cbn; rewrite ?depth_strings; lia.
Qed.

Lemma client_frame_float_free f : float_free (client_frame_to_value f) = true.
Proof.
  destruct f as [[[] caps]|[]]; simpl; rewrite ?float_free_strings; done.
Qed.

(** The payload of a message, when there is one. *)
Definition message_payload (m : ServerMessage) : value :=
  match m with Message _ p _ _ => p | _ => VNull end.

Lemma server_message_of_to_value m :
  json_canonical (message_payload m) →
  server_message_of_value (server_message_to_value m) = Some m.
Proof.
  destruct m as [| | | |r []|i p [] []]; simpl; intros Hc; try reflexivity;
    cbn; by rewrite Hc.
Qed.

Lemma server_message_float_free m :
  float_free (message_payload m) = true → float_free (server_message_to_value m) = true.
Proof. destruct m as [| | | |r []|i p [] []]; simpl; try done; intros ->; done. Qed.

Lemma server_message_depth m :
  (value_depth (message_payload m) < WIRE_DEPTH →
   value_depth (server_message_to_value m) ≤ WIRE_DEPTH)%nat.
Proof. unfold WIRE_DEPTH. destruct m as [| | | |r []|i p [] []]; cbn; lia. Qed.

Lemma frame_from_slice_roundtrip lib `{!WireLaws lib} f b :
  wire_print lib (client_frame_to_value f) = Ok b → frame_from_slice lib b = Ok f.
Proof.
  intros Hp. unfold frame_from_slice.
  rewrite (wire_roundtrip _ _ (client_frame_float_free f) (client_frame_depth f) Hp).
  by rewrite client_frame_of_to_value.
Qed.

(** *** The documented client frames *)

(** An object has the member [k] exactly once, with the value [v]; it does not have it. *)
Definition member (k : string) (v : value) (l : list (string * value)) : Prop :=
  ∃ l1 l2, l = l1 ++ (k, v) :: l2 ∧ k ∉ l1.*1 ∧ k ∉ l2.*1.

Definition no_member (k : string) (l : list (string * value)) : Prop := k ∉ l.*1.




Lemma get_field_absent k l : get_field k l = Absent ↔ no_member k l.
Proof.
  unfold no_member. induction l as [|[k' v] l IH]; cbn [get_field fmap list_fmap fst]; [set_solver|].
  rewrite not_elem_of_cons. case_decide; [|naive_solver].
  destruct (get_field k l); naive_solver.
Qed.

Lemma member_cons k v k' w l :
  member k v ((k', w) :: l) ↔
  if decide (k' = k) then w = v ∧ no_member k l else member k v l.
Proof.
  unfold member, no_member. split.
  - intros ([|[k0 w0] l1] & l2 & Heq & Hl1 & Hl2); cbn in Heq; injection Heq as -> -> ->;
      [by rewrite decide_True|].
    cbn in Hl1. apply not_elem_of_cons in Hl1 as [Hne Hl1]. rewrite decide_False by done. eauto.
  - case_decide as Hk.
    + intros [-> Hl]. exists [], l. subst. split_and!; [done|apply not_elem_of_nil|done].
    + intros (l1 & l2 & -> & Hl1 & Hl2). exists ((k', w) :: l1), l2. split_and!; [done| |done].
      cbn. by apply not_elem_of_cons.
Qed.

Lemma get_field_once k v l : get_field k l = Once v ↔ member k v l.
Proof.
  induction l as [|[k' w] l IH].
  - split; [done|]. intros (l1 & l2 & Heq & _). by destruct l1.
  - rewrite member_cons. cbn [get_field]. case_decide; [|done].
    rewrite <- get_field_absent. destruct (get_field k l); naive_solver.
Qed.

Lemma required_member k v l : required (get_field k l) = Some v ↔ member k v l.
Proof. rewrite <- get_field_once. destruct (get_field k l); naive_solver. Qed.







Lemma as_string_spec v s : as_string v = Some s ↔ v = VStr s.
Proof. destruct v; cbn; naive_solver. Qed.

(** A member that is a string. *)
Lemma string_member k l s :
  (∃ v, required (get_field k l) = Some v ∧ as_string v = Some s) ↔ member k (VStr s) l.
Proof. rewrite <- required_member. setoid_rewrite as_string_spec. naive_solver. Qed.





(** Where [first_supported] stops. *)
Lemma first_supported_spec items :
  (∃ before item after, items = before ++ item :: after ∧
     trim item = first_supported items ∧
     (∀ x, x ∈ before → trim x ≠ SUB_PROTOCOL_MSGPACK ∧ trim x ≠ SUB_PROTOCOL_JSON)) ∨
  (first_supported items = SUB_PROTOCOL_JSON ∧
     ∀ x, x ∈ items → trim x ≠ SUB_PROTOCOL_MSGPACK ∧ trim x ≠ SUB_PROTOCOL_JSON).
Proof.
  induction items as [|item items IH]; [right; set_solver|].
  cbn [first_supported]. cbv zeta.
  destruct (decide (trim item = SUB_PROTOCOL_MSGPACK)); [left; exists [], item, items; set_solver|].
  destruct (decide (trim item = SUB_PROTOCOL_JSON)); [left; exists [], item, items; set_solver|].
  destruct IH as [(bf & it & af & -> & ? & ?)|[? ?]].
  - left. exists (item :: bf), it, af. set_solver.
  - right. set_solver.
Qed.

Lemma first_supported_cases items :
  first_supported items = SUB_PROTOCOL_JSON ∨ first_supported items = SUB_PROTOCOL_MSGPACK.
Proof. induction items; cbn [first_supported]; cbv zeta; [by left|]. repeat case_decide; auto. Qed.

(** ** Properties *)

(** A client frame printed by a codec's library is decoded by that codec to the same frame,
    for JSON and for MessagePack. *)
Lemma codec_client_frame_roundtrip (json rmp : WireLib) `{!WireLaws json} `{!WireLaws rmp}
    (f : ClientFrame) (b : string) :
  (wire_print json (client_frame_to_value f) = Ok b → decode (json_codec json) b = Ok f) ∧
  (wire_print rmp (client_frame_to_value f) = Ok b → decode (msgpack_codec rmp) b = Ok f).
Proof. split; intros Hp; simpl; by rewrite (frame_from_slice_roundtrip _ _ _ Hp). Qed.


(** C37. What a codec encodes for a client reads back, through the same library, as the same
    server message, optional fields and payload included, when the payload has no
    floating-point numbers and is nested at most 126 deep (the reader's limit is 127). *)
Theorem codec_server_message_roundtrip (json rmp : WireLib) `{!WireLaws json} `{!WireLaws rmp}
    (protocol : string) (c : Codec) (m : ServerMessage) (b : string) :
  json_canonical (message_payload m) → float_free (message_payload m) = true →
  (value_depth (message_payload m) < WIRE_DEPTH)%nat →
  codec_for_protocol json rmp protocol = Some c → encode c m = Ok b →
  ∃ v, wire_parse (if decide (protocol = SUB_PROTOCOL_JSON) then json else rmp) b = Ok v ∧
       server_message_of_value v = Some m.
Proof.
  intros Hc Hf Hd Hcodec Henc. exists (server_message_to_value m).
  split; [|by apply server_message_of_to_value].
  pose proof (server_message_float_free m Hf) as Hff. pose proof (server_message_depth m Hd) as Hdd.
  unfold codec_for_protocol in Hcodec. case_decide; [|case_decide; [|done]]; simplify_eq/=;
    destruct (wire_print _ _) eqn:Hp; simplify_eq/=; by apply (wire_roundtrip _ _ Hff Hdd).
Qed.

(** A hello object whose [last_seq] is a string, as two documents of the repository
    write it, and which carries no command, is not a frame: decoding fails. *)
Theorem string_last_seq_is_rejected l n :
  get_field "last_seq" l = Once (VStr n) → get_field "command" l = Absent →
  client_frame_of_value (VObj l) = None.
Proof.
  intros Hs Hc. unfold client_frame_of_value; simpl. rewrite Hs, Hc; simpl.
  by destruct (required (get_field "type" l)) as [v|]; [destruct (hello_tag v)|].
Qed.

(** Negotiation picks the first supported protocol of the client's list, JSON when there
    is none, and the result always has a codec, so accepting the socket cannot panic on it. *)
Theorem negotiated_protocol_has_codec (json rmp : WireLib) (header : string) :
  is_Some (codec_for_protocol json rmp (negotiate_protocol header)) ∧
  ((∃ before item after, split ","%char header = before ++ item :: after ∧
      trim item = negotiate_protocol header ∧
      ∀ x, x ∈ before → trim x ≠ SUB_PROTOCOL_MSGPACK ∧ trim x ≠ SUB_PROTOCOL_JSON) ∨
   (negotiate_protocol header = SUB_PROTOCOL_JSON ∧
      ∀ x, x ∈ split ","%char header →
        trim x ≠ SUB_PROTOCOL_MSGPACK ∧ trim x ≠ SUB_PROTOCOL_JSON)).
Proof.
  unfold negotiate_protocol. split; [|apply first_supported_spec].
  destruct (first_supported_cases (split "," header)) as [-> | ->]; by vm_compute; eexists.
Qed.

(** ** Witnesses *)

(** A library whose wire format prints a few frames and knows them back. *)
Definition demo_frame : ClientFrame := Hello (mkHello (Some 42%Z) ["replay_v1"]).

Definition demo_lib : WireLib := {|
  wire_parse b :=
    if decide (b = "frame") then Ok (client_frame_to_value demo_frame)
    else if decide (b = "ping") then Ok (server_message_to_value (Ping 7)) else Err "syntax";
  wire_print v :=
    match v with
    | VObj [("type", VStr "hello"); ("last_seq", VNum (NPos 42));
            ("capabilities", VArr [VStr "replay_v1"])] => Ok "frame"
    | VObj [("type", VStr "ping"); ("message", VNum (NPos 7))] => Ok "ping"
    | _ => Err "unsupported"
    end;
  wire_mismatch _ := "no variant" |}.

#[export] Instance demo_lib_laws : WireLaws demo_lib.
Proof.
  split. intros v b _ _. cbn [wire_print demo_lib].
  repeat (case_match; try discriminate); intros [= <-]; reflexivity.
Qed.

Example demo_frame_read : decode (json_codec demo_lib) "frame" = Ok demo_frame.
Proof. by apply (codec_client_frame_roundtrip demo_lib demo_lib demo_frame "frame"). Qed.



Lemma codec_server_message_roundtrip_witness :
  ∃ v, wire_parse demo_lib "ping" = Ok v ∧ server_message_of_value v = Some (Ping 7).
Proof.
  exact (codec_server_message_roundtrip demo_lib demo_lib SUB_PROTOCOL_JSON
    (json_codec demo_lib) (Ping 7) "ping" eq_refl eq_refl ltac:(unfold WIRE_DEPTH; cbn; lia) eq_refl eq_refl).
Defined.

Lemma string_last_seq_is_rejected_witness :
  client_frame_of_value (VObj [("type", VStr "hello"); ("last_seq", VStr "8841")]) = None.
Proof. apply (string_last_seq_is_rejected _ "8841"); reflexivity. Defined.

(** The frames of the test suite, evaluated. *)
Example decode_examples :
  client_frame_of_value (VObj [("type", VStr "hello")]) = Some (Hello (mkHello None [])) ∧
  client_frame_of_value (VObj [("command", VStr "subscribe")]) = None ∧
  client_frame_of_value (VObj [("command", VStr "unknown_cmd"); ("identifier", VStr "t")]) = None ∧
  client_frame_of_value (VObj [("command", VStr "message"); ("identifier", VStr "c")]) = None ∧
  negotiate_protocol "foo, turbocable-v1-msgpack ,actioncable-v1-json" = SUB_PROTOCOL_MSGPACK.
Proof. by vm_compute. Qed.
