(* ===== verification/Json.v ===== *)
(** * JSON text

    A concrete reader and printer of JSON, as an instance of the serialization library the
    codecs of [Protocol] are parametric in.  It stands in for serde_json where a frame is to
    be run from its bytes: the laws assumed of the library hold of it, and the repository's
    tests run on the byte strings they are written with ([Tests]).  Integers have the ranges
    of [u64] and [i64]; floats are not printed and not read; bytes above 127 are taken as they
    are. *)

From stdpp Require Import base list strings sets.
From Stdlib Require Import ZArith Lia Ascii String DecimalString DecimalN DecimalPos.
From S2P Require Import Prelude Text Protocol.

Local Open Scope string_scope.
Local Open Scope list_scope.
Local Open Scope nat_scope.

(** ** Characters and strings *)

Definition QUOTE : ascii := "034"%char.

Definition hex_char (n : nat) : ascii :=
  ascii_of_nat (if n <? 10 then 48 + n else 87 + n).

Definition hex_value (a : ascii) : option nat :=
  let n := nat_of_ascii a in
  if (48 <=? n) && (n <=? 57) then Some (n - 48)
  else if (97 <=? n) && (n <=? 102) then Some (n - 87)
  else if (65 <=? n) && (n <=? 70) then Some (n - 55)
  else None.

(** A character inside a string literal. *)
Definition escape (a : ascii) : string :=
  let n := nat_of_ascii a in
  if decide (a = QUOTE) then String "\" (String QUOTE "")
  else if decide (a = "\"%char) then "\\"
  else if n <? 32 then "\u00" +:+ String (hex_char (n / 16)) (String (hex_char (n mod 16)) "")
  else String a "".

(** The one-letter escapes. *)
Definition short_escape (a : ascii) : option ascii :=
  if decide (a = QUOTE) then Some QUOTE
  else if decide (a = "\"%char) then Some "\"%char
  else if decide (a = "/"%char) then Some "/"%char
  else if decide (a = "b"%char) then Some (ascii_of_nat 8)
  else if decide (a = "f"%char) then Some (ascii_of_nat 12)
  else if decide (a = "n"%char) then Some (ascii_of_nat 10)
  else if decide (a = "r"%char) then Some (ascii_of_nat 13)
  else if decide (a = "t"%char) then Some (ascii_of_nat 9)
  else None.

(** Four hexadecimal digits of an ASCII character. *)
Definition hex4 (h1 h2 h3 h4 : ascii) : option ascii :=
  match hex_value h1, hex_value h2, hex_value h3, hex_value h4 with
  | Some 0, Some 0, Some hi, Some lo =>
      if hi <? 8 then Some (ascii_of_nat (16 * hi + lo)) else None
  | _, _, _, _ => None
  end.

Definition cons_char (a : ascii) (r : option (string * string)) : option (string * string) :=
  match r with Some (s, rest) => Some (String a s, rest) | None => None end.

(** The rest of a string literal after its opening quote. *)
Fixpoint read_chars (s : string) : option (string * string) :=
  match s with
  | EmptyString => None
  | String a s1 =>
      if decide (a = QUOTE) then Some (EmptyString, s1)
      else if decide (a = "\"%char) then
        match s1 with
        | String c s2 =>
            if decide (c = "u"%char) then
              match s2 with
              | String h1 (String h2 (String h3 (String h4 s3))) =>
                  match hex4 h1 h2 h3 h4 with
                  | Some b => cons_char b (read_chars s3)
                  | None => None
                  end
              | _ => None
              end
            else match short_escape c with
                 | Some b => cons_char b (read_chars s2)
                 | None => None
                 end
        | EmptyString => None
        end
      else if nat_of_ascii a <? 32 then None
      else cons_char a (read_chars s1)
  end.

Fixpoint escape_all (s : string) : string :=
  match s with EmptyString => EmptyString | String a s' => escape a +:+ escape_all s' end.

Definition print_string (s : string) : string := String QUOTE (escape_all s +:+ String QUOTE "").

(** ** Numbers *)

Definition is_digit (a : ascii) : bool :=
  (48 <=? nat_of_ascii a) && (nat_of_ascii a <=? 57).

Fixpoint span_digits (s : string) : string * string :=
  match s with
  | String a s' =>
      if is_digit a then let '(d, rest) := span_digits s' in (String a d, rest) else (EmptyString, s)
  | EmptyString => (EmptyString, EmptyString)
  end.

(** Digits without a superfluous leading zero. *)
Definition read_N (s : string) : option (N * string) :=
  let '(d, rest) := span_digits s in
  match NilZero.uint_of_string d with
  | Some u => let n := N.of_uint u in if decide (print_N n = d) then Some (n, rest) else None
  | None => None
  end.

Definition print_number (n : number) : string :=
  match n with
  | NPos z => print_N (Z.to_N z)
  | NNeg z => String "-" (print_N (Z.to_N (- z)))
  | NFloat _ => ""
  end.

Definition number_fits (n : number) : bool :=
  match n with
  | NPos z => (0 <=? z)%Z && (z <? 2 ^ 64)%Z
  | NNeg z => (- 2 ^ 63 <=? z)%Z && (z <? 0)%Z
  | NFloat _ => false
  end.

(** Integers that do not fit are not read; a fraction or exponent is not consumed and makes
    the text around it malformed. *)
Definition read_number (s : string) : option (value * string) :=
  let signed := match s with String a s' => if decide (a = "-"%char) then Some s' else None | _ => None end in
  match signed with
  | Some s' => match read_N s' with
               | Some (n, rest) =>
                   let x := NNeg (- Z.of_N n) in if number_fits x then Some (VNum x, rest) else None
               | None => None
               end
  | None => match read_N s with
            | Some (n, rest) =>
                let x := NPos (Z.of_N n) in if number_fits x then Some (VNum x, rest) else None
            | None => None
            end
  end.

(** ** Values *)

Fixpoint join (l : list string) : string :=
  match l with
  | [] => ""
  | [x] => x
  | x :: l' => x +:+ String "," (join l')
  end.

Fixpoint print_value (v : value) : string :=
  match v with
  | VNull => "null"
  | VBool true => "true"
  | VBool false => "false"
  | VNum n => print_number n
  | VStr s => print_string s
  | VArr l => String "[" (join (map print_value l) +:+ "]")
  | VObj l => String "{" (join (map (λ kv, print_string kv.1 +:+ String ":" (print_value kv.2)) l) +:+ "}")
  end.

(** Whether all numbers fit. *)
Fixpoint printable (v : value) : bool :=
  match v with
  | VNum n => number_fits n
  | VArr l => forallb printable l
  | VObj l => forallb (λ kv, printable kv.2) l
  | _ => true
  end.

Definition is_space (a : ascii) : bool :=
  let n := nat_of_ascii a in (n =? 32) || (n =? 9) || (n =? 10) || (n =? 13).

Fixpoint skip_ws (s : string) : string :=
  match s with
  | String a s' => if is_space a then skip_ws s' else s
  | EmptyString => EmptyString
  end.

(** The rest after [c], with space before it. *)
Definition expect (c : ascii) (s : string) : option string :=
  match skip_ws s with
  | String a s' => if decide (a = c) then Some s' else None
  | EmptyString => None
  end.

Section Lists.
Context (read : string → option (value * string)).

(** Elements up to the closing bracket. *)
Fixpoint read_elems (fuel : nat) (s : string) : option (list value * string) :=
  match fuel with
  | O => None
  | S fuel' =>
      (let% (v, s1) := read s in
       match expect "," s1 with
       | Some s2 => let% (l, s3) := read_elems fuel' s2 in Some (v :: l, s3)
       | None => let% s2 := expect "]" s1 in Some ([v], s2)
       end)%gw
  end.

Definition read_member (s : string) : option (string * value * string) :=
  (let% s0 := expect QUOTE s in
   let% (k, s1) := read_chars s0 in
   let% s2 := expect ":" s1 in
   let% (v, s3) := read s2 in
   Some (k, v, s3))%gw.

(** Members up to the closing brace. *)
Fixpoint read_members (fuel : nat) (s : string) : option (list (string * value) * string) :=
  match fuel with
  | O => None
  | S fuel' =>
      (let% (kv, s1) := read_member s in
       match expect "," s1 with
       | Some s2 => let% (l, s3) := read_members fuel' s2 in Some (kv :: l, s3)
       | None => let% s2 := expect "}" s1 in Some ([kv], s2)
       end)%gw
  end.
End Lists.

(** A value and what follows it; the fuel bounds its size. *)
Fixpoint read_value (fuel : nat) (s : string) : option (value * string) :=
  match fuel with
  | O => None
  | S fuel' =>
      match skip_ws s with
      | EmptyString => None
      | String a r =>
          if decide (a = "["%char) then
            match expect "]" r with
            | Some r' => Some (VArr [], r')
            | None => (let% (l, r') := read_elems (read_value fuel') fuel' r in Some (VArr l, r'))%gw
            end
          else if decide (a = "{"%char) then
            match expect "}" r with
            | Some r' => Some (VObj [], r')
            | None => (let% (l, r') := read_members (read_value fuel') fuel' r in Some (VObj l, r'))%gw
            end
          else if decide (a = QUOTE) then (let% (s', r') := read_chars r in Some (VStr s', r'))%gw
          else match strip_prefix "null" (String a r) with
               | Some r' => Some (VNull, r')
               | None =>
                   match strip_prefix "true" (String a r) with
                   | Some r' => Some (VBool true, r')
                   | None =>
                       match strip_prefix "false" (String a r) with
                       | Some r' => Some (VBool false, r')
                       | None => read_number (String a r)
                       end
                   end
               end
      end
  end.

(** The library: one value, with nothing but space around it. *)
Definition json_lib : WireLib := {|
  wire_parse s :=
    match read_value (String.length s) s with
    | Some (v, rest) => match skip_ws rest with EmptyString => Ok v | _ => Err "trailing characters" end
    | None => Err "expected value"
    end;
  wire_print v := if printable v then Ok (print_value v) else Err "number out of range";
  wire_mismatch _ := "data did not match any variant of untagged enum ClientFrame" |}.

(** ** Reading back what is printed *)

Lemma read_chars_escape a t : read_chars (escape a +:+ t) = cons_char a (read_chars t).
Proof. destruct a as [[][][][][][][][]]; reflexivity. Qed.

Lemma read_chars_all s t : read_chars (escape_all s +:+ String QUOTE t) = Some (s, t).
Proof.
  induction s as [|a s IH]; [done|]. cbn [escape_all].
  by rewrite str_app_assoc, read_chars_escape, IH.
Qed.

Lemma print_string_app s t :
  print_string s +:+ t = String QUOTE (escape_all s +:+ String QUOTE t).
Proof. exact (f_equal (String QUOTE) (str_app_assoc (escape_all s) (String QUOTE "") t)). Qed.

(** What may follow a number. *)
Definition no_digit (s : string) : Prop :=
  match s with String a _ => is_digit a = false | EmptyString => True end.

Lemma span_digits_stop t : no_digit t → span_digits t = (EmptyString, t).
Proof. destruct t as [|a t]; [done|]. cbn [no_digit span_digits]. by intros ->. Qed.

Lemma span_digits_cons a s t :
  is_digit a = true → span_digits (s +:+ t) = (s, t) →
  span_digits (String a s +:+ t) = (String a s, t).
Proof.
  intros Ha Hs. change (String a s +:+ t) with (String a (s +:+ t)). cbn [span_digits].
  by rewrite Ha, Hs.
Qed.

Lemma span_digits_uint u t :
  no_digit t →
  span_digits (NilEmpty.string_of_uint u +:+ t) = (NilEmpty.string_of_uint u, t).
Proof.
  intros Ht. induction u; cbn [NilEmpty.string_of_uint]; [by apply span_digits_stop|..];
    by apply span_digits_cons.
Qed.

Lemma read_print_N n t : no_digit t → read_N (print_N n +:+ t) = Some (n, t).
Proof.
  intros Ht. unfold read_N.
  assert (span_digits (print_N n +:+ t) = (print_N n, t)) as ->.
  { unfold print_N. destruct (N.to_uint n) eqn:E; cbn [NilZero.string_of_uint];
      [|apply (span_digits_uint (Decimal.D0 u)); done
       |apply (span_digits_uint (Decimal.D1 u)); done
       |apply (span_digits_uint (Decimal.D2 u)); done
       |apply (span_digits_uint (Decimal.D3 u)); done
       |apply (span_digits_uint (Decimal.D4 u)); done
       |apply (span_digits_uint (Decimal.D5 u)); done
       |apply (span_digits_uint (Decimal.D6 u)); done
       |apply (span_digits_uint (Decimal.D7 u)); done
       |apply (span_digits_uint (Decimal.D8 u)); done
       |apply (span_digits_uint (Decimal.D9 u)); done].
    apply (span_digits_uint (Decimal.D0 Decimal.Nil)). done. }
  unfold print_N at 1. rewrite NilZero.usu, DecimalN.Unsigned.of_to.
  - by rewrite decide_True.
  - destruct n; [done|]. apply DecimalPos.Unsigned.to_uint_nonnil.
Qed.

(** A printed natural number starts with a digit. *)
Lemma print_N_digit n : ∃ a s, print_N n = String a s ∧ is_digit a = true.
Proof.
  unfold print_N. destruct (N.to_uint n); eexists _, _; split; reflexivity.
Qed.

Lemma read_print_number n t :
  number_fits n = true → no_digit t → read_number (print_number n +:+ t) = Some (VNum n, t).
Proof.
  intros Hf Ht. unfold read_number. destruct n as [z|z|]; [| |done]; cbn [print_number].
  - destruct (print_N_digit (Z.to_N z)) as (a & s & Hs & Hd).
    pose proof (read_print_N (Z.to_N z) t Ht) as Hr. rewrite Hs in *.
    change (String a s +:+ t) with (String a (s +:+ t)) in *.
    cbv beta iota zeta. rewrite decide_False by (intros ->; done). rewrite Hr.
    cbn in Hf. apply andb_true_iff in Hf as [H1 H2].
    rewrite Z2N.id by (by apply Z.leb_le). cbn. by rewrite H1, H2.
  - change (String "-" ?x +:+ t) with (String "-" (x +:+ t)).
    cbv beta iota zeta. rewrite decide_True by done. rewrite read_print_N by done.
    cbn in Hf. apply andb_true_iff in Hf as [H1 H2]. apply Z.ltb_lt in H2 as H3.
    rewrite Z2N.id, Z.opp_involutive by lia. cbn. by rewrite H1, H2.
Qed.

(** Induction over trees. *)
Section ValueInd.
Context (P : value → Prop).
Context (P_null : P VNull) (P_bool : ∀ b, P (VBool b)) (P_num : ∀ n, P (VNum n)).
Context (P_str : ∀ s, P (VStr s)) (P_arr : ∀ l, Forall P l → P (VArr l)).
Context (P_obj : ∀ l, Forall (λ kv, P kv.2) l → P (VObj l)).

Fixpoint value_tree_ind (v : value) : P v :=
  match v with
  | VNull => P_null
  | VBool b => P_bool b
  | VNum n => P_num n
  | VStr s => P_str s
  | VArr l =>
      P_arr l ((fix go l : Forall P l := match l with
                            | [] => Forall_nil_2 _
                            | x :: l' => Forall_cons_2 _ _ _ (value_tree_ind x) (go l')
                            end) l)
  | VObj l =>
      P_obj l ((fix go l : Forall (λ kv, P kv.2) l := match l with
                            | [] => Forall_nil_2 _
                            | x :: l' => Forall_cons_2 _ _ _ (value_tree_ind x.2) (go l')
                            end) l)
  end.
End ValueInd.

(** The fuel a tree needs. *)
Fixpoint size (v : value) : nat :=
  match v with
  | VArr l => S (sum_list_with size l)
  | VObj l => S (sum_list_with (λ kv, size kv.2) l)
  | _ => 1
  end.

Lemma size_pos v : 0 < size v.
Proof. destruct v; cbn; lia. Qed.

Lemma sum_size {A} (f : A → value) (l : list A) :
  List.length l ≤ sum_list_with (λ x, size (f x)) l ∧
  ∀ x, x ∈ l → size (f x) ≤ sum_list_with (λ x, size (f x)) l.
Proof.
  induction l as [|x l [IH1 IH2]]; cbn; [split; [done|set_solver]|].
  pose proof (size_pos (f x)). split; [lia|].
  intros y [->|Hy]%elem_of_cons; [lia|]. specialize (IH2 y Hy). lia.
Qed.

Definition member_text (kv : string * value) : string :=
  print_string kv.1 +:+ String ":" (print_value kv.2).

(** The first character of a printed value, and of a list of them. *)
Lemma value_head v :
  printable v = true → ∃ a s, print_value v = String a s ∧ is_space a = false ∧ a ≠ "]"%char.
Proof.
  destruct v as [|[]|[z|z|]|s|l|l]; cbn [printable number_fits]; intros Hp; try done;
    try (eexists _, _; split; [reflexivity|done]).
  destruct (print_N_digit (Z.to_N z)) as (a & s & Hs & Hd). exists a, s.
  cbn [print_value print_number]. split; [done|]. destruct a as [[][][][][][][][]]; done.
Qed.

Lemma join_head a s l t : ∃ s', join (String a s :: l) +:+ t = String a s'.
Proof. destruct l; eexists; reflexivity. Qed.

Lemma expect_other c a s : is_space a = false → a ≠ c → expect c (String a s) = None.
Proof. intros Hs Hc. unfold expect. cbn [skip_ws]. rewrite Hs. by rewrite decide_False. Qed.

Lemma read_digits a r fuel :
  is_digit a = true ∨ a = "-"%char → read_value (S fuel) (String a r) = read_number (String a r).
Proof. intros [Ha| ->]; [|done]. destruct a as [[][][][][][][][]]; done. Qed.

Section ListsBack.
Context (read : string → option (value * string)).

Lemma read_elems_back n l t :
  l ≠ [] → List.length l ≤ n →
  (∀ v t, v ∈ l → no_digit t → read (print_value v +:+ t) = Some (v, t)) →
  read_elems read n (join (map print_value l) +:+ String "]" t) = Some (l, t).
Proof.
  revert n. induction l as [|v l IH]; [done|]. intros [|n] _ Hn Hr; [cbn in Hn; lia|].
  destruct l as [|v' l]; cbn [map join read_elems].
  - by rewrite Hr by (done || left).
  - rewrite str_app_assoc, Hr by (done || left).
    change (expect "," _) with (Some (join (map print_value (v' :: l)) +:+ String "]" t)).
    cbv beta iota. rewrite IH; [done|done|cbn in *; lia|]. intros. apply Hr; [by right|done].
Qed.

Lemma read_member_back kv t :
  read (print_value kv.2 +:+ t) = Some (kv.2, t) →
  read_member read (member_text kv +:+ t) = Some (kv, t).
Proof.
  intros Hr. destruct kv as [k v]. unfold member_text, read_member. cbn [fst snd] in *.
  rewrite str_app_assoc, print_string_app. change (expect QUOTE (String QUOTE ?x)) with (Some x).
  cbv beta iota. rewrite read_chars_all.
  change (expect ":" _) with (Some (print_value v +:+ t)). cbv beta iota. by rewrite Hr.
Qed.

Lemma read_members_back n l t :
  l ≠ [] → List.length l ≤ n →
  (∀ kv t, kv ∈ l → no_digit t → read (print_value kv.2 +:+ t) = Some (kv.2, t)) →
  read_members read n (join (map member_text l) +:+ String "}" t) = Some (l, t).
Proof.
  revert n. induction l as [|kv l IH]; [done|]. intros [|n] _ Hn Hr; [cbn in Hn; lia|].
  destruct l as [|kv' l]; cbn [map join read_members].
  - by rewrite read_member_back by (apply Hr; [left|done]).
  - rewrite str_app_assoc, read_member_back by (apply Hr; [left|done]).
    change (expect "," _) with (Some (join (map member_text (kv' :: l)) +:+ String "}" t)).
    cbv beta iota. rewrite IH; [done|done|cbn in *; lia|]. intros. apply Hr; [by right|done].
Qed.
End ListsBack.

Lemma read_array fuel l t :
  l ≠ [] → Forall (λ v, printable v = true) l →
  read_elems (read_value fuel) fuel (join (map print_value l) +:+ String "]" t) = Some (l, t) →
  read_value (S fuel) (print_value (VArr l) +:+ t) = Some (VArr l, t).
Proof.
  intros Hl Hp Hr. destruct l as [|v l]; [done|]. apply Forall_cons in Hp as [Hv _].
  change (print_value (VArr (v :: l)) +:+ t) with
    (String "[" ((join (map print_value (v :: l)) +:+ "]") +:+ t)).
  rewrite str_app_assoc. change ("]" +:+ t) with (String "]" t).
  set (text := join (map print_value (v :: l)) +:+ String "]" t) in *.
  assert (expect "]" text = None) as He.
  { destruct (value_head v Hv) as (a & s & Ha & Hsp & Hne). unfold text. cbn [map]. rewrite Ha.
    destruct (join_head a s (map print_value l) (String "]" t)) as [s' ->].
    by apply expect_other. }
  cbn [read_value]. change (skip_ws (String "[" text)) with (String "[" text). cbv beta iota.
  rewrite decide_True, He, Hr by done. done.
Qed.

Lemma read_object fuel l t :
  l ≠ [] →
  read_members (read_value fuel) fuel (join (map member_text l) +:+ String "}" t) = Some (l, t) →
  read_value (S fuel) (print_value (VObj l) +:+ t) = Some (VObj l, t).
Proof.
  intros Hl Hr. destruct l as [|kv l]; [done|].
  change (print_value (VObj (kv :: l)) +:+ t) with
    (String "{" ((join (map member_text (kv :: l)) +:+ "}") +:+ t)).
  rewrite str_app_assoc. change ("}" +:+ t) with (String "}" t).
  set (text := join (map member_text (kv :: l)) +:+ String "}" t) in *.
  assert (expect "}" text = None) as He.
  { unfold text. cbn [map].
    destruct (join_head QUOTE ((escape_all kv.1 +:+ String QUOTE "") +:+ String ":" (print_value kv.2))
      (map member_text l) (String "}" t)) as [s' Hs'].
    change (member_text kv) with (String QUOTE ((escape_all kv.1 +:+ String QUOTE "") +:+ String ":" (print_value kv.2))).
    rewrite Hs'. by apply expect_other. }
  cbn [read_value]. change (skip_ws (String "{" text)) with (String "{" text). cbv beta iota.
  rewrite decide_False, decide_True, He, Hr by done. done.
Qed.

Lemma read_print_value v fuel t :
  printable v = true → size v ≤ fuel → no_digit t →
  read_value fuel (print_value v +:+ t) = Some (v, t).
Proof.
  revert fuel t. induction v as [|b|n|s|l IH|l IH] using value_tree_ind;
    intros [|fuel] t Hp Hf Ht; try (cbn in Hf; lia).
  - done.
  - by destruct b.
  - cbn [print_value]. cbn in Hp. pose proof (read_print_number n t Hp Ht) as Hr.
    destruct n as [z|z|]; [| |done]; cbn [print_number] in *.
    + destruct (print_N_digit (Z.to_N z)) as (a & s & Hs & Hd). rewrite Hs in *.
      change (String a s +:+ t) with (String a (s +:+ t)) in *. by rewrite read_digits by (by left).
    + change (String "-" ?x +:+ t) with (String "-" (x +:+ t)) in *.
      by rewrite read_digits by (by right).
  - cbn [print_value]. rewrite print_string_app.
    change (read_value (S fuel) (String QUOTE ?x)) with
      (let% (s', r') := read_chars x in Some (VStr s', r'))%gw. by rewrite read_chars_all.
  - destruct l as [|v0 l0]; [done|]. remember (v0 :: l0) as l eqn:Hl.
    cbn in Hf, Hp. rewrite forallb_forall in Hp. rewrite Forall_forall in IH.
    destruct (sum_size (λ x, x) l) as [Hlen Hsz];
      change (λ x : value, size x) with size in *. apply read_array; [by subst| |].
    { rewrite Forall_forall. intros v Hv. by apply Hp, list_elem_of_In. }
    apply read_elems_back; [by subst|lia|]. intros v t' Hv Ht'.
    specialize (Hsz v Hv). apply IH; [done|by apply Hp, list_elem_of_In|lia|done].
  - destruct l as [|v0 l0]; [done|]. remember (v0 :: l0) as l eqn:Hl.
    cbn in Hf, Hp. rewrite forallb_forall in Hp. rewrite Forall_forall in IH.
    destruct (sum_size snd l) as [Hlen Hsz]. apply read_object; [by subst|].
    apply read_members_back; [by subst|lia|]. intros kv t' Hv Ht'.
    specialize (Hsz kv Hv). apply IH; [done|by apply Hp, list_elem_of_In|lia|done].
Qed.

(** The text is long enough to be the fuel. *)
Lemma join_length l : sum_list_with String.length l ≤ String.length (join l).
Proof.
  induction l as [|x [|y l] IH]; cbn [join sum_list_with] in *; [done|lia|].
  rewrite str_length_app. cbn [String.length]. lia.
Qed.

Lemma sum_list_le {A} (f g : A → nat) l :
  (∀ x, x ∈ l → f x ≤ g x) → sum_list_with f l ≤ sum_list_with g l.
Proof.
  intros Hle. induction l as [|x l IH]; cbn; [done|].
  pose proof (Hle x ltac:(left)). specialize (IH ltac:(intros; apply Hle; by right)). lia.
Qed.

Lemma size_print v : printable v = true → size v ≤ String.length (print_value v).
Proof.
  induction v as [|b|n|s|l IH|l IH] using value_tree_ind; intros Hp.
  - cbn. lia.
  - destruct b; cbn; lia.
  - destruct (value_head (VNum n) Hp) as (a & s & -> & _). cbn. lia.
  - cbn. lia.
  - cbn in Hp. rewrite forallb_forall in Hp. rewrite Forall_forall in IH.
    cbn [print_value String.length size]. rewrite str_length_app. cbn [String.length].
    pose proof (join_length (map print_value l)) as Hj.
    pose proof (sum_list_le size (String.length ∘ print_value) l) as Hs.
    assert (sum_list_with String.length (map print_value l) =
            sum_list_with (String.length ∘ print_value) l) as He
      by (clear; induction l; cbn; lia).
    specialize (Hs ltac:(intros v Hv; apply IH; [done|by apply Hp, list_elem_of_In])). lia.
  - cbn in Hp. rewrite forallb_forall in Hp. rewrite Forall_forall in IH.
    change (print_value (VObj l)) with (String "{" (join (map member_text l) +:+ "}")).
    cbn [String.length size]. rewrite str_length_app. cbn [String.length].
    pose proof (join_length (map member_text l)) as Hj.
    pose proof (sum_list_le (λ kv, size kv.2) (String.length ∘ member_text) l) as Hs.
    assert (sum_list_with String.length (map member_text l) =
            sum_list_with (String.length ∘ member_text) l) as He
      by (clear; induction l; cbn; lia).
    specialize (Hs ltac:(intros kv Hv; cbn; unfold member_text; rewrite str_length_app; cbn;
      pose proof (IH kv Hv ltac:(by apply Hp, list_elem_of_In)); lia)). lia.
Qed.

Lemma str_app_nil_r (s : string) : s +:+ "" = s.
Proof. induction s as [|a s IH]; [done|]. exact (f_equal (String a) IH). Qed.

(** The laws the codecs rely on. *)
#[export] Instance json_lib_laws : WireLaws json_lib.
Proof.
  split. intros v b _ _. cbn [wire_print wire_parse json_lib].
  destruct (printable v) eqn:Hp; [|done]. intros [= <-].
  pose proof (read_print_value v (String.length (print_value v)) "" Hp (size_print v Hp) I) as Hr.
  rewrite str_app_nil_r in Hr. by rewrite Hr.
Qed.
