(* ===== verification/Msgpack.v ===== *)
(** * MessagePack bytes

    A concrete reader and writer of MessagePack, as an instance of the serialization library
    the binary codec of [Protocol] is parametric in; it stands in for rmp_serde, as [Json] does
    for serde_json.  A value is a head, its format byte with a number, a length or a constant,
    followed by the bytes, elements or members the head announces.  Writing takes the shortest
    format; all formats are read except the 32-bit float, binary and extension ones, and what
    follows the value is ignored.  Map keys are strings. *)

From stdpp Require Import base list strings sets.
From Stdlib Require Import ZArith Lia Ascii String.
From S2P Require Import Prelude Text Protocol Json.

Local Open Scope string_scope.
Local Open Scope list_scope.
Local Open Scope Z_scope.

(** ** Bytes and big-endian numbers *)

Definition byte_of (z : Z) : ascii := ascii_of_N (Z.to_N (z mod 256)).
Definition byte_val (a : ascii) : Z := Z.of_N (N_of_ascii a).

(** The [k] lowest bytes of a number, the highest first. *)
Fixpoint be (k : nat) (z : Z) : string :=
  match k with
  | O => ""
  | S k => String (byte_of (z / 256 ^ Z.of_nat k)) (be k z)
  end.

Fixpoint read_be (k : nat) (acc : Z) (s : string) : option (Z * string) :=
  match k with
  | O => Some (acc, s)
  | S k => match s with
           | String a s' => read_be k (acc * 256 + byte_val a) s'
           | EmptyString => None
           end
  end.

(** The number [k] bytes stand for in two's complement. *)
Definition signed (k : nat) (z : Z) : Z :=
  if z <? 2 ^ (8 * Z.of_nat k - 1) then z else z - 2 ^ (8 * Z.of_nat k).

(** [k] bytes and what follows them. *)
Fixpoint take_bytes (k : nat) (s : string) : option (string * string) :=
  match k with
  | O => Some ("", s)
  | S k => match s with
           | String a s' => cons_char a (take_bytes k s')
           | EmptyString => None
           end
  end.

(** ** Heads *)

Inductive head : Type :=
| HNil
| HBool (b : bool)
| HNum (n : number)
| HStr (len : Z)
| HArr (len : Z)
| HMap (len : Z).

(** A format byte followed by a number of [k] bytes. *)
Definition tagged (tag : Z) (k : nat) (z : Z) : string := String (byte_of tag) (be k z).

Definition print_head (h : head) : string :=
  match h with
  | HNil => tagged 192 0 0
  | HBool b => tagged (if b then 195 else 194) 0 0
  | HNum (NPos n) =>
      if n <? 128 then tagged n 0 0
      else if n <? 2 ^ 8 then tagged 204 1 n
      else if n <? 2 ^ 16 then tagged 205 2 n
      else if n <? 2 ^ 32 then tagged 206 4 n
      else tagged 207 8 n
  | HNum (NNeg n) =>
      if -32 <=? n then tagged (n + 256) 0 0
      else if - 2 ^ 7 <=? n then tagged 208 1 n
      else if - 2 ^ 15 <=? n then tagged 209 2 n
      else if - 2 ^ 31 <=? n then tagged 210 4 n
      else tagged 211 8 n
  | HNum (NFloat bits) => tagged 203 8 bits
  | HStr n =>
      if n <? 32 then tagged (160 + n) 0 0
      else if n <? 2 ^ 8 then tagged 217 1 n
      else if n <? 2 ^ 16 then tagged 218 2 n
      else tagged 219 4 n
  | HArr n =>
      if n <? 16 then tagged (144 + n) 0 0
      else if n <? 2 ^ 16 then tagged 220 2 n
      else tagged 221 4 n
  | HMap n =>
      if n <? 16 then tagged (128 + n) 0 0
      else if n <? 2 ^ 16 then tagged 222 2 n
      else tagged 223 4 n
  end.

(** What a format byte announces: a head, or a number of bytes and the head they give. *)
Definition int_of (z : Z) : number := if z <? 0 then NNeg z else NPos z.

Definition format (tag : Z) : option (nat * (Z → head)) :=
  if tag <? 128 then Some (0%nat, λ _, HNum (NPos tag))
  else if tag <? 144 then Some (0%nat, λ _, HMap (tag - 128))
  else if tag <? 160 then Some (0%nat, λ _, HArr (tag - 144))
  else if tag <? 192 then Some (0%nat, λ _, HStr (tag - 160))
  else if 224 <=? tag then Some (0%nat, λ _, HNum (NNeg (tag - 256)))
  else if tag =? 192 then Some (0%nat, λ _, HNil)
  else if tag =? 194 then Some (0%nat, λ _, HBool false)
  else if tag =? 195 then Some (0%nat, λ _, HBool true)
  else if tag =? 203 then Some (8%nat, λ z, HNum (NFloat z))
  else if tag =? 204 then Some (1%nat, λ z, HNum (NPos z))
  else if tag =? 205 then Some (2%nat, λ z, HNum (NPos z))
  else if tag =? 206 then Some (4%nat, λ z, HNum (NPos z))
  else if tag =? 207 then Some (8%nat, λ z, HNum (NPos z))
  else if tag =? 208 then Some (1%nat, λ z, HNum (int_of (signed 1 z)))
  else if tag =? 209 then Some (2%nat, λ z, HNum (int_of (signed 2 z)))
  else if tag =? 210 then Some (4%nat, λ z, HNum (int_of (signed 4 z)))
  else if tag =? 211 then Some (8%nat, λ z, HNum (int_of (signed 8 z)))
  else if tag =? 217 then Some (1%nat, HStr)
  else if tag =? 218 then Some (2%nat, HStr)
  else if tag =? 219 then Some (4%nat, HStr)
  else if tag =? 220 then Some (2%nat, HArr)
  else if tag =? 221 then Some (4%nat, HArr)
  else if tag =? 222 then Some (2%nat, HMap)
  else if tag =? 223 then Some (4%nat, HMap)
  else None.

Definition read_head (s : string) : option (head * string) :=
  match s with
  | EmptyString => None
  | String a s' =>
      (let% (k, f) := format (byte_val a) in
       let% (z, s'') := read_be k 0 s' in
       Some (f z, s''))%gw
  end.

(** ** Values *)

Fixpoint pack (v : value) : string :=
  match v with
  | VNull => print_head HNil
  | VBool b => print_head (HBool b)
  | VNum n => print_head (HNum n)
  | VStr s => print_head (HStr (Z.of_nat (String.length s))) +:+ s
  | VArr l => print_head (HArr (Z.of_nat (List.length l))) +:+ foldr (λ v s, pack v +:+ s) "" l
  | VObj l =>
      print_head (HMap (Z.of_nat (List.length l))) +:+
      foldr (λ kv s, (print_head (HStr (Z.of_nat (String.length kv.1))) +:+ kv.1 +:+ pack kv.2) +:+ s) "" l
  end.

(** Numbers and lengths in range. *)
Definition head_fits (h : head) : bool :=
  match h with
  | HNum (NPos n) | HNum (NFloat n) => (0 <=? n) && (n <? 2 ^ 64)
  | HNum (NNeg n) => (- 2 ^ 63 <=? n) && (n <? 0)
  | HStr n | HArr n | HMap n => (0 <=? n) && (n <? 2 ^ 32)
  | _ => true
  end.

Definition length_fits (n : nat) : bool := Z.of_nat n <? 2 ^ 32.

Fixpoint packable (v : value) : bool :=
  match v with
  | VNum n => head_fits (HNum n)
  | VStr s => length_fits (String.length s)
  | VArr l => length_fits (List.length l) && forallb packable l
  | VObj l => length_fits (List.length l) &&
              forallb (λ kv, length_fits (String.length kv.1) && packable kv.2) l
  | _ => true
  end.

Section Items.
Context {A : Type} (read : string → option (A * string)).

(** [n] items; the fuel bounds their number. *)
Fixpoint read_items (fuel : nat) (n : Z) (s : string) : option (list A * string) :=
  if n <=? 0 then Some ([], s)
  else match fuel with
       | O => None
       | S fuel =>
           (let% (x, s1) := read s in
            let% (l, s2) := read_items fuel (n - 1) s1 in
            Some (x :: l, s2))%gw
       end.
End Items.

(** The bytes of a string whose head has been read. *)
Definition read_bytes (n : Z) (s : string) : option (string * string) :=
  if n <=? Z.of_nat (String.length s) then take_bytes (Z.to_nat n) s else None.

(** A string, as the key of a member. *)
Definition read_key (s : string) : option (string * string) :=
  match read_head s with
  | Some (HStr n, s1) => read_bytes n s1
  | _ => None
  end.

Definition read_pair (read : string → option (value * string)) (s : string)
    : option (string * value * string) :=
  (let% (k, s1) := read_key s in
   let% (v, s2) := read s1 in
   Some (k, v, s2))%gw.

(** A value and what follows it; the fuel bounds its size. *)
Fixpoint unpack (fuel : nat) (s : string) : option (value * string) :=
  match fuel with
  | O => None
  | S fuel' =>
      match read_head s with
      | Some (HNil, s1) => Some (VNull, s1)
      | Some (HBool b, s1) => Some (VBool b, s1)
      | Some (HNum n, s1) => Some (VNum n, s1)
      | Some (HStr n, s1) => (let% (x, s2) := read_bytes n s1 in Some (VStr x, s2))%gw
      | Some (HArr n, s1) => (let% (l, s2) := read_items (unpack fuel') fuel' n s1 in Some (VArr l, s2))%gw
      | Some (HMap n, s1) =>
          (let% (l, s2) := read_items (read_pair (unpack fuel')) fuel' n s1 in Some (VObj l, s2))%gw
      | None => None
      end
  end.

(** The library. *)
Definition msgpack_lib : WireLib := {|
  wire_parse s :=
    match unpack (String.length s) s with
    | Some (v, _) => Ok v
    | None => Err "invalid MessagePack"
    end;
  wire_print v := if packable v then Ok (pack v) else Err "length or number out of range";
  wire_mismatch _ := "data did not match any variant of untagged enum ClientFrame" |}.

(** ** Reading back what is written *)

Lemma byte_val_of z : byte_val (byte_of z) = z mod 256.
Proof.
  unfold byte_val, byte_of. pose proof (Z.mod_pos_bound z 256 ltac:(lia)).
  rewrite N_ascii_embedding by lia. lia.
Qed.

Lemma pow256 k : 256 ^ Z.of_nat (S k) = 256 * 256 ^ Z.of_nat k.
Proof. rewrite Nat2Z.inj_succ, Z.pow_succ_r by lia. done. Qed.

Lemma read_be_be k z acc t :
  read_be k acc (be k z +:+ t) = Some (acc * 256 ^ Z.of_nat k + z mod 256 ^ Z.of_nat k, t).
Proof.
  revert acc. induction k as [|k IH]; intros acc.
  { cbn. rewrite Z.mod_1_r. repeat f_equal. lia. }
  cbn [be]. change (String ?a ?x +:+ t) with (String a (x +:+ t)). cbn [read_be].
  rewrite IH, byte_val_of, pow256. do 2 f_equal.
  assert (0 < 256 ^ Z.of_nat k) by (apply Z.pow_pos_nonneg; lia).
  rewrite (Z.mul_comm 256 (256 ^ _)), (Z.rem_mul_r z (256 ^ Z.of_nat k) 256) by lia. ring.
Qed.

Lemma signed_mod k z :
  (0 < k)%nat → - 2 ^ (8 * Z.of_nat k - 1) <= z < 2 ^ (8 * Z.of_nat k - 1) →
  signed k (z mod 256 ^ Z.of_nat k) = z.
Proof.
  intros Hk Hz. unfold signed. change 256 with (2 ^ 8). rewrite <- Z.pow_mul_r by lia.
  set (w := 8 * Z.of_nat k) in *.
  assert (2 ^ w = 2 * 2 ^ (w - 1)) as Hw by (rewrite <- Z.pow_succ_r by lia; f_equal; lia).
  destruct (Z_lt_le_dec z 0).
  - assert (z mod 2 ^ w = z + 2 ^ w) as -> by (symmetry; apply Z.mod_unique_pos with (-1); lia).
    destruct (Z.ltb_spec (z + 2 ^ w) (2 ^ (w - 1))); lia.
  - rewrite Z.mod_small by lia. destruct (Z.ltb_spec z (2 ^ (w - 1))); lia.
Qed.

Lemma take_bytes_app s t : take_bytes (String.length s) (s +:+ t) = Some (s, t).
Proof.
  induction s as [|a s IH]; [done|]. change (String a s +:+ t) with (String a (s +:+ t)).
  cbn [String.length take_bytes]. by rewrite IH.
Qed.

Lemma read_bytes_app s t : read_bytes (Z.of_nat (String.length s)) (s +:+ t) = Some (s, t).
Proof.
  unfold read_bytes. rewrite str_length_app, Nat2Z.id, take_bytes_app.
  destruct (Z.leb_spec (Z.of_nat (String.length s)) (Z.of_nat (String.length s + String.length t))); [done|lia].
Qed.

Lemma read_head_tagged tag k z f h t :
  0 <= tag < 256 → format tag = Some (k, f) → f (z mod 256 ^ Z.of_nat k) = h →
  read_head (tagged tag k z +:+ t) = Some (h, t).
Proof.
  intros Ht Hf <-. unfold tagged. change (String ?a ?x +:+ t) with (String a (x +:+ t)). cbn [read_head].
  rewrite byte_val_of, Z.mod_small by lia. rewrite Hf, read_be_be. by rewrite Z.mul_0_l.
Qed.

Lemma int_of_neg z : z < 0 → int_of z = NNeg z.
Proof. unfold int_of. by destruct (Z.ltb_spec z 0); [|lia]. Qed.

(** The formats whose byte carries the value. *)
Ltac resolve_tests :=
  repeat match goal with
         | |- context [?a <? ?b] => destruct (Z.ltb_spec a b); try lia
         | |- context [?a <=? ?b] => destruct (Z.leb_spec a b); try lia
         end.

Lemma format_pos n : 0 <= n < 128 → format n = Some (0%nat, λ _, HNum (NPos n)).
Proof. intros. unfold format. by resolve_tests. Qed.
Lemma format_map n : 0 <= n < 16 → format (128 + n) = Some (0%nat, λ _, HMap (128 + n - 128)).
Proof. intros. unfold format. by resolve_tests. Qed.
Lemma format_arr n : 0 <= n < 16 → format (144 + n) = Some (0%nat, λ _, HArr (144 + n - 144)).
Proof. intros. unfold format. by resolve_tests. Qed.
Lemma format_str n : 0 <= n < 32 → format (160 + n) = Some (0%nat, λ _, HStr (160 + n - 160)).
Proof. intros. unfold format. by resolve_tests. Qed.
Lemma format_neg n : -32 <= n < 0 → format (n + 256) = Some (0%nat, λ _, HNum (NNeg (n + 256 - 256))).
Proof. intros. unfold format. by resolve_tests. Qed.

(** The numbers of 1, 2, 4 and 8 bytes. *)
Lemma unsigned_1 n : 0 <= n < 2 ^ 8 → n mod 256 ^ Z.of_nat 1 = n.
Proof. intros. by apply Z.mod_small. Qed.
Lemma signed_1 n : - 2 ^ 7 <= n < 2 ^ 7 → signed 1 (n mod 256 ^ Z.of_nat 1) = n.
Proof. intros. by apply signed_mod; [lia|]. Qed.
Lemma unsigned_2 n : 0 <= n < 2 ^ 16 → n mod 256 ^ Z.of_nat 2 = n.
Proof. intros. by apply Z.mod_small. Qed.
Lemma signed_2 n : - 2 ^ 15 <= n < 2 ^ 15 → signed 2 (n mod 256 ^ Z.of_nat 2) = n.
Proof. intros. by apply signed_mod; [lia|]. Qed.
Lemma unsigned_4 n : 0 <= n < 2 ^ 32 → n mod 256 ^ Z.of_nat 4 = n.
Proof. intros. by apply Z.mod_small. Qed.
Lemma signed_4 n : - 2 ^ 31 <= n < 2 ^ 31 → signed 4 (n mod 256 ^ Z.of_nat 4) = n.
Proof. intros. by apply signed_mod; [lia|]. Qed.
Lemma unsigned_8 n : 0 <= n < 2 ^ 64 → n mod 256 ^ Z.of_nat 8 = n.
Proof. intros. by apply Z.mod_small. Qed.
Lemma signed_8 n : - 2 ^ 63 <= n < 2 ^ 63 → signed 8 (n mod 256 ^ Z.of_nat 8) = n.
Proof. intros. by apply signed_mod; [lia|]. Qed.

Ltac in_tag H := eapply read_head_tagged; [lia|apply H; lia|]; cbv beta; do 2 f_equal; lia.
Ltac in_bytes H := eapply read_head_tagged; [lia|reflexivity|]; cbv beta; rewrite H by lia; try done.

Lemma read_print_head h t : head_fits h = true → read_head (print_head h +:+ t) = Some (h, t).
Proof.
  intros Hf. destruct h as [|b|[n|n|n]|n|n|n]; cbn [head_fits] in Hf;
    rewrite ?andb_true_iff, ?Z.leb_le, ?Z.ltb_lt in Hf; cbn [print_head].
  - by eapply read_head_tagged.
  - destruct b; by eapply read_head_tagged.
  - resolve_tests; [in_tag format_pos|in_bytes (unsigned_1 n)|in_bytes (unsigned_2 n)
                   |in_bytes (unsigned_4 n)|in_bytes (unsigned_8 n)].
  - resolve_tests; [in_tag format_neg|in_bytes (signed_1 n)|in_bytes (signed_2 n)
                   |in_bytes (signed_4 n)|in_bytes (signed_8 n)];
      by rewrite int_of_neg by lia.
  - in_bytes (unsigned_8 n).
  - resolve_tests; [in_tag format_str|in_bytes (unsigned_1 n)|in_bytes (unsigned_2 n)|in_bytes (unsigned_4 n)].
  - resolve_tests; [in_tag format_arr|in_bytes (unsigned_2 n)|in_bytes (unsigned_4 n)].
  - resolve_tests; [in_tag format_map|in_bytes (unsigned_2 n)|in_bytes (unsigned_4 n)].
Qed.

(** Items one after the other. *)
Definition concat_with {A} (pr : A → string) (l : list A) : string := foldr (λ x s, pr x +:+ s) "" l.

Lemma read_items_back {A} (read : string → option (A * string)) (pr : A → string) l fuel t :
  (List.length l <= fuel)%nat →
  (∀ x t, x ∈ l → read (pr x +:+ t) = Some (x, t)) →
  read_items read fuel (Z.of_nat (List.length l)) (concat_with pr l +:+ t) = Some (l, t).
Proof.
  revert fuel. induction l as [|x l IH]; intros fuel Hf Hr; [by destruct fuel|].
  destruct fuel as [|fuel]; [cbn in Hf; lia|]. cbn [List.length concat_with foldr] in *.
  rewrite str_app_assoc. cbn [read_items]. rewrite Hr by left.
  destruct (Z.leb_spec (Z.of_nat (S (List.length l))) 0); [lia|].
  replace (Z.of_nat (S (List.length l)) - 1) with (Z.of_nat (List.length l)) by lia.
  change (foldr _ "" l) with (concat_with pr l). rewrite IH; [done|lia|]. intros. apply Hr. by right.
Qed.

Definition member_bytes (kv : string * value) : string :=
  print_head (HStr (Z.of_nat (String.length kv.1))) +:+ kv.1 +:+ pack kv.2.

Lemma pack_arr l : pack (VArr l) = print_head (HArr (Z.of_nat (List.length l))) +:+ concat_with pack l.
Proof. done. Qed.

Lemma pack_obj l : pack (VObj l) = print_head (HMap (Z.of_nat (List.length l))) +:+ concat_with member_bytes l.
Proof. done. Qed.

Lemma length_fits_head n :
  length_fits n = true →
  head_fits (HStr (Z.of_nat n)) = true ∧ head_fits (HArr (Z.of_nat n)) = true ∧
  head_fits (HMap (Z.of_nat n)) = true.
Proof.
  unfold length_fits. cbn [head_fits]. intros ->. rewrite andb_true_r, Z.leb_le. lia.
Qed.

Lemma read_pair_back read kv t :
  length_fits (String.length kv.1) = true → read (pack kv.2 +:+ t) = Some (kv.2, t) →
  read_pair read (member_bytes kv +:+ t) = Some (kv, t).
Proof.
  intros Hk Hr. destruct kv as [k v]. unfold read_pair, read_key, member_bytes. cbn [fst snd] in *.
  rewrite !str_app_assoc, read_print_head by (by apply length_fits_head).
  rewrite read_bytes_app. by rewrite Hr.
Qed.

Lemma unpack_pack v fuel t :
  packable v = true → (size v <= fuel)%nat → unpack fuel (pack v +:+ t) = Some (v, t).
Proof.
  revert fuel t. induction v as [|b|n|s|l IH|l IH] using value_tree_ind;
    intros [|fuel] t Hp Hf; try (pose proof (size_pos VNull); cbn in Hf; lia).
  - cbn [unpack pack]. by rewrite read_print_head.
  - cbn [unpack pack]. by rewrite read_print_head.
  - cbn [unpack pack]. by rewrite read_print_head.
  - cbn [unpack pack]. cbn in Hp. rewrite str_app_assoc, read_print_head by (by apply length_fits_head).
    by rewrite read_bytes_app.
  - cbn in Hf, Hp. apply andb_true_iff in Hp as [Hlen Hp]. rewrite forallb_forall in Hp.
    rewrite Forall_forall in IH. destruct (sum_size (λ x, x) l) as [Hn Hsz].
    change (λ x : value, size x) with size in *. rewrite pack_arr, str_app_assoc. cbn [unpack].
    rewrite read_print_head by (by apply length_fits_head).
    rewrite read_items_back; [done|lia|]. intros v t' Hv. specialize (Hsz v Hv).
    apply IH; [done|by apply Hp, list_elem_of_In|lia].
  - cbn in Hf, Hp. apply andb_true_iff in Hp as [Hlen Hp]. rewrite forallb_forall in Hp.
    rewrite Forall_forall in IH. destruct (sum_size snd l) as [Hn Hsz]. rewrite pack_obj, str_app_assoc. cbn [unpack].
    rewrite read_print_head by (by apply length_fits_head).
    rewrite read_items_back; [done|lia|]. intros kv t' Hv. specialize (Hsz kv Hv).
    specialize (Hp kv ltac:(by apply list_elem_of_In)). apply andb_true_iff in Hp as [Hk Hpv].
    apply read_pair_back; [done|]. apply IH; [done|done|lia].
Qed.

(** The bytes are enough fuel. *)
Lemma print_head_length h : (1 <= String.length (print_head h))%nat.
Proof. destruct h as [|[]|[]| | |]; cbn; repeat case_match; cbn; lia. Qed.

Lemma concat_length {A} (pr : A → string) (f : A → nat) l :
  (∀ x, x ∈ l → f x <= String.length (pr x))%nat →
  (sum_list_with f l <= String.length (concat_with pr l))%nat.
Proof.
  induction l as [|x l IH]; intros Hle; [done|]. cbn [concat_with foldr sum_list_with].
  rewrite str_length_app. change (foldr _ "" l) with (concat_with pr l).
  pose proof (Hle x ltac:(left)). specialize (IH ltac:(intros; apply Hle; by right)). lia.
Qed.

Lemma size_pack v : (size v <= String.length (pack v))%nat.
Proof.
  induction v as [|b|n|s|l IH|l IH] using value_tree_ind;
    try apply (print_head_length HNil); try apply (print_head_length (HBool b));
    try apply (print_head_length (HNum n)).
  - cbn [pack size]. rewrite str_length_app. pose proof (print_head_length (HStr (Z.of_nat (String.length s)))). lia.
  - rewrite pack_arr, str_length_app. cbn [size]. rewrite Forall_forall in IH.
    pose proof (print_head_length (HArr (Z.of_nat (List.length l)))).
    pose proof (concat_length pack size l IH). lia.
  - rewrite pack_obj, str_length_app. cbn [size]. rewrite Forall_forall in IH.
    pose proof (print_head_length (HMap (Z.of_nat (List.length l)))).
    pose proof (concat_length member_bytes (λ kv, size kv.2) l) as Hc.
    specialize (Hc ltac:(intros kv Hkv; unfold member_bytes; rewrite !str_length_app; specialize (IH kv Hkv); cbn in IH |- *; lia)).
    lia.
Qed.

(** The laws the codecs rely on; floats are read back too. *)
Lemma msgpack_roundtrip v b : wire_print msgpack_lib v = Ok b → wire_parse msgpack_lib b = Ok v.
Proof.
  cbn [wire_print wire_parse msgpack_lib]. destruct (packable v) eqn:Hp; [|done]. intros [= <-].
  pose proof (unpack_pack v (String.length (pack v)) "" Hp (size_pack v)) as Hr.
  rewrite str_app_nil_r in Hr. by rewrite Hr.
Qed.

#[export] Instance msgpack_lib_laws : WireLaws msgpack_lib.
Proof. split. intros v b _ _. apply msgpack_roundtrip. Qed.
