(* ===== verification/Jwt.v ===== *)
(** * Authentication ([src/auth/jwt.rs], [src/auth/key_watcher.rs])

    Stream authorization by glob patterns, the hot-reloadable verifier, and the watcher
    that feeds it new keys.  Token decoding and PEM parsing (jsonwebtoken) and the NATS
    key-value store are not code of this repository: the verifier is parametric in them. *)

From stdpp Require Import base list strings sets.
From Stdlib Require Import ZArith Lia Ascii String.
From S2P Require Import Prelude Text Protocol.

Local Open Scope string_scope.
Local Open Scope list_scope.
Local Arguments String.append !_ _ /.

(** ** Stream authorization *)

(** The closure of [is_allowed] on one pattern. *)
Definition pattern_allows (stream pat : string) : bool :=
  if decide (pat = "*") then true
  else match strip_suffix_char "*"%char pat with
       | Some prefix => starts_with stream prefix
       | None => bool_decide (pat = stream)
       end.

Definition is_allowed (allowed : list string) (stream : string) : bool :=
  existsb (pattern_allows stream) allowed.

(** What a pattern means: a trailing [*] matches every extension of what precedes it, any
    other pattern matches itself. *)
Inductive glob_matches : string → string → Prop :=
| glob_prefix p rest : glob_matches (p +:+ "*") (p +:+ rest)
| glob_exact p : (∀ q, p ≠ q +:+ "*") → glob_matches p p.

Lemma pattern_allows_spec stream pat :
  pattern_allows stream pat = true ↔ glob_matches pat stream.
Proof.
  unfold pattern_allows. case_decide as E.
  - subst. split; [|done]. intros _. apply (glob_prefix "" stream).
  - destruct (strip_suffix_char "*" pat) as [p|] eqn:Hs.
    + apply strip_suffix_char_Some in Hs as Hp. rewrite starts_with_spec. split.
      * intros [rest ->]. rewrite Hp. apply glob_prefix.
      * inversion 1 as [p' rest|p' Hn]; subst; [|by destruct (Hn p)].
        assert (strip_suffix_char "*" (p' +:+ "*") = Some p') as Hs'
          by (by apply strip_suffix_char_Some).
        rewrite H0, Hs in Hs'. injection Hs' as ->. by eexists.
    + rewrite bool_decide_eq_true. split.
      * intros ->. apply glob_exact. intros q ->.
        assert (strip_suffix_char "*" (q +:+ "*") = Some q) by (by apply strip_suffix_char_Some).
        congruence.
      * inversion 1 as [p' rest|]; subst; [|done].
        assert (strip_suffix_char "*" (p' +:+ "*") = Some p') by (by apply strip_suffix_char_Some).
        congruence.
Qed.

(** ** The verifier *)

(** The claims the gateway reads; [exp] and [iat] are Unix timestamps. *)
Record Claims : Type := mkClaims {
  sub : string;
  allowed_streams : list string;
  exp : Z;
  iat : Z;
}.

(** The kinds of decoding error the gateway tells apart. *)
Inductive JwtErrorKind : Type :=
| ExpiredSignature | InvalidSignature | InvalidAlgorithm | OtherKind.

Inductive Algorithm : Type := RS256.

Record Validation : Type := mkValidation {
  algorithm : Algorithm;
  required_spec_claims : list string;
}.

(** [std::sync::RwLock]: its content, and whether a writer panicked. *)
Record RwLock (A : Type) : Type := mkLock { cell : A; poisoned : bool }.
Arguments mkLock {A}.
Arguments cell {A}.
Arguments poisoned {A}.

Record JwtVerifier (Key : Type) : Type := mkVerifier {
  key : RwLock Key;
  pem : RwLock string;
  validation : Validation;
}.
Arguments mkVerifier {Key}.
Arguments key {Key}.
Arguments pem {Key}.
Arguments validation {Key}.

Section Verifier.
Context {Key : Type}.
(** [DecodingKey::from_rsa_pem] and [jsonwebtoken::decode] at a given time. *)
Context (parse_pem : string → result Key string).
Context (jwt_decode : Z → string → Key → Validation → result Claims JwtErrorKind).

Definition from_rsa_pem (bytes : string) : result (JwtVerifier Key) GatewayError :=
  (let? k := map_err (λ e, Auth ("invalid RSA PEM: " +:+ e)) (parse_pem bytes) in
   Ok (mkVerifier (mkLock k false) (mkLock bytes false)
        (mkValidation RS256 ["exp"; "sub"; "iat"])))%gw.

Definition current_pem (v : JwtVerifier Key) : string :=
  if poisoned (pem v) then "" else cell (pem v).

Definition auth_reason (k : JwtErrorKind) : string :=
  match k with
  | ExpiredSignature => "token expired"
  | InvalidSignature => "invalid signature"
  | InvalidAlgorithm => "invalid algorithm"
  | OtherKind => "auth failed"
  end.

Definition verify (now : Z) (v : JwtVerifier Key) (token : string) : result Claims GatewayError :=
  if poisoned (key v) then Err (Auth "lock poisoned")
  else map_err (λ k, Auth (auth_reason k)) (jwt_decode now token (cell (key v)) (validation v)).

Definition update_key (bytes : string) (v : JwtVerifier Key) :
    result unit GatewayError * JwtVerifier Key :=
  match parse_pem bytes with
  | Err e => (Err (Auth ("invalid RSA PEM: " +:+ e)), v)
  | Ok new_key =>
      if poisoned (key v) then (Err (Auth "lock poisoned"), v)
      else (Ok (), mkVerifier (mkLock new_key false)
                     (if poisoned (pem v) then pem v else mkLock bytes false) (validation v))
  end.

(** ** The key watcher *)

(** [watch_loop] over the items the watch yields, until it ends. *)
Fixpoint watch_loop (events : list (result string string)) (v : JwtVerifier Key) :
    JwtVerifier Key :=
  match events with
  | [] => v
  | Ok entry_value :: events' => watch_loop events' (update_key entry_value v).2
  | Err _ :: events' => watch_loop events' v
  end.

(** What NATS answers to the watcher's requests. *)
Record KeyStore : Type := mkKeyStore {
  ks_connect : result unit string;
  ks_bucket : result unit string;
  ks_get : result (option string) string;
  ks_watch : result (list (result string string)) string;
}.

(** [load_and_watch_from_nats]: the verifier, and the events its spawned watcher handles. *)
Definition load_and_watch_from_nats (ks : KeyStore) :
    result (JwtVerifier Key * list (result string string)) GatewayError :=
  (let? _c := map_err (λ e, Auth ("NATS connect for key watcher failed: " +:+ e)) (ks_connect ks) in
   let? _b := map_err (λ e, Auth ("failed to open TC_PUBKEYS bucket: " +:+ e)) (ks_bucket ks) in
   match ks_get ks with
   | Err e => Err (Auth ("failed to fetch rails_public_key from NATS KV: " +:+ e))
   | Ok None => Err (Auth "TC_PUBKEYS.rails_public_key not found in NATS KV")
   | Ok (Some bytes) =>
       let? v := from_rsa_pem bytes in
       let? w := map_err (λ e, Auth ("failed to watch TC_PUBKEYS: " +:+ e)) (ks_watch ks) in
       Ok (v, w)
   end)%gw.

Definition start_nats_key_watcher (ks : KeyStore) :
    result (list (result string string)) GatewayError :=
  (let? _c := map_err (λ e, Auth ("NATS connect for key watcher failed: " +:+ e)) (ks_connect ks) in
   let? _b := map_err (λ e, Auth ("failed to open TC_PUBKEYS bucket: " +:+ e)) (ks_bucket ks) in
   map_err (λ e, Auth ("failed to watch TC_PUBKEYS: " +:+ e)) (ks_watch ks))%gw.

(** ** Invariant: the key in use is the one of the PEM on display *)

Definition verifier_ok (v : JwtVerifier Key) : Prop :=
  poisoned (key v) = false ∧ poisoned (pem v) = false ∧
  parse_pem (cell (pem v)) = Ok (cell (key v)).

Lemma from_rsa_pem_ok bytes v : from_rsa_pem bytes = Ok v → verifier_ok v ∧ current_pem v = bytes.
Proof.
  unfold from_rsa_pem. destruct (parse_pem bytes) eqn:E; simpl; [|done].
  intros [= <-]. done.
Qed.

Lemma update_key_ok bytes v :
  verifier_ok v →
  verifier_ok (update_key bytes v).2 ∧
  current_pem (update_key bytes v).2 =
    (if is_ok (parse_pem bytes) then bytes else current_pem v) ∧
  validation (update_key bytes v).2 = validation v.
Proof.
  intros (Hk & Hp & Heq). unfold update_key, current_pem, verifier_ok.
  destruct (parse_pem bytes) eqn:E; simpl; rewrite ?Hk, ?Hp; simpl; split_and!; done.
Qed.

(** The last PEM of the events that parses, [d] when none does. *)
Fixpoint last_valid_pem (d : string) (events : list (result string string)) : string :=
  match events with
  | [] => d
  | Ok bytes :: events' =>
      last_valid_pem (if is_ok (parse_pem bytes) then bytes else d) events'
  | Err _ :: events' => last_valid_pem d events'
  end.

Lemma watch_loop_ok events v :
  verifier_ok v →
  verifier_ok (watch_loop events v) ∧
  current_pem (watch_loop events v) = last_valid_pem (current_pem v) events ∧
  validation (watch_loop events v) = validation v.
Proof.
  revert v. induction events as [|[bytes|e] events IH]; intros v Hok; simpl; auto.
  destruct (update_key_ok bytes v Hok) as (Hok' & Hpem & Hval).
  destruct (IH _ Hok') as (? & ? & ?). rewrite <- Hpem. split_and!; congruence.
Qed.
End Verifier.

(** What the verifier of the key watcher does with a token, after any part of the watch. *)
Lemma loaded_verifier {Key} (parse_pem : string → result Key string)
    (jwt_decode : Z → string → Key → Validation → result Claims JwtErrorKind) ks v events :
  load_and_watch_from_nats parse_pem ks = Ok (v, events) →
  let v' := watch_loop parse_pem events v in
  ∃ bytes k, ks_get ks = Ok (Some bytes) ∧
    current_pem v' = last_valid_pem parse_pem bytes events ∧
    parse_pem (current_pem v') = Ok k ∧
    ∀ now token, verify jwt_decode now v' token =
      map_err (λ e, Auth (auth_reason e))
        (jwt_decode now token k (mkValidation RS256 ["exp"; "sub"; "iat"])).
Proof.
  unfold load_and_watch_from_nats. repeat (case_match; simplify_eq/=; try done).
  intros Hr. simplify_eq/=.
  match goal with H : from_rsa_pem parse_pem ?b = Ok v |- _ => rename H into Hv; rename b into bytes end.
  assert (validation v = mkValidation RS256 ["exp"; "sub"; "iat"]) as Hval.
  { revert Hv. unfold from_rsa_pem. destruct (parse_pem bytes); simpl; [|done]. by intros [= <-]. }
  destruct (from_rsa_pem_ok _ _ _ Hv) as [Hok Hpem].
  destruct (watch_loop_ok parse_pem events v Hok) as ((Hk & Hp & Heq) & Hcur & Hval').
  exists bytes, (cell (key (watch_loop parse_pem events v))). split_and!; [done|congruence| |].
  - unfold current_pem. by rewrite Hp.
  - intros now token. unfold verify. by rewrite Hk, Hval', Hval.
Qed.

(** A refused token has one of these reasons. *)
Definition auth_reasons : list string :=
  ["lock poisoned"; "token expired"; "invalid signature"; "invalid algorithm"; "auth failed"].

Lemma verify_error_reason {Key} (jwt_decode : Z → string → Key → Validation → result Claims JwtErrorKind)
    now v token e :
  verify jwt_decode now v token = Err e → ∃ reason, e = Auth reason ∧ reason ∈ auth_reasons.
Proof.
  unfold verify, auth_reasons. destruct (poisoned (key v)); [intros [= <-]; eexists; split; [done|set_solver]|].
  destruct (jwt_decode _ _ _ _) as [|kd]; simplify_eq/=; intros [= <-]. eexists. split; [done|].
  destruct kd; cbn; set_solver.
Qed.

(** ** Properties *)

(** C29. A stream is allowed exactly when some pattern of the token matches it: a pattern
    ending in [*] matches the streams that extend what precedes the [*] (so ["*"] matches
    all), any other pattern only itself. *)
Theorem is_allowed_iff_glob allowed stream :
  is_allowed allowed stream = true ↔ ∃ pat, pat ∈ allowed ∧ glob_matches pat stream.
Proof.
  unfold is_allowed. rewrite existsb_exists. setoid_rewrite pattern_allows_spec.
  by setoid_rewrite list_elem_of_In.
Qed.

(** Key hot-reload: whatever the watch delivers (new keys, unparsable entries, errors),
    the verifier ends up on the last entry that is a key, or stays on the one it had; the
    key it verifies with is always the one of the PEM the gateway displays. *)
Theorem key_rotation_keeps_last_valid {Key} (parse_pem : string → result Key string)
    (jwt_decode : Z → string → Key → Validation → result Claims JwtErrorKind) ks v events :
  load_and_watch_from_nats parse_pem ks = Ok (v, events) →
  let v' := watch_loop parse_pem events v in
  ∃ bytes k, ks_get ks = Ok (Some bytes) ∧
    current_pem v' = last_valid_pem parse_pem bytes events ∧
    parse_pem (current_pem v') = Ok k ∧
    ∀ now token, verify jwt_decode now v' token =
      map_err (λ e, Auth (auth_reason e))
        (jwt_decode now token k (mkValidation RS256 ["exp"; "sub"; "iat"])).
Proof. apply loaded_verifier. Qed.

(** ** Witnesses *)

(** Keys are the PEM texts that start with ["k"]. *)
Definition demo_parse_pem (s : string) : result string string :=
  if starts_with s "k" then Ok s else Err "not a key".

Definition demo_jwt_decode (now : Z) (token : string) (k : string) (_ : Validation) :
    result Claims JwtErrorKind :=
  if decide (token = k) then Ok (mkClaims "user_42" ["chat_*"] (now + 60) now)
  else Err InvalidSignature.

Definition demo_key_store : KeyStore :=
  mkKeyStore (Ok ()) (Ok ()) (Ok (Some "k1")) (Ok [Ok "k2"; Ok ""; Err "gone"; Ok "k3"; Ok "x"]).

Lemma key_rotation_keeps_last_valid_witness :
  ∃ bytes k, ks_get demo_key_store = Ok (Some bytes) ∧
    current_pem (watch_loop demo_parse_pem [Ok "k2"; Ok ""; Err "gone"; Ok "k3"; Ok "x"]
      (mkVerifier (mkLock "k1" false) (mkLock "k1" false) (mkValidation RS256 ["exp"; "sub"; "iat"])))
      = last_valid_pem demo_parse_pem bytes [Ok "k2"; Ok ""; Err "gone"; Ok "k3"; Ok "x"] ∧
    demo_parse_pem (current_pem (watch_loop demo_parse_pem
      [Ok "k2"; Ok ""; Err "gone"; Ok "k3"; Ok "x"]
      (mkVerifier (mkLock "k1" false) (mkLock "k1" false) (mkValidation RS256 ["exp"; "sub"; "iat"]))))
      = Ok k ∧
    ∀ now token, verify demo_jwt_decode now (watch_loop demo_parse_pem
      [Ok "k2"; Ok ""; Err "gone"; Ok "k3"; Ok "x"]
      (mkVerifier (mkLock "k1" false) (mkLock "k1" false) (mkValidation RS256 ["exp"; "sub"; "iat"])))
      token = map_err (λ e, Auth (auth_reason e))
        (demo_jwt_decode now token k (mkValidation RS256 ["exp"; "sub"; "iat"])).
Proof.
  exact (key_rotation_keeps_last_valid demo_parse_pem demo_jwt_decode demo_key_store
    (mkVerifier (mkLock "k1" false) (mkLock "k1" false) (mkValidation RS256 ["exp"; "sub"; "iat"]))
    [Ok "k2"; Ok ""; Err "gone"; Ok "k3"; Ok "x"] eq_refl).
Defined.

Example demo_rotation_result :
  last_valid_pem demo_parse_pem "k1" [Ok "k2"; Ok ""; Err "gone"; Ok "k3"; Ok "x"] = "k3".
Proof. reflexivity. Qed.
