(* ===== verification/RateLimit.v ===== *)
(** * Per-stream token buckets ([src/fanout/mod.rs])

    A bucket holds [f64] tokens and the instant of its last refill; instants are integers
    of nanoseconds.  The limiter's [Mutex<HashMap>] is a [gmap] and one call of [check] is
    one critical section. *)

From stdpp Require Import base list gmap strings fin_maps.
From Stdlib Require Import ZArith Lia SpecFloat.
From S2P Require Import Prelude Float.

(** ** Buckets *)

Record BucketState : Type := mkBucket {
  tokens : f64;
  last_refill : Z;
  rps : f64;
  burst : f64;
}.

(** [BucketState::new]: starts full; [now] is the clock reading it takes. *)
Definition new_bucket (now : Z) (rps burst : f64) : BucketState :=
  mkBucket burst now rps burst.

(** [try_consume]: [Instant::duration_since] saturates at zero. *)
Definition try_consume (now : Z) (b : BucketState) : bool * BucketState :=
  let elapsed := as_secs_f64 (Z.max 0 (now - last_refill b)) in
  let t := f64_min (f64_add (tokens b) (f64_mul elapsed (rps b))) (burst b) in
  if SFleb (f64_of_u64 1) t
  then (true, mkBucket (f64_sub t (f64_of_u64 1)) now (rps b) (burst b))
  else (false, mkBucket t now (rps b) (burst b)).

Definition token_count (b : BucketState) : Z := f64_to_i64 (tokens b).

(** ** The limiter *)

Record StreamRateLimiter : Type := mkRateLimiter {
  buckets : gmap string BucketState;
  default_rps : f64;
  default_burst : f64;
  overrides : gmap string (f64 * f64);
}.

(** The burst used when none is configured is twice the rate, at least 1; the product is a
    [u64] and wraps. *)
Definition effective_burst (rps burst : Z) : Z :=
  if (burst =? 0)%Z then Z.max (wrapping_mul rps 2) 1 else burst.

(** [StreamRateLimiter::new] *)
Definition new_rate_limiter (rps burst : Z) (ovr : gmap string (Z * Z)) : StreamRateLimiter :=
  mkRateLimiter ∅ (f64_of_u64 rps) (f64_of_u64 (effective_burst rps burst))
    ((λ '(r, b), (f64_of_u64 r, f64_of_u64 (effective_burst r b))) <$> ovr).

Definition is_disabled (rl : StreamRateLimiter) : bool :=
  SFeqb (default_rps rl) (S754_zero false) &&
  negb (existsb (λ '(_, (r, _)), SFltb (S754_zero false) r) (map_to_list (overrides rl))).

(** The rate and burst of a stream: its override, or the defaults. *)
Definition stream_limits (rl : StreamRateLimiter) (stream : string) : f64 * f64 :=
  default (default_rps rl, default_burst rl) (overrides rl !! stream).

(** [check]; [t_new] and [t_now] are the clock readings of [BucketState::new] (when the
    bucket is created) and of [try_consume]. *)
Definition check (t_new t_now : Z) (stream : string) (rl : StreamRateLimiter)
    : (bool * Z) * StreamRateLimiter :=
  let '(r, b) := stream_limits rl stream in
  if SFeqb r (S754_zero false) then ((true, i64_max), rl)
  else
    let state := default (new_bucket t_new r b) (buckets rl !! stream) in
    let '(allow, state') := try_consume t_now state in
    ((allow, token_count state'),
     mkRateLimiter (<[stream := state']> (buckets rl)) (default_rps rl) (default_burst rl)
       (overrides rl)).

(** A sequence of calls, with the answers in order. *)
Fixpoint check_all (calls : list (string * Z * Z)) (rl : StreamRateLimiter)
    : list (bool * Z) * StreamRateLimiter :=
  match calls with
  | [] => ([], rl)
  | (s, t0, t1) :: calls =>
      let '(a, rl1) := check t0 t1 s rl in
      let '(l, rl2) := check_all calls rl1 in
      (a :: l, rl2)
  end.

(** ** One bucket at one instant *)

Lemma f64_add_zero n :
  (0 ≤ n < 2 ^ 53)%Z → f64_add (f64_of_u64 n) (S754_zero false) = f64_of_u64 n.
Proof.
  intros Hn. destruct (decide (n = 0%Z)) as [->|]; [done|].
  by rewrite f64_of_u64_small by lia.
Qed.

Lemma f64_min_small n b :
  (0 ≤ n ≤ b)%Z → (b < 2 ^ 53)%Z → f64_min (f64_of_u64 n) (f64_of_u64 b) = f64_of_u64 n.
Proof.
  intros Hn Hb. unfold f64_min. rewrite (f64_small_order n b) by lia.
  destruct (f64_of_u64 n) eqn:En, (f64_of_u64 b) eqn:Eb; try done;
    pose proof (f64_of_u64_nonneg n ltac:(lia)) as Hnn; by rewrite En in Hnn.
Qed.

(** With a whole number of tokens and no time elapsed, [try_consume] takes one token exactly
    when there is one. *)
Lemma try_consume_now n b r t :
  (0 ≤ n ≤ b)%Z → (b < 2 ^ 53)%Z → (0 < r < 2 ^ 53)%Z →
  try_consume t (mkBucket (f64_of_u64 n) t (f64_of_u64 r) (f64_of_u64 b)) =
  (bool_decide (1 ≤ n)%Z,
   mkBucket (f64_of_u64 (Z.max 0 (n - 1))) t (f64_of_u64 r) (f64_of_u64 b)).
Proof.
  intros Hn Hb Hr. unfold try_consume. cbn [tokens last_refill rps burst].
  rewrite Z.sub_diag, Z.max_id.
  assert (f64_mul (as_secs_f64 0) (f64_of_u64 r) = S754_zero false) as ->.
  { by rewrite f64_of_u64_small by lia. }
  rewrite f64_add_zero, f64_min_small by lia.
  case_bool_decide as H1.
  - rewrite f64_one_le by lia. rewrite f64_sub_one by lia.
    by rewrite Z.max_r by lia.
  - by assert (n = 0%Z) as -> by lia.
Qed.

(** ** A burst at one instant *)

(** Only the configuration and the bucket of the stream matter to [check]. *)
Definition same_limits (rl rl' : StreamRateLimiter) : Prop :=
  default_rps rl = default_rps rl' ∧ default_burst rl = default_burst rl' ∧
  overrides rl = overrides rl'.

Definition same_on (stream : string) (rl rl' : StreamRateLimiter) : Prop :=
  same_limits rl rl' ∧ buckets rl !! stream = buckets rl' !! stream.

Lemma check_same_limits t0 t1 s rl : same_limits rl (check t0 t1 s rl).2.
Proof. unfold check. by repeat case_match. Qed.

Lemma check_other t0 t1 s s' rl : s ≠ s' → same_on s' rl (check t0 t1 s rl).2.
Proof.
  intros Hne. split; [apply check_same_limits|]. unfold check.
  repeat case_match; try done; simpl. by rewrite lookup_insert_ne.
Qed.

Lemma check_same_on t0 t1 s rl rl' :
  same_on s rl rl' →
  (check t0 t1 s rl).1 = (check t0 t1 s rl').1 ∧
  same_on s (check t0 t1 s rl).2 (check t0 t1 s rl').2.
Proof.
  intros [(Hr & Hb & Ho) Hs]. unfold check, stream_limits. rewrite Hr, Hb, Ho, Hs.
  destruct (default _ (overrides rl' !! s)) as [r b]. case_match; [done|].
  destruct (try_consume _ _) as [a st]; simpl. split; [done|].
  split; simpl; [by split_and!|]. by rewrite !lookup_insert_eq.
Qed.

(** What a bucket with [n] whole tokens answers to [k] messages at one instant. *)
Fixpoint countdown (k : nat) (n : Z) : list (bool * Z) :=
  match k with
  | O => []
  | S k => (bool_decide (1 ≤ n)%Z, Z.max 0 (n - 1)) :: countdown k (Z.max 0 (n - 1))
  end.

Lemma countdown_lookup k n i :
  i < k → (0 ≤ n)%Z →
  countdown k n !! i =
  Some (bool_decide (Z.of_nat i < n)%Z, Z.max 0 (n - 1 - Z.of_nat i)).
Proof.
  revert n i. induction k as [|k IH]; intros n i Hi Hn; [lia|].
  destruct i as [|i]; cbn [countdown lookup list_lookup].
  - do 2 f_equal; [apply bool_decide_ext|]; lia.
  - rewrite IH by lia. do 2 f_equal; [apply bool_decide_ext|]; lia.
Qed.

Lemma check_all_burst k s t rl n r b :
  stream_limits rl s = (f64_of_u64 r, f64_of_u64 b) →
  (buckets rl !! s = None ∧ n = b ∨
   buckets rl !! s = Some (mkBucket (f64_of_u64 n) t (f64_of_u64 r) (f64_of_u64 b))) →
  (0 ≤ n ≤ b)%Z → (b < 2 ^ 53)%Z → (0 < r < 2 ^ 53)%Z →
  (check_all (replicate k (s, t, t)) rl).1 = countdown k n.
Proof.
  intros Hl Hbk Hn Hb Hr. revert rl n Hl Hbk Hn.
  induction k as [|k IH]; intros rl n Hl Hbk Hn; [done|].
  cbn [replicate check_all].
  assert (check t t s rl =
    ((bool_decide (1 ≤ n)%Z, Z.max 0 (n - 1)),
     mkRateLimiter
       (<[s := mkBucket (f64_of_u64 (Z.max 0 (n - 1))) t (f64_of_u64 r) (f64_of_u64 b)]>
          (buckets rl)) (default_rps rl) (default_burst rl) (overrides rl))) as ->.
  { unfold check. rewrite Hl, f64_of_u64_nonzero by done.
    assert (default (new_bucket t (f64_of_u64 r) (f64_of_u64 b)) (buckets rl !! s)
      = mkBucket (f64_of_u64 n) t (f64_of_u64 r) (f64_of_u64 b)) as ->.
    { destruct Hbk as [[-> ->]| ->]; done. }
    rewrite try_consume_now by done. unfold token_count. cbn [tokens].
    rewrite f64_to_i64_small by lia. done. }
  specialize (IH (mkRateLimiter
    (<[s := mkBucket (f64_of_u64 (Z.max 0 (n - 1))) t (f64_of_u64 r) (f64_of_u64 b)]>
       (buckets rl)) (default_rps rl) (default_burst rl) (overrides rl)) (Z.max 0 (n - 1))).
  destruct (check_all _ _) as [l rl2]; simpl in *. f_equal. apply IH; [done| |lia].
  right. by rewrite lookup_insert_eq.
Qed.

(** The configured limits of a stream, before the conversion to [f64]. *)
Definition configured (rps burst : Z) (ovr : gmap string (Z * Z)) (s : string) : Z * Z :=
  default (rps, burst) (ovr !! s).

Lemma stream_limits_new rps burst ovr s :
  stream_limits (new_rate_limiter rps burst ovr) s =
  let '(r, b) := configured rps burst ovr s in
  (f64_of_u64 r, f64_of_u64 (effective_burst r b)).
Proof.
  unfold stream_limits, new_rate_limiter, configured; simpl. rewrite lookup_fmap.
  by destruct (ovr !! s) as [[r b]|].
Qed.

(** A stream with a non-zero rate and a burst below 2^53 starts with a full bucket: of
    the messages that arrive at one instant exactly the first [burst] pass, every later one
    is dropped, and the gauge counts down to 0 without rounding. *)
Theorem burst_is_exact rps burst ovr s t k i :
  let '(r, b0) := configured rps burst ovr s in
  let b := effective_burst r b0 in
  (0 < r < 2 ^ 53)%Z → (0 ≤ b < 2 ^ 53)%Z → i < k →
  (check_all (replicate k (s, t, t)) (new_rate_limiter rps burst ovr)).1 !! i =
  Some (bool_decide (Z.of_nat i < b)%Z, Z.max 0 (b - 1 - Z.of_nat i)).
Proof.
  pose proof (stream_limits_new rps burst ovr s) as Hl.
  destruct (configured rps burst ovr s) as [r b0]. intros b Hr Hb Hi.
  rewrite (check_all_burst k s t _ b r b); [|done|by left|lia|lia|lia].
  apply countdown_lookup; lia.
Qed.

(** Five messages at one instant against a rate of 1/s and a burst of 3, overridden from
    the defaults. *)
Lemma burst_is_exact_witness :
  (check_all (replicate 5 ("alerts", 7%Z, 7%Z))
     (new_rate_limiter 100 0 {[ "alerts" := (1, 3)%Z ]})).1 !! 3 = Some (false, 0%Z).
Proof.
  refine (burst_is_exact 100 0 {[ "alerts" := (1, 3)%Z ]} "alerts" 7 5 3 _ _ _).
  - vm_compute. by split.
  - vm_compute. by split.
  - lia.
Defined.

(** ** Streams do not interfere *)

Definition answers_on (s : string) (calls : list (string * Z * Z)) (rl : StreamRateLimiter)
    : list (bool * Z) :=
  (filter (λ p, p.1 = s) (zip (calls.*1.*1) (check_all calls rl).1)).*2.

Lemma answers_on_same s calls rl rl' :
  same_on s rl rl' →
  answers_on s calls rl = (check_all (filter (λ c, c.1.1 = s) calls) rl').1.
Proof.
  revert rl rl'. unfold answers_on.
  induction calls as [|[[s0 t0] t1] calls IH]; intros rl rl' Hs; [done|].
  cbn [check_all].
  destruct (check t0 t1 s0 rl) as [a rl1] eqn:E1.
  destruct (decide (s0 = s)) as [->|Hne].
  - rewrite filter_cons_True by done. cbn [check_all].
    destruct (check_same_on t0 t1 s rl rl' Hs) as [Ha Hs1].
    rewrite E1 in Ha, Hs1. destruct (check t0 t1 s rl') as [a' rl1'] eqn:E2.
    simpl in Ha, Hs1. subst a'. specialize (IH rl1 rl1' Hs1).
    destruct (check_all calls rl1) as [l rl2], (check_all (filter _ calls) rl1') as [l' rl2'].
    simpl in *. rewrite filter_cons_True by done. simpl. by f_equal.
  - rewrite filter_cons_False by done.
    assert (same_on s rl1 rl') as Hs1.
    { pose proof (check_other t0 t1 s0 s rl Hne) as [(?&?&?) Ho]. rewrite E1 in *. simpl in *.
      destruct Hs as [(?&?&?) ?]. split; [split_and!|]; congruence. }
    specialize (IH rl1 rl' Hs1). destruct (check_all calls rl1) as [l rl2]. simpl in *.
    rewrite filter_cons_False by done. done.
Qed.

(** Streams have independent buckets: in any sequence of calls, at any clock readings,
    the answers a stream gets are those it would get if its own calls were the only ones. *)
Theorem rate_limits_are_independent s calls rl :
  (filter (λ p, p.1 = s) (zip (calls.*1.*1) (check_all calls rl).1)).*2
  = (check_all (filter (λ c, c.1.1 = s) calls) rl).1.
Proof. by apply answers_on_same. Qed.

(** ** Disabled limits *)

Lemma is_disabled_stream rps burst ovr s :
  (0 ≤ rps)%Z → map_Forall (λ _ p, (0 ≤ p.1)%Z) ovr →
  is_disabled (new_rate_limiter rps burst ovr) = true →
  SFeqb (stream_limits (new_rate_limiter rps burst ovr) s).1 (S754_zero false) = true.
Proof.
  intros Hr Ho [Hd Hn]%andb_true_iff. unfold stream_limits. simpl in *.
  rewrite lookup_fmap. destruct (ovr !! s) as [[r b]|] eqn:E; simpl; [|done].
  apply f64_nonneg_not_pos; [by apply f64_of_u64_nonneg, (Ho s (r, b))|].
  apply negb_true_iff in Hn. apply not_true_iff_false. intros Hlt.
  apply not_true_iff_false in Hn. apply Hn. apply existsb_exists.
  exists (s, (f64_of_u64 r, f64_of_u64 (effective_burst r b))). split; [|done].
  apply list_elem_of_In, elem_of_map_to_list. by rewrite lookup_fmap, E.
Qed.

(** ** Edges of the configuration *)

(** A default rate of 0 does not disable a stream whose override sets a rate. *)
Example override_limits_under_zero_default :
  (check_all (replicate 2 ("x", 0%Z, 0%Z)) (new_rate_limiter 0 0 {[ "x" := (1, 1)%Z ]})).1
  = [(true, 0%Z); (false, 0%Z)].
Proof. vm_compute. reflexivity. Qed.

(** The default burst of a rate of 2^63 is 1: twice the rate wraps to 0. *)
Example default_burst_wraps : effective_burst (2 ^ 63) 0 = 1%Z.
Proof. reflexivity. Qed.
