(* ===== verification/RateBound.v ===== *)
(** * The rate limiter over time

    [RateLimit] computes in binary64; here its buckets are followed through any sequence of
    checks at any clock readings, with the rounding errors of [FloatError].  A stream gets at
    most one message more through than its rate and burst allow in real numbers, and traffic
    that stays one message below them is never dropped. *)

From stdpp Require Import base list gmap strings fin_maps.
From Stdlib Require Import ZArith QArith Qpower Lqa Lia SpecFloat Sorted.
From S2P Require Import Prelude Float FloatError RateLimit.

Local Open Scope Z_scope.

(** Clock readings: below 2^53 seconds, in nanoseconds. *)
Definition clock_ok (t : Z) : Prop := 0 <= t < 2 ^ 53 * NANOS_PER_SEC.

(** The relative and the absolute rounding error. *)
Local Abbreviation u := (bpow (-52)).
Local Abbreviation eta := (bpow (-1074)).

(** ** Errors of one refill *)

Section Errors.
Context (v h : Q) (Hv : (0 < v <= 1 # 1000)%Q) (Hh : (0 < h)%Q).
Local Open Scope Q_scope.

Lemma secs_error s f F E :
  0 <= s → 0 <= f → f - (v * f + h) <= F <= f + (v * f + h) → 0 <= F →
  (s + F) - (v * (s + F) + h) <= E <= (s + F) + (v * (s + F) + h) →
  (s + f) - (3 * v * (s + f) + 3 * h) <= E <= (s + f) + (3 * v * (s + f) + 3 * h).
Proof using Hv Hh. intros. nra. Qed.

Lemma gain_error x r E P :
  0 <= x → 1 <= r → x - (3 * v * x + 3 * h) <= E <= x + (3 * v * x + 3 * h) → 0 <= E →
  E * r - (v * (E * r) + h) <= P <= E * r + (v * (E * r) + h) →
  x * r - (5 * v * (x * r) + 5 * r * h) <= P <= x * r + (5 * v * (x * r) + 5 * r * h).
Proof using Hv Hh.
  intros Hx Hr HE HE0 HP.
  assert (0 <= x * r) by nra. assert (0 <= h * r) by nra.
  assert (x * r - (3 * v * (x * r) + 3 * (h * r)) <= E * r <= x * r + (3 * v * (x * r) + 3 * (h * r)))
    by (split; nra).
  assert (h <= h * r) by nra. nra.
Qed.

Lemma refill_error tok b g r P T :
  0 <= tok <= b → 0 <= g → 1 <= r → 0 <= P →
  g - (5 * v * g + 5 * r * h) <= P <= g + (5 * v * g + 5 * r * h) →
  (tok + P) - (v * (tok + P) + h) <= T <= (tok + P) + (v * (tok + P) + h) →
  tok + g - (7 * v * g + v * b + 7 * r * h) <= T <= tok + g + (7 * v * g + v * b + 7 * r * h).
Proof using Hv Hh.
  intros Ht Hg Hr HP0 HP HT. assert (h <= r * h) by nra.
  assert (v * tok <= v * b) by nra. assert (v * P <= v * (g + (5 * v * g + 5 * r * h))) by nra.
  assert (0 <= r * h) by nra. nra.
Qed.
End Errors.

Lemma inject_range a n b : a <= n <= b → (inject_Z a <= inject_Z n <= inject_Z b)%Q.
Proof. rewrite <- !Zle_Qle. done. Qed.

Lemma u_bounds : (0 < u <= 1 # 1000)%Q.
Proof. split; [apply bpow_pos|]. by vm_compute. Qed.

(** [Duration::as_secs_f64] is the number of seconds, nearly. *)
Lemma as_secs_near ns :
  clock_ok ns →
  let x := (inject_Z ns * (1 # 1000000000))%Q in
  f64_ok (as_secs_f64 ns) = true ∧
  (x - (3 * u * x + 3 * eta) <= fval (as_secs_f64 ns) <= x + (3 * u * x + 3 * eta))%Q.
Proof.
  intros [Hn0 Hn] x. unfold as_secs_f64, NANOS_PER_SEC in *.
  pose proof (Z.div_mod ns 1000000000 ltac:(lia)) as Hdm.
  pose proof (Z.mod_pos_bound ns 1000000000 ltac:(lia)) as Hmod.
  assert (0 <= ns / 1000000000 < 2 ^ 53) as Hs.
  { split; [apply Z.div_pos; lia|apply Z.div_lt_upper_bound; lia]. }
  set (s := ns / 1000000000) in *. set (n := ns mod 1000000000) in *.
  destruct (fval_small s Hs) as [Hoks Hvs].
  destruct (f64_div_small n 1000000000) as [Hokf Hnf]; [lia|lia|].
  set (F := f64_div _ _) in *.
  assert (0 <= inject_Z n * (1 # 1000000000) <= 1)%Q as Hf.
  { assert (0 <= inject_Z n <= inject_Z 1000000000)%Q by (apply (inject_range 0); lia).
    change (inject_Z 1000000000) with (1000000000 # 1)%Q in *. lra. }
  change (/ inject_Z 1000000000)%Q with (1 # 1000000000)%Q in Hnf.
  assert (0 <= inject_Z s <= inject_Z (2 ^ 53))%Q as Hsq by (apply (inject_range 0); lia).
  pose proof u_bounds as Hu. pose proof (bpow_pos (-1074)) as He. pose proof (fval_nonneg F) as HF.
  assert (eta <= 1)%Q as He1 by (by vm_compute).
  assert (fval F <= 10)%Q as HF10 by (unfold near in Hnf; nra).
  destruct (f64_add_near (f64_of_u64 s) F) as [Hok Hnr]; [done|done| |].
  { rewrite Hvs. assert (inject_Z (2 ^ 53) + 10 < bpow 999)%Q by (by vm_compute). lra. }
  split; [done|]. rewrite Hvs in Hnr.
  assert (x == inject_Z s + inject_Z n * (1 # 1000000000))%Q as Hx.
  { unfold x. rewrite Hdm, inject_Z_plus, inject_Z_mult. change (inject_Z 1000000000) with (1000000000 # 1)%Q.
    ring. }
  rewrite Hx. apply (secs_error u eta Hu He _ _ (fval F)); [lra|lra|done|done|exact Hnr].
Qed.

(** ** Buckets *)

Record bucket_ok (r b : Z) (st : BucketState) : Prop := mkBucketOk {
  bk_rps : rps st = f64_of_u64 r;
  bk_burst : burst st = f64_of_u64 b;
  bk_tokens : f64_ok (tokens st) = true;
  bk_full : (fval (tokens st) <= inject_Z b)%Q;
  bk_last : clock_ok (last_refill st);
}.

(** The tokens before the consumption of one. *)
Definition refilled (now : Z) (st : BucketState) : f64 :=
  f64_min (f64_add (tokens st) (f64_mul (as_secs_f64 (Z.max 0 (now - last_refill st))) (rps st)))
          (burst st).

(** What the rate adds in [ns] nanoseconds. *)
Definition gain (r ns : Z) : Q := (inject_Z ns * (1 # 1000000000) * inject_Z r)%Q.

Lemma gain_nonneg r ns : 0 <= r → 0 <= ns → (0 <= gain r ns)%Q.
Proof.
  intros Hr Hn. unfold gain. rewrite Zle_Qle in Hr, Hn. change (inject_Z 0) with 0%Q in *.
  apply Qmult_le_0_compat; [apply Qmult_le_0_compat|]; done.
Qed.

Lemma gain_add r a b : (gain r (a + b) == gain r a + gain r b)%Q.
Proof. unfold gain. rewrite inject_Z_plus. ring. Qed.

Lemma gain_ge r n ns : NANOS_PER_SEC * n <= r * ns → (inject_Z n <= gain r ns)%Q.
Proof.
  unfold NANOS_PER_SEC, gain. intros H. rewrite Zle_Qle, !inject_Z_mult in H.
  change (inject_Z 1000000000) with (1000000000 # 1)%Q in H. lra.
Qed.

Lemma gain_le r n ns : r * ns <= n * NANOS_PER_SEC → (gain r ns <= inject_Z n)%Q.
Proof.
  unfold NANOS_PER_SEC, gain. intros H. rewrite Zle_Qle, !inject_Z_mult in H.
  change (inject_Z 1000000000) with (1000000000 # 1)%Q in H. lra.
Qed.

Lemma gain_0 r : (gain r 0 == 0)%Q.
Proof. unfold gain. change (inject_Z 0) with 0%Q. ring. Qed.

Lemma gain_mono r a b : 0 <= r → a <= b → (gain r a <= gain r b)%Q.
Proof.
  intros Hr Hab. unfold gain. rewrite Zle_Qle in Hr, Hab. change (inject_Z 0) with 0%Q in *. nra.
Qed.

Section Bucket.
Context (r b : Z) (Hr : 0 < r < 2 ^ 53) (Hb : 0 <= b <= 2 ^ 50).

(** The error of one refill that does not depend on the time. *)
Definition refill_slack : Q := (u * inject_Z b + 7 * inject_Z r * eta)%Q.

Lemma refilled_near now st :
  bucket_ok r b st → clock_ok now →
  let g := gain r (Z.max 0 (now - last_refill st)) in
  let tok := fval (tokens st) in
  let t := fval (refilled now st) in
  f64_ok (refilled now st) = true ∧ (t <= inject_Z b)%Q ∧
  (t <= tok + g + (7 * u * g + refill_slack))%Q ∧
  (inject_Z b <= t ∨ tok + g - (7 * u * g + refill_slack) <= t)%Q.
Proof using Hr Hb.
  intros [Hrps Hburst Htok Hfull Hlast] Hnow g tok t.
  unfold t, refilled. rewrite Hrps, Hburst. unfold clock_ok in *.
  set (ns := Z.max 0 (now - last_refill st)) in *.
  assert (clock_ok ns) as Hns by (unfold clock_ok, ns in *; lia).
  destruct (as_secs_near ns Hns) as [HokE HE].
  destruct (fval_small r ltac:(lia)) as [Hokr Hvr], (fval_small b ltac:(lia)) as [Hokb Hvb].
  set (E := as_secs_f64 ns) in *. set (x := (inject_Z ns * (1 # 1000000000))%Q) in *.
  assert (0 <= x <= inject_Z (2 ^ 53))%Q as Hx.
  { unfold x. assert (0 <= inject_Z ns <= inject_Z (2 ^ 53 * 1000000000))%Q as Hq.
    { unfold NANOS_PER_SEC, clock_ok in *. apply (inject_range 0). lia. }
    rewrite inject_Z_mult in Hq. change (inject_Z 1000000000) with (1000000000 # 1)%Q in Hq. lra. }
  assert (1 <= inject_Z r <= inject_Z (2 ^ 53))%Q as Hrq by (apply (inject_range 1); lia).
  pose proof u_bounds as Hu. pose proof (bpow_pos (-1074)) as He. pose proof (fval_nonneg E) as HE0.
  assert (eta <= 1)%Q as He1 by (by vm_compute).
  assert (fval E <= inject_Z (2 ^ 54))%Q as HEb.
  { assert (inject_Z (2 ^ 53) * 2 + 3 <= inject_Z (2 ^ 54) + 3)%Q by (by vm_compute).
    assert (3 <= inject_Z (2 ^ 53) * (1 # 10))%Q by (by vm_compute).
    assert (inject_Z (2 ^ 54) == 2 * inject_Z (2 ^ 53))%Q as -> by (by vm_compute). nra. }
  destruct (f64_mul_near E (f64_of_u64 r)) as [HokP HP]; [done|done| |].
  { rewrite Hvr. assert (inject_Z (2 ^ 54) * inject_Z (2 ^ 53) < bpow 999)%Q by (by vm_compute). nra. }
  rewrite Hvr in HP. set (P := f64_mul E (f64_of_u64 r)) in *. pose proof (fval_nonneg P) as HP0.
  pose proof (gain_error u eta Hu He x (inject_Z r) (fval E) (fval P) (proj1 Hx) (proj1 Hrq) HE HE0 HP) as Hg.
  change (x * inject_Z r)%Q with g in Hg.
  assert (0 <= g <= inject_Z (2 ^ 53) * inject_Z (2 ^ 53))%Q as Hgb by (unfold g, gain; fold x; nra).
  destruct (f64_add_near (tokens st) P) as [HokT HT]; [done|done| |].
  { assert (inject_Z b <= inject_Z (2 ^ 50))%Q by (rewrite <- Zle_Qle; lia).
    assert (inject_Z (2 ^ 50) + 2 * (inject_Z (2 ^ 53) * inject_Z (2 ^ 53)) + 5 * inject_Z (2 ^ 53) < bpow 999)%Q
      by (by vm_compute). nra. }
  pose proof (fval_nonneg (tokens st)) as Ht0.
  pose proof (refill_error u eta Hu He tok (inject_Z b) g (inject_Z r) (fval P) _
    (conj Ht0 Hfull) (proj1 Hgb) (proj1 Hrq) HP0 Hg HT) as HTb.
  destruct (f64_min_spec _ (f64_of_u64 b) HokT Hokb) as [Hokm Hm]. rewrite Hvb in Hm.
  split; [done|]. unfold refill_slack. destruct Hm as [[Heq Hm]|[Heq Hm]].
  - split_and!; [lra|lra|right; lra].
  - split_and!; [lra|lra|left; lra].
Qed.

(** The error of a check that does not depend on the time. *)
Definition step_slack : Q := (2 * u * inject_Z b + 8 * inject_Z r * eta)%Q.

Lemma step_slack_nonneg : (0 <= step_slack)%Q.
Proof using Hr Hb.
  unfold step_slack. pose proof u_bounds. pose proof (bpow_pos (-1074)).
  assert (0 <= inject_Z b)%Q by (apply (inject_range 0 b b); lia).
  assert (0 <= inject_Z r)%Q by (apply (inject_range 0 r r); lia). nra.
Qed.

Definition one_if (a : bool) : Q := if a then 1%Q else 0%Q.

(** What a check leaves in the bucket, from above and from below, and when it refuses. *)
Lemma try_consume_near now st :
  bucket_ok r b st → clock_ok now →
  let g := gain r (Z.max 0 (now - last_refill st)) in
  let tok := fval (tokens st) in
  let '(a, st') := try_consume now st in
  bucket_ok r b st' ∧ last_refill st' = now ∧
  (fval (tokens st') + one_if a <= inject_Z b + step_slack)%Q ∧
  (fval (tokens st') + one_if a <= tok + g + 7 * u * g + step_slack)%Q ∧
  ∃ t, (inject_Z b <= t ∨ tok + g - 7 * u * g - step_slack <= t - (u * inject_Z b + inject_Z r * eta))%Q ∧
       (t - one_if a - (u * inject_Z b + inject_Z r * eta) <= fval (tokens st'))%Q ∧
       (a = true ↔ 1 <= t)%Q.
Proof using Hr Hb.
  intros Hok Hnow g tok.
  destruct (refilled_near now st Hok Hnow) as (Hokt & Htb & Htu & Htl).
  fold g tok in Htu, Htl. unfold try_consume. change (f64_min _ _) with (refilled now st).
  destruct Hok as [Hrps Hburst Htok Hfull Hlast]. set (t := refilled now st) in *.
  destruct (fval_small 1 ltac:(lia)) as [Hok1 Hv1]. pose proof (SFleb_spec _ _ Hok1 Hokt) as Hle.
  rewrite Hv1 in Hle. change (inject_Z 1) with 1%Q in *.
  pose proof u_bounds as Hu. pose proof (bpow_pos (-1074)) as He.
  assert (0 <= inject_Z b)%Q as Hb0 by (apply (inject_range 0 b b); lia).
  assert (u * inject_Z b <= 1 # 2)%Q as Hub.
  { assert (inject_Z b <= inject_Z (2 ^ 50))%Q by (rewrite <- Zle_Qle; lia).
    assert (u * inject_Z (2 ^ 50) <= 1 # 2)%Q by (by vm_compute). nra. }
  assert (1 <= inject_Z r)%Q as Hr1 by (apply (inject_range 1 r r); lia).
  assert (eta <= inject_Z r * eta)%Q as Hre by nra.
  assert (inject_Z r * eta <= 1 # 2)%Q as Hre2.
  { assert (inject_Z r <= inject_Z (2 ^ 53))%Q by (rewrite <- Zle_Qle; lia).
    assert (inject_Z (2 ^ 53) * eta <= 1 # 2)%Q by (by vm_compute). nra. }
  assert (0 <= u * inject_Z b)%Q as Hub0 by nra.
  unfold step_slack, refill_slack in *. pose proof (fval_nonneg t) as Ht0.
  destruct (SFleb (f64_of_u64 1) t) eqn:Ha; cbn [one_if tokens last_refill].
  - destruct Hle as [Hle _]. specialize (Hle eq_refl).
    destruct (f64_sub_near t (f64_of_u64 1)) as [Hoks Hs]; [done|done| |].
    { rewrite Hv1. change (inject_Z 1) with 1%Q. split; [done|].
      assert (inject_Z b <= inject_Z (2 ^ 50))%Q by (rewrite <- Zle_Qle; lia).
      assert (inject_Z (2 ^ 50) < bpow 999)%Q by (by vm_compute). lra. }
    rewrite Hv1 in Hs. change (inject_Z 1) with 1%Q in Hs. unfold near in Hs.
    set (t' := f64_sub t (f64_of_u64 1)) in *.
    assert (0 <= u * (fval t - 1) <= u * inject_Z b)%Q as Hut by nra.
    split_and!; [split; cbn; try done; lra|done|lra|lra|].
    exists (fval t). split_and!; [destruct Htl; [by left|right; lra]|lra|done].
  - split_and!; [split; cbn; done|done|lra|lra|].
    exists (fval t). split_and!; [destruct Htl; [by left|right; lra]|lra|done].
Qed.

(** ** Sequences of checks of one bucket *)

Lemma last_cons_default {A} (x : A) l d : List.last (x :: l) d = List.last l x.
Proof.
  revert x d. induction l as [|y l IH]; intros x d; [done|].
  change (List.last (y :: l) d = List.last (y :: l) x). by rewrite !IH.
Qed.

Fixpoint consume_all (ts : list Z) (st : BucketState) : list bool * BucketState :=
  match ts with
  | [] => ([], st)
  | t :: ts =>
      let '(a, st1) := try_consume t st in
      let '(l, st2) := consume_all ts st1 in
      (a :: l, st2)
  end.

Definition passed (l : list bool) : nat := length (filter (λ a, a = true) l).

Lemma passed_cons a l : (inject_Z (Z.of_nat (passed (a :: l))) == one_if a + inject_Z (Z.of_nat (passed l)))%Q.
Proof.
  unfold passed. destruct a.
  - rewrite filter_cons_True by done. cbn [length one_if]. rewrite Nat2Z.inj_succ. unfold Z.succ.
    rewrite inject_Z_plus. change (inject_Z 1) with 1%Q. ring.
  - rewrite filter_cons_False by done. cbn [one_if]. ring.
Qed.

(** Sorted readings lie between the first and the last. *)
Lemma sorted_range t ts :
  Sorted Z.le (t :: ts) → Forall (λ x, t <= x <= List.last ts t) (t :: ts).
Proof.
  revert t. induction ts as [|x ts IH]; intros t Hs.
  { constructor; [cbn; lia|constructor]. }
  apply Sorted_inv in Hs as [Hs Hle%HdRel_inv]. specialize (IH x Hs). rewrite last_cons_default.
  pose proof IH as [Hx _]%Forall_cons. constructor; [lia|].
  eapply Forall_impl; [exact IH|]. cbn. intros. lia.
Qed.

(** From above: what passed and what is left came from the bucket and from the rate. *)
Lemma consume_all_upper ts st :
  bucket_ok r b st → Forall clock_ok ts → Sorted Z.le (last_refill st :: ts) →
  let '(l, st') := consume_all ts st in
  last_refill st' = List.last ts (last_refill st) ∧
  (inject_Z (Z.of_nat (passed l)) + fval (tokens st') <=
   fval (tokens st) + (1 + 7 * u) * gain r (last_refill st' - last_refill st) +
   inject_Z (Z.of_nat (length ts)) * step_slack)%Q.
Proof using Hr Hb.
  revert st. induction ts as [|t ts IH]; intros st Hok Hts Hsort; cbn [consume_all].
  { split; [done|]. rewrite Z.sub_diag, gain_0. change (inject_Z (Z.of_nat _)) with 0%Q. lra. }
  apply Forall_cons in Hts as [Ht Hts]. apply Sorted_inv in Hsort as [Hsort Hle%HdRel_inv].
  pose proof (try_consume_near t st Hok Ht) as Hc. destruct (try_consume t st) as [a st1].
  destruct Hc as (Hok1 & Hl1 & _ & Hup & _). rewrite Z.max_r in Hup by lia.
  specialize (IH st1 Hok1 Hts). rewrite Hl1 in IH. specialize (IH Hsort).
  destruct (consume_all ts st1) as [l st']. destruct IH as [Hlast IH]. split.
  { by rewrite last_cons_default. }
  rewrite passed_cons. cbn [length]. rewrite Nat2Z.inj_succ. unfold Z.succ. rewrite inject_Z_plus.
  replace (last_refill st' - last_refill st) with ((t - last_refill st) + (last_refill st' - t)) by lia.
  rewrite gain_add. change (inject_Z 1) with 1%Q. lra.
Qed.

(** The messages at [ts] continue a window that began at [a] with [c] messages, and the window
    stays one message below the rate and the burst. *)
Fixpoint within (a c : Z) (ts : list Z) : Prop :=
  match ts with
  | [] => True
  | t :: ts => NANOS_PER_SEC * (c + 2) <= NANOS_PER_SEC * b + r * (t - a) ∧ within a (c + 1) ts
  end.

(** Every window does. *)
Fixpoint conforming (ts : list Z) : Prop :=
  match ts with [] => True | t :: ts' => within t 0 ts ∧ conforming ts' end.

Lemma within_lookup a c ts :
  (∀ j t, ts !! j = Some t → NANOS_PER_SEC * (c + Z.of_nat j + 2) <= NANOS_PER_SEC * b + r * (t - a)) →
  within a c ts.
Proof.
  revert c. induction ts as [|t ts IH]; intros c H; [done|]. split.
  - specialize (H O t eq_refl). by rewrite Z.add_0_r in H.
  - apply IH. intros j t' Hj. specialize (H (S j) t' Hj). rewrite Nat2Z.inj_succ in H.
    by replace (c + 1 + Z.of_nat j + 2) with (c + Z.succ (Z.of_nat j) + 2) by lia.
Qed.

Lemma conforming_lookup ts :
  (∀ i j ti tj, (i <= j)%nat → ts !! i = Some ti → ts !! j = Some tj →
     NANOS_PER_SEC * (Z.of_nat (j - i) + 2) <= NANOS_PER_SEC * b + r * (tj - ti)) →
  conforming ts.
Proof.
  induction ts as [|t ts IH]; intros H; [done|]. split.
  - apply within_lookup. intros j tj Hj. specialize (H O j t tj ltac:(lia) eq_refl Hj).
    by rewrite Nat.sub_0_r in H.
  - apply IH. intros i j ti tj Hij Hi Hj. apply (H (S i) (S j)); [lia|done|done].
Qed.


(** From below: such traffic passes. *)
Lemma consume_all_lower ts st a c k lo hi :
  bucket_ok r b st → Forall clock_ok ts → Sorted Z.le (last_refill st :: ts) →
  0 <= c → c + Z.of_nat (length ts) <= k → (inject_Z (k + 1) * step_slack <= 1 # 4)%Q →
  lo <= a → Forall (λ t, lo <= t <= hi) ts →
  (7 * u * gain r (hi - lo) <= 1 # 2)%Q →
  (inject_Z b - inject_Z c + gain r (last_refill st - a) - 7 * u * gain r (last_refill st - a)
     - inject_Z (c + 1) * step_slack <= fval (tokens st))%Q →
  within a c ts → conforming ts →
  Forall (λ a, a = true) (consume_all ts st).1.
Proof using Hr Hb.
  revert st a c. induction ts as [|t ts IH]; intros st a c Hok Hts Hsort Hc Hk Hslack Hlo Hhi Hg
    Hinv Hw Hcf;
    cbn [consume_all]; [constructor|].
  apply Forall_cons in Hts as [Ht Hts]. apply Sorted_inv in Hsort as [Hsort Hle%HdRel_inv].
  pose proof (try_consume_near t st Hok Ht) as Hs. destruct (try_consume t st) as [al st1].
  destruct Hs as (Hok1 & Hl1 & _ & _ & t0 & Hlow & Hleft & Hal).
  rewrite Z.max_r in Hlow by lia. cbn [length] in Hk. destruct Hw as [Hw Hws], Hcf as [[Hw0 Hws0] Hcf].
  pose proof step_slack_nonneg as Hss.
  assert (∀ n : Z, (0 <= n <= k)%Z → inject_Z n * step_slack <= 1 # 4)%Q as Hn.
  { intros n Hnk. assert (inject_Z n <= inject_Z (k + 1))%Q by (rewrite <- Zle_Qle; lia). nra. }
  assert (0 <= u * inject_Z b + inject_Z r * eta <= step_slack)%Q as Hsl.
  { unfold step_slack in *. pose proof u_bounds. pose proof (bpow_pos (-1074)).
    assert (0 <= inject_Z b)%Q by (apply (inject_range 0 b b); lia).
    assert (0 <= inject_Z r)%Q by (apply (inject_range 0 r r); lia). nra. }
  apply Forall_cons in Hhi as [Hth Hhi].
  assert (7 * u * gain r (t - a) <= 1 # 2)%Q as Hgt.
  { pose proof (gain_mono r (t - a) (hi - lo) ltac:(lia) ltac:(lia)). pose proof u_bounds. nra. }
  assert (gain r (t - a) == gain r (last_refill st - a) + gain r (t - last_refill st))%Q as Hga.
  { rewrite <- gain_add. by replace (last_refill st - a + (t - last_refill st)) with (t - a) by lia. }
  assert (∀ n, inject_Z (n + 1) == inject_Z n + 1)%Q as Hsucc
    by (intros; by rewrite inject_Z_plus).
  assert (1 <= t0)%Q as H1.
  { destruct Hlow as [Hlow|Hlow].
    - assert (inject_Z 2 <= inject_Z b)%Q as H2 by (rewrite <- Zle_Qle; unfold NANOS_PER_SEC in *; lia).
      change (inject_Z 2) with 2%Q in H2. lra.
    - assert (inject_Z (c + 2 - b) <= gain r (t - a))%Q as Hwq by (apply gain_ge; lia).
      assert (inject_Z (c + 2 - b) == inject_Z c + 2 - inject_Z b)%Q as Hcb.
      { unfold Z.sub. rewrite !inject_Z_plus, inject_Z_opp. change (inject_Z 2) with 2%Q. ring. }
      pose proof (Hn (c + 1) ltac:(lia)) as Hc1. pose proof (Hn 1 ltac:(lia)) as Hc2.
      change (inject_Z 1) with 1%Q in Hc2. rewrite Hga in Hgt, Hwq. lra. }
  apply Hal in H1 as Ha. subst al. cbn [one_if] in Hleft.
  assert (Forall (λ a, a = true) (consume_all ts st1).1) as Hrest.
  { destruct Hlow as [Hlow|Hlow].
    - apply (IH st1 t 1 Hok1 Hts); rewrite ?Hl1; try done; [lia..|].
      rewrite Z.sub_diag, gain_0. change (inject_Z 1) with 1%Q. change (inject_Z (1 + 1)) with 2%Q. lra.
    - apply (IH st1 a (c + 1) Hok1 Hts); rewrite ?Hl1; try done; [lia..|].
      rewrite !Hsucc, Hga. rewrite Hsucc in Hinv. lra. }
  destruct (consume_all ts st1) as [l st']. by constructor.
Qed.
End Bucket.

(** ** The limiter *)

Definition times_on (s : string) (calls : list (string * Z * Z)) : list Z :=
  (filter (λ c, c.1.1 = s) calls).*2.

Definition readings_ok (c : string * Z * Z) : Prop := clock_ok c.1.2 ∧ clock_ok c.2.

Section Limiter.
Context (r b : Z) (Hr : 0 < r < 2 ^ 53) (Hb : 0 <= b <= 2 ^ 50) (s : string).
Implicit Types (rl : StreamRateLimiter).

(** The limits of the stream and its bucket, if there is one. *)
Definition stream_ok rl : Prop :=
  stream_limits rl s = (f64_of_u64 r, f64_of_u64 b) ∧
  ∀ st, buckets rl !! s = Some st → bucket_ok r b st.

Lemma new_bucket_ok t : clock_ok t → bucket_ok r b (new_bucket t (f64_of_u64 r) (f64_of_u64 b)).
Proof using Hb.
  intros Ht. destruct (fval_small b ltac:(lia)) as [Hok Hv]. split; cbn; try done. rewrite Hv. apply Qle_refl.
Qed.

(** A check of the stream is one of its bucket. *)
Lemma check_bucket t0 t1 rl :
  stream_ok rl → clock_ok t0 →
  let st := default (new_bucket t0 (f64_of_u64 r) (f64_of_u64 b)) (buckets rl !! s) in
  let '(a, st') := try_consume t1 st in
  bucket_ok r b st ∧ (check t0 t1 s rl).1.1 = a ∧
  buckets (check t0 t1 s rl).2 !! s = Some st'.
Proof using Hr Hb.
  intros [Hl Hbk] Ht st. unfold check. rewrite Hl, f64_of_u64_nonzero by done. fold st.
  assert (bucket_ok r b st) as Hst.
  { unfold st. destruct (buckets rl !! s); cbn; [by apply Hbk|by apply new_bucket_ok]. }
  destruct (try_consume t1 st) as [a st']. split; [done|]. cbn. by rewrite lookup_insert_eq.
Qed.

Lemma stream_limits_check t0 t1 s' rl : stream_limits (check t0 t1 s' rl).2 s = stream_limits rl s.
Proof.
  destruct (check_same_limits t0 t1 s' rl) as (H1 & H2 & H3). unfold stream_limits. by rewrite H1, H2, H3.
Qed.

Lemma check_stream_ok t0 t1 s' rl :
  clock_ok t0 → clock_ok t1 → stream_ok rl → stream_ok (check t0 t1 s' rl).2.
Proof using Hr Hb.
  intros Ht0 Ht1 Hok. split; [rewrite stream_limits_check; apply Hok|].
  destruct (decide (s' = s)) as [->|Hne].
  - pose proof (check_bucket t0 t1 rl Hok Ht0) as Hc. cbv zeta in Hc.
    set (st := default _ _) in Hc. pose proof (try_consume_near r b Hr Hb t1 st) as Hn.
    destruct (try_consume t1 st) as [a st']. destruct Hc as (Hst & _ & ->). intros ? [= <-].
    by apply Hn.
  - destruct (check_other t0 t1 s' s rl Hne) as [_ <-]. apply Hok.
Qed.

Lemma check_all_stream_ok calls rl :
  Forall readings_ok calls → stream_ok rl → stream_ok (check_all calls rl).2.
Proof using Hr Hb.
  revert rl. induction calls as [|[[s' t0] t1] calls IH]; intros rl Hc Hok; [done|].
  apply Forall_cons in Hc as [[Ht0 Ht1] Hc]. cbn [check_all].
  pose proof (check_stream_ok t0 t1 s' rl Ht0 Ht1 Hok) as H1.
  destruct (check t0 t1 s' rl) as [a rl1]. specialize (IH rl1 Hc H1).
  by destruct (check_all calls rl1).
Qed.

(** Checks of the stream alone are checks of its bucket. *)
Lemma check_all_bucket calls rl st :
  stream_ok rl → buckets rl !! s = Some st → Forall readings_ok calls →
  Forall (λ c, c.1.1 = s) calls →
  (check_all calls rl).1.*1 = (consume_all calls.*2 st).1.
Proof using Hr Hb.
  revert rl st. induction calls as [|[[s' t0] t1] calls IH]; intros rl st Hok Hst Hc Hs; [done|].
  apply Forall_cons in Hc as [[Ht0 Ht1] Hc], Hs as [Hs' Hs]. cbn in Hs'. subst s'. cbn [check_all fmap list_fmap consume_all snd].
  pose proof (check_bucket t0 t1 rl Hok Ht0) as Hb1. rewrite Hst in Hb1. cbv zeta in Hb1.
  change (default _ (Some st)) with st in Hb1.
  pose proof (check_stream_ok t0 t1 s rl Ht0 Ht1 Hok) as Hok1.
  destruct (try_consume t1 st) as [a st1]. destruct Hb1 as (_ & Ha & Hst1).
  destruct (check t0 t1 s rl) as [[a' n] rl1]. cbn in Ha, Hst1, Hok1. subst a'.
  specialize (IH rl1 st1 Hok1 Hst1 Hc Hs).
  destruct (check_all calls rl1) as [l rl2], (consume_all calls.*2 st1) as [l' st2]. cbn in *. by f_equal.
Qed.

(** The first check, which may create the bucket, and then the others. *)
Lemma check_all_first s0 t0 t1 calls rl :
  stream_ok rl → Forall readings_ok ((s0, t0, t1) :: calls) →
  Forall (λ c, c.1.1 = s) ((s0, t0, t1) :: calls) →
  let st := default (new_bucket t0 (f64_of_u64 r) (f64_of_u64 b)) (buckets rl !! s) in
  bucket_ok r b st ∧
  (check_all ((s0, t0, t1) :: calls) rl).1.*1 = (consume_all (t1 :: calls.*2) st).1.
Proof using Hr Hb.
  intros Hok Hc Hs st. apply Forall_cons in Hc as [[Ht0 Ht1] Hc], Hs as [Hs' Hs]. cbn in Hs', Ht0, Ht1. subst s0.
  cbn [check_all consume_all].
  pose proof (check_bucket t0 t1 rl Hok Ht0) as Hb1. cbv zeta in Hb1. fold st in Hb1.
  pose proof (check_stream_ok t0 t1 s rl Ht0 Ht1 Hok) as Hok1.
  destruct (try_consume t1 st) as [a st1]. destruct Hb1 as (Hst & Ha & Hst1). split; [done|].
  destruct (check t0 t1 s rl) as [[a' n] rl1]. cbn in Ha, Hst1, Hok1. subst a'.
  pose proof (check_all_bucket calls rl1 st1 Hok1 Hst1 Hc Hs) as He.
  destruct (check_all calls rl1) as [l rl2], (consume_all calls.*2 st1) as [l' st2]. cbn in *. by f_equal.
Qed.
End Limiter.

(** The error of a run of bounded length. *)
Lemma total_error r b k g :
  0 < r < 2 ^ 53 → 0 < b → 0 <= k → k * b <= 2 ^ 48 → (0 <= g <= inject_Z (2 ^ 48))%Q →
  (7 * u * g <= 7 # 16)%Q ∧ (inject_Z k * step_slack r b <= 1 # 4)%Q.
Proof.
  intros Hr Hb Hk Hkb Hg. pose proof u_bounds as Hu. split.
  { assert (7 * u * inject_Z (2 ^ 48) <= 7 # 16)%Q by (by vm_compute). nra. }
  unfold step_slack.
  assert (inject_Z k * inject_Z b <= inject_Z (2 ^ 48))%Q as H1 by (rewrite <- inject_Z_mult, <- Zle_Qle; lia).
  assert (inject_Z k * inject_Z r <= inject_Z (2 ^ 101))%Q as H2.
  { rewrite <- inject_Z_mult, <- Zle_Qle. change (2 ^ 101) with (2 ^ 48 * 2 ^ 53). nia. }
  assert (2 * u * inject_Z (2 ^ 48) <= 1 # 8)%Q as H3 by (by vm_compute).
  assert (8 * inject_Z (2 ^ 101) * eta <= 1 # 8)%Q as H4 by (by vm_compute).
  pose proof (bpow_pos (-1074)) as He.
  assert (2 * u * (inject_Z k * inject_Z b) <= 1 # 8)%Q by nra.
  assert (8 * (inject_Z k * inject_Z r) * eta <= 1 # 8)%Q by nra. lra.
Qed.

(** ** Properties *)

Lemma stream_ok_new rps burst ovr s r b0 :
  configured rps burst ovr s = (r, b0) →
  stream_ok r (effective_burst r b0) s (new_rate_limiter rps burst ovr).
Proof.
  intros Hc. split; [|by intros st; cbn; rewrite lookup_empty].
  rewrite stream_limits_new, Hc. done.
Qed.

Lemma filter_readings s calls :
  Forall readings_ok calls →
  Forall readings_ok (filter (λ c, c.1.1 = s) calls) ∧
  Forall (λ c, c.1.1 = s) (filter (λ c, c.1.1 = s) calls).
Proof.
  intros Hc. rewrite !Forall_forall in *. split; intros c [??]%list_elem_of_filter; auto.
Qed.

Lemma readings_times calls : Forall readings_ok calls → Forall clock_ok calls.*2.
Proof. intros Hc. rewrite Forall_fmap. eapply Forall_impl; [exact Hc|]. by intros c [_ ?]. Qed.

(** C30. However the messages of a stream are spread over time, and whatever came before, in any
    window at most one message more passes than the burst and the rate allow in real numbers:
    fewer than [burst + 1 + rps * seconds].  The arithmetic is in binary64; the bound holds up
    to 2^48 messages times the burst in the window. *)
Theorem rate_bounded_over_time rps burst ovr s r b0 pre calls t1 ts :
  configured rps burst ovr s = (r, b0) →
  let b := effective_burst r b0 in
  let rl := (check_all pre (new_rate_limiter rps burst ovr)).2 in
  0 < r < 2 ^ 53 → 0 < b →
  Forall readings_ok (pre ++ calls) →
  times_on s calls = t1 :: ts → Sorted Z.le (t1 :: ts) →
  Z.of_nat (length (t1 :: ts)) * b <= 2 ^ 48 →
  r * (List.last ts t1 - t1) <= 2 ^ 48 * NANOS_PER_SEC →
  NANOS_PER_SEC * Z.of_nat (passed (answers_on s calls rl).*1) <
  NANOS_PER_SEC * (b + 1) + r * (List.last ts t1 - t1).
Proof.
  intros Hcf b rl Hr Hb0 Hread Hts Hsort Hkb HT.
  assert (0 <= b <= 2 ^ 50) as Hb by (cbn [length] in Hkb; nia).
  apply Forall_app in Hread as [Hpre Hcalls]. apply (filter_readings s) in Hcalls as [Hcalls Hall].
  assert (stream_ok r b s rl) as Hok
    by (apply check_all_stream_ok; [done|done|done|by apply stream_ok_new]).
  rewrite (answers_on_same s calls rl rl) by done. unfold times_on in Hts.
  destruct (filter _ calls) as [|[[s0 t0] t1'] fc]; [done|]. cbn in Hts. injection Hts as -> Hts.
  destruct (check_all_first r b Hr Hb s s0 t0 t1 fc rl Hok Hcalls Hall) as [Hst ->].
  rewrite Hts. set (st := default _ _) in *.
  assert (Forall clock_ok (t1 :: ts)) as Hclk.
  { rewrite <- Hts. change (t1 :: fc.*2) with ((s0, t0, t1) :: fc).*2. by apply readings_times. }
  apply Forall_cons in Hclk as [Ht1 Hclk]. cbn [consume_all].
  pose proof (try_consume_near r b Hr Hb t1 st Hst Ht1) as Hc.
  destruct (try_consume t1 st) as [a st1]. destruct Hc as (Hst1 & Hl1 & Hup & _).
  pose proof (consume_all_upper r b Hr Hb ts st1 Hst1 Hclk) as Hu. rewrite Hl1 in Hu. specialize (Hu Hsort).
  destruct (consume_all ts st1) as [l st']. destruct Hu as [Hlast Hu]. cbn [fst]. rewrite Hlast in Hu.
  pose proof (fval_nonneg (tokens st')) as H0. set (T := List.last ts t1 - t1) in *.
  assert (0 <= T) as HT0.
  { pose proof (sorted_range t1 ts Hsort) as [Hrg _]%Forall_cons. unfold T. lia. }
  destruct (total_error r b (Z.of_nat (length (t1 :: ts))) (gain r T)) as [He1 He2]; [done|done|lia|done| |].
  { split; [apply gain_nonneg; lia|by apply gain_le]. }
  cbn [length] in He2. rewrite Nat2Z.inj_succ in He2. unfold Z.succ in He2. rewrite inject_Z_plus in He2.
  change (inject_Z 1) with 1%Q in He2.
  assert (inject_Z (Z.of_nat (passed (a :: l))) < inject_Z (b + 1) + gain r T)%Q as Hfin.
  { rewrite passed_cons, inject_Z_plus. change (inject_Z 1) with 1%Q. lra. }
  rewrite Zlt_Qlt, inject_Z_plus, !inject_Z_mult. unfold gain in Hfin.
  unfold NANOS_PER_SEC. change (inject_Z 1000000000) with (1000000000 # 1)%Q. lra.
Qed.

(** C31. Traffic that stays one message below its limits is never dropped: when each window of the
    messages of a stream, from any one to any later one, has at most [burst - 1 + rps * seconds]
    of them, every one passes. *)
Theorem conforming_traffic_passes rps burst ovr s r b0 calls t1 ts :
  configured rps burst ovr s = (r, b0) →
  let b := effective_burst r b0 in
  0 < r < 2 ^ 53 → 0 < b →
  Forall readings_ok calls → Forall (λ c, c.1.2 <= c.2) calls →
  times_on s calls = t1 :: ts → Sorted Z.le (t1 :: ts) →
  (Z.of_nat (length (t1 :: ts)) + 1) * b <= 2 ^ 48 →
  r * (List.last ts t1 - t1) <= 2 ^ 48 * NANOS_PER_SEC →
  (∀ i j ti tj, (i <= j)%nat → (t1 :: ts) !! i = Some ti → (t1 :: ts) !! j = Some tj →
     NANOS_PER_SEC * (Z.of_nat (j - i) + 2) <= NANOS_PER_SEC * b + r * (tj - ti)) →
  Forall (λ a, a.1 = true) (answers_on s calls (new_rate_limiter rps burst ovr)).
Proof.
  intros Hcf b Hr Hb0 Hread Hord Hts Hsort Hkb HT Hconf%conforming_lookup.
  assert (0 <= b <= 2 ^ 50) as Hb by (cbn [length] in Hkb; nia).
  apply (filter_readings s) in Hread as [Hread Hall].
  assert (Forall (λ c : string * Z * Z, c.1.2 <= c.2) (filter (λ c, c.1.1 = s) calls)) as Hord'.
  { rewrite Forall_forall in *. intros c [??]%list_elem_of_filter. auto. }
  set (rl := new_rate_limiter rps burst ovr).
  assert (stream_ok r b s rl) as Hok by (by apply stream_ok_new).
  rewrite (answers_on_same s calls rl rl) by done. unfold times_on in Hts.
  destruct (filter _ calls) as [|[[s0 t0] t1'] fc]; [done|]. cbn in Hts. injection Hts as -> Hts.
  destruct (check_all_first r b Hr Hb s s0 t0 t1 fc rl Hok Hread Hall) as [Hst He].
  change (buckets rl !! s) with (@None BucketState) in Hst, He.
  change (default ?x None) with x in Hst, He. set (st := new_bucket _ _ _) in *.
  cut (Forall (λ a, a = true) (check_all ((s0, t0, t1) :: fc) rl).1.*1); [by rewrite Forall_fmap|].
  rewrite He, Hts.
  assert (Forall clock_ok (t1 :: ts)) as Hclk.
  { rewrite <- Hts. change (t1 :: fc.*2) with ((s0, t0, t1) :: fc).*2. by apply readings_times. }
  apply Forall_cons in Hord' as [Ht01 _]. cbn in Ht01.
  pose proof (sorted_range t1 ts Hsort) as Hrg. pose proof Hrg as [[_ HT0] _]%Forall_cons.
  destruct (total_error r b (Z.of_nat (length (t1 :: ts)) + 1) (gain r (List.last ts t1 - t1)))
    as [He1 He2]; [done|done|lia|done| |].
  { split; [apply gain_nonneg; lia|by apply gain_le]. }
  apply (consume_all_lower r b Hr Hb (t1 :: ts) st t1 0 (Z.of_nat (length (t1 :: ts))) t1 (List.last ts t1));
    [done|done|by constructor; [|constructor]|lia|lia|done|lia|done|lra| |apply Hconf|done].
  destruct (fval_small b ltac:(lia)) as [_ Hvb]. cbn [tokens st new_bucket last_refill]. rewrite Hvb.
  pose proof (gain_mono r (t0 - t1) 0 ltac:(lia) ltac:(lia)) as Hg. rewrite gain_0 in Hg.
  pose proof u_bounds as Hu. pose proof (step_slack_nonneg r b Hr Hb) as Hss.
  change (inject_Z (0 + 1)) with 1%Q. change (inject_Z 0) with 0%Q. nra.
Qed.

(** ** Witnesses *)

(** Four messages at once, one on another stream, and one 300 ms later, at 10/s with a burst of
    3: four of the five pass. *)
Definition busy_calls : list (string * Z * Z) :=
  replicate 4 ("room", 0, 0) ++ [("other", 5, 5); ("room", 300000000, 300000000)].

Lemma rate_bounded_over_time_witness :
  passed (answers_on "room" busy_calls (new_rate_limiter 10 3 ∅)).*1 = 4%nat ∧
  NANOS_PER_SEC * Z.of_nat (passed (answers_on "room" busy_calls (new_rate_limiter 10 3 ∅)).*1) <
  NANOS_PER_SEC * (effective_burst 10 3 + 1) + 10 * (300000000 - 0).
Proof.
  split; [vm_compute; reflexivity|].
  apply (rate_bounded_over_time 10 3 ∅ "room" 10 3 [] busy_calls 0 [0; 0; 0; 300000000]).
  - reflexivity.
  - lia.
  - vm_compute. reflexivity.
  - repeat constructor; vm_compute; congruence.
  - vm_compute. reflexivity.
  - repeat constructor; vm_compute; congruence.
  - vm_compute. congruence.
  - vm_compute. congruence.
Defined.

(** Two messages 200 ms apart, at 10/s with a burst of 2. *)
Lemma conforming_traffic_passes_witness :
  Forall (λ a, a.1 = true)
    (answers_on "room" [("room", 0, 0); ("room", 200000000, 200000000)] (new_rate_limiter 10 2 ∅)).
Proof.
  apply (conforming_traffic_passes 10 2 ∅ "room" 10 2 [("room", 0, 0); ("room", 200000000, 200000000)]
           0 [200000000]).
  - reflexivity.
  - lia.
  - vm_compute. reflexivity.
  - repeat constructor; vm_compute; congruence.
  - repeat constructor; vm_compute; congruence.
  - vm_compute. reflexivity.
  - repeat constructor; vm_compute; congruence.
  - vm_compute. congruence.
  - vm_compute. congruence.
  - intros [|[|i]] [|[|j]] ti tj Hij Hi Hj; cbn in Hi, Hj; try done; try lia;
      injection Hi as <-; injection Hj as <-; vm_compute; congruence.
Defined.
