(* ===== verification/Registry.v ===== *)
(** * Connection registry ([src/connection/registry.rs])

    The three [DashMap]s are [gmap]s over the connection id (a [u64]) and the stream name;
    the [SmallVec]s are lists.  A connection's outbound sender and its eviction sender are
    names of channels ([Tx], [Ev]) in two channel heaps, which [fanout_encoded] threads
    through.  The file gives the operations and the invariant that ties the forward and the
    reverse map; the abstract registry they implement (a set of live connections and a set
    of (connection, stream) subscriptions) is in [RegistrySpec.v]. *)

From stdpp Require Import base list gmap strings fin_maps sets.
From Stdlib Require Import ZArith Lia.
From S2P Require Import Prelude Channels.

(** ** Data *)

Record ConnectionEntry (Tx Ev : Type) : Type := mkEntry {
  sender : Tx;
  evict_tx : Ev;
  is_binary : bool;
}.
Arguments mkEntry {Tx Ev}.
Arguments sender {Tx Ev}.
Arguments evict_tx {Tx Ev}.
Arguments is_binary {Tx Ev}.

Record FanoutResult : Type := mkFanout {
  sent : nat;
  dropped : nat;
  evicted : list Z;
}.

Record Registry (Tx Ev : Type) : Type := mkRegistry {
  connections : gmap Z (ConnectionEntry Tx Ev);
  streams : gmap string (list Z);
  conn_streams : gmap Z (list string);
  next_id : Z;
  active : Z;
}.
Arguments mkRegistry {Tx Ev}.
Arguments connections {Tx Ev}.
Arguments streams {Tx Ev}.
Arguments conn_streams {Tx Ev}.
Arguments next_id {Tx Ev}.
Arguments active {Tx Ev}.

Section Operations.
Context {Tx Ev : Type}.
Abbreviation registry := (Registry Tx Ev).
Abbreviation entry := (ConnectionEntry Tx Ev).

(** [Registry::new] *)
Definition new_registry : registry := mkRegistry ∅ ∅ ∅ 1 0.

(** [allocate_id]: [fetch_add(1)] returns the old value. *)
Definition allocate_id (r : registry) : Z * registry :=
  (next_id r,
   mkRegistry (connections r) (streams r) (conn_streams r)
     (wrapping_add (next_id r) 1) (active r)).

Definition register (conn_id : Z) (tx : Tx) (binary : bool) (ev : Ev) (r : registry) : registry :=
  mkRegistry (<[conn_id := mkEntry tx ev binary]> (connections r)) (streams r)
    (<[conn_id := []]> (conn_streams r)) (next_id r) (wrapping_add (active r) 1).

Definition with_streams (m : gmap string (list Z)) (r : registry) : registry :=
  mkRegistry (connections r) m (conn_streams r) (next_id r) (active r).

(** First half of [remove_subscriber_from_stream], under the stream's guard: [retain], and
    whether the list became empty. *)
Definition stream_retain (stream : string) (conn_id : Z) (r : registry) : bool * registry :=
  match streams r !! stream with
  | Some subs =>
      let subs' := retain_ne conn_id subs in
      (match subs' with [] => true | _ => false end,
       with_streams (<[stream := subs']> (streams r)) r)
  | None => (false, r)
  end.

(** Second half: [remove_if(stream, |_, v| v.is_empty())]. *)
Definition stream_remove_if_empty (stream : string) (r : registry) : registry :=
  match streams r !! stream with
  | Some [] => with_streams (delete stream (streams r)) r
  | _ => r
  end.

Definition remove_subscriber_from_stream (stream : string) (conn_id : Z) (r : registry) : registry :=
  let '(should_remove, r') := stream_retain stream conn_id r in
  if should_remove then stream_remove_if_empty stream r' else r'.

(** First half of [deregister]: take the reverse-map entry and leave every stream in it. *)
Definition deregister_streams (conn_id : Z) (r : registry) : registry :=
  match conn_streams r !! conn_id with
  | Some stream_list =>
      let r1 := mkRegistry (connections r) (streams r) (delete conn_id (conn_streams r))
                  (next_id r) (active r) in
      fold_left (λ r s, remove_subscriber_from_stream s conn_id r) stream_list r1
  | None => r
  end.

(** Second half: drop the connection entry and count it out. *)
Definition deregister_connection (conn_id : Z) (r : registry) : registry :=
  match connections r !! conn_id with
  | Some _ => mkRegistry (delete conn_id (connections r)) (streams r) (conn_streams r)
                (next_id r) (wrapping_sub (active r) 1)
  | None => r
  end.

Definition deregister (conn_id : Z) (r : registry) : registry :=
  deregister_connection conn_id (deregister_streams conn_id r).

(** [subscribe]: the whole body runs under the guard of the reverse-map entry. *)
Definition subscribe (conn_id : Z) (stream : string) (r : registry) : registry :=
  match conn_streams r !! conn_id with
  | Some strs =>
      if decide (stream ∈ strs) then r
      else mkRegistry (connections r)
             (<[stream := default [] (streams r !! stream) ++ [conn_id]]> (streams r))
             (<[conn_id := strs ++ [stream]]> (conn_streams r)) (next_id r) (active r)
  | None => r
  end.

Definition unsubscribe (conn_id : Z) (stream : string) (r : registry) : registry :=
  let r' := remove_subscriber_from_stream stream conn_id r in
  match conn_streams r' !! conn_id with
  | Some strs => mkRegistry (connections r') (streams r')
                   (<[conn_id := retain_ne stream strs]> (conn_streams r'))
                   (next_id r') (active r')
  | None => r'
  end.

Definition connection_count (r : registry) : Z := active r.

(** ** Fan-out *)

Context {Bytes HB HE : Type} `{!Mpsc Bytes HB Tx} `{!Mpsc unit HE Ev}.

Definition payload_for (e : entry) (json binary : Bytes) : Bytes :=
  if is_binary e then binary else json.

(** The [for] loop over the subscriber list, with [sent], [evicted] and the two heaps. *)
Fixpoint fanout_loop (r : registry) (json binary : Bytes) (subs : list Z)
    (hb : HB) (he : HE) : nat * list Z * HB * HE :=
  match subs with
  | [] => (0, [], hb, he)
  | conn_id :: subs' =>
      match connections r !! conn_id with
      | None => fanout_loop r json binary subs' hb he
      | Some e =>
          let '(accepted, hb1) := try_send (sender e) (payload_for e json binary) hb in
          if accepted : bool then
            let '(n, ev, hb2, he2) := fanout_loop r json binary subs' hb1 he in
            (S n, ev, hb2, he2)
          else
            let he1 := (try_send (evict_tx e) tt he).2 in
            let '(n, ev, hb2, he2) := fanout_loop r json binary subs' hb1 he1 in
            (n, conn_id :: ev, hb2, he2)
      end
  end.

Definition fanout_encoded (stream : string) (json binary : Bytes)
    (r : registry) (hb : HB) (he : HE) : FanoutResult * registry * HB * HE :=
  let subs := default [] (streams r !! stream) in
  let '(n, ev, hb', he') := fanout_loop r json binary subs hb he in
  let r' := fold_left (λ r id, deregister id r) ev r in
  (mkFanout n (length ev) ev, r', hb', he').
End Operations.

Arguments new_registry {Tx Ev}.

(** ** Invariant *)

Section Invariant.
Context {Tx Ev : Type}.
Abbreviation registry := (Registry Tx Ev).
Implicit Types (r : registry) (s : string) (id : Z).

Definition subscribers r s : list Z := default [] (streams r !! s).
Definition streams_of r id : list string := default [] (conn_streams r !! id).

(** The forward and the reverse map describe the same subscriptions, without repetition and
    without empty stream entries; only registered connections have a reverse entry; the
    active counter counts the connections. *)
Record registry_wf r : Prop := mkWf {
  wf_reverse : ∀ id, is_Some (connections r !! id) ↔ is_Some (conn_streams r !! id);
  wf_subs : ∀ s id, id ∈ subscribers r s ↔ s ∈ streams_of r id;
  wf_nodup_subs : ∀ s, NoDup (subscribers r s);
  wf_nodup_streams : ∀ id, NoDup (streams_of r id);
  wf_nonempty : ∀ s, streams r !! s ≠ Some [];
  wf_active : active r = (Z.of_nat (size (connections r)) mod u64_modulus)%Z;
}.

(** Two registries with the same connections, counters and reverse map. *)
Definition only_streams_differ r r' : Prop :=
  connections r' = connections r ∧ conn_streams r' = conn_streams r ∧
  next_id r' = next_id r ∧ active r' = active r.

Lemma remove_subscriber_frame s id r :
  only_streams_differ r (remove_subscriber_from_stream s id r).
Proof.
  unfold remove_subscriber_from_stream, stream_retain, stream_remove_if_empty.
  repeat case_match; simplify_eq; done.
Qed.

(** [remove_subscriber_from_stream] filters one list and drops it when it becomes empty. *)
Lemma remove_subscriber_streams s id r :
  streams (remove_subscriber_from_stream s id r) =
  match streams r !! s with
  | Some subs => match retain_ne id subs with
                 | [] => delete s (streams r)
                 | l => <[s := l]> (streams r) end
  | None => streams r
  end.
Proof.
  unfold remove_subscriber_from_stream, stream_retain, stream_remove_if_empty.
  destruct (streams r !! s) as [subs|] eqn:E; [|done].
  destruct (retain_ne id subs) as [|x l]; [|done]. simpl.
  rewrite lookup_insert_eq; simpl. by rewrite delete_insert_eq.
Qed.

Lemma remove_subscriber_subscribers s id r s' :
  subscribers (remove_subscriber_from_stream s id r) s' =
  if decide (s' = s) then retain_ne id (subscribers r s) else subscribers r s'.
Proof.
  unfold subscribers. rewrite remove_subscriber_streams.
  destruct (streams r !! s) as [subs|] eqn:E; simpl.
  - destruct (retain_ne id subs) as [|x l] eqn:F; case_decide; subst;
      by rewrite ?lookup_delete_eq, ?lookup_insert_eq, ?lookup_delete_ne, ?lookup_insert_ne.
  - case_decide; subst; by rewrite ?E.
Qed.

Lemma remove_subscriber_nonempty s id r :
  (∀ s', streams r !! s' ≠ Some []) →
  ∀ s', streams (remove_subscriber_from_stream s id r) !! s' ≠ Some [].
Proof.
  intros Hne s'. rewrite remove_subscriber_streams.
  destruct (streams r !! s) as [subs|] eqn:E; [|done].
  destruct (retain_ne id subs) as [|x l] eqn:F.
  - intros [_ H]%lookup_delete_Some. by apply Hne in H.
  - intros [[_ H]|[_ H]]%lookup_insert_Some; [done|by apply Hne in H].
Qed.

(** The streams loop of [deregister]. *)
Lemma fold_remove_subscriber id (l : list string) r :
  let r' := fold_left (λ r s, remove_subscriber_from_stream s id r) l r in
  only_streams_differ r r' ∧
  (∀ s, subscribers r' s =
        if decide (s ∈ l) then retain_ne id (subscribers r s) else subscribers r s) ∧
  ((∀ s, streams r !! s ≠ Some []) → ∀ s, streams r' !! s ≠ Some []).
Proof.
  revert r. induction l as [|s0 l IH]; intros r; simpl; [done|].
  destruct (IH (remove_subscriber_from_stream s0 id r)) as (Hf & Hs & Hn).
  pose proof (remove_subscriber_frame s0 id r) as Hf0. split_and!.
  - unfold only_streams_differ in *. destruct_and!. split_and!; congruence.
  - intros s. rewrite Hs, !remove_subscriber_subscribers.
    repeat case_decide; subst; rewrite ?retain_ne_retain_ne; set_solver.
  - intros H. apply Hn. by apply remove_subscriber_nonempty.
Qed.

(** What [deregister] leaves behind, in a well-formed registry. *)
Lemma deregister_spec id r :
  registry_wf r →
  let r' := deregister id r in
  connections r' = delete id (connections r) ∧
  conn_streams r' = delete id (conn_streams r) ∧
  next_id r' = next_id r ∧
  (∀ s, subscribers r' s = retain_ne id (subscribers r s)) ∧
  (∀ s, streams r' !! s ≠ Some []) ∧
  active r' = match connections r !! id with
              | Some _ => wrapping_sub (active r) 1 | None => active r end.
Proof.
  intros Hwf. unfold deregister, deregister_streams.
  destruct (conn_streams r !! id) as [strs|] eqn:E.
  - destruct (wf_reverse _ Hwf id) as [_ Hc]. destruct Hc as [e He]; [by eauto|].
    set (r1 := mkRegistry _ _ _ _ _).
    destruct (fold_remove_subscriber id strs r1) as ((Hco & Hcs & Hni & Hac) & Hsub & Hne).
    revert Hco Hcs Hni Hac Hsub Hne.
    set (r2 := fold_left _ strs r1). intros.
    unfold deregister_connection. rewrite Hco; simpl. rewrite He; simpl.
    split_and!; [done|done|done| | |].
    + intros s. unfold subscribers at 1; simpl. fold (subscribers r2 s). rewrite Hsub.
      change (subscribers r1 s) with (subscribers r s). case_decide as Hin; [done|].
      symmetry. apply retain_ne_id. rewrite (wf_subs _ Hwf). unfold streams_of. by rewrite E.
    + apply Hne. apply (wf_nonempty _ Hwf).
    + by rewrite Hac.
  - assert (connections r !! id = None) as Hn.
    { destruct (connections r !! id) eqn:F; [|done].
      destruct (proj1 (wf_reverse _ Hwf id)) as [? ?]; [eauto|congruence]. }
    unfold deregister_connection. rewrite Hn. split_and!; try done.
    + by rewrite delete_id.
    + by rewrite delete_id.
    + intros s. symmetry. apply retain_ne_id. rewrite (wf_subs _ Hwf). unfold streams_of.
      rewrite E. apply not_elem_of_nil.
    + apply (wf_nonempty _ Hwf).
Qed.

(** What [subscribe] does to a registered connection that is not subscribed yet. *)
Lemma subscribe_spec id s r strs :
  registry_wf r → conn_streams r !! id = Some strs → s ∉ strs →
  let r' := subscribe id s r in
  connections r' = connections r ∧ next_id r' = next_id r ∧ active r' = active r ∧
  conn_streams r' = <[id := strs ++ [s]]> (conn_streams r) ∧
  (∀ s', subscribers r' s' =
         if decide (s' = s) then subscribers r s ++ [id] else subscribers r s') ∧
  (∀ s', streams r' !! s' ≠ Some []).
Proof.
  intros Hwf E Hns. unfold subscribe. rewrite E, decide_False by done; simpl.
  split_and!; try done.
  - intros s'. unfold subscribers; simpl.
    case_decide; subst; by rewrite ?lookup_insert_eq, ?lookup_insert_ne.
  - intros s' [[_ H]|[_ H]]%lookup_insert_Some.
    + by destruct (default [] (streams r !! s)).
    + by apply (wf_nonempty _ Hwf) in H.
Qed.

Lemma subscribe_noop id s r :
  (∀ strs, conn_streams r !! id = Some strs → s ∈ strs) → subscribe id s r = r.
Proof.
  intros H. unfold subscribe. case_match; [|done]. by rewrite decide_True by auto.
Qed.

Lemma unsubscribe_spec id s r :
  let r' := unsubscribe id s r in
  connections r' = connections r ∧ next_id r' = next_id r ∧ active r' = active r ∧
  conn_streams r' = alter (retain_ne s) id (conn_streams r) ∧
  (∀ s', subscribers r' s' =
         if decide (s' = s) then retain_ne id (subscribers r s) else subscribers r s') ∧
  ((∀ s', streams r !! s' ≠ Some []) → ∀ s', streams r' !! s' ≠ Some []).
Proof.
  unfold unsubscribe. pose proof (remove_subscriber_frame s id r) as (Hc & Hcs & Hn & Ha).
  pose proof (remove_subscriber_subscribers s id r) as Hs.
  pose proof (remove_subscriber_nonempty s id r) as Hne.
  revert Hc Hcs Hn Ha Hs Hne. set (r1 := remove_subscriber_from_stream s id r). intros.
  rewrite Hcs. destruct (conn_streams r !! id) as [strs|] eqn:E; simpl; split_and!;
    try congruence; try done.
  - apply map_eq. intros i. destruct (decide (i = id)) as [->|].
    + rewrite lookup_insert_eq, lookup_alter, decide_True by done. by rewrite E.
    + by rewrite lookup_insert_ne, lookup_alter_ne.
  - apply map_eq. intros i. rewrite Hcs. destruct (decide (i = id)) as [->|].
    + rewrite lookup_alter, decide_True by done. by rewrite E.
    + by rewrite lookup_alter_ne.
Qed.

(** ** Every operation preserves the invariant *)

Lemma new_registry_wf : registry_wf new_registry.
Proof.
  split; unfold subscribers, streams_of; simpl.
  - intros id. rewrite !lookup_empty. split; by intros [? ?].
  - intros s id. rewrite !lookup_empty. by rewrite !elem_of_nil.
  - intros s. rewrite lookup_empty. constructor.
  - intros id. rewrite lookup_empty. constructor.
  - intros s. by rewrite lookup_empty.
  - done.
Qed.

Lemma allocate_id_wf r : registry_wf r → registry_wf (allocate_id r).2.
Proof. intros []. by split. Qed.

Lemma register_wf id tx b ev r :
  connections r !! id = None → registry_wf r → registry_wf (register id tx b ev r).
Proof.
  intros Hfresh Hwf. destruct Hwf as [Hrev Hsub Hnd1 Hnd2 Hne Hact].
  assert (conn_streams r !! id = None) as Hfs.
  { destruct (conn_streams r !! id) eqn:E; [|done].
    destruct (proj2 (Hrev id)) as [? ?]; [eauto|congruence]. }
  assert (∀ id', streams_of (register id tx b ev r) id' = streams_of r id') as Hso.
  { intros id'. unfold streams_of, register; simpl.
    destruct (decide (id' = id)) as [->|]; [by rewrite lookup_insert_eq, Hfs|].
    by rewrite lookup_insert_ne. }
  split; simpl; try done.
  - intros id'. destruct (decide (id' = id)) as [->|].
    + rewrite !lookup_insert_eq. split; eauto.
    + by rewrite !lookup_insert_ne.
  - intros s id'. rewrite Hso. apply Hsub.
  - intros id'. rewrite Hso. apply Hnd2.
  - rewrite map_size_insert_None, Nat2Z.inj_succ, Hact by done.
    by rewrite wrapping_add_mod, Z.add_1_r.
Qed.

Lemma deregister_wf id r : registry_wf r → registry_wf (deregister id r).
Proof.
  intros Hwf. pose proof (deregister_spec id r Hwf) as (Hc & Hcs & Hni & Hs & Hn & Ha).
  assert (∀ id', streams_of (deregister id r) id' =
                 if decide (id' = id) then [] else streams_of r id') as Hso.
  { intros id'. unfold streams_of. rewrite Hcs.
    case_decide; [subst; by rewrite lookup_delete_eq|by rewrite lookup_delete_ne]. }
  split; try done.
  - intros id'. rewrite Hc, Hcs. destruct (decide (id' = id)) as [->|].
    + rewrite !lookup_delete_eq. split; by intros [? ?].
    + rewrite !lookup_delete_ne by done. apply (wf_reverse _ Hwf).
  - intros s id'. rewrite Hs, Hso, elem_of_retain_ne, (wf_subs _ Hwf).
    case_decide; set_solver.
  - intros s. rewrite Hs. apply NoDup_retain_ne, (wf_nodup_subs _ Hwf).
  - intros id'. rewrite Hso. case_decide; [constructor|apply (wf_nodup_streams _ Hwf)].
  - rewrite Ha, Hc. destruct (connections r !! id) as [e|] eqn:He.
    + rewrite (wf_active _ Hwf), wrapping_sub_mod.
      rewrite map_size_delete_Some by eauto.
      assert (size (connections r) ≠ 0) by (rewrite map_size_ne_0_lookup; eauto).
      f_equal. lia.
    + rewrite delete_id by done. apply (wf_active _ Hwf).
Qed.

Lemma subscribe_wf id s r : registry_wf r → registry_wf (subscribe id s r).
Proof.
  intros Hwf. destruct (conn_streams r !! id) as [strs|] eqn:E;
    [|rewrite subscribe_noop; [done|congruence]].
  destruct (decide (s ∈ strs)) as [Hin|Hns];
    [rewrite subscribe_noop; [done|congruence]|].
  pose proof (subscribe_spec id s r strs Hwf E Hns) as (Hc & Hni & Ha & Hcs & Hs & Hne).
  assert (streams_of r id = strs) as Hst by (unfold streams_of; by rewrite E).
  assert (∀ id', streams_of (subscribe id s r) id' =
                 if decide (id' = id) then strs ++ [s] else streams_of r id') as Hso.
  { intros id'. unfold streams_of. rewrite Hcs.
    case_decide; subst; by rewrite ?lookup_insert_eq, ?lookup_insert_ne. }
  assert (id ∉ subscribers r s) as Hnid by (rewrite (wf_subs _ Hwf); congruence).
  split; try done.
  - intros id'. rewrite Hc, Hcs, (wf_reverse _ Hwf).
    destruct (decide (id' = id)) as [->|]; [rewrite lookup_insert_eq, E; split; eauto|].
    by rewrite lookup_insert_ne.
  - intros s' id'. rewrite Hs, Hso. pose proof (wf_subs _ Hwf s' id').
    repeat case_decide; subst; rewrite ?elem_of_app, ?list_elem_of_singleton; naive_solver.
  - intros s'. rewrite Hs. pose proof (wf_nodup_subs _ Hwf s'). case_decide; subst; [|done].
    apply NoDup_app. split_and!; [done| |apply NoDup_singleton].
    intros x Hx ->%list_elem_of_singleton. done.
  - intros id'. rewrite Hso. pose proof (wf_nodup_streams _ Hwf id') as Hnd.
    case_decide; subst; [|done]. apply NoDup_app. split_and!; [done| |apply NoDup_singleton].
    intros x Hx ->%list_elem_of_singleton. done.
  - rewrite Ha, Hc. apply (wf_active _ Hwf).
Qed.

Lemma unsubscribe_wf id s r : registry_wf r → registry_wf (unsubscribe id s r).
Proof.
  intros Hwf. pose proof (unsubscribe_spec id s r) as (Hc & Hni & Ha & Hcs & Hs & Hne).
  assert (∀ id', streams_of (unsubscribe id s r) id' =
                 if decide (id' = id) then retain_ne s (streams_of r id') else streams_of r id')
    as Hso.
  { intros id'. unfold streams_of. rewrite Hcs, lookup_alter.
    repeat case_decide; subst; try congruence; try done.
    by destruct (conn_streams r !! _). }
  split.
  - intros id'. rewrite Hc, Hcs, (wf_reverse _ Hwf), lookup_alter.
    case_decide; subst; [|done]. by rewrite fmap_is_Some.
  - intros s' id'. rewrite Hs, Hso. pose proof (wf_subs _ Hwf s' id').
    repeat case_decide; subst; rewrite ?elem_of_retain_ne; naive_solver.
  - intros s'. rewrite Hs. case_decide; [apply NoDup_retain_ne|]; apply (wf_nodup_subs _ Hwf).
  - intros id'. rewrite Hso.
    case_decide; [apply NoDup_retain_ne|]; apply (wf_nodup_streams _ Hwf).
  - apply Hne, (wf_nonempty _ Hwf).
  - rewrite Ha, Hc. apply (wf_active _ Hwf).
Qed.

Lemma fold_deregister_wf (l : list Z) r :
  registry_wf r → registry_wf (fold_left (λ r id, deregister id r) l r).
Proof. revert r. induction l; simpl; auto using deregister_wf. Qed.
End Invariant.

#[export] Hint Resolve new_registry_wf allocate_id_wf register_wf deregister_wf subscribe_wf
  unsubscribe_wf fold_deregister_wf : gw.
