(* ===== verification/RegistrySpec.v ===== *)
(** * What the registry promises

    The abstract registry (live connections and a set of subscriptions), the refinement of
    every registry operation to it, the delivery and eviction guarantees of the fan-out,
    and the executions in which connection ids come from [allocate_id]. *)

From stdpp Require Import base list gmap strings fin_maps fin_map_dom sets.
From Stdlib Require Import ZArith Lia.
From S2P Require Import Prelude Channels Registry.

(** ** The abstract registry *)

Record AbsRegistry : Type := mkAbs {
  live : gset Z;
  subs : gset (Z * string);
}.

Definition a_register (id : Z) (a : AbsRegistry) : AbsRegistry :=
  mkAbs ({[id]} ∪ live a) (subs a).

Definition a_deregister (id : Z) (a : AbsRegistry) : AbsRegistry :=
  mkAbs (live a ∖ {[id]}) (filter (λ p, p.1 ≠ id) (subs a)).

Definition a_subscribe (id : Z) (s : string) (a : AbsRegistry) : AbsRegistry :=
  if decide (id ∈ live a) then mkAbs (live a) ({[(id, s)]} ∪ subs a) else a.

Definition a_unsubscribe (id : Z) (s : string) (a : AbsRegistry) : AbsRegistry :=
  mkAbs (live a) (subs a ∖ {[(id, s)]}).

(** The abstraction function reads the reverse map. *)
Definition abs_of {Tx Ev} (r : Registry Tx Ev) : AbsRegistry :=
  mkAbs (dom (connections r))
        (list_to_set (flat_map (λ p, map (pair p.1) p.2) (map_to_list (conn_streams r)))).

Section Refinement.
Context {Tx Ev : Type}.
Implicit Types (r : Registry Tx Ev) (s : string) (id : Z).

Lemma AbsRegistry_eq (a b : AbsRegistry) : live a = live b → subs a = subs b → a = b.
Proof. destruct a, b; simpl; congruence. Qed.

Lemma elem_of_abs_subs r id s : (id, s) ∈ subs (abs_of r) ↔ s ∈ streams_of r id.
Proof.
  unfold abs_of; simpl. rewrite elem_of_list_to_set, list_elem_of_In, in_flat_map.
  unfold streams_of. setoid_rewrite <- list_elem_of_In. split.
  - intros ([id' l] & Hin & Hs). apply elem_of_map_to_list in Hin; simpl in Hs.
    apply list_elem_of_In, in_map_iff in Hs as (s' & [= -> ->] & ?%list_elem_of_In).
    by rewrite Hin.
  - destruct (conn_streams r !! id) as [l|] eqn:E; simpl; [|by rewrite elem_of_nil].
    intros Hs. exists (id, l). split; [by apply elem_of_map_to_list|].
    apply list_elem_of_In, in_map_iff. exists s. by rewrite <- list_elem_of_In.
Qed.

(** Equality of abstract registries from their members. *)
Lemma abs_of_eq r a :
  (∀ id, is_Some (connections r !! id) ↔ id ∈ live a) →
  (∀ id s, s ∈ streams_of r id ↔ (id, s) ∈ subs a) →
  abs_of r = a.
Proof.
  intros Hl Hs. apply AbsRegistry_eq.
  - apply set_eq. intros id. simpl. by rewrite elem_of_dom.
  - apply set_eq. intros [id s]. by rewrite elem_of_abs_subs.
Qed.

Lemma abs_register id tx b ev r :
  connections r !! id = None → registry_wf r →
  abs_of (register id tx b ev r) = a_register id (abs_of r).
Proof.
  intros Hf Hwf. apply abs_of_eq; simpl.
  - intros id'. rewrite lookup_insert_is_Some', elem_of_union, elem_of_singleton, elem_of_dom.
    naive_solver.
  - intros id' s. change (list_to_set _) with (subs (abs_of r)). rewrite elem_of_abs_subs.
    unfold streams_of; simpl. destruct (decide (id' = id)) as [->|].
    + rewrite lookup_insert_eq; simpl.
      destruct (conn_streams r !! id) eqn:E; [|done].
      destruct (proj2 (wf_reverse _ Hwf id)) as [? ?]; [eauto|congruence].
    + by rewrite lookup_insert_ne.
Qed.

Lemma abs_deregister id r :
  registry_wf r → abs_of (deregister id r) = a_deregister id (abs_of r).
Proof.
  intros Hwf. pose proof (deregister_spec id r Hwf) as (Hc & Hcs & _).
  apply abs_of_eq; simpl.
  - intros id'. rewrite Hc, lookup_delete_is_Some, elem_of_difference, elem_of_singleton,
      elem_of_dom. naive_solver.
  - intros id' s. change (list_to_set _) with (subs (abs_of r)).
    rewrite elem_of_filter, elem_of_abs_subs. simpl. unfold streams_of. rewrite Hcs.
    destruct (decide (id' = id)) as [->|].
    + rewrite lookup_delete_eq; simpl. rewrite elem_of_nil. naive_solver.
    + rewrite lookup_delete_ne by done. naive_solver.
Qed.

Lemma abs_subscribe id s r :
  registry_wf r → abs_of (subscribe id s r) = a_subscribe id s (abs_of r).
Proof.
  intros Hwf. unfold a_subscribe. simpl.
  destruct (conn_streams r !! id) as [strs|] eqn:E.
  - assert (id ∈ dom (connections r)) as Hl.
    { rewrite elem_of_dom, (wf_reverse _ Hwf). eauto. }
    rewrite decide_True by done.
    assert (streams_of r id = strs) as Hst by (unfold streams_of; by rewrite E).
    destruct (decide (s ∈ strs)) as [Hin|Hns].
    + rewrite subscribe_noop by congruence. apply AbsRegistry_eq; [done|]; simpl.
      symmetry. apply subseteq_union_1_L. intros x ->%elem_of_singleton.
      apply elem_of_abs_subs. by rewrite Hst.
    + pose proof (subscribe_spec id s r strs Hwf E Hns) as (Hc & _ & _ & Hcs & _).
      apply abs_of_eq; simpl.
      * intros id'. by rewrite Hc, elem_of_dom.
      * intros id' s'. change (list_to_set _) with (subs (abs_of r)).
        rewrite elem_of_union, elem_of_singleton, elem_of_abs_subs.
        unfold streams_of. rewrite Hcs. destruct (decide (id' = id)) as [->|].
        -- rewrite lookup_insert_eq, E; simpl. rewrite elem_of_app, list_elem_of_singleton.
           naive_solver.
        -- rewrite lookup_insert_ne by done. naive_solver.
  - rewrite subscribe_noop by congruence. rewrite decide_False; [done|].
    rewrite elem_of_dom, (wf_reverse _ Hwf), E. by intros [? ?].
Qed.

Lemma abs_unsubscribe id s r : abs_of (unsubscribe id s r) = a_unsubscribe id s (abs_of r).
Proof.
  pose proof (unsubscribe_spec id s r) as (Hc & _ & _ & Hcs & _).
  apply abs_of_eq; simpl.
  - intros id'. by rewrite Hc, elem_of_dom.
  - intros id' s'. change (list_to_set _) with (subs (abs_of r)).
    rewrite elem_of_difference, elem_of_singleton, elem_of_abs_subs.
    unfold streams_of. rewrite Hcs, lookup_alter. case_decide; subst; [|naive_solver].
    destruct (conn_streams r !! _); simpl; [rewrite elem_of_retain_ne|rewrite elem_of_nil];
      naive_solver.
Qed.

Lemma abs_fold_deregister (l : list Z) r :
  registry_wf r →
  abs_of (fold_left (λ r id, deregister id r) l r) =
  fold_left (λ a id, a_deregister id a) l (abs_of r).
Proof.
  revert r. induction l as [|id l IH]; intros r Hwf; simpl; [done|].
  rewrite IH, abs_deregister by auto with gw. done.
Qed.

(** Deregistering a list of connections removes exactly those. *)
Lemma elem_of_fold_a_deregister (l : list Z) (a : AbsRegistry) id :
  (id ∈ live (fold_left (λ a id, a_deregister id a) l a) ↔ id ∈ live a ∧ id ∉ l) ∧
  (∀ s, (id, s) ∈ subs (fold_left (λ a id, a_deregister id a) l a) ↔
        (id, s) ∈ subs a ∧ id ∉ l).
Proof.
  revert a. induction l as [|x l IH]; intros a; simpl.
  - set_solver.
  - destruct (IH (a_deregister x a)) as [IH1 IH2]. split.
    + rewrite IH1. simpl. rewrite elem_of_difference, elem_of_singleton, elem_of_cons.
      naive_solver.
    + intros s. rewrite IH2. simpl. rewrite elem_of_filter, elem_of_cons. simpl. naive_solver.
Qed.

Lemma Registry_eq r r' :
  connections r = connections r' → streams r = streams r' →
  conn_streams r = conn_streams r' → next_id r = next_id r' → active r = active r' → r = r'.
Proof. destruct r, r'; simpl; congruence. Qed.

Lemma unsubscribe_streams id s r :
  streams (unsubscribe id s r) = streams (remove_subscriber_from_stream s id r).
Proof. unfold unsubscribe. by case_match. Qed.

(** Unsubscribing from a stream the connection is not on changes nothing. *)
Lemma unsubscribe_noop id s r :
  registry_wf r → id ∉ subscribers r s → unsubscribe id s r = r.
Proof.
  intros Hwf Hn. pose proof (unsubscribe_spec id s r) as (Hc & Hni & Ha & Hcs & _ & _).
  apply Registry_eq; [done| | |done|done].
  - rewrite unsubscribe_streams, remove_subscriber_streams. unfold subscribers in Hn.
    destruct (streams r !! s) as [l|] eqn:E; [|done]. simpl in Hn.
    rewrite retain_ne_id by done. destruct l; [by apply (wf_nonempty _ Hwf) in E|].
    by rewrite insert_id.
  - rewrite Hcs. apply map_eq. intros i. rewrite lookup_alter. case_decide; [subst|done].
    rewrite (wf_subs _ Hwf) in Hn. unfold streams_of in Hn.
    destruct (conn_streams r !! i); simpl in *; [|done]. by rewrite retain_ne_id.
Qed.

Lemma subscriber_registered r s id :
  registry_wf r → id ∈ subscribers r s → is_Some (connections r !! id).
Proof.
  intros Hwf Hin%(wf_subs _ Hwf). apply (wf_reverse _ Hwf). unfold streams_of in Hin.
  destruct (conn_streams r !! id); [eauto|]. by apply not_elem_of_nil in Hin.
Qed.

(** The eviction loop of the fan-out, on the concrete registry. *)
Lemma fold_deregister_spec (l : list Z) r id :
  registry_wf r →
  let r' := fold_left (λ r id, deregister id r) l r in
  (is_Some (connections r' !! id) ↔ is_Some (connections r !! id) ∧ id ∉ l) ∧
  (∀ s, id ∈ subscribers r' s ↔ id ∈ subscribers r s ∧ id ∉ l).
Proof.
  intros Hwf r'. assert (registry_wf r') as Hwf' by (by apply fold_deregister_wf).
  destruct (elem_of_fold_a_deregister l (abs_of r) id) as [Hl Hs].
  rewrite <- abs_fold_deregister in Hl, Hs by done. fold r' in Hl, Hs.
  simpl in Hl. rewrite !elem_of_dom in Hl. split; [done|]. intros s.
  rewrite (wf_subs _ Hwf'), (wf_subs _ Hwf), <- !elem_of_abs_subs. apply Hs.
Qed.
End Refinement.

(** ** Fan-out *)

Section Fanout.
Context {Tx Ev Bytes HB HE : Type}.
Context `{MpscLaws Bytes HB Tx} `{MpscLaws unit HE Ev}.
Context `{!EqDecision Tx} `{!EqDecision Ev}.
Implicit Types (r : Registry Tx Ev) (s : string) (id : Z) (hb : HB) (he : HE).

(** Distinct connections write to distinct channels (each registers a fresh one). *)
Definition senders_distinct r : Prop :=
  ∀ id1 id2 e1 e2, connections r !! id1 = Some e1 → connections r !! id2 = Some e2 →
    sender e1 = sender e2 → id1 = id2.

(** Whether the connection's outbound channel can take a message. *)
Definition room_of r hb id : bool :=
  match connections r !! id with Some e => has_room (sender e) hb | None => false end.

(** [queue] only grows under [try_send]. *)
Lemma try_send_grows (c c' : Ev) (u : unit) he :
  queue c' he `prefix_of` queue c' (try_send c u he).2.
Proof using Type*.
  rewrite try_send_queue. destruct (bool_decide _) eqn:E; simpl; [|done].
  apply bool_decide_eq_true in E. subst. case_match; [by eexists|done].
Qed.

(** Sending to one connection does not disturb the channels of the others. *)
Lemma fanout_send_frame r id0 e0 (m : Bytes) hb id :
  senders_distinct r → connections r !! id0 = Some e0 → id ≠ id0 →
  (∀ e, connections r !! id = Some e →
     queue (sender e) (try_send (sender e0) m hb).2 = queue (sender e) hb ∧
     has_room (sender e) (try_send (sender e0) m hb).2 = has_room (sender e) hb) ∧
  room_of r (try_send (sender e0) m hb).2 id = room_of r hb id.
Proof using Type*.
  intros Hdist He0 Hne.
  assert (∀ e, connections r !! id = Some e →
            queue (sender e) (try_send (sender e0) m hb).2 = queue (sender e) hb ∧
            has_room (sender e) (try_send (sender e0) m hb).2 = has_room (sender e) hb) as Hall.
  { intros e He.
    assert (queue (sender e) (try_send (sender e0) m hb).2 = queue (sender e) hb) as Hq.
    { rewrite try_send_queue, bool_decide_eq_false_2; [done|].
      intros Heq. by apply Hne, (Hdist id id0 e e0). }
    split; [done|]. apply has_room_ends; [apply try_send_ends|done]. }
  split; [done|]. unfold room_of. destruct (connections r !! id) as [e|]; [|done].
  by apply Hall.
Qed.

(** The loop visits each subscriber once, against the heap it started from. *)
Lemma fanout_loop_spec r (json binary : Bytes) (l : list Z) hb he n ev hb' he' :
  senders_distinct r → NoDup l → (∀ id, id ∈ l → is_Some (connections r !! id)) →
  fanout_loop r json binary l hb he = (n, ev, hb', he') →
  ev = filter (λ id, room_of r hb id = false) l ∧
  n + length ev = length l ∧
  (∀ id e, connections r !! id = Some e →
     queue (sender e) hb' =
     if bool_decide (id ∈ l) && has_room (sender e) hb
     then queue (sender e) hb ++ [payload_for e json binary] else queue (sender e) hb) ∧
  (∀ c, (∀ id e, connections r !! id = Some e → sender e ≠ c) → queue c hb' = queue c hb).
Proof using Type*.
  intros Hdist. revert hb he n ev hb' he'.
  induction l as [|id0 l IH]; intros hb he n ev hb' he' Hnd Hreg; simpl;
    [intros; simplify_eq; by split_and!|].
  apply NoDup_cons in Hnd as [Hnin Hnd].
  assert (∀ id, id ∈ l → is_Some (connections r !! id)) as Hreg'
    by (intros; apply Hreg; by right).
  destruct (Hreg id0) as [e0 He0]; [by left|]. rewrite He0.
  set (m := payload_for e0 json binary).
  pose proof (λ id, fanout_send_frame r id0 e0 m hb id Hdist He0) as Hframe.
  pose proof (try_send_result (sender e0) m hb) as Hacc.
  pose proof (try_send_queue (sender e0) m hb) as Hq.
  assert (filter (λ id, room_of r (try_send (sender e0) m hb).2 id = false) l =
          filter (λ id, room_of r hb id = false) l) as Hfil.
  { apply filter_ext_in. intros id Hid. destruct (Hframe id) as [_ ->]; set_solver. }
  destruct (try_send (sender e0) m hb) as [acc hb1]; simpl in *.
  assert (room_of r hb id0 = acc) as Hacc' by (unfold room_of; by rewrite He0).
  rewrite filter_cons, Hacc'.
  destruct (fanout_loop r json binary l hb1 (if acc then he else (try_send (evict_tx e0) tt he).2))
    as [[[n1 ev1] hb2] he2] eqn:Hloop.
  destruct (IH _ _ _ _ _ _ Hnd Hreg' Hloop) as (-> & Hn & Hqs & Hqo).
  destruct acc; rewrite Hloop; intros; simplify_eq; rewrite ?decide_True, ?decide_False by done;
    (split_and!; simpl; [by rewrite Hfil|simpl in *; lia| |]).
  all: try (intros c Hc; rewrite Hqo by done; rewrite Hq;
    rewrite bool_decide_eq_false_2; [done|]; by intros ->; eapply Hc).
  all: intros id e He; rewrite (Hqs id e He); destruct (decide (id = id0)) as [->|Hne];
    [ simplify_eq; rewrite bool_decide_eq_false_2 by done;
      rewrite (bool_decide_eq_true_2 (id0 ∈ id0 :: l)) by left; simpl;
      rewrite Hq, bool_decide_eq_true_2 by done; simpl; by rewrite <- Hacc
    | destruct (Hframe id Hne) as [Hf _]; destruct (Hf e He) as [-> ->];
      replace (bool_decide (id ∈ id0 :: l)) with (bool_decide (id ∈ l));
      [done|apply bool_decide_ext; set_solver] ].
Qed.

(** Eviction signals accumulate. *)
Lemma fanout_loop_evict_grows r (json binary : Bytes) (l : list Z) hb he n ev hb' he' :
  fanout_loop r json binary l hb he = (n, ev, hb', he') →
  same_ends he he' ∧ ∀ c : Ev, queue c he `prefix_of` queue c he'.
Proof using Type*.
  revert hb he n ev hb' he'.
  induction l as [|id0 l IH]; intros hb he n ev hb' he'; simpl; [by intros; simplify_eq|].
  destruct (connections r !! id0) as [e0|]; [|by apply IH].
  destruct (try_send (sender e0) _ hb) as [[] hb1];
    [destruct (fanout_loop r json binary l hb1 he) as [[[n1 ev1] hb2] he2] eqn:Hloop
    |destruct (fanout_loop r json binary l hb1 _) as [[[n1 ev1] hb2] he2] eqn:Hloop];
    intros; simplify_eq; destruct (IH _ _ _ _ _ _ Hloop) as [Hs Hg]; [done|].
  split; [eapply same_ends_trans; [apply try_send_ends|done]|].
  intros c. etrans; [apply try_send_grows|apply Hg].
Qed.

(** Every evicted connection whose signal can be queued has one queued. *)
Lemma fanout_loop_signals r (json binary : Bytes) (l : list Z) hb he n ev hb' he' id e :
  fanout_loop r json binary l hb he = (n, ev, hb', he') →
  id ∈ ev → connections r !! id = Some e →
  rx_open (evict_tx e) he = true → 0 < capacity (evict_tx e) he →
  queue (evict_tx e) he' ≠ [].
Proof using Type*.
  revert hb he n ev hb' he'.
  induction l as [|id0 l IH]; intros hb he n ev hb' he'; simpl;
    [intros; simplify_eq; set_solver|].
  destruct (connections r !! id0) as [e0|] eqn:He0; [|by apply IH].
  destruct (try_send (sender e0) _ hb) as [[] hb1];
    [destruct (fanout_loop r json binary l hb1 he) as [[[n1 ev1] hb2] he2] eqn:Hloop
    |destruct (fanout_loop r json binary l hb1 _) as [[[n1 ev1] hb2] he2] eqn:Hloop];
    intros Heq Hin He Hopen Hcap; simplify_eq; [by eapply IH|].
  pose proof (try_send_ends (evict_tx e0) tt he (evict_tx e)) as (Hc & Hrx & _).
  apply elem_of_cons in Hin as [->|Hin]; [|eapply IH; try done; lia || congruence].
  simplify_eq. destruct (fanout_loop_evict_grows _ _ _ _ _ _ _ _ _ _ Hloop) as [_ Hg].
  specialize (Hg (evict_tx e0)). intros Hnil. rewrite Hnil in Hg.
  apply prefix_nil_inv in Hg. rewrite try_send_queue in Hg.
  rewrite bool_decide_eq_true_2 in Hg by done. simpl in Hg.
  unfold has_room in Hg. rewrite Hopen in Hg. simpl in Hg.
  destruct (Nat.ltb_spec (length (queue (evict_tx e0) he)) (capacity (evict_tx e0) he)).
  - by destruct (queue (evict_tx e0) he).
  - rewrite Hg in *. simpl in *. lia.
Qed.
End Fanout.

(** ** Executions

    Connection ids come from [allocate_id] and are registered once; [deregister],
    [subscribe], [unsubscribe] and fan-outs (on whatever the channels hold by then) come in
    any order.  The second component lists the ids allocated and not yet registered.  The
    64-bit id counter is assumed not to run out. *)

Section RegistryExecutions.
Context {Tx Ev Bytes HB HE : Type} `{!Mpsc Bytes HB Tx} `{!Mpsc unit HE Ev}.
Implicit Types (r : Registry Tx Ev) (al : list Z) (id : Z).

Definition registry_init (st : Registry Tx Ev * list Z) : Prop := st = (new_registry, []).

Inductive registry_step : Registry Tx Ev * list Z → Registry Tx Ev * list Z → Prop :=
| rs_allocate r al id r' :
    (next_id r < u64_max)%Z → allocate_id r = (id, r') →
    registry_step (r, al) (r', id :: al)
| rs_register r al1 al2 id tx b ev :
    registry_step (r, al1 ++ id :: al2) (register id tx b ev r, al1 ++ al2)
| rs_deregister r al id : registry_step (r, al) (deregister id r, al)
| rs_subscribe r al id s : registry_step (r, al) (subscribe id s r, al)
| rs_unsubscribe r al id s : registry_step (r, al) (unsubscribe id s r, al)
| rs_fanout r al s (json binary : Bytes) (hb : HB) (he : HE) res r' hb' he' :
    fanout_encoded s json binary r hb he = (res, r', hb', he') →
    registry_step (r, al) (r', al).

Record registry_exec_inv (st : Registry Tx Ev * list Z) : Prop := mkExecInv {
  ei_wf : registry_wf st.1;
  ei_next : (1 ≤ next_id st.1 ≤ u64_max)%Z;
  ei_fresh : ∀ id, id ∈ st.2 → connections st.1 !! id = None ∧ (id < next_id st.1)%Z;
  ei_used : ∀ id, is_Some (connections st.1 !! id) → (id < next_id st.1)%Z;
  ei_nodup : NoDup st.2;
  ei_size : (Z.of_nat (size (connections st.1)) + Z.of_nat (length st.2) < next_id st.1)%Z;
}.

(** The operations that only shrink or keep the connection map. *)
Lemma exec_inv_shrink r r' al :
  registry_wf r' → connections r' ⊆ connections r → next_id r' = next_id r →
  registry_exec_inv (r, al) → registry_exec_inv (r', al).
Proof.
  intros Hwf Hsub Hn [_ Hnx Hf Hu Hnd Hs]; simpl in *. split; simpl; rewrite ?Hn; try done.
  - intros id Hid. split; [|by apply Hf]. eapply lookup_weaken_None; [by apply Hf|done].
  - intros id [e He]. apply Hu. exists e. by eapply lookup_weaken.
  - apply map_subseteq_size in Hsub. lia.
Qed.

Lemma exec_inv_fold_deregister (l : list Z) r al :
  registry_exec_inv (r, al) →
  registry_exec_inv (fold_left (λ r id, deregister id r) l r, al).
Proof.
  revert r. induction l as [|id l IH]; intros r Hinv; simpl; [done|]. apply IH.
  pose proof (ei_wf _ Hinv) as Hwf; simpl in Hwf.
  pose proof (deregister_spec id r Hwf) as (Hc & _ & Hn & _).
  eapply exec_inv_shrink; [by apply deregister_wf| |done|done].
  rewrite Hc. apply delete_subseteq.
Qed.

Lemma registry_exec_inv_step st st' :
  registry_exec_inv st → registry_step st st' → registry_exec_inv st'.
Proof.
  intros Hinv Hstep. inversion Hstep as
    [r al id r' Hlt Halloc|r al1 al2 id tx b ev|r al id|r al id s|r al id s
    |r al s json binary hb he res r' hb' he' Hfan]; subst.
  - destruct Hinv as [Hwf Hnx Hf Hu Hnd Hs]; simpl in *. injection Halloc as <- <-.
    split; simpl; rewrite ?(wrapping_add_small (next_id r) 1) by (unfold u64_max in *; lia);
      [by destruct Hwf; split|lia| | | |lia].
    + intros id [->|Hid]%elem_of_cons; [|destruct (Hf id Hid); split; [done|lia]].
      split; [|lia]. apply eq_None_not_Some. intros ?%Hu. lia.
    + intros id ?%Hu. lia.
    + apply NoDup_cons. split; [|done]. intros [_ ?]%Hf. lia.
  - destruct Hinv as [Hwf Hnx Hf Hu Hnd Hs]; simpl in *.
    destruct (Hf id) as [Hnone Hlt]; [set_solver|].
    split; simpl; [by apply register_wf|done| | | |].
    + intros id' Hid'. destruct (Hf id') as [??]; [set_solver|]. split; [|done].
      rewrite lookup_insert_ne; [done|]. intros <-.
      rewrite NoDup_app, NoDup_cons in Hnd. set_solver.
    + intros id' Hs'. destruct (decide (id' = id)) as [->|]; [done|].
      apply Hu. by rewrite lookup_insert_ne in Hs'.
    + rewrite NoDup_app, NoDup_cons in Hnd. apply NoDup_app. set_solver.
    + rewrite map_size_insert_None by done. rewrite length_app in *. simpl in *. lia.
  - by apply (exec_inv_fold_deregister [id]).
  - pose proof (ei_wf _ Hinv) as Hwf; simpl in Hwf. eapply exec_inv_shrink;
      [by apply subscribe_wf| | |done]; unfold subscribe; repeat case_match; done.
  - pose proof (ei_wf _ Hinv) as Hwf; simpl in Hwf.
    pose proof (unsubscribe_spec id s r) as (Hc & Hn & _).
    eapply exec_inv_shrink; [by apply unsubscribe_wf|by rewrite Hc|done|done].
  - unfold fanout_encoded in Hfan. case_match. simplify_eq. repeat case_match; simplify_eq.
    by apply exec_inv_fold_deregister.
Qed.

Lemma registry_exec_inv_reachable st :
  reachable registry_init registry_step st → registry_exec_inv st.
Proof.
  apply reachable_invariant; [|apply registry_exec_inv_step].
  intros ? ->. split; simpl; [apply new_registry_wf| | | | |].
  - by vm_compute.
  - set_solver.
  - intros id. rewrite lookup_empty. by intros [? ?].
  - constructor.
  - by rewrite map_size_empty.
Qed.
End RegistryExecutions.

(** ** Properties *)

Section RegistryProperties.
Context {Tx Ev Bytes HB HE : Type}.
Context `{MpscLaws Bytes HB Tx} `{MpscLaws unit HE Ev}.
Context `{!EqDecision Tx} `{!EqDecision Ev}.
Implicit Types (r : Registry Tx Ev) (s : string) (id : Z) (hb : HB) (he : HE).

(** C4. In every execution of registry operations the forward and the reverse map agree
    (each stream lists exactly the connections that list it, once, and is never empty), the
    connection count is the number of registered connections, and an id allocated for a
    new connection is not in use. *)
Theorem registry_reachable_wf (st : Registry Tx Ev * list Z) :
  reachable registry_init (registry_step (Bytes := Bytes) (HB := HB) (HE := HE)) st →
  registry_wf st.1 ∧
  connection_count st.1 = Z.of_nat (size (connections st.1)) ∧
  (∀ id, id ∈ st.2 → connections st.1 !! id = None).
Proof.
  intros [Hwf Hn Hf _ _ Hs]%registry_exec_inv_reachable.
  split_and!; [done| |by apply Hf]. unfold connection_count.
  rewrite (wf_active _ Hwf). apply Z.mod_small. unfold u64_max in *. lia.
Qed.

(** C3. Every registry operation implements its abstract counterpart on the set of live
    connections and the set of subscriptions; a fan-out is the deregistration of the
    connections it evicts. *)
Theorem registry_refines_abstract r (Hwf : registry_wf r) :
  (∀ id tx b ev, connections r !! id = None →
     abs_of (register id tx b ev r) = a_register id (abs_of r)) ∧
  (∀ id, abs_of (deregister id r) = a_deregister id (abs_of r)) ∧
  (∀ id s, abs_of (subscribe id s r) = a_subscribe id s (abs_of r)) ∧
  (∀ id s, abs_of (unsubscribe id s r) = a_unsubscribe id s (abs_of r)) ∧
  (∀ s (json binary : Bytes) hb he res r' hb' he',
     fanout_encoded s json binary r hb he = (res, r', hb', he') →
     abs_of r' = fold_left (λ a id, a_deregister id a) (evicted res) (abs_of r)).
Proof.
  split_and!; intros.
  - by apply abs_register.
  - by apply abs_deregister.
  - by apply abs_subscribe.
  - by apply abs_unsubscribe.
  - unfold fanout_encoded in *. repeat case_match; simplify_eq/=.
    by apply abs_fold_deregister.
Qed.

(** C2. A fan-out appends exactly one copy of the message, in the connection's own encoding,
    to the channel of every subscriber with room, leaves every other channel as it was,
    and accounts for each subscriber once: sent or evicted. *)
Theorem fanout_delivers_once r s (json binary : Bytes) hb he res r' hb' he' :
  registry_wf r → senders_distinct r →
  fanout_encoded s json binary r hb he = (res, r', hb', he') →
  sent res + dropped res = length (subscribers r s) ∧
  dropped res = length (evicted res) ∧
  evicted res = filter (λ id, room_of r hb id = false) (subscribers r s) ∧
  (∀ id e, connections r !! id = Some e →
     queue (sender e) hb' =
     if bool_decide (id ∈ subscribers r s) && has_room (sender e) hb
     then queue (sender e) hb ++ [if is_binary e then binary else json]
     else queue (sender e) hb) ∧
  (∀ c, (∀ id e, connections r !! id = Some e → sender e ≠ c) → queue c hb' = queue c hb).
Proof using Type*.
  intros Hwf Hd. unfold fanout_encoded. fold (subscribers r s).
  destruct (fanout_loop _ _ _ _ _ _) as [[[n ev] hb2] he2] eqn:Hloop.
  intros; simplify_eq/=.
  destruct (fanout_loop_spec _ _ _ _ _ _ _ _ _ _ Hd (wf_nodup_subs _ Hwf s)
    (λ id, subscriber_registered r s id Hwf) Hloop) as (-> & ? & ? & ?).
  by split_and!.
Qed.

(** C5. Backpressure eviction: a fan-out evicts exactly the subscribers of the stream whose
    channel had no room, each of them once; every one of them is deregistered, from every
    stream, with an eviction signal queued when its signal channel is alive; every other
    connection keeps its registration and its subscriptions. *)
Theorem fanout_evicts_only_full r s (json binary : Bytes) hb he res r' hb' he' :
  registry_wf r → senders_distinct r →
  fanout_encoded s json binary r hb he = (res, r', hb', he') →
  registry_wf r' ∧ NoDup (evicted res) ∧
  (∀ id, id ∈ evicted res ↔ id ∈ subscribers r s ∧ room_of r hb id = false) ∧
  (∀ id, id ∈ evicted res → connections r' !! id = None ∧ (∀ s', id ∉ subscribers r' s')) ∧
  (∀ id e, id ∈ evicted res → connections r !! id = Some e →
     rx_open (evict_tx e) he = true → 0 < capacity (evict_tx e) he →
     queue (evict_tx e) he' ≠ []) ∧
  (∀ id, id ∉ evicted res →
     (is_Some (connections r' !! id) ↔ is_Some (connections r !! id)) ∧
     (∀ s', id ∈ subscribers r' s' ↔ id ∈ subscribers r s')).
Proof using Type*.
  intros Hwf Hd. unfold fanout_encoded. fold (subscribers r s).
  destruct (fanout_loop _ _ _ _ _ _) as [[[n ev] hb2] he2] eqn:Hloop.
  intros; simplify_eq/=.
  destruct (fanout_loop_spec _ _ _ _ _ _ _ _ _ _ Hd (wf_nodup_subs _ Hwf s)
    (λ id, subscriber_registered r s id Hwf) Hloop) as (Hev & _).
  pose proof (fold_deregister_spec ev r) as Hfold. split_and!.
  - by apply fold_deregister_wf.
  - rewrite Hev. by apply NoDup_filter, wf_nodup_subs.
  - intros id. rewrite Hev, list_elem_of_filter. tauto.
  - intros id Hid. destruct (Hfold id Hwf) as [Hc Hs]. split.
    + apply eq_None_not_Some. rewrite Hc. tauto.
    + intros s'. rewrite Hs. tauto.
  - intros id e Hid He. by apply (fanout_loop_signals _ _ _ _ _ _ _ _ _ _ id e Hloop).
  - intros id Hid. destruct (Hfold id Hwf) as [Hc Hs]. split; [|intros s'];
      rewrite ?Hc, ?Hs; tauto.
Qed.

End RegistryProperties.

Section SubscriptionProperties.
Context {Tx Ev : Type}.
Implicit Types (r : Registry Tx Ev) (s : string) (id : Z).

(** Deregistering a connection removes it from every map and every stream, deletes the
    streams it was alone on, leaves the other connections' subscriptions as they were, and
    doing it again changes nothing. *)
Theorem deregister_complete_and_idempotent r id :
  registry_wf r →
  connections (deregister id r) !! id = None ∧
  conn_streams (deregister id r) !! id = None ∧
  (∀ s, subscribers (deregister id r) s = filter (λ x, x ≠ id) (subscribers r s)) ∧
  (∀ s, (∀ x, x ∈ subscribers r s → x = id) → streams (deregister id r) !! s = None) ∧
  deregister id (deregister id r) = deregister id r.
Proof.
  intros Hwf. pose proof (deregister_spec id r Hwf) as (Hc & Hcs & _ & Hs & Hne & _).
  assert (connections (deregister id r) !! id = None) as Hc' by (by rewrite Hc, lookup_delete_eq).
  assert (conn_streams (deregister id r) !! id = None) as Hcs'
    by (by rewrite Hcs, lookup_delete_eq).
  split_and!; [done|done|done| |].
  - intros s Hall. apply retain_ne_nil in Hall. specialize (Hne s).
    pose proof (Hs s) as Heq. unfold subscribers in Heq at 1. rewrite Hall in Heq.
    destruct (streams (deregister id r) !! s); simpl in Heq; congruence.
  - unfold deregister at 1, deregister_streams, deregister_connection.
    by rewrite Hcs', Hc'.
Qed.

(** Unsubscribing what a fresh subscribe added restores the registry exactly, and a
    repeated subscribe changes nothing. *)
Theorem subscribe_unsubscribe_roundtrip r id s :
  registry_wf r → id ∉ subscribers r s →
  unsubscribe id s (subscribe id s r) = r ∧
  subscribe id s (subscribe id s r) = subscribe id s r.
Proof.
  intros Hwf Hn. destruct (conn_streams r !! id) as [strs|] eqn:E.
  2: { rewrite !subscribe_noop by congruence. split; [by apply unsubscribe_noop|done]. }
  assert (s ∉ strs) as Hs.
  { rewrite (wf_subs _ Hwf) in Hn. unfold streams_of in Hn. by rewrite E in Hn. }
  unfold subscribe at 2 3 4. rewrite E, decide_False by done. split.
  - pose proof (unsubscribe_spec id s (subscribe id s r)) as (Hc & Hni & Ha & Hcs & _ & _).
    revert Hc Hni Ha Hcs. unfold subscribe. rewrite E, decide_False by done. intros.
    apply Registry_eq; [done| | |done|done].
    + rewrite unsubscribe_streams, remove_subscriber_streams; simpl. rewrite lookup_insert_eq.
      unfold subscribers in Hn. rewrite retain_ne_snoc by done.
      destruct (streams r !! s) as [[|x l]|] eqn:F; simpl.
      * by apply (wf_nonempty _ Hwf) in F.
      * by rewrite insert_insert_eq, insert_id.
      * by rewrite delete_insert_id.
    + rewrite Hcs; simpl. apply map_eq. intros i. rewrite lookup_alter.
      case_decide; [subst|by rewrite lookup_insert_ne].
      rewrite lookup_insert_eq, E; simpl. by rewrite retain_ne_snoc.
  - apply subscribe_noop. simpl. intros ? [= <-]%(eq_trans (eq_sym (lookup_insert_eq _ _ _))).
    set_solver.
Qed.
End SubscriptionProperties.

(** ** Witnesses

    Three connections on stream ["s"] (JSON, MessagePack, JSON), the third with a full
    outbound channel; channels are bounded queues. *)

Definition demo_registry : Registry nat nat :=
  subscribe 3 "s" (subscribe 2 "s" (subscribe 1 "s"
    (register 3 3 false 3 (register 2 2 true 2 (register 1 1 false 1 new_registry))))).

Definition demo_outbound : gmap nat (BoundedQueue string) :=
  {[ 1 := fresh_queue 2; 2 := fresh_queue 2; 3 := mkQueue ["old"] 1 true true ]}.

Definition demo_evict : gmap nat (BoundedQueue unit) :=
  {[ 1 := fresh_queue 1; 2 := fresh_queue 1; 3 := fresh_queue 1 ]}.

Lemma demo_registry_wf : registry_wf demo_registry.
Proof.
  unfold demo_registry.
  repeat first [apply subscribe_wf | apply register_wf; [by vm_compute|]].
  apply new_registry_wf.
Qed.

Lemma demo_senders_distinct : senders_distinct demo_registry.
Proof.
  intros id1 id2 e1 e2 H1 H2 Heq.
  assert (∀ id e, connections demo_registry !! id = Some e → id = Z.of_nat (sender e)) as Hs.
  { intros id e He%elem_of_map_to_list. vm_compute in He. set_solver. }
  by rewrite (Hs _ _ H1), (Hs _ _ H2), Heq.
Qed.

Definition demo_fanout :=
  fanout_encoded "s" "json" "msgpack" demo_registry demo_outbound demo_evict.

Lemma demo_fanout_eq :
  fanout_encoded "s" "json" "msgpack" demo_registry demo_outbound demo_evict =
  (demo_fanout.1.1.1, demo_fanout.1.1.2, demo_fanout.1.2, demo_fanout.2).
Proof. by vm_compute. Qed.

Lemma registry_reachable_wf_witness :
  registry_wf (register (Tx := nat) (Ev := nat) 1 7 false 7 (allocate_id new_registry).2) ∧
  connection_count (register (Tx := nat) (Ev := nat) 1 7 false 7 (allocate_id new_registry).2) = 1%Z ∧
  (∀ id, id ∈ @nil Z → connections
     (register (Tx := nat) (Ev := nat) 1 7 false 7 (allocate_id new_registry).2) !! id = None).
Proof.
  apply (registry_reachable_wf (Bytes := string) (HB := gmap nat (BoundedQueue string))
    (HE := gmap nat (BoundedQueue unit))
    (register 1 7 false 7 (allocate_id new_registry).2, [])).
  eapply reachable_step; [eapply reachable_step; [apply reachable_init; reflexivity|]|].
  - apply rs_allocate; [by vm_compute|reflexivity].
  - apply (rs_register _ [] []).
Defined.

Lemma registry_refines_abstract_witness :
  abs_of (deregister 3 demo_registry) = a_deregister 3 (abs_of demo_registry).
Proof.
  apply (registry_refines_abstract (Bytes := string) (HB := gmap nat (BoundedQueue string))
    (HE := gmap nat (BoundedQueue unit)) demo_registry demo_registry_wf).
Defined.

Lemma fanout_delivers_once_witness :
  sent demo_fanout.1.1.1 + dropped demo_fanout.1.1.1 = 3 ∧
  queue 1 demo_fanout.1.2 = ["json"] ∧ queue 2 demo_fanout.1.2 = ["msgpack"] ∧
  queue 3 demo_fanout.1.2 = ["old"].
Proof.
  destruct (fanout_delivers_once demo_registry "s" "json" "msgpack" demo_outbound demo_evict
    demo_fanout.1.1.1 demo_fanout.1.1.2 demo_fanout.1.2 demo_fanout.2
    demo_registry_wf demo_senders_distinct demo_fanout_eq) as (Hcount & _ & _ & Hq & _).
  split_and!; [exact Hcount| | |].
  - exact (Hq 1%Z (mkEntry 1 1 false) eq_refl).
  - exact (Hq 2%Z (mkEntry 2 2 true) eq_refl).
  - exact (Hq 3%Z (mkEntry 3 3 false) eq_refl).
Defined.

Lemma fanout_evicts_only_full_witness :
  connections demo_fanout.1.1.2 !! 3%Z = None ∧ queue 3 demo_fanout.2 ≠ [].
Proof.
  destruct (fanout_evicts_only_full demo_registry "s" "json" "msgpack" demo_outbound demo_evict
    demo_fanout.1.1.1 demo_fanout.1.1.2 demo_fanout.1.2 demo_fanout.2
    demo_registry_wf demo_senders_distinct demo_fanout_eq) as (_ & _ & Hfull & Hev & Hsig & _).
  split.
  - apply (Hev 3%Z), Hfull. split; vm_compute; [right; right; left|reflexivity].
  - apply (Hsig 3%Z (mkEntry 3 3 false)); [vm_compute; left|reflexivity|reflexivity|].
    vm_compute. lia.
Defined.

Lemma deregister_complete_and_idempotent_witness :
  deregister 3 (deregister 3 demo_registry) = deregister 3 demo_registry.
Proof. apply (deregister_complete_and_idempotent demo_registry 3 demo_registry_wf). Defined.

Lemma subscribe_unsubscribe_roundtrip_witness :
  unsubscribe 1 "t" (subscribe 1 "t" demo_registry) = demo_registry.
Proof.
  apply (subscribe_unsubscribe_roundtrip demo_registry 1 "t" demo_registry_wf).
  vm_compute. apply not_elem_of_nil.
Defined.
