(* ===== verification/RegistryConc.v ===== *)
(** * Interleavings inside the registry ([src/connection/registry.rs])

    [Registry] runs every operation in one go.  Here an operation is a sequence of accesses to
    the three [DashMap]s and the two counters, each atomic, and the accesses of all tasks of
    the gateway interleave: one task per connection ([handle_socket]: register, then
    subscribe and unsubscribe one after the other, then deregister) and the consumer, whose
    fan-out evicts connections while their own tasks go on.  A [DashMap] guard that is kept
    across accesses blocks the other accesses to its shard: [subscribe] keeps the guard of the
    connection's reverse entry while it pushes to the stream's list, and the fan-out keeps the
    read guard of the stream's list while it sends. *)

From stdpp Require Import base list gmap strings fin_maps fin_map_dom sets.
From Stdlib Require Import ZArith Lia.
From S2P Require Import Prelude Channels Registry.

Local Open Scope list_scope.

(** ** Program points *)

(** A running [deregister]. *)
Inductive dpc : Type :=
| DTake                                        (** [conn_streams.remove] *)
| DRetain (s : string) (todo : list string)    (** [retain] on the list of [s] *)
| DPrune (s : string) (todo : list string)     (** [remove_if] on [s] *)
| DDrop                                        (** [connections.remove] *)
| DCount.                                      (** [active.fetch_sub] *)

(** The loop over the streams that were taken. *)
Definition next_stream (todo : list string) : dpc :=
  match todo with [] => DDrop | s :: todo' => DRetain s todo' end.

(** The task of a connection, as far as the registry is concerned. *)
Inductive tpc (Tx Ev : Type) : Type :=
| TRegister (e : ConnectionEntry Tx Ev)  (** [connections.insert] *)
| TReverse                               (** [conn_streams.insert] *)
| TCount                                 (** [active.fetch_add] *)
| TIdle                                  (** between two operations *)
| TSub (s : string)                      (** [subscribe]: [conn_streams.get_mut] *)
| TPush (s : string)                     (** guard held: push to the stream's list *)
| TOwn (s : string)                      (** guard held: push to the own list, release *)
| TLeave (s : string)                    (** [unsubscribe]: [retain] on the list of [s] *)
| TPrune (s : string)                    (** [remove_if] on [s] *)
| TForget (s : string)                   (** [retain] on the own list *)
| TClose (d : dpc)                       (** the final [deregister] *)
| TDone.
Arguments TRegister {Tx Ev} e.
Arguments TReverse {Tx Ev}.
Arguments TCount {Tx Ev}.
Arguments TIdle {Tx Ev}.
Arguments TSub {Tx Ev} s.
Arguments TPush {Tx Ev} s.
Arguments TOwn {Tx Ev} s.
Arguments TLeave {Tx Ev} s.
Arguments TPrune {Tx Ev} s.
Arguments TForget {Tx Ev} s.
Arguments TClose {Tx Ev} d.
Arguments TDone {Tx Ev}.

(** The consumer in [fanout_encoded]. *)
Inductive cpc (Bytes : Type) : Type :=
| CIdle
| CLoop (s : string) (json binary : Bytes) (todo ev : list Z)  (** read guard of [s] held *)
| CEvict (id : Z) (d : dpc) (rest : list Z).
Arguments CIdle {Bytes}.
Arguments CLoop {Bytes} s json binary todo ev.
Arguments CEvict {Bytes} id d rest.

Section Steps.
Context {Tx Ev Bytes HB HE : Type} `{!Mpsc Bytes HB Tx} `{!Mpsc unit HE Ev}.
Abbreviation registry := (Registry Tx Ev).
Abbreviation task := (tpc Tx Ev).
Abbreviation consumer := (cpc Bytes).

Definition with_connections (m : gmap Z (ConnectionEntry Tx Ev)) (r : registry) : registry :=
  mkRegistry m (streams r) (conn_streams r) (next_id r) (active r).

Definition with_conn_streams (m : gmap Z (list string)) (r : registry) : registry :=
  mkRegistry (connections r) (streams r) m (next_id r) (active r).

Definition with_active (n : Z) (r : registry) : registry :=
  mkRegistry (connections r) (streams r) (conn_streams r) (next_id r) n.

(** ** One access of each operation *)

(** [deregister]; [None] is its return. *)
Definition dereg_step (id : Z) (d : dpc) (r : registry) : option dpc * registry :=
  match d with
  | DTake =>
      match conn_streams r !! id with
      | Some stream_list =>
          (Some (next_stream stream_list), with_conn_streams (delete id (conn_streams r)) r)
      | None => (Some DDrop, r)
      end
  | DRetain s todo =>
      let '(should_remove, r') := stream_retain s id r in
      (Some (if should_remove then DPrune s todo else next_stream todo), r')
  | DPrune s todo => (Some (next_stream todo), stream_remove_if_empty s r)
  | DDrop =>
      match connections r !! id with
      | Some _ => (Some DCount, with_connections (delete id (connections r)) r)
      | None => (None, r)
      end
  | DCount => (None, with_active (wrapping_sub (active r) 1) r)
  end.

(** The operations of a connection's task. *)
Definition task_step (id : Z) (t : task) (r : registry) : task * registry :=
  match t with
  | TRegister e => (TReverse, with_connections (<[id := e]> (connections r)) r)
  | TReverse => (TCount, with_conn_streams (<[id := []]> (conn_streams r)) r)
  | TCount => (TIdle, with_active (wrapping_add (active r) 1) r)
  | TSub s =>
      match conn_streams r !! id with
      | Some strs => (if decide (s ∈ strs) then TIdle else TPush s, r)
      | None => (TIdle, r)
      end
  | TPush s => (TOwn s, with_streams (<[s := default [] (streams r !! s) ++ [id]]> (streams r)) r)
  | TOwn s =>
      (TIdle, match conn_streams r !! id with
              | Some strs => with_conn_streams (<[id := strs ++ [s]]> (conn_streams r)) r
              | None => r
              end)
  | TLeave s =>
      let '(should_remove, r') := stream_retain s id r in
      (if should_remove then TPrune s else TForget s, r')
  | TPrune s => (TForget s, stream_remove_if_empty s r)
  | TForget s =>
      (TIdle, match conn_streams r !! id with
              | Some strs => with_conn_streams (<[id := retain_ne s strs]> (conn_streams r)) r
              | None => r
              end)
  | TClose d =>
      let '(d', r') := dereg_step id d r in
      (match d' with Some d' => TClose d' | None => TDone end, r')
  | TIdle | TDone => (t, r)
  end.

(** The loop over the evicted connections. *)
Definition next_evict (ev : list Z) : consumer :=
  match ev with [] => CIdle | id :: rest => CEvict id DTake rest end.

(** [self.streams.get(stream)] at the start of a fan-out. *)
Definition fanout_start (s : string) (json binary : Bytes) (r : registry) : consumer :=
  match streams r !! s with
  | Some subs => CLoop s json binary subs []
  | None => CIdle
  end.

(** One subscriber of the fan-out, or one access of an eviction. *)
Definition consumer_step (c : consumer) (r : registry) (hb : HB) (he : HE)
    : consumer * registry * HB * HE :=
  match c with
  | CLoop s json binary [] ev => (next_evict ev, r, hb, he)
  | CLoop s json binary (id :: todo) ev =>
      match connections r !! id with
      | None => (CLoop s json binary todo ev, r, hb, he)
      | Some e =>
          let '(accepted, hb1) := try_send (sender e) (payload_for e json binary) hb in
          if accepted : bool then (CLoop s json binary todo ev, r, hb1, he)
          else (CLoop s json binary todo (ev ++ [id]), r, hb1, (try_send (evict_tx e) tt he).2)
      end
  | CEvict id d rest =>
      let '(d', r') := dereg_step id d r in
      (match d' with Some d' => CEvict id d' rest | None => next_evict rest end, r', hb, he)
  | CIdle => (c, r, hb, he)
  end.

(** ** Guards

    A key's shard is what its hash says; a guard held on a shard blocks writers, and for a
    write guard also readers, of every key of the shard. *)

Context (shard_conn : Z → nat) (shard_stream : string → nat).

Record Conc : Type := mkConc {
  c_reg : registry;
  c_hb : HB;
  c_he : HE;
  c_tasks : gmap Z task;
  c_consumer : consumer;
}.

(** Program points that keep the write guard of their own reverse entry. *)
Definition holds_reverse (t : task) : bool :=
  match t with TPush _ | TOwn _ => true | _ => false end.

Definition reverse_free (st : Conc) (id : Z) : Prop :=
  map_Forall (λ id' t, holds_reverse t = true → shard_conn id' ≠ shard_conn id) (c_tasks st).

Definition stream_free (st : Conc) (s : string) : Prop :=
  match c_consumer st with
  | CLoop s' _ _ _ _ => shard_stream s' ≠ shard_stream s
  | _ => True
  end.

(** Whether the next access finds its shard free. *)
Definition dereg_ready (st : Conc) (id : Z) (d : dpc) : Prop :=
  match d with
  | DTake => reverse_free st id
  | DRetain s _ | DPrune s _ => stream_free st s
  | DDrop | DCount => True
  end.

Definition task_ready (st : Conc) (id : Z) (t : task) : Prop :=
  match t with
  | TReverse | TSub _ | TForget _ => reverse_free st id
  | TPush s | TLeave s | TPrune s => stream_free st s
  | TClose d => dereg_ready st id d
  | _ => True
  end.

Definition consumer_ready (st : Conc) : Prop :=
  match c_consumer st with CEvict id d _ => dereg_ready st id d | _ => True end.

(** Program points inside an operation. *)
Definition task_busy (t : task) : bool := match t with TIdle | TDone => false | _ => true end.
Definition consumer_busy (c : consumer) : bool := match c with CIdle => false | _ => true end.

(** ** Executions *)

(** An operation in progress makes its next access. *)
Inductive conc_advance : Conc → Conc → Prop :=
| advance_task st id t t' r' :
    c_tasks st !! id = Some t → task_busy t = true → task_ready st id t →
    task_step id t (c_reg st) = (t', r') →
    conc_advance st (mkConc r' (c_hb st) (c_he st) (<[id := t']> (c_tasks st)) (c_consumer st))
| advance_consumer st c' r' hb' he' :
    consumer_busy (c_consumer st) = true → consumer_ready st →
    consumer_step (c_consumer st) (c_reg st) (c_hb st) (c_he st) = (c', r', hb', he') →
    conc_advance st (mkConc r' hb' he' (c_tasks st) c').

(** Besides, tasks start operations, and receivers work on the channels.  A connection gets an
    id that no other connection has had (the counter is 64 bits wide). *)
Inductive conc_step : Conc → Conc → Prop :=
| step_advance st st' : conc_advance st st' → conc_step st st'
| step_connect st e id r' :
    allocate_id (c_reg st) = (id, r') → c_tasks st !! id = None →
    conc_step st (mkConc r' (c_hb st) (c_he st) (<[id := TRegister e]> (c_tasks st))
                    (c_consumer st))
| step_begin st id t :
    c_tasks st !! id = Some TIdle →
    (∃ s, t = TSub s) ∨ (∃ s, t = TLeave s) ∨ t = TClose DTake →
    conc_step st (mkConc (c_reg st) (c_hb st) (c_he st) (<[id := t]> (c_tasks st))
                    (c_consumer st))
| step_fanout st s json binary :
    c_consumer st = CIdle →
    conc_step st (mkConc (c_reg st) (c_hb st) (c_he st) (c_tasks st)
                    (fanout_start s json binary (c_reg st)))
| step_channels st hb' he' :
    conc_step st (mkConc (c_reg st) hb' he' (c_tasks st) (c_consumer st)).

Definition conc_init (st : Conc) : Prop :=
  c_reg st = new_registry ∧ c_tasks st = ∅ ∧ c_consumer st = CIdle.

(** No operation is in progress. *)
Definition quiescent (st : Conc) : Prop :=
  map_Forall (λ _ t, task_busy t = false) (c_tasks st) ∧ c_consumer st = CIdle.
End Steps.

Arguments Conc Tx Ev Bytes HB HE : clear implicits.

(** ** Invariant *)

Section Invariant.
Context {Tx Ev Bytes HB HE : Type}.
Abbreviation registry := (Registry Tx Ev).
Abbreviation task := (tpc Tx Ev).
Abbreviation consumer := (cpc Bytes).
Implicit Types (r : registry) (t : task) (c : consumer) (s : string) (id : Z).

(** A [deregister] that has taken the reverse entry, and the streams it still has to leave. *)
Definition past_take (d : dpc) : option dpc := match d with DTake => None | _ => Some d end.

Definition evict_dereg c id : option dpc :=
  match c with
  | CEvict id' d _ => if decide (id' = id) then past_take d else None
  | _ => None
  end.

Definition todo_of (d : option dpc) : list string :=
  match d with Some (DRetain s todo) => s :: todo | Some (DPrune _ todo) => todo | _ => [] end.

(** The connections the consumer is going to look at. *)
Definition consumer_ids c : list Z :=
  match c with CIdle => [] | CLoop _ _ _ todo ev => todo ++ ev | CEvict id _ rest => id :: rest end.

(** The task has not finished registering. *)
Definition unsettled (t : option task) : bool :=
  match t with None | Some (TRegister _ | TReverse | TCount) => true | _ => false end.

(** Streams that may list the connection although its reverse entry does not have them. *)
Definition extra (t : option task) s : Prop :=
  match t with
  | Some (TOwn s') => s = s'
  | Some (TClose d) => s ∈ todo_of (past_take d)
  | _ => False
  end.

(** Streams of the reverse entry that may not list the connection. *)
Definition missing (t : option task) s : Prop :=
  match t with Some (TPrune s') | Some (TForget s') => s = s' | _ => False end.

(** The reverse entry is on its way in or out. *)
Definition in_transit (t : option task) (d : option dpc) : Prop :=
  match t with
  | Some TReverse => True
  | Some (TClose d') => is_Some (past_take d') ∨ is_Some d
  | _ => is_Some d
  end.

(** The entries of a connection whose task is at a program point, *)
Definition at_point (e : option (ConnectionEntry Tx Ev)) (strs : option (list string))
    (subs : string → Prop) (t : option task) : Prop :=
  match t with
  | None | Some (TRegister _) => e = None ∧ strs = None
  | Some TReverse => is_Some e ∧ strs = None
  | Some TCount => default [] strs = []
  | Some (TPush s) => is_Some strs ∧ s ∉ default [] strs
  | Some (TOwn s) => is_Some strs ∧ subs s ∧ s ∉ default [] strs
  | Some (TPrune s) | Some (TForget s) => ¬ subs s
  | Some (TClose DTake) => True
  | Some (TClose DCount) => e = None ∧ strs = None
  | Some (TClose _) => strs = None
  | Some TDone => e = None
  | _ => True
  end.

(** and of one whose eviction is. *)
Definition at_evict (e : option (ConnectionEntry Tx Ev)) (strs : option (list string))
    (d : option dpc) : Prop :=
  match d with
  | None => True
  | Some DCount => e = None ∧ strs = None
  | Some _ => strs = None
  end.

(** What ties a connection's entries to the program points of its task [t] and of an eviction
    [d] of it: [e] is its entry, [strs] its reverse entry, [subs] the streams listing it. *)
Record local_inv (e : option (ConnectionEntry Tx Ev)) (strs : option (list string))
    (subs : string → Prop) (t : option task) (d : option dpc) (listed : Prop) : Prop := mkLocal {
  li_fwd : ∀ s, subs s → s ∈ default [] strs ∨ extra t s ∨ s ∈ todo_of d;
  li_bwd : ∀ s, s ∈ default [] strs → subs s ∨ missing t s;
  li_nodup : NoDup (default [] strs);
  li_point : at_point e strs subs t;
  li_evict : at_evict e strs d;
  li_entry : is_Some strs → is_Some e;
  li_strs : is_Some e → is_Some strs ∨ in_transit t d;
  li_fresh : unsettled t = true → ¬ listed ∧ d = None;
}.

Definition d_prunes (d : dpc) s : Prop := ∃ todo, d = DPrune s todo.

Definition t_prunes t s : Prop := t = TPrune s ∨ ∃ d, t = TClose d ∧ d_prunes d s.

(** Somebody is about to remove the list of [s] if it is empty. *)
Definition pruned_by (tasks : gmap Z task) c s : Prop :=
  (∃ id t, tasks !! id = Some t ∧ t_prunes t s) ∨
  (∃ id d rest, c = CEvict id d rest ∧ d_prunes d s).

(** Connections not counted yet, and connections dropped but still counted. *)
Definition task_weight t : Z :=
  match t with TReverse | TCount => (-1)%Z | TClose DCount => 1%Z | _ => 0%Z end.
Definition consumer_weight c : Z := match c with CEvict _ DCount _ => 1%Z | _ => 0%Z end.
Definition tasks_weight (tasks : gmap Z task) : Z :=
  map_fold (λ _ t z, task_weight t + z)%Z 0%Z tasks.

(** The counter is right up to the weight [w] of the operations in progress. *)
Definition counted r (w : Z) : Prop :=
  active r = ((Z.of_nat (size (connections r)) + w) mod u64_modulus)%Z.

Record conc_inv (st : Conc Tx Ev Bytes HB HE) : Prop := {
  ci_local id : local_inv (connections (c_reg st) !! id) (conn_streams (c_reg st) !! id)
                  (λ s, id ∈ subscribers (c_reg st) s) (c_tasks st !! id)
                  (evict_dereg (c_consumer st) id) (id ∈ consumer_ids (c_consumer st));
  ci_nodup s : NoDup (subscribers (c_reg st) s);
  ci_empty s : streams (c_reg st) !! s = Some [] → pruned_by (c_tasks st) (c_consumer st) s;
  ci_active : counted (c_reg st) (tasks_weight (c_tasks st) + consumer_weight (c_consumer st));
}.

(** ** The accesses to a stream's list *)

(** A registry after an access to [streams] that changed who is listed as [P] says. *)
Record lists_changed r r' (P : Z → string → Prop) : Prop := {
  lc_frame : only_streams_differ r r';
  lc_subs id s : id ∈ subscribers r' s ↔ P id s;
  lc_nodup : (∀ s, NoDup (subscribers r s)) → (∀ s, NoDup (subscribers r' s));
}.

Lemma stream_retain_changed s id r b r' :
  stream_retain s id r = (b, r') →
  lists_changed r r' (λ id' s', id' ∈ subscribers r s' ∧ ¬ (id' = id ∧ s' = s)) ∧
  (∀ s', streams r' !! s' = Some [] → (s' = s ∧ b = true) ∨ (s' ≠ s ∧ streams r !! s' = Some [])).
Proof.
  unfold stream_retain. destruct (streams r !! s) as [subs|] eqn:E; intros; simplify_eq.
  - assert (∀ s', subscribers (with_streams (<[s:=retain_ne id subs]> (streams r)) r) s' =
              if decide (s' = s) then retain_ne id subs else subscribers r s') as Hs.
    { intros s'. unfold subscribers; cbn. case_decide; by simplify_map_eq. }
    split; [split|].
    + done.
    + intros id' s'. rewrite Hs. case_decide; subst.
      * rewrite elem_of_retain_ne. unfold subscribers. rewrite E; cbn. naive_solver.
      * naive_solver.
    + intros Hnd s'. rewrite Hs. case_decide; [|done]. apply NoDup_retain_ne.
      specialize (Hnd s). unfold subscribers in Hnd. by rewrite E in Hnd.
    + cbn. intros s' [[-> ->]|[Hne H]]%lookup_insert_Some; auto.
  - split; [split|].
    + done.
    + intros id' s'. split; [|by intros [? _]]. intros Hin. split; [done|]. intros [-> ->].
      unfold subscribers in Hin. rewrite E in Hin. by apply not_elem_of_nil in Hin.
    + done.
    + intros s' H. right. split; [congruence|done].
Qed.

Lemma stream_prune_changed s r :
  lists_changed r (stream_remove_if_empty s r) (λ id' s', id' ∈ subscribers r s') ∧
  (∀ s', streams (stream_remove_if_empty s r) !! s' = Some [] →
     s' ≠ s ∧ streams r !! s' = Some []).
Proof.
  assert (∀ s', subscribers (stream_remove_if_empty s r) s' = subscribers r s') as Hs.
  { intros s'. unfold stream_remove_if_empty, subscribers.
    destruct (streams r !! s) as [[|x l]|] eqn:E; [|done..]. cbn.
    destruct (decide (s' = s)) as [->|]; simplify_map_eq; by rewrite ?E. }
  split; [split|].
  - unfold stream_remove_if_empty. repeat case_match; done.
  - intros. by rewrite Hs.
  - intros Hnd s'. by rewrite Hs.
  - intros s'. unfold stream_remove_if_empty.
    destruct (streams r !! s) as [[|x l]|] eqn:E; cbn.
    + intros [? ?]%lookup_delete_Some. done.
    + intros H. split; [congruence|done].
    + intros H. split; [congruence|done].
Qed.

Lemma stream_push_changed s id r :
  id ∉ subscribers r s →
  let r' := with_streams (<[s := default [] (streams r !! s) ++ [id]]> (streams r)) r in
  lists_changed r r' (λ id' s', id' ∈ subscribers r s' ∨ (id' = id ∧ s' = s)) ∧
  (∀ s', streams r' !! s' = Some [] → s' ≠ s ∧ streams r !! s' = Some []).
Proof.
  intros Hid r'.
  assert (∀ s', subscribers r' s' =
            if decide (s' = s) then subscribers r s ++ [id] else subscribers r s') as Hs.
  { intros s'. unfold subscribers, r'; cbn. case_decide; by simplify_map_eq. }
  split; [split|].
  - done.
  - intros id' s'. rewrite Hs. case_decide; subst; set_solver.
  - intros Hnd s'. rewrite Hs. case_decide; [|done]. apply NoDup_app. split_and!; [done| |].
    + set_solver.
    + apply NoDup_singleton.
  - unfold r'; cbn. intros s' [[_ H]|[Hne H]]%lookup_insert_Some; [|done].
    by destruct (default [] (streams r !! s)).
Qed.

(** ** What one access preserves *)

Lemma local_inv_ext e strs (P Q : string → Prop) (t : option task) d (l l' : Prop) :
  (∀ s, P s ↔ Q s) → (l' → l) → local_inv e strs P t d l → local_inv e strs Q t d l'.
Proof.
  intros HPQ Hl []. split; try done; [by setoid_rewrite <- HPQ..| |naive_solver].
  destruct t as [[]|]; cbn in *; try done; by rewrite <- HPQ.
Qed.

(** An access on behalf of [id] leaves the entries of the other connections alone. *)
Record access_frame id r r' : Prop := {
  af_entry id' : id' ≠ id → connections r' !! id' = connections r !! id';
  af_strs id' : id' ≠ id → conn_streams r' !! id' = conn_streams r !! id';
  af_subs id' s : id' ≠ id → id' ∈ subscribers r' s ↔ id' ∈ subscribers r s;
  af_nodup : (∀ s, NoDup (subscribers r s)) → (∀ s, NoDup (subscribers r' s));
}.

Lemma access_frame_lists id r r' P :
  lists_changed r r' P → (∀ id' s, id' ≠ id → P id' s ↔ id' ∈ subscribers r s) →
  access_frame id r r'.
Proof.
  intros [(Hc & Hs & _) Hsubs Hnd] HP. split.
  - intros. by rewrite Hc.
  - intros. by rewrite Hs.
  - intros. rewrite Hsubs. auto.
  - done.
Qed.

Lemma dereg_frame id d r d' r' : dereg_step id d r = (d', r') → access_frame id r r'.
Proof.
  destruct d as [|s todo|s todo| |]; cbn.
  - case_match; intros; simplify_eq; split; cbn; try done. intros. by rewrite lookup_delete_ne.
  - destruct (stream_retain s id r) as [b r1] eqn:E. intros; simplify_eq.
    destruct (stream_retain_changed _ _ _ _ _ E) as [Hl _].
    eapply access_frame_lists; [exact Hl|]. naive_solver.
  - intros; simplify_eq. destruct (stream_prune_changed s r) as [Hl _].
    eapply access_frame_lists; [exact Hl|]. done.
  - case_match; intros; simplify_eq; split; cbn; try done. intros. by rewrite lookup_delete_ne.
  - intros; simplify_eq. by split.
Qed.

(** The view of the registry that [local_inv] has for [id]. *)
Abbreviation view r id P := (P (connections r !! id) (conn_streams r !! id)
                               (λ s, id ∈ subscribers r s)).

Lemma todo_next l : todo_of (past_take (next_stream l)) = l.
Proof. by destruct l. Qed.

Lemma at_next e (P : string → Prop) l :
  at_point e None P (Some (TClose (next_stream l))).
Proof. by destruct l. Qed.

Lemma at_evict_next e l : at_evict e None (past_take (next_stream l)).
Proof. by destruct l. Qed.

Lemma past_next l : is_Some (past_take (next_stream l)).
Proof. destruct l; cbn; eauto. Qed.

Lemma at_evict_live e l d : at_evict e (Some l) d → d = None.
Proof. by destruct d as [[]|]; cbn; intros; destruct_and?. Qed.

Lemma at_evict_gone e e' strs d : at_evict e strs d → (e = None → e' = None) → at_evict e' None d.
Proof. destruct d as [[]|]; cbn; naive_solver. Qed.

Ltac li_case :=
  repeat match goal with
    | H : _ ∨ _ |- _ => destruct H
    | H : _ ∧ _ |- _ => destruct H
    | H : is_Some None |- _ => by apply is_Some_None in H
    | _ => progress simplify_eq/=
    end.

(** A step of the local invariant: the facts at the two program points decide it. *)
Ltac li_solve :=
  intros [Hf Hb Hn Hp He Hen Hst Hfr];
  try (pose proof (at_evict_live _ _ _ He) as ->);
  try (destruct (Hfr eq_refl) as [_ ->]);
  split;
  [ clear Hb Hn He Hen Hst Hfr; cbn in *; rewrite ?todo_next; set_solver
  | clear Hf Hn He Hen Hst Hfr; cbn in *;
    first [ set_solver
          | intros s' Hs'; destruct (Hb s' Hs'); [|done];
            match goal with s : string |- _ => destruct (decide (s' = s)) end;
            [by right|left; naive_solver] ]
  | try done; try apply NoDup_nil_2
  | first [apply at_next | cbn in *; tauto | done | cbn in *; li_case; by eauto 6 | idtac]
  | first [done | apply at_evict_next | eapply at_evict_gone; [exact He|naive_solver] | idtac]
  | cbn in *; first [done | tauto | eauto]
  | intros Hi; cbn in *;
    first [by destruct Hi | by auto | destruct Hi; li_case; congruence
          | specialize (Hst Hi); li_case; eauto using past_next | idtac]
  | done ].

(** Replaces the list memberships of the goal's registry by what an access says of them. *)
Ltac li_lists H :=
  let Hc := fresh "Hc" in let Hs := fresh "Hs" in let Hsubs := fresh "Hsubs" in
  destruct H as [[(Hc & Hs & _) Hsubs _] _]; rewrite Hc, Hs;
  intros Hl; eapply local_inv_ext; [intros; symmetry; apply Hsubs|exact id|]; revert Hl.

Lemma dereg_local_task id d r d' r' e l :
  dereg_step id d r = (d', r') →
  view r id local_inv (Some (TClose d)) e l →
  view r' id local_inv (Some (match d' with Some d' => TClose d' | None => TDone end)) e l.
Proof.
  intros Hstep Hl.
  assert (d ≠ DTake → conn_streams r !! id = None) as Hnone.
  { pose proof (li_point _ _ _ _ _ _ Hl) as Hp. by destruct d; cbn in Hp; destruct_and?. }
  revert Hstep Hl. destruct d as [|s todo|s todo| |]; cbn [dereg_step];
    try (specialize (Hnone ltac:(done))).
  - destruct (conn_streams r !! id) as [strs|] eqn:E; intros [= <- <-]; cbn.
    + rewrite lookup_delete_eq. li_solve.
    + rewrite E. li_solve.
  - destruct (stream_retain s id r) as [b r1] eqn:E. intros [= <- <-].
    li_lists (stream_retain_changed _ _ _ _ _ E). rewrite Hnone. destruct b; li_solve.
  - intros [= <- <-]. li_lists (stream_prune_changed s r). rewrite Hnone. li_solve.
  - destruct (connections r !! id) as [x|] eqn:E; intros [= <- <-]; cbn; rewrite Hnone.
    + rewrite lookup_delete_eq. li_solve.
    + rewrite E. li_solve.
  - intros [= <- <-]; cbn; rewrite Hnone. li_solve.
Qed.

(** The program points at which the task does not keep its reverse entry's guard. *)
Definition unguarded (t : option task) : Prop :=
  match t with Some t => holds_reverse t = false | None => True end.

(** Without a reverse entry, an access to a list or to the entry is fine for every task. *)
Lemma at_point_gone e e' (P Q : string → Prop) (t : option task) :
  unsettled t = false → at_point e None P t → (e = None → e' = None) → (∀ s, Q s → P s) →
  at_point e' None Q t.
Proof. destruct t as [[]|]; cbn; try naive_solver. destruct d; naive_solver. Qed.

Lemma at_point_take e l (P : string → Prop) (t : option task) :
  unguarded t → unsettled t = false → at_point e (Some l) P t → at_point e None P t.
Proof. destruct t as [[]|]; try done. destruct d; cbn; naive_solver. Qed.

Lemma in_transit_evict (t : option task) d : is_Some d → in_transit t d.
Proof. destruct t as [[]|]; cbn; auto. Qed.

Lemma in_transit_mono (t : option task) d d' : (is_Some d → is_Some d') → in_transit t d → in_transit t d'.
Proof. destruct t as [[]|]; cbn; naive_solver. Qed.

Ltac le_solve :=
  intros [Hf Hb Hn Hp He Hen Hst Hfr];
  split;
  [ clear Hb Hn Hp He Hen Hst Hfr; cbn in *; rewrite ?todo_next; set_solver
  | clear Hf Hn Hp He Hen Hst Hfr; cbn in *; set_solver
  | try done; try apply NoDup_nil_2
  | first [done | eapply at_point_take; eassumption | eapply at_point_gone; [done|exact Hp|by intros|clear; naive_solver] | idtac]
  | first [done | apply at_evict_next | cbn in *; tauto | idtac]
  | cbn in *; first [done | eauto]
  | intros Hi; first [by destruct Hi | destruct Hi; cbn in *; li_case; congruence
                     | eauto using past_next, in_transit_evict]
  | intros; congruence ].

Lemma dereg_local_evict id d r d' r' (t : option task) (l : Prop) :
  l → (d = DTake → unguarded t) → dereg_step id d r = (d', r') →
  view r id local_inv t (past_take d) l →
  view r' id local_inv t (d' ≫= past_take) l.
Proof.
  intros HL Hg Hstep Hl.
  assert (unsettled t = false) as Hset.
  { destruct (unsettled t) eqn:Eu; [|done]. by destruct (li_fresh _ _ _ _ _ _ Hl Eu). }
  assert (d ≠ DTake → conn_streams r !! id = None) as Hnone.
  { intros Hd. destruct (conn_streams r !! id) eqn:E; [|done].
    pose proof (at_evict_live _ _ _ (li_evict _ _ _ _ _ _ Hl)) as Hp. by destruct d. }
  revert Hstep Hl. destruct d as [|s todo|s todo| |]; cbn [dereg_step];
    try (specialize (Hnone ltac:(done))).
  - specialize (Hg eq_refl).
    destruct (conn_streams r !! id) as [strs|] eqn:E; intros [= <- <-]; cbn.
    + rewrite lookup_delete_eq. le_solve.
    + rewrite E. le_solve.
  - destruct (stream_retain s id r) as [b r1] eqn:E. intros [= <- <-].
    li_lists (stream_retain_changed _ _ _ _ _ E). rewrite Hnone. destruct b; le_solve.
  - intros [= <- <-]. li_lists (stream_prune_changed s r). rewrite Hnone. le_solve.
  - destruct (connections r !! id) as [x|] eqn:E; intros [= <- <-]; cbn; rewrite Hnone.
    + rewrite lookup_delete_eq. le_solve.
    + rewrite E. le_solve.
  - intros [= <- <-]; cbn; rewrite Hnone. le_solve.
Qed.

(** A connection that is still registering is in no list. *)
Lemma unsettled_not_listed e strs (P : string → Prop) (t : option task) d l s :
  local_inv e strs P t d l → unsettled t = true → ¬ P s.
Proof.
  intros [Hf _ _ Hp _ _ _ Hfr] Hu HP. destruct (Hfr Hu) as [_ ->].
  assert (default [] strs = [] ∧ ¬ extra t s) as [Hs Hx].
  { destruct t as [[]|]; try done; cbn in *; destruct_and?; (split; [by subst|by intros []]). }
  destruct (Hf s HP) as [Hin|[?|Hin]]; [|done|]; rewrite ?Hs in Hin;
    by apply not_elem_of_nil in Hin.
Qed.

Lemma not_listed_push e strs (P : string → Prop) s d l :
  local_inv e strs P (Some (TPush s)) d l → ¬ P s.
Proof.
  intros [Hf _ _ [[l0 ->] Hn] He _ _ _] HP. pose proof (at_evict_live _ _ _ He) as ->.
  apply Hf in HP. cbn in *. set_solver.
Qed.

Lemma task_local id t r t' r' d l :
  task_busy t = true → task_step id t r = (t', r') →
  view r id local_inv (Some t) d l → view r' id local_inv (Some t') d l.
Proof.
  intros Hbusy Hstep Hl. revert Hstep Hl.
  destruct t as [e| | | |s|s|s|s|s|s|dd|]; cbn [task_step]; try done.
  - intros [= <- <-]; cbn. rewrite lookup_insert_eq. li_solve.
  - intros [= <- <-] Hl; cbn. pose proof (li_point _ _ _ _ _ _ Hl) as [_ E]; cbn in E.
    revert Hl. rewrite E, lookup_insert_eq. li_solve.
  - intros [= <- <-]. li_solve.
  - destruct (conn_streams r !! id) as [strs|] eqn:E; [case_decide|]; intros [= <- <-];
      rewrite E; li_solve.
  - intros [= <- <-] Hl. pose proof (not_listed_push _ _ _ _ _ _ Hl) as Hnot. revert Hl.
    li_lists (stream_push_changed s id r Hnot). li_solve.
  - intros [= <- <-] Hl. pose proof (li_point _ _ _ _ _ _ Hl) as ([strs E] & _ & Hnot).
    revert Hl Hnot. rewrite E; cbn. rewrite lookup_insert_eq. intros Hl Hnot; revert Hl. li_solve.
    apply NoDup_app. split_and!; [done|set_solver|apply NoDup_singleton]. all: match goal with |- ?G => idtac G end.
  - destruct (stream_retain s id r) as [b r1] eqn:E. intros [= <- <-].
    li_lists (stream_retain_changed _ _ _ _ _ E). intros [Hf Hb Hn Hp He Hen Hst Hfr]. clear E Hsubs.
    assert (∀ s', s' ∈ default [] (conn_streams r !! id) →
      (id ∈ subscribers r s' ∧ ¬ (id = id ∧ s' = s)) ∨ s' = s) as Hb'.
    { intros s' Hs'. destruct (Hb s' Hs') as [|[]]. destruct (decide (s' = s)); naive_solver. }
    destruct b; (split; [naive_solver|exact Hb'|done|cbn; naive_solver|done..]).
  - intros [= <- <-]. li_lists (stream_prune_changed s r). li_solve. all: match goal with |- ?G => idtac G end.
  - destruct (conn_streams r !! id) as [strs|] eqn:E; intros [= <- <-]; cbn.
    + rewrite lookup_insert_eq. intros [Hf Hb Hn Hp He Hen Hst Hfr].
      pose proof (at_evict_live _ _ _ He) as ->.
      split; [| |by apply NoDup_retain_ne|done|done|eauto|eauto|done]; cbn in *; intros s';
        rewrite elem_of_retain_ne; [|naive_solver].
      intros Hs'. destruct (Hf s' Hs') as [?|[[]|?]]; [|by right; right].
      left. split; [by intros ->|done].
    + rewrite E. li_solve.
  - destruct (dereg_step id dd r) as [d' r1] eqn:E. intros [= <- <-].
    by apply (dereg_local_task _ _ _ _ _ _ _ E).
Qed.
Lemma task_frame id t r t' r' d l :
  task_step id t r = (t', r') → view r id local_inv (Some t) d l → access_frame id r r'.
Proof.
  intros Hstep Hl. revert Hstep.
  destruct t as [e| | | |s|s|s|s|s|s|dd|]; cbn [task_step];
    try (intros [= <- <-]; split; cbn; try done; intros; by rewrite lookup_insert_ne).
  - intros Hstep. assert (r' = r) as -> by (repeat case_match; congruence). by split.
  - intros [= <- <-]. pose proof (not_listed_push _ _ _ _ _ _ Hl) as Hnot.
    destruct (stream_push_changed s id r Hnot) as [Hc _].
    eapply access_frame_lists; [exact Hc|]. naive_solver.
  - case_match; intros [= <- <-]; split; cbn; try done. intros. by rewrite lookup_insert_ne.
  - destruct (stream_retain s id r) as [b r1] eqn:E. intros [= <- <-].
    destruct (stream_retain_changed _ _ _ _ _ E) as [Hc _].
    eapply access_frame_lists; [exact Hc|]. naive_solver.
  - intros [= <- <-]. destruct (stream_prune_changed s r) as [Hc _].
    by eapply access_frame_lists; [exact Hc|].
  - case_match; intros [= <- <-]; split; cbn; try done. intros. by rewrite lookup_insert_ne.
  - destruct (dereg_step id dd r) as [d' r1] eqn:E. intros [= <- <-]. by eapply dereg_frame.
Qed.

(** ** Empty lists *)

Lemma dereg_empty id d r d' r' s :
  dereg_step id d r = (d', r') → streams r' !! s = Some [] →
  (∃ dd, d' = Some dd ∧ d_prunes dd s) ∨ (streams r !! s = Some [] ∧ ¬ d_prunes d s).
Proof.
  unfold d_prunes. destruct d as [|s0 todo|s0 todo| |]; cbn.
  - case_match; intros [= <- <-] Hemp; right; (split; [exact Hemp|by intros [? ?]]).
  - destruct (stream_retain s0 id r) as [b r1] eqn:E. intros [= <- <-] Hemp.
    destruct (stream_retain_changed _ _ _ _ _ E) as [_ He].
    destruct (He s Hemp) as [[-> ->]|[_ ?]]; [left; eauto|right]. split; [done|by intros [? ?]].
  - intros [= <- <-] Hemp. destruct (stream_prune_changed s0 r) as [_ He].
    destruct (He s Hemp) as [? ?]. right. split; [done|intros [? [= ? ?]]; congruence].
  - case_match; intros [= <- <-] Hemp; right; (split; [exact Hemp|by intros [? ?]]).
  - intros [= <- <-] Hemp. right. split; [exact Hemp|by intros [? ?]].
Qed.

Lemma task_empty id t r t' r' s :
  task_step id t r = (t', r') → streams r' !! s = Some [] →
  t_prunes t' s ∨ (streams r !! s = Some [] ∧ ¬ t_prunes t s).
Proof.
  unfold t_prunes. destruct t as [e| | | |s0|s0|s0|s0|s0|s0|dd|]; cbn [task_step];
    try (intros [= <- <-] Hemp; right; split; [exact Hemp|naive_solver]).
  - intros Hstep. assert (r' = r) as -> by (repeat case_match; congruence).
    intros Hemp. right. split; [exact Hemp|naive_solver].
  - intros [= <- <-]; cbn. intros [[_ H]|[Hne H]]%lookup_insert_Some.
    + by destruct (default [] (streams r !! s0)).
    + right. split; [done|naive_solver].
  - case_match; intros [= <- <-] Hemp; right; (split; [exact Hemp|naive_solver]).
  - destruct (stream_retain s0 id r) as [b r1] eqn:E. intros [= <- <-] Hemp.
    destruct (stream_retain_changed _ _ _ _ _ E) as [_ He].
    destruct (He s Hemp) as [[-> ->]|[_ ?]]; [left; eauto|right]. split; [done|naive_solver].
  - intros [= <- <-] Hemp. destruct (stream_prune_changed s0 r) as [_ He].
    destruct (He s Hemp) as [? ?]. right. split; [done|naive_solver].
  - case_match; intros [= <- <-] Hemp; right; (split; [exact Hemp|naive_solver]).
  - destruct (dereg_step id dd r) as [d' r1] eqn:E. intros [= <- <-] Hemp.
    destruct (dereg_empty _ _ _ _ _ _ E Hemp) as [(d2 & -> & ?)|[? ?]]; [left; eauto|right].
    split; [done|naive_solver].
Qed.

(** ** The connection counter *)

Definition d_weight (d : option dpc) : Z := match d with Some DCount => 1%Z | _ => 0%Z end.

Lemma d_weight_next l : d_weight (Some (next_stream l)) = 0%Z.
Proof. by destruct l. Qed.

Lemma counted_lists r r' w : only_streams_differ r r' → counted r w → counted r' w.
Proof. intros (Hc & _ & _ & Ha). unfold counted. by rewrite Hc, Ha. Qed.

Lemma dereg_counted id d r d' r' k :
  dereg_step id d r = (d', r') →
  counted r (d_weight (Some d) + k) → counted r' (d_weight d' + k).
Proof.
  destruct d as [|s0 todo|s0 todo| |]; cbn [dereg_step].
  - case_match; intros [= <- <-]; by rewrite ?d_weight_next.
  - destruct (stream_retain s0 id r) as [b r1] eqn:E. intros [= <- <-].
    destruct (stream_retain_changed _ _ _ _ _ E) as [[Hf _ _] _].
    destruct b; rewrite ?d_weight_next; by apply counted_lists.
  - intros [= <- <-]. destruct (stream_prune_changed s0 r) as [[Hf _ _] _].
    rewrite d_weight_next. by apply counted_lists.
  - destruct (connections r !! id) as [x|] eqn:E; intros [= <- <-]; [|done].
    unfold counted; cbn. intros ->. rewrite map_size_delete, E; cbn.
    assert (size (connections r) ≠ 0) by (by apply map_size_ne_0_lookup_2 with id; eauto).
    f_equal. lia.
  - intros [= <- <-]. unfold counted; cbn. intros ->. rewrite wrapping_sub_mod. f_equal. lia.
Qed.

Lemma task_counted id t r t' r' d l k :
  task_step id t r = (t', r') → view r id local_inv (Some t) d l →
  counted r (task_weight t + k) → counted r' (task_weight t' + k).
Proof.
  intros Hstep Hl. revert Hstep.
  destruct t as [e| | | |s0|s0|s0|s0|s0|s0|dd|]; cbn [task_step]; try (by intros [= <- <-]).
  - intros [= <- <-]. pose proof (li_point _ _ _ _ _ _ Hl) as [E _]. unfold counted; cbn.
    intros ->. rewrite map_size_insert_None by done. f_equal. lia.
  - intros [= <- <-]. unfold counted; cbn. intros ->. rewrite wrapping_add_mod. f_equal. lia.
  - intros Hstep. assert (r' = r ∧ task_weight t' = 0%Z) as [-> ->]; [|done].
    repeat case_match; simplify_eq; done.
  - case_match; by intros [= <- <-].
  - destruct (stream_retain s0 id r) as [b r1] eqn:E. intros [= <- <-].
    destruct (stream_retain_changed _ _ _ _ _ E) as [[Hf _ _] _].
    destruct b; by apply counted_lists.
  - intros [= <- <-]. destruct (stream_prune_changed s0 r) as [[Hf _ _] _].
    by apply counted_lists.
  - case_match; by intros [= <- <-].
  - destruct (dereg_step id dd r) as [d' r1] eqn:E. intros [= <- <-] Hc.
    assert (∀ d2, task_weight (TClose d2) = d_weight (Some d2)) as Hw by (by intros []).
    rewrite Hw in Hc. apply (dereg_counted _ _ _ _ _ _ E) in Hc.
    destruct d' as [d2|]; [by rewrite Hw|done].
Qed.
Lemma tasks_weight_insert tasks id t :
  tasks_weight (<[id := t]> tasks) =
  (task_weight t + tasks_weight tasks - from_option task_weight 0 (tasks !! id))%Z.
Proof.
  assert (∀ m, m !! id = None →
            tasks_weight (<[id := t]> m) = (task_weight t + tasks_weight m)%Z) as Hnew.
  { intros m Hm. unfold tasks_weight. rewrite map_fold_insert_L; [done| |done]. lia. }
  destruct (tasks !! id) as [t0|] eqn:E; cbn; [|rewrite Hnew by done; lia].
  rewrite <- insert_delete_eq, Hnew by apply lookup_delete_eq.
  unfold tasks_weight at 2. rewrite (map_fold_delete_L _ _ id t0); [|lia|done].
  fold (tasks_weight (delete id tasks)). lia.
Qed.

Lemma tasks_weight_quiet tasks :
  map_Forall (λ _ t, task_busy t = false) tasks → tasks_weight tasks = 0%Z.
Proof.
  induction tasks as [|id t m Hm IH] using map_ind; [done|].
  intros [Ht Hq]%map_Forall_insert; [|done].
  rewrite tasks_weight_insert, Hm, IH by done. by destruct t.
Qed.
End Invariant.

Section Preservation.
Context {Tx Ev Bytes HB HE : Type} `{!Mpsc Bytes HB Tx} `{!Mpsc unit HE Ev}.
Context (shard_conn : Z → nat) (shard_stream : string → nat).
Abbreviation state := (Conc Tx Ev Bytes HB HE).
Implicit Types (st : state) (c : cpc Bytes).

(** The invariant of the other connections, after an access on behalf of [id]. *)
Lemma local_inv_frame id id' (r r' : Registry Tx Ev) t d (l l' : Prop) :
  access_frame id r r' → id' ≠ id → (l' → l) →
  local_inv (connections r !! id') (conn_streams r !! id') (λ s, id' ∈ subscribers r s) t d l →
  local_inv (connections r' !! id') (conn_streams r' !! id') (λ s, id' ∈ subscribers r' s) t d l'.
Proof.
  intros [Hc Hs Hsub _] Hne Hl. rewrite Hc, Hs by done. apply local_inv_ext; [|done].
  intros s. symmetry. by apply Hsub.
Qed.

Lemma conc_inv_task st id t t' r' :
  c_tasks st !! id = Some t → task_busy t = true →
  task_step id t (c_reg st) = (t', r') → conc_inv st →
  conc_inv (mkConc r' (c_hb st) (c_he st) (<[id := t']> (c_tasks st)) (c_consumer st)).
Proof.
  intros Ht Hb Hstep [Hl Hnd He Ha]. pose proof (Hl id) as Hid. rewrite Ht in Hid.
  pose proof (task_frame _ _ _ _ _ _ _ Hstep Hid) as Hf. split; cbn.
  - intros id'. destruct (decide (id' = id)) as [->|Hne].
    + rewrite lookup_insert_eq. by apply (task_local _ _ _ _ _ _ _ Hb Hstep).
    + rewrite lookup_insert_ne by done. by eapply local_inv_frame.
  - by apply (af_nodup _ _ _ Hf).
  - intros s Hs. destruct (task_empty _ _ _ _ _ _ Hstep Hs) as [Hp|[Hs0 Hp]].
    { left. exists id, t'. by rewrite lookup_insert_eq. }
    destruct (He s Hs0) as [(id0 & t0 & H0 & Hp0)|?]; [left|by right].
    exists id0, t0. rewrite lookup_insert_ne; [done|congruence].
  - rewrite tasks_weight_insert, Ht; cbn.
    replace (task_weight t' + tasks_weight (c_tasks st) - task_weight t
             + consumer_weight (c_consumer st))%Z
      with (task_weight t' + (tasks_weight (c_tasks st) - task_weight t
             + consumer_weight (c_consumer st)))%Z by lia.
    eapply task_counted; [exact Hstep|exact Hid|]. unfold counted. rewrite Ha. f_equal. lia.
Qed.

(** A move of the consumer that does not touch the registry. *)
Lemma conc_inv_consumer_moves st c' (hb' : HB) (he' : HE) :
  (∀ id, evict_dereg c' id = evict_dereg (c_consumer st) id) →
  (∀ id, id ∈ consumer_ids c' → id ∈ consumer_ids (c_consumer st) ∨
         ∃ s, id ∈ subscribers (c_reg st) s) →
  (∀ id d rest, c_consumer st = CEvict id d rest → d = DTake) →
  consumer_weight c' = 0%Z →
  conc_inv st → conc_inv (mkConc (c_reg st) hb' he' (c_tasks st) c').
Proof.
  intros Hev Hids Hd Hw [Hl Hnd He Ha]. split; cbn.
  - intros id. rewrite Hev. destruct (Hl id) as [Hf Hb Hn Hp Hpe Hen Hst Hfr]. split; try done.
    intros Hu. destruct (Hfr Hu) as [Hnl Hde]. split; [|done].
    intros [?|[s Hs]]%Hids; [done|]. by eapply (unsettled_not_listed _ _ _ _ _ _ s (Hl id)).
  - done.
  - intros s Hs. destruct (He s Hs) as [?|(id & d & rest & Hc & [todo Htd])]; [by left|].
    by specialize (Hd _ _ _ Hc); subst.
  - rewrite Hw. unfold counted in *. rewrite Ha. f_equal.
    destruct (c_consumer st) as [| |id d rest]; cbn; [done..|].
    by rewrite (Hd _ _ _ eq_refl).
Qed.
Lemma next_evict_ids ev : consumer_ids (next_evict (Bytes := Bytes) ev) = ev.
Proof. by destruct ev. Qed.

Lemma next_evict_dereg ev id : evict_dereg (next_evict (Bytes := Bytes) ev) id = None.
Proof. destruct ev; cbn; [done|by case_decide]. Qed.

(** One access of an eviction. *)
Lemma conc_inv_evict st id d rest d' r' :
  c_consumer st = CEvict id d rest → dereg_ready shard_conn shard_stream st id d →
  dereg_step id d (c_reg st) = (d', r') → conc_inv st →
  conc_inv (mkConc r' (c_hb st) (c_he st) (c_tasks st)
    (match d' with Some d' => CEvict id d' rest | None => next_evict rest end : cpc Bytes)).
Proof.
  intros Hc Hready Hstep [Hl Hnd He Ha].
  pose proof (dereg_frame _ _ _ _ _ Hstep) as Hf.
  set (c' := match d' with Some d' => CEvict id d' rest | None => next_evict rest end : cpc Bytes).
  assert (∀ id', evict_dereg c' id' = if decide (id' = id) then d' ≫= past_take else None) as Hev.
  { intros id'. unfold c'. destruct d' as [d2|]; cbn.
    - repeat case_decide; congruence.
    - rewrite next_evict_dereg. by case_decide. }
  assert (∀ id', id' ∈ consumer_ids c' → id' ∈ id :: rest) as Hids.
  { intros id'. unfold c'. destruct d' as [d2|]; [done|].
    rewrite next_evict_ids. by right. }
  split; cbn.
  - intros id'. rewrite Hev. pose proof (Hl id') as Hid. rewrite Hc in Hid. cbn in Hid.
    destruct (decide (id' = id)) as [->|Hne].
    + rewrite decide_True in Hid by done.
      apply (local_inv_ext _ _ (λ s, id ∈ subscribers r' s) _ _ _ (id ∈ id :: rest)); [done|apply Hids|].
      eapply dereg_local_evict; [left|..|exact Hstep|exact Hid].
      intros ->. destruct (c_tasks st !! id) as [t|] eqn:Et; [|done]; cbn.
      destruct (holds_reverse t) eqn:Eh; [|done]. by destruct (Hready id t Et Eh).
    + rewrite decide_False in Hid by congruence.
      eapply local_inv_frame; [done|done|apply Hids|exact Hid].
  - by apply (af_nodup _ _ _ Hf).
  - intros s Hs. destruct (dereg_empty _ _ _ _ _ _ Hstep Hs) as [(d2 & Hd2 & Hp)|[Hs0 Hp]].
    { right. exists id, d2, rest. split; [|done]. unfold c'. by rewrite Hd2. }
    destruct (He s Hs0) as [?|(id0 & d0 & rest0 & Hc0 & Hp0)]; [by left|].
    rewrite Hc in Hc0. by simplify_eq.
  - assert (consumer_weight c' = d_weight d') as ->.
    { unfold c'. destruct d' as [[]|]; try done. by destruct rest. }
    rewrite Hc in Ha. rewrite Z.add_comm. eapply dereg_counted; [exact Hstep|].
    unfold counted in *. rewrite Ha. f_equal. destruct d; cbn; lia.
Qed.

(** One turn of the fan-out's loop over the subscribers. *)
Lemma conc_inv_loop st s json binary todo ev c' r' hb' he' :
  c_consumer st = CLoop s json binary todo ev →
  consumer_step (c_consumer st) (c_reg st) (c_hb st) (c_he st) = (c', r', hb', he') →
  conc_inv st → conc_inv (mkConc r' hb' he' (c_tasks st) c').
Proof.
  intros Hc Hs Hinv. rewrite Hc in Hs. cbn in Hs.
  assert (∃ ids, (c' = next_evict ids ∨ ∃ todo' ev', c' = CLoop s json binary todo' ev' ∧
            ids = todo' ++ ev') ∧ r' = c_reg st ∧ ids ⊆ todo ++ ev) as (ids & Hc' & -> & Hids).
  { destruct todo as [|id todo]; [|destruct (connections _ !! id) as [e|];
      [destruct (try_send _ _ _) as [[] hb1]|]]; simplify_eq; eexists;
      (split; [naive_solver|split; [done|set_solver]]). }
  assert (consumer_ids c' = ids ∧ (∀ id, evict_dereg c' id = None) ∧ consumer_weight c' = 0%Z)
    as (Hi & He & Hw).
  { destruct Hc' as [->|(? & ? & -> & ->)]; [|done].
    rewrite next_evict_ids. split_and!; [done|apply next_evict_dereg|by destruct ids]. }
  apply conc_inv_consumer_moves; rewrite ?Hc, ?Hi; [done|set_solver|done..].
Qed.

Lemma conc_inv_step st st' :
  conc_step shard_conn shard_stream st st' → conc_inv st → conc_inv st'.
Proof.
  intros Hstep Hinv. destruct Hstep as [st st' Hadv|st e id r' Ha Hn|st id t Ht Hcmd
    |st s json binary Hc|st hb' he'].
  - destruct Hadv as [st id t t' r' Ht Hb _ Hs|st c' r' hb' he' Hb Hr Hs].
    { by eapply conc_inv_task. }
    unfold consumer_ready in Hr. destruct (c_consumer st) as [|s json binary todo ev|id d rest] eqn:Hc;
      cbn in Hs; [done| |].
    + eapply conc_inv_loop; [exact Hc|by rewrite Hc|done].
    + destruct (dereg_step id d (c_reg st)) as [d' r1] eqn:Hd. simplify_eq.
      by eapply conc_inv_evict.
  - unfold allocate_id in Ha. simplify_eq. destruct Hinv as [Hl Hnd He Ha]. split; cbn.
    + intros id. pose proof (Hl id) as Hid. destruct (decide (id = next_id (c_reg st))) as [->|];
        [|by rewrite lookup_insert_ne].
      rewrite lookup_insert_eq. rewrite Hn in Hid. by destruct Hid.
    + done.
    + intros s Hs. destruct (He s Hs) as [(id0 & t0 & H0 & Hp0)|?]; [left|by right].
      exists id0, t0. rewrite lookup_insert_ne; [done|congruence].
    + rewrite tasks_weight_insert, Hn. unfold counted in *; cbn. rewrite Ha. f_equal. lia.
  - destruct Hinv as [Hl Hnd He Ha]. split; cbn.
    + intros id'. pose proof (Hl id') as Hid. destruct (decide (id' = id)) as [->|];
        [|by rewrite lookup_insert_ne].
      rewrite lookup_insert_eq. rewrite Ht in Hid. destruct Hid.
      destruct Hcmd as [[s ->]|[[s ->]| ->]]; split; cbn in *; try done; naive_solver.
    + done.
    + intros s Hs. destruct (He s Hs) as [(id0 & t0 & H0 & Hp0)|?]; [left|by right].
      exists id0, t0. rewrite lookup_insert_ne; [done|]. intros ->. rewrite Ht in H0.
      unfold t_prunes in Hp0. naive_solver.
    + rewrite tasks_weight_insert, Ht. unfold counted in *; cbn. rewrite Ha. f_equal.
      assert (task_weight t = 0%Z) as -> by naive_solver. lia.
  - apply conc_inv_consumer_moves; try done; rewrite ?Hc; unfold fanout_start.
    + intros id. by destruct (streams (c_reg st) !! s).
    + intros id Hid. right. exists s. unfold subscribers.
      destruct (streams (c_reg st) !! s); cbn in *; set_solver.
    + done.
    + by destruct (streams (c_reg st) !! s).
  - by destruct Hinv.
Qed.

Lemma conc_inv_reachable st :
  reachable conc_init (conc_step shard_conn shard_stream) st → conc_inv st.
Proof.
  apply reachable_invariant; [|intros; by eapply conc_inv_step].
  intros s (Hr & Ht & Hc). split; rewrite ?Hr, ?Ht, ?Hc; cbn.
  - intros id. rewrite !lookup_empty. split; cbn; try done; try (by intros [? ?]).
    + intros s0. unfold subscribers; cbn. rewrite lookup_empty. cbn. set_solver.
    + set_solver.
    + apply NoDup_nil_2.
    + intros _. split; [apply not_elem_of_nil|done].
  - intros s0. unfold subscribers; cbn. rewrite lookup_empty. apply NoDup_nil_2.
  - intros s0. by rewrite lookup_empty.
  - done.
Qed.

(** ** Properties *)

(** C14. Registry operations may interleave: whatever the tasks of the connections and the
    fan-out with its evictions do at the same time, access by access, once no operation is
    in progress the registry is well formed, as if they had run one after the other; a
    connection whose task has ended has left no entry and no subscription behind, and one
    that is still open is registered completely or, after an eviction, not at all. *)
Theorem interleavings_leave_registry_wf st :
  reachable conc_init (conc_step shard_conn shard_stream) st → quiescent st →
  registry_wf (c_reg st) ∧
  (∀ id, c_tasks st !! id ≠ Some TIdle →
     connections (c_reg st) !! id = None ∧ conn_streams (c_reg st) !! id = None ∧
     ∀ s, id ∉ subscribers (c_reg st) s) ∧
  (∀ id, connections (c_reg st) !! id = None → ∀ s, id ∉ subscribers (c_reg st) s).
Proof.
  intros Hreach [Hq Hc]. pose proof (conc_inv_reachable _ Hreach) as [Hl Hnd He Ha].
  assert (∀ id, is_Some (connections (c_reg st) !! id) ↔ is_Some (conn_streams (c_reg st) !! id))
    as Hrev.
  { intros id. specialize (Hl id). rewrite Hc in Hl. destruct Hl as [_ _ _ _ _ Hen Hst _].
    split; [|done]. intros [?|Ht]%Hst; [done|].
    specialize (Hq id). destruct (c_tasks st !! id) as [[]|]; cbn in Ht;
      try (by destruct Ht); by specialize (Hq _ eq_refl). }
  assert (∀ s id, id ∈ subscribers (c_reg st) s ↔ s ∈ streams_of (c_reg st) id) as Hsubs.
  { intros s id. specialize (Hl id). rewrite Hc in Hl. destruct Hl as [Hf Hb _ _ _ _ _ _].
    specialize (Hq id). unfold streams_of. cbn in *.
    destruct (c_tasks st !! id) as [t|]; [specialize (Hq _ eq_refl); destruct t; try done|];
      cbn in *; split; [intros Hs%Hf|intros Hs%Hb|intros Hs%Hf|intros Hs%Hb|intros Hs%Hf|intros Hs%Hb];
      set_solver. }
  assert (∀ id, connections (c_reg st) !! id = None → ∀ s, id ∉ subscribers (c_reg st) s) as Hgone.
  { intros id Hid s. rewrite Hsubs. unfold streams_of.
    destruct (conn_streams (c_reg st) !! id) eqn:E; [|apply not_elem_of_nil].
    destruct (proj2 (Hrev id)) as [? ?]; [eauto|congruence]. }
  split; [|split; [|done]].
  - split; [done|done|done| | |].
    + intros id. apply (li_nodup _ _ _ _ _ _ (Hl id)).
    + intros s Hs. destruct (He s Hs) as [(id & t & Ht & Hp)|(id & d & rest & Hcd & _)];
        [|congruence].
      specialize (Hq _ _ Ht). destruct Hp as [->|(d & -> & _)]; done.
    + rewrite Ha, Hc, (tasks_weight_quiet _ Hq); cbn. f_equal. lia.
  - intros id Hid.
    assert (connections (c_reg st) !! id = None) as Hn.
    { pose proof (li_point _ _ _ _ _ _ (Hl id)) as Hp. specialize (Hq id).
      destruct (c_tasks st !! id) as [t|]; [|by destruct Hp].
      specialize (Hq _ eq_refl). by destruct t. }
    split; [done|split; [|by apply Hgone]].
    destruct (conn_streams (c_reg st) !! id) eqn:E; [|done].
    destruct (proj2 (Hrev id)) as [? ?]; [eauto|congruence].
Qed.

(** C15. The registry's guards cannot deadlock: however keys hash to shards, as long as some
    operation is in progress, one of the operations in progress finds the shard it needs
    free and advances. *)
Theorem registry_guards_never_deadlock st :
  (∃ id t, c_tasks st !! id = Some t ∧ task_busy t = true) ∨ consumer_busy (c_consumer st) = true →
  ∃ st', conc_advance shard_conn shard_stream st st'.
Proof.
  intros Hbusy.
  assert (consumer_ready shard_conn shard_stream st → consumer_busy (c_consumer st) = true →
          ∃ st', conc_advance shard_conn shard_stream st st') as Hcons.
  { intros Hr Hb. destruct (consumer_step (c_consumer st) (c_reg st) (c_hb st) (c_he st))
      as [[[c' r'] hb'] he'] eqn:E. eexists. by eapply advance_consumer. }
  assert (∀ id t, c_tasks st !! id = Some t → task_busy t = true →
          task_ready shard_conn shard_stream st id t →
          ∃ st', conc_advance shard_conn shard_stream st st') as Htask.
  { intros id t Ht Hb Hr. destruct (task_step id t (c_reg st)) as [t' r'] eqn:E.
    eexists. by eapply advance_task. }
  destruct (c_consumer st) as [|s json binary todo ev|id d rest] eqn:Hc.
  2: { apply Hcons; unfold consumer_ready; by rewrite ?Hc. }
  all: assert (∀ s, stream_free shard_stream st s) as Hfree
    by (intros s; unfold stream_free; by rewrite Hc).
  all: destruct (decide (map_Forall (λ _ t, holds_reverse t = false) (c_tasks st))) as [Hno|Hno];
    [|apply map_not_Forall in Hno as (id0 & t0 & Ht0 & Hh); [|apply _];
      apply (Htask id0 t0 Ht0); destruct t0; cbn in *; first [done|apply Hfree]].
  all: assert (∀ id, reverse_free shard_conn st id) as Hrev
    by (intros i i' t' Hi' Ht'; by rewrite (Hno _ _ Hi') in Ht').
  - destruct Hbusy as [(id & t & Ht & Hb)|?]; [|done].
    apply (Htask id t Ht Hb). destruct t; try done; cbn; auto. destruct d; cbn; auto.
  - apply Hcons; [|done]. unfold consumer_ready. rewrite Hc. destruct d; cbn; auto.
Qed.
End Preservation.

(** ** Operations that run alone *)

Section Alone.
Context {Tx Ev Bytes HB HE : Type} `{!Mpsc Bytes HB Tx} `{!Mpsc unit HE Ev}.
Abbreviation registry := (Registry Tx Ev).
Implicit Types (r : registry).

(** The accesses of one operation, with nothing in between. *)
Definition task_alone (id : Z) (p p' : tpc Tx Ev * registry) : Prop :=
  task_busy p.1 = true ∧ task_step id p.1 p.2 = p'.

Definition consumer_alone (p p' : cpc Bytes * registry * HB * HE) : Prop :=
  let '(c, r, hb, he) := p in consumer_busy c = true ∧ consumer_step c r hb he = p'.

(** [deregister] from a program point to its return. *)
Inductive dereg_to (id : Z) : dpc → registry → registry → Prop :=
| dereg_last d r r' : dereg_step id d r = (None, r') → dereg_to id d r r'
| dereg_more d r d1 r1 r' :
    dereg_step id d r = (Some d1, r1) → dereg_to id d1 r1 r' → dereg_to id d r r'.

Lemma dereg_to_drop id r : dereg_to id DDrop r (deregister_connection id r).
Proof.
  unfold deregister_connection. destruct (connections r !! id) as [e|] eqn:E.
  - eapply dereg_more; [cbn; by rewrite E|]. by apply dereg_last.
  - apply dereg_last. cbn. by rewrite E.
Qed.

Lemma dereg_to_streams id l r :
  dereg_to id (next_stream l) r
    (deregister_connection id (fold_left (λ r s, remove_subscriber_from_stream s id r) l r)).
Proof.
  revert r. induction l as [|s l IH]; intros r; cbn; [apply dereg_to_drop|].
  unfold remove_subscriber_from_stream. destruct (stream_retain s id r) as [b r1] eqn:E.
  eapply dereg_more; [cbn; by rewrite E|]. destruct b; [|apply IH].
  eapply dereg_more; [done|]. apply IH.
Qed.

Lemma dereg_to_deregister id r : dereg_to id DTake r (deregister id r).
Proof.
  unfold deregister, deregister_streams. destruct (conn_streams r !! id) as [l|] eqn:E.
  - eapply dereg_more; [cbn; by rewrite E|]. apply dereg_to_streams.
  - eapply dereg_more; [cbn; by rewrite E|]. apply dereg_to_drop.
Qed.

Lemma dereg_to_task id d r r' :
  dereg_to id d r r' → rtc (task_alone id) (TClose d, r) (TDone, r').
Proof.
  induction 1 as [d r r' E|d r d1 r1 r' E _ IH].
  - apply rtc_once. split; [done|]. cbn. by rewrite E.
  - eapply rtc_l; [|exact IH]. split; [done|]. cbn. by rewrite E.
Qed.

Lemma dereg_to_evict id d r r' rest hb he :
  dereg_to id d r r' → rtc consumer_alone (CEvict id d rest, r, hb, he) (next_evict rest, r', hb, he).
Proof.
  induction 1 as [d r r' E|d r d1 r1 r' E _ IH].
  - apply rtc_once. split; [done|]. cbn. by rewrite E.
  - eapply rtc_l; [|exact IH]. split; [done|]. cbn. by rewrite E.
Qed.

Lemma evictions_alone ev r hb he :
  rtc consumer_alone (next_evict ev, r, hb, he) (CIdle, fold_left (λ r id, deregister id r) ev r, hb, he).
Proof.
  revert r. induction ev as [|id ev IH]; intros r; cbn [next_evict fold_left]; [done|].
  eapply rtc_trans; [|apply IH]. apply dereg_to_evict, dereg_to_deregister.
Qed.

Lemma loop_alone s json binary todo ev r hb he n ev' hb' he' :
  fanout_loop r json binary todo hb he = (n, ev', hb', he') →
  rtc consumer_alone (CLoop s json binary todo ev, r, hb, he) (next_evict (ev ++ ev'), r, hb', he').
Proof.
  revert ev hb he n ev' hb' he'. induction todo as [|id todo IH]; intros ev hb he n ev' hb' he';
    cbn [fanout_loop].
  - intros [= <- <- <- <-]. rewrite app_nil_r. by apply rtc_once.
  - destruct (connections r !! id) as [e|] eqn:E.
    + destruct (try_send (sender e) _ hb) as [[] hb1] eqn:Es;
        destruct (fanout_loop r json binary todo _ _) as [[[n1 ev1] hb2] he2] eqn:El;
        intros [= <- <- <- <-].
      * eapply rtc_l; [|by apply (IH ev _ _ _ _ _ _ El)]. split; [done|]. cbn. by rewrite E, Es.
      * eapply rtc_l; [split; [done|]; cbn; by rewrite E, Es|].
        replace (ev ++ id :: ev1) with ((ev ++ [id]) ++ ev1) by by rewrite <- app_assoc.
        apply (IH _ _ _ _ _ _ _ El).
    + intros H. eapply rtc_l; [|by apply (IH ev _ _ _ _ _ _ H)]. split; [done|]. cbn. by rewrite E.
Qed.

(** The accesses make up the operations: run without interruption they take every
    operation from its start to its end, with exactly the effect of the operation as a
    whole. *)
Theorem accesses_make_up_operations r id tx ev binary_conn s json binary hb he :
  rtc (task_alone id) (TRegister (mkEntry tx ev binary_conn), r)
    (TIdle, register id tx binary_conn ev r) ∧
  rtc (task_alone id) (TSub s, r) (TIdle, subscribe id s r) ∧
  rtc (task_alone id) (TLeave s, r) (TIdle, unsubscribe id s r) ∧
  rtc (task_alone id) (TClose DTake, r) (TDone, deregister id r) ∧
  (let '(_, r', hb', he') := fanout_encoded s json binary r hb he in
   rtc consumer_alone (fanout_start s json binary r, r, hb, he) (CIdle, r', hb', he')).
Proof.
  split_and!.
  - do 3 (eapply rtc_l; [by split|]). done.
  - unfold subscribe. destruct (conn_streams r !! id) as [strs|] eqn:E; [case_decide as Hd|].
    + apply rtc_once. split; [done|]. cbn. by rewrite E, decide_True.
    + eapply rtc_l; [split; [done|]; cbn; rewrite E, decide_False by done; reflexivity|].
      eapply rtc_l; [by split|]. eapply rtc_l; [split; [done|]; cbn; rewrite E; reflexivity|]. done.
    + apply rtc_once. split; [done|]. cbn. by rewrite E.
  - unfold unsubscribe, remove_subscriber_from_stream.
    destruct (stream_retain s id r) as [b r1] eqn:E.
    eapply rtc_l; [split; [done|]; cbn; rewrite E; reflexivity|]. destruct b.
    + eapply rtc_l; [by split|]. apply rtc_once. split; [done|]. cbn. by case_match.
    + apply rtc_once. split; [done|]. cbn. by case_match.
  - apply dereg_to_task, dereg_to_deregister.
  - unfold fanout_encoded, fanout_start. destruct (streams r !! s) as [subs|]; [|apply rtc_refl].
    change (default [] (Some subs)) with subs.
    destruct (fanout_loop r json binary subs hb he) as [[[n ev'] hb'] he'] eqn:El.
    eapply rtc_trans; [by apply (loop_alone _ _ _ _ [] _ _ _ _ _ _ _ El)|].
    apply evictions_alone.
Qed.
End Alone.

(** ** Schedules

    An execution given by who makes the next access. *)

Section Schedule.
Context {Tx Ev Bytes HB HE : Type} `{!Mpsc Bytes HB Tx} `{!Mpsc unit HE Ev}.
Context (shard_conn : Z → nat) (shard_stream : string → nat).
Abbreviation state := (Conc Tx Ev Bytes HB HE).

Inductive turn : Type :=
| Connect (e : ConnectionEntry Tx Ev)
| Begin (id : Z) (t : tpc Tx Ev)
| Advance (id : Z)
| Fanout (s : string) (json binary : Bytes)
| AdvanceConsumer.

#[local] Instance stream_free_dec (st : state) s : Decision (stream_free shard_stream st s).
Proof. unfold stream_free. destruct (c_consumer st); apply _. Defined.

#[local] Instance reverse_free_dec (st : state) id : Decision (reverse_free shard_conn st id).
Proof. unfold reverse_free. apply _. Defined.

#[local] Instance dereg_ready_dec (st : state) id d :
  Decision (dereg_ready shard_conn shard_stream st id d).
Proof. destruct d; cbn; apply _. Defined.

#[local] Instance task_ready_dec (st : state) id t :
  Decision (task_ready shard_conn shard_stream st id t).
Proof. destruct t; cbn; apply _. Defined.

#[local] Instance consumer_ready_dec (st : state) :
  Decision (consumer_ready shard_conn shard_stream st).
Proof. unfold consumer_ready. destruct (c_consumer st); apply _. Defined.

(** The operation a task may begin between two others. *)
Definition begins (t : tpc Tx Ev) : bool :=
  match t with TSub _ | TLeave _ | TClose DTake => true | _ => false end.

(** [None] when the turn is not possible. *)
Definition take_turn (a : turn) (st : state) : option state :=
  match a with
  | Connect e =>
      let '(id, r') := allocate_id (c_reg st) in
      match c_tasks st !! id with
      | None => Some (mkConc r' (c_hb st) (c_he st) (<[id := TRegister e]> (c_tasks st))
                        (c_consumer st))
      | Some _ => None
      end
  | Begin id t =>
      match c_tasks st !! id with
      | Some TIdle =>
          if begins t then Some (mkConc (c_reg st) (c_hb st) (c_he st) (<[id := t]> (c_tasks st))
                                   (c_consumer st))
          else None
      | _ => None
      end
  | Advance id =>
      match c_tasks st !! id with
      | Some t =>
          if decide (task_busy t = true ∧ task_ready shard_conn shard_stream st id t) then
            let '(t', r') := task_step id t (c_reg st) in
            Some (mkConc r' (c_hb st) (c_he st) (<[id := t']> (c_tasks st)) (c_consumer st))
          else None
      | None => None
      end
  | Fanout s json binary =>
      match c_consumer st with
      | CIdle => Some (mkConc (c_reg st) (c_hb st) (c_he st) (c_tasks st)
                         (fanout_start s json binary (c_reg st)))
      | _ => None
      end
  | AdvanceConsumer =>
      if decide (consumer_busy (c_consumer st) = true ∧
                 consumer_ready shard_conn shard_stream st) then
        let '(c', r', hb', he') := consumer_step (c_consumer st) (c_reg st) (c_hb st) (c_he st) in
        Some (mkConc r' hb' he' (c_tasks st) c')
      else None
  end.

Fixpoint take_turns (l : list turn) (st : state) : option state :=
  match l with
  | [] => Some st
  | a :: l' => match take_turn a st with Some st' => take_turns l' st' | None => None end
  end.

Lemma take_turn_step a st st' :
  take_turn a st = Some st' → conc_step shard_conn shard_stream st st'.
Proof.
  destruct a as [e|id t|id|s json binary|]; cbn [take_turn].
  - destruct (allocate_id (c_reg st)) as [id r'] eqn:E. case_match; intros; simplify_eq.
    by apply step_connect.
  - destruct (c_tasks st !! id) as [[]|] eqn:E; try done. destruct (begins t) eqn:Hb; [|done].
    intros [= <-]. apply step_begin; [done|]. destruct t as [| | | | | | | | | |[]|]; try done; eauto.
  - destruct (c_tasks st !! id) as [t|] eqn:E; [|done]. case_decide as Hd; [|done].
    destruct (task_step id t (c_reg st)) as [t' r'] eqn:Es. intros [= <-].
    apply step_advance. destruct Hd. by eapply advance_task.
  - destruct (c_consumer st) eqn:E; try done. intros [= <-]. by apply step_fanout.
  - case_decide as Hd; [|done].
    destruct (consumer_step _ _ _ _) as [[[c' r'] hb'] he'] eqn:Es. intros [= <-].
    apply step_advance. destruct Hd. by eapply advance_consumer.
Qed.

Lemma take_turns_reachable l st st' :
  reachable conc_init (conc_step shard_conn shard_stream) st →
  take_turns l st = Some st' → reachable conc_init (conc_step shard_conn shard_stream) st'.
Proof.
  revert st. induction l as [|a l IH]; cbn; intros st Hr.
  - by intros [= <-].
  - destruct (take_turn a st) as [st1|] eqn:E; [|done]. apply IH.
    eapply reachable_step; [exact Hr|]. by eapply take_turn_step.
Qed.
End Schedule.
Arguments turn : clear implicits.

(** ** Witnesses *)

Definition conc_start : Conc nat nat string (gmap nat (BoundedQueue string)) (gmap nat (BoundedQueue unit)) :=
  mkConc new_registry {[ 1%nat := mkQueue [] 0 true true ]} ∅ ∅ CIdle.

(** The eviction of connection 1 races with the end of its task: both are past their first
    access before either goes on. *)
Definition race_schedule : list (turn nat nat string) :=
  [Connect (mkEntry 1%nat 1%nat false); Advance 1; Advance 1; Advance 1;
   Begin 1 (TSub "s"); Advance 1; Advance 1; Advance 1;
   Fanout "s" "json" "msgpack"; AdvanceConsumer; AdvanceConsumer; AdvanceConsumer;
   Begin 1 (TClose DTake); Advance 1; Advance 1; Advance 1;
   AdvanceConsumer; AdvanceConsumer; AdvanceConsumer].

Definition race_end : Conc nat nat string (gmap nat (BoundedQueue string)) (gmap nat (BoundedQueue unit)) :=
  default conc_start (take_turns (λ _, 0%nat) (λ _, 0%nat) race_schedule conc_start).

Lemma race_reachable :
  reachable conc_init (conc_step (λ _, 0%nat) (λ _, 0%nat)) race_end.
Proof.
  apply (take_turns_reachable (λ _, 0%nat) (λ _, 0%nat) race_schedule conc_start).
  - by apply reachable_init.
  - unfold race_end. by vm_compute.
Qed.

Lemma race_quiescent : quiescent race_end.
Proof.
  split; [|by vm_compute].
  apply (bool_decide_unpack (map_Forall (λ _ t, task_busy t = false) (c_tasks race_end))).
  by vm_compute.
Qed.

Lemma interleavings_leave_registry_wf_witness :
  c_tasks race_end !! 1%Z = Some TDone ∧ registry_wf (c_reg race_end) ∧
  connections (c_reg race_end) !! 1%Z = None.
Proof.
  destruct (interleavings_leave_registry_wf (λ _, 0%nat) (λ _, 0%nat) race_end race_reachable
    race_quiescent) as (Hwf & Hgone & _).
  split; [by vm_compute|]. split; [exact Hwf|].
  apply (Hgone 1%Z). by vm_compute.
Defined.

(** A subscribe that keeps its guard while the fan-out keeps the stream's: the subscriber
    waits, the fan-out goes on. *)
Definition contended : Conc nat nat string (gmap nat (BoundedQueue string)) (gmap nat (BoundedQueue unit)) :=
  mkConc new_registry ∅ ∅ {[ 1%Z := TPush "s" ]} (CLoop "s" "json" "msgpack" [] []).

Lemma registry_guards_never_deadlock_witness :
  ¬ task_ready (λ _, 0%nat) (λ _, 0%nat) contended 1 (TPush "s") ∧
  ∃ st', conc_advance (λ _, 0%nat) (λ _, 0%nat) contended st'.
Proof.
  split; [intros H; by vm_compute in H|].
  apply (registry_guards_never_deadlock (λ _, 0%nat) (λ _, 0%nat) contended).
  by right.
Defined.
