(* ===== verification/Nats.v ===== *)
(** * NATS subjects, messages and publishing ([src/pubsub/nats.rs])

    What the fan-out pipeline and the replay share: subjects, message metadata, payload
    decoding, and publishing.  The JetStream server and its client library are parameters. *)

From stdpp Require Import base list strings.
From Stdlib Require Import ZArith Lia Ascii String.
From S2P Require Import Prelude Text Protocol.

Local Open Scope string_scope.
Local Open Scope list_scope.

Definition SUBJECT_PREFIX : string := "TURBOCABLE.".
Definition STREAM_NAME : string := "TURBOCABLE".
Definition MAX_REPLAY_MESSAGES : nat := 10000.

(** [async_nats::jetstream::Message]: the subject, the payload, and the outcome of parsing
    its JetStream metadata ([info()]). *)
Record NatsMessage : Type := mkNatsMessage {
  subject : string;
  payload : string;
  msg_info : result Z string;
}.

Definition extract_stream_name (subject : string) : string :=
  default subject (strip_prefix SUBJECT_PREFIX subject).

Definition extract_stream_sequence (msg : NatsMessage) : option Z :=
  match msg_info msg with Ok stream_sequence => Some stream_sequence | Err _ => None end.

(** The payload as JSON, else as MessagePack, else [null]. *)
Definition decode_payload (serde_json rmp_serde : WireLib) (bytes : string) : value :=
  match wire_parse serde_json bytes with
  | Ok v => to_json_value v
  | Err _ => match wire_parse rmp_serde bytes with
             | Ok v => to_json_value v
             | Err _ => VNull
             end
  end.

(** ** Publishing *)

(** The client's [publish]: sending, then awaiting the acknowledgment, each may fail. *)
Record PublishOutcome : Type := mkPublishOutcome {
  pub_send : result unit string;
  pub_ack : result unit string;
}.

(** The subject a stream is published under. *)
Definition stream_subject (stream_name : string) : string := SUBJECT_PREFIX +:+ stream_name.

(** [publish]; the JetStream client is the function [js_publish] of subject and payload. *)
Definition publish (js_publish : string → string → PublishOutcome)
    (stream_name bytes : string) : result unit GatewayError :=
  let o := js_publish (stream_subject stream_name) bytes in
  (let? _ := map_err (λ e, JetStream ("publish failed: " +:+ e)) (pub_send o) in
   map_err (λ e, JetStream ("publish ack failed: " +:+ e)) (pub_ack o))%gw.

(** ** Lemmas *)

Lemma extract_stream_subject s : extract_stream_name (stream_subject s) = s.
Proof. unfold extract_stream_name, stream_subject. by rewrite strip_prefix_app. Qed.

Lemma stream_subject_inj s s' : stream_subject s = stream_subject s' → s = s'.
Proof.
  intros H. rewrite <- (extract_stream_subject s), <- (extract_stream_subject s'). by rewrite H.
Qed.


(** A library that parses and prints nothing. *)
Definition silent_lib : WireLib := mkWireLib (λ _, Err "") (λ _, Err "") (λ _, "").
