(* ===== verification/Publish.v ===== *)
(** * The load-test publisher ([src/bin/publish.rs])

    [tc-publish] publishes numbered messages to one stream at a fixed rate.  Instants are
    nanoseconds.  A tick of the interval carries what the outside answers in that round: the
    clock, the wall clock and the outcome of the publish. *)

From stdpp Require Import base list strings pretty.
From Stdlib Require Import ZArith Lia Ascii String.
From S2P Require Import Prelude Text Protocol Nats.

Local Open Scope string_scope.
Local Open Scope list_scope.
Local Open Scope Z_scope.

Record Args : Type := mkArgs {
  nats_url : string;
  stream : string;
  rate : Z;
  duration : Z;
  quiet : bool;
}.

Definition NANOS : Z := 1000000000.

(** [Duration::from_nanos(1_000_000_000 / args.rate.max(1))] *)
Definition interval_nanos (a : Args) : Z := NANOS / Z.max (rate a) 1.

(** [Instant::now() + Duration::from_secs(args.duration)]; an instant has [i64] seconds, and
    the addition panics beyond them. *)
Definition end_instant (now : Z) (a : Args) : option Z :=
  if now / NANOS + duration a <? 2 ^ 63 then Some (now + duration a * NANOS) else None.

Record Tick : Type := mkTick {
  t_now : Z;
  t_wall_millis : option Z;
  t_publish : result unit string;
}.

(** [d.as_millis() as u64], or zero before the epoch. *)
Definition sent_at (t : Tick) : Z :=
  match t_wall_millis t with Some ms => ms mod u64_modulus | None => 0 end.

(** A [u64] in decimal. *)
Definition show_u64 (z : Z) : string := pretty (Z.to_N z).

Definition quote : string := String "034"%char EmptyString.

(** The [format!] of the payload; the stream name goes in as it is. *)
Definition message_payload_text (stream_name : string) (seq sent : Z) : string :=
  "{" +:+ quote +:+ "seq" +:+ quote +:+ ":" +:+ show_u64 seq +:+ "," +:+
  quote +:+ "sent_at" +:+ quote +:+ ":" +:+ show_u64 sent +:+ "," +:+
  quote +:+ "stream" +:+ quote +:+ ":" +:+ quote +:+ stream_name +:+ quote +:+ "}".

(** How the loop stands: past the end, failed, or waiting for a tick that has not come. *)
Inductive publish_exit : Type :=
| PastEnd (seq : Z)
| PublishFailed (e : string)
| AwaitTick (seq : Z).

(** The [loop]: its exit, and the messages published, by subject and payload. *)
Fixpoint publish_loop (stream_name : string) (end_at : Z) (ticks : list Tick) (seq : Z)
    : publish_exit * list (string * string) :=
  match ticks with
  | [] => (AwaitTick seq, [])
  | t :: ticks' =>
      if end_at <=? t_now t then (PastEnd seq, [])
      else
        match t_publish t with
        | Err e => (PublishFailed ("publish error at seq=" +:+ show_u64 seq +:+ ": " +:+ e), [])
        | Ok _ =>
            let '(x, out) := publish_loop stream_name end_at ticks' (wrapping_add seq 1) in
            (x, (stream_subject stream_name,
                 message_payload_text stream_name seq (sent_at t)) :: out)
        end
  end.

Inductive publisher_end : Type :=
| PubPanicked
| PubError (e : string)
| PubDone (seq : Z)
| PubRunning (seq : Z).

(** [main]: connect, publish, flush. *)
Definition publish_main (a : Args) (connect flush : result unit string) (now : Z)
    (ticks : list Tick) : publisher_end * list (string * string) :=
  match connect with
  | Err e => (PubError e, [])
  | Ok _ =>
      match end_instant now a with
      | None => (PubPanicked, [])
      | Some end_at =>
          if interval_nanos a =? 0 then (PubPanicked, [])
          else
            let '(x, out) := publish_loop (stream a) end_at ticks 0 in
            (match x with
             | PublishFailed e => PubError e
             | AwaitTick seq => PubRunning seq
             | PastEnd seq => match flush with Ok _ => PubDone seq | Err e => PubError e end
             end, out)
      end
  end.

(** ** Properties *)

(** The message of the [i]-th tick. *)
Definition numbered (stream_name : string) (i : nat) (t : Tick) : string * string :=
  (stream_subject stream_name, message_payload_text stream_name (Z.of_nat i) (sent_at t)).

(** The number the loop stopped at. *)
Definition exit_seq (x : publish_exit) (n : Z) : Prop :=
  match x with PastEnd seq | AwaitTick seq => seq = n | PublishFailed _ => True end.

Lemma publish_loop_spec s end_at ticks k x out :
  Z.of_nat k + Z.of_nat (List.length ticks) < u64_modulus →
  publish_loop s end_at ticks (Z.of_nat k) = (x, out) →
  ∃ n, (n ≤ List.length ticks)%nat ∧
    out = imap (λ i, numbered s (k + i)) (take n ticks) ∧
    Forall (λ t, t_now t < end_at) (take n ticks) ∧
    exit_seq x (Z.of_nat (k + n)).
Proof.
  revert k x out. induction ticks as [|t ticks IH]; intros k x out Hk; cbn [publish_loop].
  { intros [= <- <-]. exists 0%nat. cbn. rewrite Nat.add_0_r. by split_and!. }
  destruct (Z.leb_spec end_at (t_now t)).
  { intros [= <- <-]. exists 0%nat. cbn. rewrite Nat.add_0_r. split_and!; [lia|done..]. }
  destruct (t_publish t) as [u|e].
  2: { intros [= <- <-]. exists 0%nat. cbn. split_and!; [lia|done..]. }
  cbn [List.length] in Hk.
  assert (wrapping_add (Z.of_nat k) 1 = Z.of_nat (S k)) as ->.
  { rewrite wrapping_add_small; lia. }
  destruct (publish_loop s end_at ticks (Z.of_nat (S k))) as [x1 out1] eqn:E.
  intros [= <- <-]. destruct (IH (S k) x1 out1) as (n & Hn & -> & Hf & Hx); [lia|done|].
  exists (S n). cbn [take List.length]. split_and!; [lia| |by constructor|].
  - rewrite imap_cons. f_equal.
    + unfold numbered. by rewrite Nat.add_0_r.
    + apply imap_ext. intros i t' _. cbn. by rewrite Nat.add_succ_r.
  - by rewrite Nat.add_succ_r.
Qed.

(** Ticks of an interval started at [start]: the [i]-th one never comes before its time. *)
Definition on_schedule (start period : Z) (ticks : list Tick) : Prop :=
  ∀ i t, ticks !! i = Some t → start + Z.of_nat i * period ≤ t_now t.

(** The publisher sends a gap-free series to the stream it names: the messages published
    are those of the first rounds, numbered from zero, each under a subject the gateway maps
    back to the stream; none is sent after the end, and a run that completes reports exactly
    how many there were.  With ticks on schedule there are never more than the rate allows
    for the duration, rounded up to whole intervals. *)
Theorem publisher_series a connect flush now ticks r out :
  0 ≤ rate a → 0 ≤ duration a → Z.of_nat (List.length ticks) < u64_modulus →
  on_schedule now (interval_nanos a) ticks →
  publish_main a connect flush now ticks = (r, out) →
  ∃ n, out = imap (numbered (stream a)) (take n ticks) ∧ n = List.length out ∧
    Forall (λ p, extract_stream_name p.1 = stream a) out ∧
    (∀ seq, r = PubDone seq → seq = Z.of_nat n) ∧
    (n = 0%nat ∨ (Z.of_nat n - 1) * interval_nanos a < duration a * NANOS).
Proof.
  intros Hr Hd Hlen Hsched. unfold publish_main.
  destruct connect as [u|e]; [|intros [= <- <-]; exists 0%nat; by split_and!; [..|left]].
  destruct (end_instant now a) as [end_at|] eqn:Eend; [|intros [= <- <-]; exists 0%nat; by split_and!; [..|left]].
  destruct (interval_nanos a =? 0); [intros [= <- <-]; exists 0%nat; by split_and!; [..|left]|].
  destruct (publish_loop (stream a) end_at ticks 0) as [x o] eqn:El. intros [= <- <-].
  destruct (publish_loop_spec (stream a) end_at ticks 0 x o) as (n & Hn & -> & Hf & Hx);
    [lia|done|].
  exists n.
  assert (List.length (imap (λ i, numbered (stream a) (0 + i)) (take n ticks)) = n) as Hlo.
  { rewrite length_imap, length_take. lia. }
  split_and!; [done|by rewrite Hlo| | |].
  - apply Forall_forall. intros p Hp.
    apply list_elem_of_lookup_1 in Hp as [i Hp]. rewrite list_lookup_imap in Hp.
    destruct (take n ticks !! i) as [t|]; simplify_eq/=. apply extract_stream_subject.
  - intros seq. destruct x as [q|e|q]; cbn in Hx; [|done..].
    destruct flush; [|done]. intros [= <-]. done.
  - destruct n as [|n]; [by left|right].
    destruct (lookup_lt_is_Some_2 ticks n) as [t Ht]; [lia|].
    assert (take (S n) ticks !! n = Some t) as Ht' by (rewrite lookup_take_lt by lia; done).
    apply Forall_lookup_1 with (i := n) (x := t) in Hf; [|done].
    specialize (Hsched n t Ht). unfold end_instant in Eend. case_match; simplify_eq. lia.
Qed.

(** The publisher panics exactly on the arguments its timer or clock refuses: a rate above
    one message per nanosecond, or a duration beyond the clock's range; then nothing is
    published. *)
Theorem publisher_panics_iff a flush now ticks :
  0 ≤ rate a →
  (publish_main a (Ok ()) flush now ticks).1 = PubPanicked ↔
  NANOS < rate a ∨ 2 ^ 63 ≤ now / NANOS + duration a.
Proof.
  intros Hr. unfold publish_main.
  assert (interval_nanos a = 0 ↔ NANOS < rate a) as Hi.
  { unfold interval_nanos, NANOS. split.
    - intros Hz. destruct (Z.le_gt_cases (rate a) 1000000000); [|lia].
      assert (1 ≤ 1000000000 / Z.max (rate a) 1) by (apply Z.div_le_lower_bound; lia). lia.
    - intros Hgt. apply Z.div_small. lia. }
  unfold end_instant. destruct (Z.ltb_spec (now / NANOS + duration a) (2 ^ 63)).
  - destruct (Z.eqb_spec (interval_nanos a) 0) as [Hz|Hz]; [rewrite Hi in Hz; cbn; naive_solver|].
    destruct (publish_loop _ _ _ _) as [x out]. split; [|naive_solver lia].
    destruct x; [destruct flush|..]; done.
  - cbn. naive_solver.
Qed.

(** ** Witnesses *)

Definition demo_args : Args := mkArgs "nats://localhost:4222" "bench" 10 1 true.

(** A tick every tenth of a second. *)
Definition demo_ticks : list Tick :=
  map (λ i, mkTick (Z.of_nat i * 100000000) (Some (Z.of_nat i)) (Ok ())) (seq 0 12).

Lemma publisher_series_witness :
  ∃ n, imap (numbered "bench") (take n demo_ticks)
         = (publish_main demo_args (Ok ()) (Ok ()) 0 demo_ticks).2 ∧ n = 10%nat.
Proof.
  destruct (publish_main demo_args (Ok ()) (Ok ()) 0 demo_ticks) as [r out] eqn:E.
  destruct (publisher_series demo_args (Ok ()) (Ok ()) 0 demo_ticks r out)
    as (n & Ho & Hn & _).
  - by vm_compute.
  - by vm_compute.
  - by vm_compute.
  - intros i t Hi. unfold demo_ticks in Hi. apply list_lookup_fmap_Some in Hi as (j & -> & Hj).
    apply lookup_seq in Hj as [-> _]. vm_compute (interval_nanos demo_args). cbn [t_now]. lia.
  - exact E.
  - exists n. split; [by rewrite Ho|]. rewrite Hn. vm_compute in E. injection E as _ <-.
    reflexivity.
Defined.

Lemma publisher_panics_iff_witness :
  (publish_main (mkArgs "" "bench" 2000000000 1 true) (Ok ()) (Ok ()) 0 []).1 = PubPanicked.
Proof.
  apply (publisher_panics_iff (mkArgs "" "bench" 2000000000 1 true) (Ok ()) 0 []).
  - by vm_compute.
  - left. by vm_compute.
Defined.

(** A quote in the stream name ends up unescaped in the payload. *)
Example payload_not_escaped :
  message_payload_text ("a" +:+ quote) 0 0 =
  "{" +:+ quote +:+ "seq" +:+ quote +:+ ":0," +:+ quote +:+ "sent_at" +:+ quote +:+ ":0," +:+
  quote +:+ "stream" +:+ quote +:+ ":" +:+ quote +:+ "a" +:+ quote +:+ quote +:+ "}".
Proof. by vm_compute. Qed.
