(* ===== verification/Replay.v ===== *)
(** * Reconnect replay ([replay_since] of [src/pubsub/nats.rs])

    One call of [replay_since] against a JetStream server.  What the server answers is a
    record of outcomes ([ReplayServer]); the ephemeral consumer yields a finite list of
    fetches and then stays quiet, which the code sees as a timeout.  Sending on the replay
    channel waits for room, so its only outcomes are that the frame is queued or that the
    connection is gone: [send_ok n] is the outcome of the send made after [n] frames were
    queued. *)

From stdpp Require Import base list strings sorting.
From Stdlib Require Import ZArith Lia Sorted.
From S2P Require Import Prelude Text Protocol Nats.

Local Open Scope string_scope.
Local Open Scope list_scope.
Local Open Scope nat_scope.

(** ** The server's answers *)

Record StreamInfo : Type := mkInfo {
  messages : Z;
  first_sequence : Z;
}.

(** The fields of the ephemeral consumer's configuration that select messages. *)
Record ReplayConsumer : Type := mkReplayConsumer {
  filter_subject : string;
  start_sequence : Z;
}.

(** One resolved [msg_stream.next()]: a message, an error, or the end of the stream. *)
Inductive fetch : Type :=
| FMsg (m : NatsMessage)
| FErr (e : string)
| FEnd.

Record ReplayServer : Type := mkReplayServer {
  rs_get_stream : result unit string;
  rs_info : result StreamInfo string;
  rs_create_consumer : ReplayConsumer → result unit string;
  rs_messages : ReplayConsumer → result (list fetch) string;
}.

Section ReplaySince.
Context (serde_json rmp_serde : WireLib) (codec : Codec) (send_ok : nat → bool).
Context (stream_name : string).

(** The frame built for one stored message. *)
Definition replay_message (m : NatsMessage) (sequence : Z) : ServerMessage :=
  Message stream_name (decode_payload serde_json rmp_serde (payload m)) (Some true)
    (Some sequence).

(** How the [while] loop is left: by a [return], or past its end with the counter, whether a
    first delivery was timed, and the fetches not yet consumed. *)
Inductive loop_exit : Type :=
| Returned (r : result ReplayDelivery ReplayError)
| Finished (count : nat) (first_set : bool) (rest : list fetch).

Definition missing_sequence : ReplayError :=
  ReplayJetStream "replay message missing JetStream stream sequence metadata".

(** The [while count < MAX_REPLAY_MESSAGES] loop, with the frames it queues. *)
Fixpoint replay_loop (evs : list fetch) (count : nat) (prev_seq : Z) (first_set : bool)
    : loop_exit * list string :=
  if (MAX_REPLAY_MESSAGES <=? count)%nat then (Finished count first_set evs, [])
  else
    match evs with
    | [] => (Finished count first_set [], [])
    | FEnd :: evs' | FErr _ :: evs' => (Finished count first_set evs', [])
    | FMsg m :: evs' =>
        match extract_stream_sequence m with
        | None => (Returned (Err missing_sequence), [])
        | Some sequence =>
            if (sequence <=? prev_seq)%Z then replay_loop evs' count prev_seq first_set
            else
              match encode codec (replay_message m sequence) with
              | Ok encoded =>
                  if send_ok count then
                    let '(x, out) := replay_loop evs' (S count) sequence true in
                    (x, encoded :: out)
                  else (Returned (Ok (mkDelivery count true first_set)), [])
              | Err _ => replay_loop evs' count sequence first_set
              end
        end
    end.

(** After the loop: at the cap, one more fetch decides whether the replay was truncated. *)
Definition replay_finish (x : loop_exit) : result ReplayDelivery ReplayError :=
  match x with
  | Returned r => r
  | Finished count first_set rest =>
      if (count =? MAX_REPLAY_MESSAGES)%nat then
        match rest with
        | FMsg _ :: _ => Err (Truncated stream_name count MAX_REPLAY_MESSAGES)
        | _ => Ok (mkDelivery count false first_set)
        end
      else Ok (mkDelivery count false first_set)
  end.

(** The retention checks made before anything is fetched. *)
Definition window_check (last_seq : Z) (info : StreamInfo) : result unit ReplayError :=
  let requested_seq := saturating_add last_seq 1 in
  let oldest_available := first_sequence info in
  if (0 <? messages info)%Z && (requested_seq <? oldest_available)%Z
  then Err (WindowExceeded stream_name requested_seq oldest_available)
  else if (messages info =? 0)%Z && (0 <? last_seq)%Z
  then Err (WindowExceeded stream_name requested_seq (Z.max oldest_available 1))
  else Ok ().

Definition replay_consumer (last_seq : Z) : ReplayConsumer :=
  mkReplayConsumer (stream_subject stream_name) (saturating_add last_seq 1).

(** What opening the replay fails with, or the fetches it yields. *)
Definition replay_open (js : ReplayServer) (last_seq : Z) : result (list fetch) ReplayError :=
  (let? _ := map_err (λ e, ReplayJetStream ("get stream for replay: " +:+ e))
               (rs_get_stream js) in
   let? info := map_err (λ e, ReplayJetStream ("stream info: " +:+ e)) (rs_info js) in
   let? _ := window_check last_seq info in
   let? _ := map_err (λ e, ReplayJetStream ("create replay consumer: " +:+ e))
               (rs_create_consumer js (replay_consumer last_seq)) in
   map_err (λ e, ReplayJetStream ("replay messages stream: " +:+ e))
     (rs_messages js (replay_consumer last_seq)))%gw.

(** [replay_since]: its result and the frames it queued. *)
Definition replay_since (js : ReplayServer) (last_seq : Z)
    : result ReplayDelivery ReplayError * list string :=
  match replay_open js last_seq with
  | Err e => (Err e, [])
  | Ok evs => let '(x, out) := replay_loop evs 0 last_seq false in (replay_finish x, out)
  end.

(** ** What the loop queues *)

(** The messages among the fetches. *)
Definition fetched (evs : list fetch) : list NatsMessage :=
  omap (λ f, match f with FMsg m => Some m | _ => None end) evs.

(** [encoded] is the replay frame of [m]. *)
Definition frame_of (encoded : string) (m : NatsMessage) : Prop :=
  ∃ sequence, msg_info m = Ok sequence ∧ encode codec (replay_message m sequence) = Ok encoded.

Definition sequences (ms : list NatsMessage) : list Z := omap extract_stream_sequence ms.

Lemma extract_sequence_Some m z : extract_stream_sequence m = Some z ↔ msg_info m = Ok z.
Proof. unfold extract_stream_sequence. case_match; split; congruence. Qed.

(** The count at which a loop exit left, as its result reports it. *)
Definition exit_count (x : loop_exit) (n : nat) : Prop :=
  match x with
  | Returned (Ok d) => delivered d = n ∧ peer_gone d = true
  | Returned (Err e) => e = missing_sequence
  | Finished count _ _ => count = n
  end.

Lemma StronglySorted_weaken (a b : Z) l :
  (a < b)%Z → StronglySorted Z.lt (b :: l) → StronglySorted Z.lt (a :: l).
Proof.
  intros Hab [Hs Hf]%StronglySorted_inv. constructor; [done|].
  eapply Forall_impl; [exact Hf|]. simpl. lia.
Qed.

Lemma replay_loop_spec evs count prev first x out :
  count ≤ MAX_REPLAY_MESSAGES →
  replay_loop evs count prev first = (x, out) →
  ∃ ms, ms `sublist_of` fetched evs ∧ Forall2 frame_of out ms ∧
        StronglySorted Z.lt (prev :: sequences ms) ∧
        length out + count ≤ MAX_REPLAY_MESSAGES ∧
        exit_count x (length out + count).
Proof.
  assert (∀ p : Z, StronglySorted Z.lt [p]) as Hone by (repeat constructor).
  revert count prev first x out. induction evs as [|ev evs IH]; intros count prev first x out Hc.
  { simpl. case_match; intros [= <- <-]; exists []; repeat split; auto. }
  cbn [replay_loop].
  destruct (MAX_REPLAY_MESSAGES <=? count)%nat eqn:Ec.
  { intros [= <- <-]. exists []. split; [apply sublist_nil_l|]. repeat split; auto. }
  apply Nat.leb_gt in Ec.
  destruct ev as [m|e|];
    [|intros [= <- <-]; exists []; split; [apply sublist_nil_l|]; repeat split; auto..].
  assert (∀ ms, ms `sublist_of` fetched evs → ms `sublist_of` fetched (FMsg m :: evs)) as Hskip.
  { intros. by constructor. }
  destruct (extract_stream_sequence m) as [sq|] eqn:Es;
    [|intros [= <- <-]; exists []; split; [apply sublist_nil_l|]; repeat split; auto; simpl; lia].
  destruct (sq <=? prev)%Z eqn:Eq.
  { intros H. destruct (IH _ _ _ _ _ Hc H) as (ms & ? & ?). eauto. }
  apply Z.leb_gt in Eq.
  destruct (encode codec (replay_message m sq)) as [b|e] eqn:Ee.
  - destruct (send_ok count).
    + destruct (replay_loop evs (S count) sq true) as [x' out'] eqn:El.
      intros [= <- <-]. destruct (IH _ _ _ _ _ Ec El) as (ms & Hsub & Hf & Hs & Hn & Hx).
      exists (m :: ms). split; [by constructor|]. split.
      { constructor; [|done]. exists sq. by rewrite <- extract_sequence_Some. }
      unfold sequences in *; simpl. rewrite Es. split.
      { constructor; [done|]. constructor; [done|].
        apply StronglySorted_inv in Hs as [_ Hs]. eapply Forall_impl; [exact Hs|]. simpl. lia. }
      replace (S (length out' + count)) with (length out' + S count) by lia. done.
    + intros [= <- <-]. exists []. split; [apply sublist_nil_l|]. repeat split; auto.
  - intros H. destruct (IH _ _ _ _ _ Hc H) as (ms & Hsub & Hf & Hs & Hn & Hx).
    exists ms. split; [auto|]. split; [done|]. split; [|done].
    by apply (StronglySorted_weaken prev sq).
Qed.

(** ** The loop on an orderly consumer *)

(** The frames of stored messages, all encodable. *)
Definition encodable (m : NatsMessage) : Prop :=
  ∃ sequence encoded, msg_info m = Ok sequence ∧
    encode codec (replay_message m sequence) = Ok encoded.

Lemma replay_loop_orderly ms k count prev first :
  (∀ n, send_ok n = true) → Forall encodable ms →
  StronglySorted Z.lt (prev :: sequences ms) →
  k + count = MAX_REPLAY_MESSAGES →
  ∃ out first', Forall2 frame_of out (take k ms) ∧
    replay_loop (map FMsg ms) count prev first =
    (Finished (length (take k ms) + count) first' (map FMsg (drop k ms)), out).
Proof.
  intros Hok. revert k count prev first.
  induction ms as [|m ms IH]; intros k count prev first Henc Hs Hc.
  { exists [], first. rewrite take_nil, drop_nil. cbn [replay_loop map length Nat.add].
    split; [done|]. by destruct (MAX_REPLAY_MESSAGES <=? count). }
  apply Forall_cons in Henc as [(sq & b & Hi & Hb) Henc'].
  pose proof (proj2 (extract_sequence_Some m sq) Hi) as Hx.
  assert (sequences (m :: ms) = sq :: sequences ms) as Hsm.
  { unfold sequences. cbn. by rewrite Hx. }
  rewrite Hsm in Hs. apply StronglySorted_inv in Hs as [Hs Hlt].
  apply Forall_cons in Hlt as [Hsq _].
  cbn [replay_loop map]. destruct k as [|k].
  { rewrite (proj2 (Nat.leb_le _ _)) by lia. exists [], first. by split. }
  rewrite (proj2 (Nat.leb_gt _ _)) by lia.
  rewrite Hx, (proj2 (Z.leb_gt _ _) Hsq), Hb, Hok.
  destruct (IH k (S count) sq true Henc' Hs ltac:(lia)) as (out & f' & Hf & ->).
  exists (b :: out), f'. cbn [take drop length].
  split; [constructor; [by exists sq|done]|].
  by rewrite Nat.add_succ_comm.
Qed.
End ReplaySince.


(** ** A JetStream server

    The stream's retained messages in sequence order, and the subject filter.  The laws state
    what JetStream documents: the stream's state counts the retained messages and names the
    oldest sequence, and a consumer with [ByStartSequence] delivers, in stream order, the
    retained messages from that sequence on whose subject matches. *)
Section Server.
Context (store : list NatsMessage) (js_matches : string → string → bool).

Definition seq_of (m : NatsMessage) : Z := default 0%Z (extract_stream_sequence m).

Definition selected (cfg : ReplayConsumer) : list NatsMessage :=
  filter (λ m, js_matches (filter_subject cfg) (subject m) = true ∧
               (start_sequence cfg ≤ seq_of m)%Z) store.

Class ReplayServerLaws (js : ReplayServer) : Prop := {
  rsl_sequenced : Forall (λ m, is_ok (msg_info m) = true) store;
  rsl_sorted : StronglySorted Z.lt (sequences store);
  rsl_get_stream : rs_get_stream js = Ok ();
  rsl_info : ∃ first, rs_info js = Ok (mkInfo (Z.of_nat (length store)) first) ∧
               ∀ m ms, store = m :: ms → seq_of m = first;
  rsl_create cfg : rs_create_consumer js cfg = Ok ();
  rsl_messages cfg : rs_messages js cfg = Ok (map FMsg (selected cfg));
}.
End Server.

Lemma sequences_cons m z ms :
  extract_stream_sequence m = Some z → sequences (m :: ms) = z :: sequences ms.
Proof. unfold sequences. cbn. by intros ->. Qed.

Lemma elem_of_sequences z ms :
  z ∈ sequences ms → ∃ m, m ∈ ms ∧ extract_stream_sequence m = Some z.
Proof. unfold sequences. intros [m ?]%list_elem_of_omap. eauto. Qed.

(** Selecting messages keeps their order. *)
Lemma sequences_filter_sorted (P : NatsMessage → Prop) `{!∀ m, Decision (P m)} ms :
  StronglySorted Z.lt (sequences ms) → StronglySorted Z.lt (sequences (filter P ms)).
Proof.
  induction ms as [|m ms IH]; intros Hs; [done|].
  destruct (extract_stream_sequence m) as [z|] eqn:Ez.
  - rewrite (sequences_cons _ _ _ Ez) in Hs. apply StronglySorted_inv in Hs as [Hs Hf].
    rewrite filter_cons. case_decide; [|auto]. rewrite (sequences_cons _ _ _ Ez).
    constructor; [auto|]. apply Forall_forall. intros z' (m' & Hm' & Hz')%elem_of_sequences.
    apply list_elem_of_filter in Hm' as [_ Hm']. rewrite Forall_forall in Hf. apply Hf.
    unfold sequences. apply list_elem_of_omap. eauto.
  - unfold sequences in *. cbn in Hs. rewrite Ez in Hs. rewrite filter_cons.
    case_decide; [cbn; rewrite Ez|]; auto.
Qed.

Lemma sequences_above_sorted z ms :
  StronglySorted Z.lt (sequences ms) → (∀ m, m ∈ ms → (z < seq_of m)%Z) →
  StronglySorted Z.lt (z :: sequences ms).
Proof.
  intros Hs Hz. constructor; [done|]. apply Forall_forall.
  intros z' (m & Hm & E)%elem_of_sequences. specialize (Hz m Hm).
  unfold seq_of in Hz. by rewrite E in Hz.
Qed.

Section Properties.
Context (serde_json rmp_serde : WireLib) (codec : Codec) (send_ok : nat → bool).
Context (stream_name : string).
Abbreviation replay := (replay_since serde_json rmp_serde codec send_ok stream_name).

(** C7. Whatever the server and the connection do, the frames a replay queues are replay
    frames of distinct fetched messages in strictly increasing sequence order, all beyond
    the client's [last_seq]; there are at most [MAX_REPLAY_MESSAGES] of them, a successful
    replay reports exactly how many, and a truncated one has queued exactly the maximum. *)
Theorem replay_ordered_and_bounded js last_seq :
  let '(r, out) := replay js last_seq in
  length out ≤ MAX_REPLAY_MESSAGES ∧
  (∃ ms, Forall2 (frame_of serde_json rmp_serde codec stream_name) out ms ∧
         StronglySorted Z.lt (last_seq :: sequences ms) ∧
         ∀ evs, replay_open stream_name js last_seq = Ok evs → ms `sublist_of` fetched evs) ∧
  (∀ d, r = Ok d → delivered d = length out) ∧
  (∀ s n limit, r = Err (Truncated s n limit) → length out = MAX_REPLAY_MESSAGES).
Proof.
  unfold replay_since. destruct (replay_open stream_name js last_seq) as [evs|e] eqn:Eo.
  - destruct (replay_loop _ _ _ _ _ evs 0 last_seq false) as [x out] eqn:El.
    destruct (replay_loop_spec _ _ _ _ _ _ _ _ _ _ _ (Nat.le_0_l _) El)
      as (ms & Hsub & Hf & Hs & Hn & Hx).
    rewrite Nat.add_0_r in *. split; [done|]. split.
    { exists ms. split_and!; [done..|]. by intros ? [= <-]. }
    destruct x as [[d|e]|count first rest]; cbn [exit_count replay_finish] in *.
    + destruct Hx as [Hd _]. split; [by intros ? [= <-]|done].
    + subst e. split; [done|]. unfold missing_sequence. intros ??? [=].
    + subst count. destruct (length out =? MAX_REPLAY_MESSAGES) eqn:Em.
      * apply Nat.eqb_eq in Em. split; [|done]. intros d. case_match; [|case_match].
        all: try (intros [= <-]; done).
      * split; [by intros ? [= <-]|done].
  - assert (∀ s n l, e ≠ Truncated s n l) as Hnt.
    { intros s n l ->. revert Eo. unfold replay_open, window_check.
      repeat (case_match; simplify_eq/=; try done). all: intros; simplify_eq/=.
      all: repeat match goal with H : map_err _ ?r = _ |- _ => destruct r; simplify_eq/= end. }
    split; [simpl; lia|]. split.
    { exists []. split; [constructor|]. split; [repeat constructor|]. intros ? [=]. }
    split; [done|]. intros s n l [= ->]. by destruct (Hnt s n l).
Qed.

(** C8. A replay is refused with [WindowExceeded] exactly when the stream has messages and
    the first one the client misses is older than the oldest retained, or the stream is
    empty and the client claims to have seen something; nothing is queued then, so a gap is
    never papered over by a partial replay. *)
Theorem replay_refused_iff_gap js last_seq info :
  rs_get_stream js = Ok () → rs_info js = Ok info → (0 ≤ messages info)%Z →
  ((∃ requested oldest,
      (replay js last_seq).1 = Err (WindowExceeded stream_name requested oldest)) ↔
   ((0 < messages info)%Z ∧ (saturating_add last_seq 1 < first_sequence info)%Z ∨
    messages info = 0%Z ∧ (0 < last_seq)%Z)) ∧
  (∀ requested oldest,
     (replay js last_seq).1 = Err (WindowExceeded stream_name requested oldest) →
     (replay js last_seq).2 = []).
Proof.
  intros Hg Hi Hm.
  assert (∀ evs x out, replay_loop serde_json rmp_serde codec send_ok stream_name
            evs 0 last_seq false = (x, out) →
          ∀ a b, replay_finish stream_name x ≠ Err (WindowExceeded stream_name a b)) as Hfin.
  { intros evs x out El a b.
    destruct (replay_loop_spec _ _ _ _ _ _ _ _ _ _ _ (Nat.le_0_l _) El) as (_&_&_&_&_&Hx).
    destruct x as [[d|e]|c f rest]; cbn [exit_count replay_finish] in *; [done|by subst|].
    repeat case_match; congruence. }
  unfold replay_since, replay_open. rewrite Hg, Hi. cbn [map_err]. unfold window_check.
  destruct (_ && _) eqn:E1.
  { apply andb_true_iff in E1 as [E1%Z.ltb_lt E2%Z.ltb_lt]. cbn. split; [|done].
    split; [by left|]. intros _. eauto. }
  destruct (_ && _) eqn:E2 in |- *.
  { apply andb_true_iff in E2 as [E3%Z.eqb_eq E4%Z.ltb_lt]. cbn. split; [|done].
    split; [by right|]. intros _. eauto. }
  assert (¬ ((0 < messages info)%Z ∧ (saturating_add last_seq 1 < first_sequence info)%Z ∨
             messages info = 0%Z ∧ (0 < last_seq)%Z)) as Hno.
  { intros [[H1 H2]|[H1 H2]].
    - apply Z.ltb_lt in H1, H2. by rewrite H1, H2 in E1.
    - apply Z.eqb_eq in H1. apply Z.ltb_lt in H2. by rewrite H1, H2 in E2. }
  destruct (rs_create_consumer _ _); cbn; [|naive_solver].
  destruct (rs_messages _ _) as [evs|]; cbn; [|naive_solver].
  destruct (replay_loop _ _ _ _ _ evs 0 last_seq false) as [x out] eqn:El. cbn.
  pose proof (Hfin _ _ _ El). split; [naive_solver|naive_solver].
Qed.

(** What the client misses: the retained messages of the stream beyond [last_seq]. *)
Definition missed (store : list NatsMessage) (js_matches : string → string → bool)
    (last_seq : Z) : list NatsMessage :=
  filter (λ m, js_matches (stream_subject stream_name) (subject m) = true ∧
               (last_seq < seq_of m)%Z) store.

(** A replay within the retention window is complete: as long as the connection stays and the
    frames encode, the frames queued are exactly those of the messages the client missed, in
    order; beyond [MAX_REPLAY_MESSAGES] they are the first so many, and the result is
    [Truncated] instead of success. *)
Lemma replay_complete store js_matches js last_seq :
  ReplayServerLaws store js_matches js →
  is_u64 last_seq → (last_seq < u64_max)%Z →
  (∀ m ms, store = m :: ms → (seq_of m ≤ last_seq + 1)%Z) → (store = [] → last_seq = 0%Z) →
  (∀ n, send_ok n = true) →
  Forall (encodable serde_json rmp_serde codec stream_name) (missed store js_matches last_seq) →
  let ms := missed store js_matches last_seq in
  let '(r, out) := replay js last_seq in
  Forall2 (frame_of serde_json rmp_serde codec stream_name) out (take MAX_REPLAY_MESSAGES ms) ∧
  (length ms ≤ MAX_REPLAY_MESSAGES →
   ∃ first, r = Ok (mkDelivery (length ms) false first)) ∧
  (MAX_REPLAY_MESSAGES < length ms →
   r = Err (Truncated stream_name MAX_REPLAY_MESSAGES MAX_REPLAY_MESSAGES)).
Proof.
  intros [Hseq Hsort Hg (first & Hi & Hfirst) Hcr Hms] Hu Hmax Hwin Hempty Hok Henc ms.
  assert (saturating_add last_seq 1 = (last_seq + 1)%Z) as Hreq by u64_solve.
  assert (selected store js_matches (replay_consumer stream_name last_seq) = ms) as Hsel.
  { apply filter_ext_in. intros m _. unfold replay_consumer. cbn. rewrite Hreq.
    split; intros [? ?]; (split; [done|lia]). }
  assert (window_check stream_name last_seq (mkInfo (Z.of_nat (length store)) first) = Ok ())
    as Hwc.
  { unfold window_check. cbn. rewrite Hreq. destruct store as [|m0 st].
    - rewrite Hempty by done. done.
    - rewrite <- (Hfirst m0 st) by done. specialize (Hwin m0 st eq_refl).
      rewrite (proj2 (Z.ltb_ge _ _) Hwin), andb_false_r.
      by rewrite (proj2 (Z.eqb_neq _ _)) by (cbn; lia). }
  assert (StronglySorted Z.lt (last_seq :: sequences ms)) as Hs.
  { apply sequences_above_sorted; [by apply sequences_filter_sorted|].
    intros m [[_ ?] _]%list_elem_of_filter. done. }
  unfold replay_since, replay_open. rewrite Hg, Hi. cbn [map_err]. rewrite Hwc, Hcr, Hms, Hsel.
  cbn [map_err].
  destruct (replay_loop_orderly serde_json rmp_serde codec send_ok stream_name ms
    MAX_REPLAY_MESSAGES 0 last_seq false Hok Henc Hs (Nat.add_0_r _)) as (out & f & Hf & ->).
  split; [done|]. rewrite Nat.add_0_r. cbn [replay_finish]. split.
  - intros Hle. rewrite (take_ge ms), (drop_ge ms) by done. cbn [map]. exists f.
    by case_match.
  - intros Hgt. rewrite length_take_le by lia. rewrite Nat.eqb_refl.
    destruct (drop MAX_REPLAY_MESSAGES ms) as [|m rest] eqn:Ed; [|done].
    assert (length (drop MAX_REPLAY_MESSAGES ms) = 0) as H0 by (by rewrite Ed).
    rewrite length_drop in H0. lia.
Qed.
End Properties.

(** ** Witnesses *)

Definition demo_codec : Codec := mkCodec (λ _, Err (Protocol "")) (λ _, Ok "frame").

(** Three retained messages, two of them of the stream [room]. *)
Definition demo_store : list NatsMessage :=
  [mkNatsMessage "TURBOCABLE.room" "a" (Ok 5%Z); mkNatsMessage "TURBOCABLE.news" "b" (Ok 6%Z);
   mkNatsMessage "TURBOCABLE.room" "c" (Ok 7%Z)].

Definition exact_match (filter subj : string) : bool := bool_decide (filter = subj).

Definition demo_server : ReplayServer :=
  mkReplayServer (Ok ()) (Ok (mkInfo 3 5)) (λ _, Ok ())
    (λ cfg, Ok (map FMsg (selected demo_store exact_match cfg))).

Lemma demo_server_laws : ReplayServerLaws demo_store exact_match demo_server.
Proof.
  split; try done.
  - repeat constructor.
  - repeat constructor.
  - exists 5%Z. split; [done|]. by intros m ms [= <- _].
Qed.

Lemma replay_refused_iff_gap_witness :
  (replay_since silent_lib silent_lib demo_codec (λ _, true) "room" demo_server 3).2 = [].
Proof.
  refine (proj2 (replay_refused_iff_gap silent_lib silent_lib demo_codec (λ _, true) "room"
    demo_server 3 (mkInfo 3 5) eq_refl eq_refl _) 4%Z 5%Z eq_refl).
  cbn. lia.
Defined.

(** The gap, the cursor at the end, and a missed message, evaluated. *)
Example replay_examples :
  replay_since silent_lib silent_lib demo_codec (λ _, true) "room" demo_server 3
    = (Err (WindowExceeded "room" 4 5), []) ∧
  replay_since silent_lib silent_lib demo_codec (λ _, true) "room" demo_server 7
    = (Ok (mkDelivery 0 false false), []) ∧
  replay_since silent_lib silent_lib demo_codec (λ _, true) "room" demo_server 5
    = (Ok (mkDelivery 1 false true), ["frame"]) ∧
  replay_since silent_lib silent_lib demo_codec (λ _, false) "room" demo_server 4
    = (Ok (mkDelivery 0 true false), []).
Proof. by vm_compute. Qed.
