(* ===== verification/ReplayTask.v ===== *)
(** * The background replay task (the [tokio::spawn] of [dispatch_command])

    The task waits for a permit, runs [replay_since] into the replay channel and reacts to
    its result: it confirms the subscription on the replay channel, behind the replayed
    frames, or sends a disconnect frame on the urgent channel.  The result is the metrics
    after it and what it queued on each of the two channels. *)

From stdpp Require Import base list strings sets sorting.
From Stdlib Require Import ZArith Lia Sorted.
From S2P Require Import Prelude Text Protocol Metrics Nats Replay.

Local Open Scope string_scope.
Local Open Scope list_scope.
Local Open Scope nat_scope.

Record TaskResult : Type := mkTask {
  t_metrics : Metrics;
  t_replay : list string;
  t_urgent : list string;
}.

Section Task.
Context (serde_json rmp_serde : WireLib) (codec : Codec).
(** Outcomes of the sends on the replay and on the urgent channel. *)
Context (send_ok : nat → bool) (urgent_ok : bool).

(** [if let Ok(frame) = codec.encode(&msg) { let _ = tx.send(frame).await; }] *)
Definition try_queue (ok : bool) (msg : ServerMessage) : list string :=
  match encode codec msg with Ok b => if ok then [b] else [] | Err _ => [] end.

Definition disconnect_for (reason : string) : ServerMessage := Disconnect reason (Some true).

(** The two timing observations of a finished replay. *)
Definition observe_delivery (d : ReplayDelivery) (m : Metrics) : Metrics :=
  let m1 := observe replay_catch_up_duration_secs m in
  if first_delivery_set d then observe replay_first_delivery_secs m1 else m1.

(** The [match result] of the task. *)
Definition replay_outcome (identifier : string) (r : result ReplayDelivery ReplayError)
    (queued : list string) (m : Metrics) : TaskResult :=
  let confirm := try_queue (send_ok (length queued)) (ConfirmSubscription identifier) in
  match r with
  | Ok d =>
      if peer_gone d then
        mkTask (observe_delivery d (inc replay_aborted_peer_gone_total m)) queued []
      else mkTask (observe_delivery d (inc replay_success_total m)) (queued ++ confirm) []
  | Err (WindowExceeded _ _ _) =>
      mkTask (observe replay_catch_up_duration_secs (inc replay_window_exceeded_total m)) queued
        (try_queue urgent_ok (disconnect_for "replay_window_exceeded"))
  | Err (Truncated _ _ _) =>
      mkTask (observe replay_catch_up_duration_secs (inc replay_truncated_total m)) queued
        (try_queue urgent_ok (disconnect_for "replay_truncated"))
  | Err (ReplayJetStream _) =>
      mkTask (observe replay_catch_up_duration_secs (inc replay_failure_total m))
        (queued ++ confirm) []
  end.

(** The task: [permit] is whether the semaphore was acquired. *)
Definition replay_task (js : ReplayServer) (permit : bool) (identifier : string) (seq : Z)
    (m : Metrics) : TaskResult :=
  if permit then
    let m1 := gauge_inc replay_in_flight m in
    let '(r, queued) := replay_since serde_json rmp_serde codec send_ok identifier js seq in
    replay_outcome identifier r queued (gauge_dec replay_in_flight m1)
  else mkTask m [] [].

(** ** Lemmas *)

(** The counters a replay ends in. *)
Definition replay_outcomes : list metric :=
  [replay_success_total; replay_failure_total; replay_window_exceeded_total;
   replay_aborted_peer_gone_total; replay_truncated_total].

Definition outcome_metric (r : result ReplayDelivery ReplayError) : metric :=
  match r with
  | Ok d => if peer_gone d then replay_aborted_peer_gone_total else replay_success_total
  | Err (WindowExceeded _ _ _) => replay_window_exceeded_total
  | Err (Truncated _ _ _) => replay_truncated_total
  | Err (ReplayJetStream _) => replay_failure_total
  end.

Lemma replay_outcome_scalar identifier r queued m k :
  k ∈ replay_in_flight :: replay_outcomes →
  scalar (t_metrics (replay_outcome identifier r queued m)) k =
  if decide (k = outcome_metric r) then wrapping_add (scalar m k) 1 else scalar m k.
Proof.
  intros Hk.
  assert (k ≠ replay_catch_up_duration_secs ∧ k ≠ replay_first_delivery_secs) as [Hk1 Hk2]
    by (unfold replay_outcomes in Hk; set_solver).
  assert (∀ m, scalar (observe replay_catch_up_duration_secs m) k = scalar m k) as Ho1.
  { intros. by apply with_scalar_other. }
  assert (∀ m, scalar (observe replay_first_delivery_secs m) k = scalar m k) as Ho2.
  { intros. by apply with_scalar_other. }
  assert (∀ k' m, scalar (inc k' m) k =
            if decide (k = k') then wrapping_add (scalar m k) 1 else scalar m k) as Hi.
  { intros k' m'. unfold inc, inc_by. rewrite scalar_with. case_decide; by subst. }
  unfold replay_outcome, outcome_metric, observe_delivery.
  destruct r as [d|[]]; [destruct (peer_gone d), (first_delivery_set d)|..];
    cbn [t_metrics]; rewrite ?Ho2, ?Ho1, Hi; done.
Qed.

(** A replay task accounts for itself: it ends in exactly one of the five outcome
    counters, the gauge of running replays is back where it was, and a task that gets no
    permit (the semaphore is closed) changes nothing and sends nothing. *)
Theorem replay_task_metrics js permit identifier seq m :
  (- 2 ^ 63 ≤ scalar m replay_in_flight < 2 ^ 63)%Z →
  let t := replay_task js permit identifier seq m in
  scalar (t_metrics t) replay_in_flight = scalar m replay_in_flight ∧
  (permit = true → ∃ k, k ∈ replay_outcomes ∧
     ∀ k', k' ∈ replay_outcomes →
       scalar (t_metrics t) k' = if decide (k' = k) then wrapping_add (scalar m k') 1
                                 else scalar m k') ∧
  (permit = false → t = mkTask m [] []).
Proof.
  intros Hr. unfold replay_task. destruct permit; [|by split_and!].
  destruct (replay_since _ _ _ _ _ _ _) as [r queued].
  set (m2 := gauge_dec replay_in_flight (gauge_inc replay_in_flight m)).
  assert (∀ k, k ∈ replay_in_flight :: replay_outcomes → scalar m2 k = scalar m k) as Hm2.
  { intros k _. destruct (decide (k = replay_in_flight)) as [->|Hne].
    - by apply gauge_dec_inc.
    - unfold m2, gauge_dec, gauge_inc. by rewrite !with_scalar_other. }
  split; [|split; [|done]].
  - rewrite replay_outcome_scalar by left. rewrite decide_False, Hm2; [done|left|].
    unfold outcome_metric. repeat case_match; done.
  - intros _. exists (outcome_metric r). split.
    + unfold outcome_metric, replay_outcomes. repeat case_match; set_solver.
    + intros k' Hk'. rewrite replay_outcome_scalar by (by right). by rewrite Hm2 by (by right).
Qed.

(** C6. Resuming end to end: for a client whose cursor is within the retention window, and
    while the connection stays, the task queues the frames of exactly the messages the
    client missed, in sequence order, followed by the confirmation; when there are more
    than [MAX_REPLAY_MESSAGES] it queues the first so many and, instead of confirming,
    disconnects the client with [replay_truncated], so it resumes from there. *)
Theorem resume_is_complete store js_matches js identifier seq m confirm disconnect :
  ReplayServerLaws store js_matches js →
  is_u64 seq → (seq < u64_max)%Z →
  (∀ m0 ms, store = m0 :: ms → (seq_of m0 ≤ seq + 1)%Z) → (store = [] → seq = 0%Z) →
  (∀ n, send_ok n = true) → urgent_ok = true →
  Forall (encodable serde_json rmp_serde codec identifier)
    (missed identifier store js_matches seq) →
  encode codec (ConfirmSubscription identifier) = Ok confirm →
  encode codec (disconnect_for "replay_truncated") = Ok disconnect →
  let ms := missed identifier store js_matches seq in
  let t := replay_task js true identifier seq m in
  ∃ frames,
    Forall2 (frame_of serde_json rmp_serde codec identifier) frames
      (take MAX_REPLAY_MESSAGES ms) ∧
    (length ms ≤ MAX_REPLAY_MESSAGES → t_replay t = frames ++ [confirm] ∧ t_urgent t = []) ∧
    (MAX_REPLAY_MESSAGES < length ms → t_replay t = frames ∧ t_urgent t = [disconnect]).
Proof.
  intros Hlaws Hu Hmax Hwin Hempty Hok Hurg Henc Hc Hd. cbv zeta.
  pose proof (replay_complete serde_json rmp_serde codec send_ok identifier store js_matches js
    seq Hlaws Hu Hmax Hwin Hempty Hok Henc) as Hrc. cbv zeta in Hrc. unfold replay_task.
  destruct (replay_since _ _ _ _ _ _ _) as [r queued]. destruct Hrc as (Hf & Hle & Hgt).
  exists queued. split; [done|]. split; intros Hlen.
  - destruct (Hle Hlen) as [first ->]. cbn. unfold try_queue. rewrite Hc, Hok. done.
  - rewrite (Hgt Hlen). cbn. unfold try_queue. rewrite Hd, Hurg. done.
Qed.
End Task.

(** ** Witnesses *)

Lemma replay_task_metrics_witness :
  scalar (t_metrics (replay_task silent_lib silent_lib demo_codec (λ _, true) true demo_server
    true "room" 3 no_metrics)) replay_in_flight = 0%Z.
Proof.
  refine (proj1 (replay_task_metrics silent_lib silent_lib demo_codec (λ _, true) true
    demo_server true "room" 3 no_metrics _)).
  cbn. lia.
Defined.

Lemma resume_is_complete_witness :
  t_urgent (replay_task silent_lib silent_lib demo_codec (λ _, true) true demo_server true
    "room" 5 no_metrics) = [].
Proof.
  assert (Forall (encodable silent_lib silent_lib demo_codec "room")
            (missed "room" demo_store exact_match 5)) as Henc.
  { vm_compute. repeat constructor. by exists 7%Z, "frame". }
  assert (length (missed "room" demo_store exact_match 5) = 1) as Hlen by reflexivity.
  destruct (resume_is_complete silent_lib silent_lib demo_codec (λ _, true) true demo_store
    exact_match demo_server "room" 5 no_metrics "frame" "frame" demo_server_laws)
    as (frames & _ & Hle & _).
  - unfold is_u64, u64_modulus. lia.
  - unfold u64_max, u64_modulus. lia.
  - intros m ms [= <- _]. vm_compute. congruence.
  - done.
  - done.
  - done.
  - exact Henc.
  - done.
  - done.
  - rewrite Hlen in Hle. apply Hle. apply Nat.leb_le. reflexivity.
Defined.
