(* ===== verification/ReplayPool.v ===== *)
(** * Replay tasks under the semaphore ([dispatch_command] of [src/connection/handler.rs])

    A resuming subscribe spawns a task that waits for one of [max_replay_concurrency] permits,
    counts itself in, replays, counts itself out, reports, and gives the permit back when it
    ends.  Here many such tasks run at the same time, over the bounded channels of their
    connections: a task whose connection has no room waits, with its permit, until the outbound
    task takes a frame or goes away.  What one task sends is in [ReplayTask]; this file is about
    the permits, the gauge of running replays, and who waits for whom.  Tokio's semaphore is a
    class with its documented laws. *)

From stdpp Require Import base list gmap strings fin_maps sets.
From Stdlib Require Import ZArith Lia.
From S2P Require Import Prelude Metrics Nats Replay.

Local Open Scope list_scope.
Local Open Scope nat_scope.

(** ** The semaphore *)

(** [tokio::sync::Semaphore], by the permits it has left and the requests that wait. *)
Class Semaphore (S : Type) : Type := {
  sem_new : nat → S;
  available : S → nat;
  waiting : S → list nat;
  sem_acquire : nat → S → S;
  sem_poll : S → option (nat * S);
  sem_release : S → S;
}.

(** The semaphore is fair: permits go to the requests in the order they were made. *)
Class SemaphoreLaws (S : Type) `{Semaphore S} : Prop := {
  sem_new_spec n : available (sem_new n) = n ∧ waiting (sem_new n) = [];
  sem_acquire_spec t (s : S) :
    available (sem_acquire t s) = available s ∧ waiting (sem_acquire t s) = waiting s ++ [t];
  sem_poll_ready n t q (s : S) :
    available s = Datatypes.S n → waiting s = t :: q →
    ∃ s', sem_poll s = Some (t, s') ∧ available s' = n ∧ waiting s' = q;
  sem_poll_blocked (s : S) : available s = 0 ∨ waiting s = [] → sem_poll s = None;
  sem_release_spec (s : S) :
    available (sem_release s) = Datatypes.S (available s) ∧ waiting (sem_release s) = waiting s;
}.

(** ** Tasks and connections *)

(** The channels of a connection that replay tasks write to, and whether its outbound task is
    there to read them. *)
Record Conn : Type := mkConn {
  c_replay : list string;
  c_urgent : list string;
  c_open : bool;
}.

Inductive phase : Type :=
| Waiting                                  (** in [acquire_owned().await] *)
| Replaying (todo : list string)           (** counted in, in [replay_since]: the frames left *)
| Reporting (urgent : bool) (todo : list string)
    (** counted out, sending the outcome; the permit is still held *)
| Ended.

Record Task : Type := mkTask {
  t_conn : nat;
  t_phase : phase;
}.

Definition is_waiting (t : Task) : bool := match t_phase t with Waiting => true | _ => false end.
Definition is_replaying (t : Task) : bool := match t_phase t with Replaying _ => true | _ => false end.
Definition is_reporting (t : Task) : bool :=
  match t_phase t with Reporting _ _ => true | _ => false end.
Definition has_ended (t : Task) : bool := match t_phase t with Ended => true | _ => false end.

(** Whether a frame can be queued: the replay channel has [capacity] slots, the urgent one a
    single slot. *)
Definition conn_room (capacity : nat) (urgent : bool) (k : Conn) : bool :=
  c_open k && (if urgent then length (c_urgent k) <? 1 else length (c_replay k) <? capacity).

Definition conn_push (urgent : bool) (frame : string) (k : Conn) : Conn :=
  if urgent then mkConn (c_replay k) (c_urgent k ++ [frame]) (c_open k)
  else mkConn (c_replay k ++ [frame]) (c_urgent k) (c_open k).

(** The outbound task has ended: its receivers are dropped. *)
Definition gone : Conn := mkConn [] [] false.

Section Pool.
Context {S : Type} `{Semaphore S}.

Record Pool : Type := mkPool {
  p_sem : S;
  p_tasks : gmap nat Task;
  p_conns : gmap nat Conn;
  p_metrics : Metrics;
}.

Context (capacity : nat).

(** What the tasks do.  What a replay fetches is up to the server; it sends at most
    [MAX_REPLAY_MESSAGES] frames ([replay_ordered_and_bounded]) and reports with at most one. *)
Inductive pool_work : Pool → Pool → Prop :=
| work_start p t c s' frames :
    sem_poll (p_sem p) = Some (t, s') → p_tasks p !! t = Some (mkTask c Waiting) →
    length frames ≤ MAX_REPLAY_MESSAGES →
    pool_work p (mkPool s' (<[t := mkTask c (Replaying frames)]> (p_tasks p)) (p_conns p)
                   (gauge_inc replay_in_flight (p_metrics p)))
| work_send p t c f todo k :
    p_tasks p !! t = Some (mkTask c (Replaying (f :: todo))) → p_conns p !! c = Some k →
    conn_room capacity false k = true →
    pool_work p (mkPool (p_sem p) (<[t := mkTask c (Replaying todo)]> (p_tasks p))
                   (<[c := conn_push false f k]> (p_conns p)) (p_metrics p))
| work_peer_gone p t c f todo k :
    p_tasks p !! t = Some (mkTask c (Replaying (f :: todo))) → p_conns p !! c = Some k →
    c_open k = false →
    pool_work p (mkPool (p_sem p) (<[t := mkTask c (Reporting false [])]> (p_tasks p)) (p_conns p)
                   (gauge_dec replay_in_flight (p_metrics p)))
| work_replayed p t c urgent report :
    p_tasks p !! t = Some (mkTask c (Replaying [])) → length report ≤ 1 →
    pool_work p (mkPool (p_sem p) (<[t := mkTask c (Reporting urgent report)]> (p_tasks p)) (p_conns p)
                   (gauge_dec replay_in_flight (p_metrics p)))
| work_report p t c urgent f rest k :
    p_tasks p !! t = Some (mkTask c (Reporting urgent (f :: rest))) → p_conns p !! c = Some k →
    conn_room capacity urgent k = true →
    pool_work p (mkPool (p_sem p) (<[t := mkTask c (Reporting urgent rest)]> (p_tasks p))
                   (<[c := conn_push urgent f k]> (p_conns p)) (p_metrics p))
| work_report_gone p t c urgent f rest k :
    p_tasks p !! t = Some (mkTask c (Reporting urgent (f :: rest))) → p_conns p !! c = Some k →
    c_open k = false →
    pool_work p (mkPool (p_sem p) (<[t := mkTask c (Reporting urgent rest)]> (p_tasks p)) (p_conns p)
                   (p_metrics p))
| work_end p t c urgent :
    p_tasks p !! t = Some (mkTask c (Reporting urgent [])) →
    pool_work p (mkPool (sem_release (p_sem p)) (<[t := mkTask c Ended]> (p_tasks p)) (p_conns p)
                   (p_metrics p)).

(** What the outbound tasks do: take a replay frame, end on an urgent close, end because the
    socket is gone. *)
Inductive outbound_work : Pool → Pool → Prop :=
| out_replay p c k f rest :
    p_conns p !! c = Some k → c_open k = true → c_replay k = f :: rest →
    outbound_work p (mkPool (p_sem p) (p_tasks p)
                       (<[c := mkConn rest (c_urgent k) true]> (p_conns p)) (p_metrics p))
| out_urgent p c k f rest :
    p_conns p !! c = Some k → c_open k = true → c_urgent k = f :: rest →
    outbound_work p (mkPool (p_sem p) (p_tasks p) (<[c := gone]> (p_conns p)) (p_metrics p))
| out_gone p c k :
    p_conns p !! c = Some k → c_open k = true →
    outbound_work p (mkPool (p_sem p) (p_tasks p) (<[c := gone]> (p_conns p)) (p_metrics p)).

Definition pool_turn (p p' : Pool) : Prop := pool_work p p' ∨ outbound_work p p'.

(** Sockets open and subscribes spawn tasks meanwhile. *)
Inductive pool_step : Pool → Pool → Prop :=
| pool_turns p p' : pool_turn p p' → pool_step p p'
| pool_connect p c :
    p_conns p !! c = None →
    pool_step p (mkPool (p_sem p) (p_tasks p) (<[c := mkConn [] [] true]> (p_conns p)) (p_metrics p))
| pool_spawn p t c :
    p_tasks p !! t = None → is_Some (p_conns p !! c) →
    pool_step p (mkPool (sem_acquire t (p_sem p)) (<[t := mkTask c Waiting]> (p_tasks p)) (p_conns p)
                   (p_metrics p)).

(** A fresh gateway with [max] permits, which are no more than a semaphore can have (else
    [Semaphore::new] panics, [Run]). *)
Definition pool_init (max : nat) (p : Pool) : Prop :=
  semaphore_fits max = true ∧ p_sem p = sem_new max ∧ p_tasks p = ∅ ∧ p_conns p = ∅ ∧
  scalar (p_metrics p) replay_in_flight = 0%Z.

(** ** Invariant *)

(** Every permit is left or held by a task; the gauge counts the replaying tasks; exactly the
    waiting tasks have a request in the queue, once each; tasks belong to connections. *)
Record pool_inv (max : nat) (p : Pool) : Prop := {
  pi_fits : (Z.of_nat max < 2 ^ 61)%Z;
  pi_permits : available (p_sem p) + map_count is_replaying (p_tasks p) +
               map_count is_reporting (p_tasks p) = max;
  pi_gauge : scalar (p_metrics p) replay_in_flight = Z.of_nat (map_count is_replaying (p_tasks p));
  pi_queue t : t ∈ waiting (p_sem p) ↔ is_waiting <$> p_tasks p !! t = Some true;
  pi_nodup : NoDup (waiting (p_sem p));
  pi_conns t x : p_tasks p !! t = Some x → is_Some (p_conns p !! t_conn x);
}.
End Pool.
Arguments Pool S : clear implicits.

Section Properties.
Context {S : Type} `{SemaphoreLaws S} (capacity : nat).
Implicit Types (p : Pool S).
Abbreviation work := (pool_work capacity).
Abbreviation turn := (pool_turn capacity).
Abbreviation step := (pool_step capacity).

Lemma poll_inv (s : S) t s' :
  sem_poll s = Some (t, s') →
  available s = Datatypes.S (available s') ∧ waiting s = t :: waiting s'.
Proof using Type*.
  intros Hp. destruct (available s) as [|n] eqn:Ea.
  { rewrite sem_poll_blocked in Hp; [done|by left]. }
  destruct (waiting s) as [|t0 q] eqn:Ew.
  { rewrite sem_poll_blocked in Hp; [done|by right]. }
  destruct (sem_poll_ready n t0 q s Ea Ew) as (s0 & Hp0 & Ha & Hw). simplify_eq.
  done.
Qed.

(** A task moves on without the queue of the semaphore. *)
Lemma inv_task max p t x x' sem' conns' m' :
  pool_inv max p → p_tasks p !! t = Some x → t_conn x' = t_conn x →
  is_waiting x = false → is_waiting x' = false →
  waiting sem' = waiting (p_sem p) →
  (∀ c, is_Some (p_conns p !! c) → is_Some (conns' !! c)) →
  available sem' + (if is_replaying x' then 1 else 0) + (if is_reporting x' then 1 else 0) =
    available (p_sem p) + (if is_replaying x then 1 else 0) + (if is_reporting x then 1 else 0) →
  scalar m' replay_in_flight = Z.of_nat (map_count is_replaying (<[t := x']> (p_tasks p))) →
  pool_inv max (mkPool sem' (<[t := x']> (p_tasks p)) conns' m').
Proof using Type.
  intros [Hf Hp Hg Hq Hnd Hc] Ht Hx Hw Hw' Hwt Hcs Ha Hg'.
  pose proof (map_count_update is_replaying (p_tasks p) t x x' Ht).
  pose proof (map_count_update is_reporting (p_tasks p) t x x' Ht).
  split; cbn [p_sem p_tasks p_conns p_metrics]; [done|lia|done| |by rewrite Hwt|].
  - intros t0. rewrite Hwt, Hq. destruct (decide (t0 = t)) as [->|Hne].
    + rewrite lookup_insert_eq, Ht. cbn. by rewrite Hw, Hw'.
    + by rewrite lookup_insert_ne.
  - intros t0 x0 Hx0. apply Hcs. destruct (decide (t0 = t)) as [->|Hne].
    + rewrite lookup_insert_eq in Hx0. injection Hx0 as <-. rewrite Hx. by eapply Hc.
    + rewrite lookup_insert_ne in Hx0 by done. by eapply Hc.
Qed.

(** The gauge after a task moved on. *)
Lemma gauge_task max p t x x' :
  pool_inv max p → p_tasks p !! t = Some x →
  scalar (if is_replaying x then if is_replaying x' then p_metrics p
                                 else gauge_dec replay_in_flight (p_metrics p)
          else if is_replaying x' then gauge_inc replay_in_flight (p_metrics p) else p_metrics p)
    replay_in_flight = Z.of_nat (map_count is_replaying (<[t := x']> (p_tasks p))).
Proof using Type.
  intros [Hf Hp Hg _ _ _] Ht. pose proof (map_count_update is_replaying (p_tasks p) t x x' Ht) as Hu.
  destruct (is_replaying x) eqn:Ex, (is_replaying x') eqn:Ex'.
  - rewrite Hg. f_equal. lia.
  - pose proof (map_count_pos is_replaying _ _ _ Ht Ex). apply gauge_dec_small; [rewrite Hg; f_equal; lia|lia].
  - rewrite (gauge_inc_small _ _ (map_count is_replaying (p_tasks p))) by (done || lia). f_equal. lia.
  - rewrite Hg. f_equal. lia.
Qed.

Lemma is_Some_insert {A} (m : gmap nat A) c c' x : is_Some (m !! c) → is_Some (<[c' := x]> m !! c).
Proof. intros Hc. destruct (decide (c' = c)) as [->|Hne]; [rewrite lookup_insert_eq; eauto|by rewrite lookup_insert_ne]. Qed.

Lemma inv_work max p p' : pool_inv max p → work p p' → pool_inv max p'.
Proof using Type*.
  intros Hinv Hw. pose proof (gauge_task max p) as Hg.
  destruct Hw as [p t c s' frames Hpoll Ht _|p t c f todo k Ht Hk _|p t c f todo k Ht Hk _
    |p t c u report Ht _|p t c u f rest k Ht Hk _|p t c u f rest k Ht Hk _|p t c u Ht].
  - specialize (Hg t _ (mkTask c (Replaying frames)) Hinv Ht). cbn [is_replaying t_phase] in Hg.
    destruct Hinv as [Hf Hp Hg0 Hq Hnd Hc]. destruct (poll_inv _ _ _ Hpoll) as [Ha Hwt].
    pose proof (map_count_update is_replaying (p_tasks p) t _ (mkTask c (Replaying frames)) Ht) as H1.
    pose proof (map_count_update is_reporting (p_tasks p) t _ (mkTask c (Replaying frames)) Ht) as H2.
    cbn in H1, H2. rewrite Hwt in Hnd. apply NoDup_cons in Hnd as [Hnt Hnd].
    split; cbn [p_sem p_tasks p_conns p_metrics]; [done|lia|done| |done|].
    + intros t0. destruct (decide (t0 = t)) as [->|Hne].
      * rewrite lookup_insert_eq. cbn. split; [done|congruence].
      * rewrite lookup_insert_ne, <- Hq, Hwt, elem_of_cons by done. naive_solver.
    + intros t0 x0 Hx0. destruct (decide (t0 = t)) as [->|Hne].
      * rewrite lookup_insert_eq in Hx0. injection Hx0 as <-. by apply (Hc t _ Ht).
      * rewrite lookup_insert_ne in Hx0 by done. by eapply Hc.
  - apply (inv_task max p t _ (mkTask c (Replaying todo)) _ _ _ Hinv Ht); try done;
      [intros; by apply is_Some_insert|exact (Hg t _ (mkTask c (Replaying todo)) Hinv Ht)].
  - apply (inv_task max p t _ (mkTask c (Reporting false [])) _ _ _ Hinv Ht); try done;
      [cbn; lia|exact (Hg t _ (mkTask c (Reporting false [])) Hinv Ht)].
  - apply (inv_task max p t _ (mkTask c (Reporting u report)) _ _ _ Hinv Ht); try done;
      [cbn; lia|exact (Hg t _ (mkTask c (Reporting u report)) Hinv Ht)].
  - apply (inv_task max p t _ (mkTask c (Reporting u rest)) _ _ _ Hinv Ht); try done;
      [intros; by apply is_Some_insert|exact (Hg t _ (mkTask c (Reporting u rest)) Hinv Ht)].
  - apply (inv_task max p t _ (mkTask c (Reporting u rest)) _ _ _ Hinv Ht); try done.
    exact (Hg t _ (mkTask c (Reporting u rest)) Hinv Ht).
  - destruct (sem_release_spec (p_sem p)) as [Ha Hwt].
    apply (inv_task max p t _ (mkTask c Ended) _ _ _ Hinv Ht); try done;
      [rewrite Ha; cbn; lia|exact (Hg t _ (mkTask c Ended) Hinv Ht)].
Qed.

Lemma inv_conns max p conns' :
  pool_inv max p → (∀ c, is_Some (p_conns p !! c) → is_Some (conns' !! c)) →
  pool_inv max (mkPool (p_sem p) (p_tasks p) conns' (p_metrics p)).
Proof using Type. intros [] Hc. split; cbn; eauto. Qed.

Lemma inv_turn max p p' : pool_inv max p → turn p p' → pool_inv max p'.
Proof using Type*.
  intros Hinv [Hw|Hw]; [by eapply inv_work|].
  destruct Hw; apply inv_conns; try done; intros; by apply is_Some_insert.
Qed.


Lemma pool_inv_reachable max p : reachable (pool_init max) step p → pool_inv max p.
Proof using Type*.
  apply reachable_invariant.
  - intros q (Hf & Hs & Ht & Hc & Hg). destruct (sem_new_spec (S := S) max) as [Ha Hw].
    unfold semaphore_fits, MAX_PERMITS in Hf. apply Z.leb_le in Hf.
    split; rewrite ?Hs, ?Ht, ?Ha, ?Hw, ?Hg, ?map_count_empty; try (done || lia).
    + intros t. rewrite lookup_empty. cbn. split; [by intros ?%not_elem_of_nil|done].
    + apply NoDup_nil_2.
  - intros q q' Hinv Hstep. destruct Hstep as [q q' Hw|q c Hc|q t c Ht Hc].
    + by eapply inv_turn.
    + apply inv_conns; [done|]. intros. by apply is_Some_insert.
    + destruct Hinv as [Hf Hp Hg Hq Hnd Hcs]. destruct (sem_acquire_spec t (p_sem q)) as [Ha Hw].
      split; cbn [p_sem p_tasks p_conns p_metrics]; rewrite ?Ha, ?Hw, ?map_count_fresh by done;
        cbn [is_replaying is_reporting t_phase]; rewrite ?Nat.add_0_r; try done.
      * intros t0. rewrite elem_of_app, Hq, list_elem_of_singleton.
        destruct (decide (t0 = t)) as [->|Hne];
          [rewrite lookup_insert_eq; cbn; naive_solver|rewrite lookup_insert_ne by done; naive_solver].
      * apply NoDup_app. split_and!; [done| |apply NoDup_singleton].
        intros t0 Hin ->%list_elem_of_singleton. apply Hq in Hin. by rewrite Ht in Hin.
      * intros t0 x0 Hx0. destruct (decide (t0 = t)) as [->|Hne].
        -- rewrite lookup_insert_eq in Hx0. by injection Hx0 as <-.
        -- rewrite lookup_insert_ne in Hx0 by done. by eapply Hcs.
Qed.

(** ** Progress and termination *)








(** C32. Replay concurrency is bounded: in every interleaving of spawning, replaying,
    reporting and the outbound tasks, at most [max_replay_concurrency] tasks hold a permit, the
    gauge [replay_in_flight] is the number of tasks in [replay_since] and so within the limit,
    and no task is dropped: each one waits in the queue or has had its permit. *)
Theorem replay_concurrency_bounded max p :
  reachable (pool_init max) step p →
  (0 ≤ scalar (p_metrics p) replay_in_flight ≤ Z.of_nat max)%Z ∧
  scalar (p_metrics p) replay_in_flight = Z.of_nat (map_count is_replaying (p_tasks p)) ∧
  map_count is_replaying (p_tasks p) + map_count is_reporting (p_tasks p) ≤ max ∧
  (∀ t, is_waiting <$> p_tasks p !! t = Some true ↔ t ∈ waiting (p_sem p)) ∧
  (∀ t s', sem_poll (p_sem p) = Some (t, s') → waiting (p_sem p) = t :: waiting s').
Proof using Type*.
  intros Hr. destruct (pool_inv_reachable max p Hr) as [Hf Hp Hg Hq Hnd _].
  split_and!; [lia|lia|done|lia| |].
  - intros t. by rewrite Hq.
  - intros t s' Hpoll. apply (poll_inv _ _ _ Hpoll).
Qed.


(** With a limit of zero no replay ever starts. *)
Lemma no_permits_no_replays p :
  reachable (pool_init 0) step p → map_Forall (λ _ x, t_phase x = Waiting) (p_tasks p).
Proof using Type*.
  intros Hr. induction Hr as [p (_ & _ & -> & _)|p p' Hr IH Hs]; [apply map_Forall_empty|].
  pose proof (pool_inv_reachable 0 p Hr) as [_ Hp _ _ _ _].
  destruct Hs as [p p' [Hw|Hw]|p c Hc|p t c Ht Hc].
  - destruct Hw as [p t c s' frames Hpoll|p t c f todo k Ht|p t c f todo k Ht|p t c u report Ht
      |p t c u f rest k Ht|p t c u f rest k Ht|p t c u Ht]; try by apply IH in Ht.
    destruct (poll_inv _ _ _ Hpoll) as [Ha _]. lia.
  - by destruct Hw.
  - done.
  - cbn. by apply map_Forall_insert_2.
Qed.
End Properties.

(** ** Instance and witnesses *)

(** Permits left, and the queue. *)
#[export] Instance fifo_semaphore : Semaphore (nat * list nat) := {
  sem_new n := (n, []);
  available s := s.1;
  waiting s := s.2;
  sem_acquire t s := (s.1, s.2 ++ [t]);
  sem_poll s := match s with (S n, t :: q) => Some (t, (n, q)) | _ => None end;
  sem_release s := (S s.1, s.2);
}.

#[export] Instance fifo_semaphore_laws : SemaphoreLaws (nat * list nat).
Proof.
  split; try done.
  - intros n t q [a w] [= ->] [= ->]. eauto.
  - intros [[|n] [|t q]] [?|?]; done.
Qed.

(** Two tasks of two connections under one permit, over channels of one slot: the first has
    queued a frame and has another one to send, the second waits. *)
Definition two_tasks : Pool (nat * list nat) :=
  mkPool (0, [2]) {[ 1 := mkTask 1 (Replaying ["b"]); 2 := mkTask 2 Waiting ]}
    {[ 1 := mkConn ["a"] [] true; 2 := mkConn [] [] true ]} (gauge_inc replay_in_flight no_metrics).

Lemma two_tasks_reachable : reachable (pool_init 1) (pool_step 1) two_tasks.
Proof.
  pose (k := mkConn [] [] true). pose (m := gauge_inc replay_in_flight no_metrics).
  pose (p0 := mkPool (1, []) ∅ ∅ no_metrics : Pool (nat * list nat)).
  pose (p1 := mkPool (1, []) ∅ (<[1 := k]> ∅) no_metrics : Pool (nat * list nat)).
  pose (p2 := mkPool (1, []) ∅ (<[2 := k]> (<[1 := k]> ∅)) no_metrics : Pool (nat * list nat)).
  pose (p3 := mkPool (1, [1]) (<[1 := mkTask 1 Waiting]> ∅) (p_conns p2) no_metrics : Pool (nat * list nat)).
  pose (p4 := mkPool (1, [1; 2]) (<[2 := mkTask 2 Waiting]> (p_tasks p3)) (p_conns p2) no_metrics
              : Pool (nat * list nat)).
  pose (p5 := mkPool (0, [2]) (<[1 := mkTask 1 (Replaying ["a"; "b"])]> (p_tasks p4)) (p_conns p2) m
              : Pool (nat * list nat)).
  assert (reachable (pool_init 1) (pool_step 1) p0) as H0 by (by apply reachable_init).
  assert (reachable (pool_init 1) (pool_step 1) p1) as H1
    by exact (reachable_step _ _ p0 _ H0 (pool_connect 1 p0 1 eq_refl)).
  assert (reachable (pool_init 1) (pool_step 1) p2) as H2
    by exact (reachable_step _ _ p1 _ H1 (pool_connect 1 p1 2 eq_refl)).
  assert (reachable (pool_init 1) (pool_step 1) p3) as H3
    by exact (reachable_step _ _ p2 _ H2 (pool_spawn 1 p2 1 1 eq_refl (mk_is_Some _ k eq_refl))).
  assert (reachable (pool_init 1) (pool_step 1) p4) as H4
    by exact (reachable_step _ _ p3 _ H3 (pool_spawn 1 p3 2 2 eq_refl (mk_is_Some _ k eq_refl))).
  assert (reachable (pool_init 1) (pool_step 1) p5) as H5.
  { refine (reachable_step _ _ p4 _ H4 (pool_turns 1 p4 _ (or_introl
      (work_start 1 p4 1 1 (0, [2]) ["a"; "b"] eq_refl eq_refl _)))).
    apply Nat.leb_le. vm_compute. reflexivity. }
  exact (reachable_step _ _ p5 _ H5 (pool_turns 1 p5 _ (or_introl
    (work_send 1 p5 1 1 "a" ["b"] k eq_refl eq_refl eq_refl)))).
Qed.

(** The first client does not read: its task keeps the only permit, and the second task, whose
    client does read, waits as long. *)
Example stalled_client_blocks_replays : nf (pool_work 1) two_tasks.
Proof.
  intros [p' Hw]. inversion Hw as [p t c s' fr Hpoll| p t c f todo k Ht Hk Hroom| p t c f todo k Ht Hk Ho
    |p t c u rep Ht|p t c u f rest k Ht|p t c u f rest k Ht|p t c u Ht]; subst; [done|..];
    (destruct (decide (t = 1)) as [->|H1];
      [|destruct (decide (t = 2)) as [->|H2];
        [|exfalso; revert Ht; unfold two_tasks; cbn [p_tasks];
          rewrite lookup_insert_ne, lookup_singleton_ne by done; done]]);
    try (by vm_compute in Ht);
    vm_compute in Ht; simplify_eq; vm_compute in Hk; simplify_eq; done.
Qed.

Lemma replay_concurrency_bounded_witness :
  (0 ≤ scalar (p_metrics two_tasks) replay_in_flight ≤ 1)%Z.
Proof. apply (replay_concurrency_bounded 1 1 two_tasks). exact two_tasks_reachable. Defined.

