(* ===== verification/Consumer.v ===== *)
(** * The fan-out consumer ([process_nats_message], [run_consumer] of [src/pubsub/nats.rs])

    The durable consumer takes messages one after the other from JetStream, rate-limits them,
    encodes them once per wire format, hands them to the registry and acknowledges them.
    What the [select!] of the loop resolves to, in order, is a list of events; each carries
    what the outside answers while it is handled (clock readings, consumer info). *)

From stdpp Require Import base list gmap strings fin_maps sets.
From Stdlib Require Import ZArith Lia.
From S2P Require Import Prelude Channels Text Protocol Float RateLimit Registry RegistrySpec Metrics Nats.

Local Open Scope string_scope.
Local Open Scope list_scope.
Local Open Scope nat_scope.

(** The shared state the consumer works on. *)
Record Gateway (Tx Ev HB HE : Type) : Type := mkGateway {
  g_registry : Registry Tx Ev;
  g_channels : HB;
  g_evictions : HE;
  g_metrics : Metrics;
  g_limiter : option StreamRateLimiter;
}.
Arguments mkGateway {Tx Ev HB HE}.
Arguments g_registry {Tx Ev HB HE}.
Arguments g_channels {Tx Ev HB HE}.
Arguments g_evictions {Tx Ev HB HE}.
Arguments g_metrics {Tx Ev HB HE}.
Arguments g_limiter {Tx Ev HB HE}.

(** How the event loop of [run_consumer] stands when the events are used up. *)
Inductive consumer_exit : Type :=
| StreamEnded
| ConsumerFailed (e : GatewayError)
| StillRunning.

(** What [select!] resolves to: a fetched message, a fetch error, the end of the message
    stream, or the lag timer.  [info] is what fetching the consumer info would give. *)
Inductive consumer_event : Type :=
| EvMessage (m : NatsMessage) (t_new t_now : Z) (info : result Z string)
| EvError (e : string)
| EvEnd
| EvTick (info : result Z string).

Section Consumer.
Context (serde_json rmp_serde : WireLib).
Context {Tx Ev HB HE : Type} `{!Mpsc string HB Tx} `{!Mpsc unit HE Ev}.
Abbreviation gateway := (Gateway Tx Ev HB HE).

(** [serde_json::to_vec] and [rmp_serde::to_vec_named], empty on failure. *)
Definition encode_or_default (lib : WireLib) (msg : ServerMessage) : string :=
  match wire_print lib (server_message_to_value msg) with Ok b => b | Err _ => "" end.

(** The live frame of a message. *)
Definition live_message (stream_name : string) (msg : NatsMessage) : ServerMessage :=
  Message stream_name (decode_payload serde_json rmp_serde (payload msg)) None
    (extract_stream_sequence msg).

(** The rate-limit block at the start of [process_nats_message]: whether to go on. *)
Definition rate_limit_message (t_new t_now : Z) (stream_name : string) (g : gateway)
    : bool * gateway :=
  match g_limiter g with
  | None => (true, g)
  | Some rl =>
      let '((allow, tokens), rl') := check t_new t_now stream_name rl in
      let m1 := if (tokens =? i64_max)%Z then g_metrics g
                else tokens_set stream_name tokens (g_metrics g) in
      let m2 := if allow then m1 else rate_limited_inc stream_name m1 in
      (allow, mkGateway (g_registry g) (g_channels g) (g_evictions g) m2 (Some rl'))
  end.

(** The fan-out and its metrics. *)
Definition fan_out_message (stream_name : string) (msg : NatsMessage) (g : gateway) : gateway :=
  let server_msg := live_message stream_name msg in
  let json_bytes := encode_or_default serde_json server_msg in
  let msgpack_bytes := encode_or_default rmp_serde server_msg in
  let '(res, r', hb', he') :=
    fanout_encoded stream_name json_bytes msgpack_bytes (g_registry g) (g_channels g)
      (g_evictions g) in
  let m1 := observe fanout_duration_secs (g_metrics g) in
  let m2 := if 0 <? sent res then inc_by messages_fanned_out (Z.of_nat (sent res)) m1 else m1 in
  let m3 := match evicted res with
            | [] => m2
            | _ => inc_by forced_reconnect_backpressure_total
                     (Z.of_nat (length (evicted res))) m2
            end in
  mkGateway r' hb' he' m3 (g_limiter g).

Definition process_nats_message (t_new t_now : Z) (msg : NatsMessage) (g : gateway) : gateway :=
  let stream_name := extract_stream_name (subject msg) in
  let '(allow, g1) := rate_limit_message t_new t_now stream_name g in
  if allow then fan_out_message stream_name msg g1 else g1.

(** [update_consumer_lag]: [num_pending as i64], unchanged when the info cannot be fetched. *)
Definition update_consumer_lag (info : result Z string) (g : gateway) : gateway :=
  match info with
  | Ok num_pending =>
      mkGateway (g_registry g) (g_channels g) (g_evictions g)
        (gauge_set nats_consumer_lag (to_i64 num_pending) (g_metrics g)) (g_limiter g)
  | Err _ => g
  end.

(** The event loop of [run_consumer]: the state, the messages handed to an ack task, and the
    [processed] counter. *)
Fixpoint consumer_loop (evs : list consumer_event) (g : gateway) (acks : list NatsMessage)
    (processed : Z) : consumer_exit * gateway * list NatsMessage :=
  match evs with
  | [] => (StillRunning, g, acks)
  | EvEnd :: _ => (StreamEnded, g, acks)
  | EvError e :: _ => (ConsumerFailed (JetStream ("consumer message error: " +:+ e)), g, acks)
  | EvTick info :: evs' => consumer_loop evs' (update_consumer_lag info g) acks processed
  | EvMessage m t_new t_now info :: evs' =>
      let g1 := process_nats_message t_new t_now m g in
      let processed' := wrapping_add processed 1 in
      let g2 := if (processed' mod 10000 =? 0)%Z then update_consumer_lag info g1 else g1 in
      consumer_loop evs' g2 (acks ++ [m]) processed'
  end.

(** The consumer a session asks JetStream for: the fields of [pull::Config] that
    [run_consumer] sets. *)
Inductive AckPolicy : Type := AckExplicit | AckNone | AckAll.

Record PullConfig : Type := mkPullConfig {
  durable_name : option string;
  ack_policy : AckPolicy;
  pull_max_ack_pending : Z;
}.

Definition fanout_consumer (consumer_name : string) (max_ack_pending : Z) : PullConfig :=
  mkPullConfig (Some consumer_name) AckExplicit max_ack_pending.

(** One session of [run_consumer]: setting the consumer up may fail at three places. *)
Record ConsumerSession : Type := mkSession {
  cs_get_stream : result unit string;
  cs_consumer : string → PullConfig → result unit string;
  cs_initial_info : result Z string;
  cs_messages : result (list consumer_event) string;
}.

Definition run_consumer (node_id : string) (max_ack_pending : Z) (s : ConsumerSession)
    (g : gateway) (acks : list NatsMessage) : consumer_exit * gateway * list NatsMessage :=
  match cs_get_stream s with
  | Err e => (ConsumerFailed (JetStream ("get stream: " +:+ e)), g, acks)
  | Ok _ =>
      let consumer_name := "gw_" +:+ node_id in
      match cs_consumer s consumer_name (fanout_consumer consumer_name max_ack_pending) with
      | Err e => (ConsumerFailed (JetStream ("create/get consumer: " +:+ e)), g, acks)
      | Ok _ =>
          let g1 := update_consumer_lag (cs_initial_info s) g in
          match cs_messages s with
          | Err e => (ConsumerFailed (JetStream ("messages stream: " +:+ e)), g1, acks)
          | Ok evs => consumer_loop evs g1 acks 0
          end
      end
  end.

(** The outer reconnect loop, over the sessions it goes through. *)
Fixpoint fanout_sessions (node_id : string) (max_ack_pending : Z) (ss : list ConsumerSession)
    (g : gateway) (acks : list NatsMessage) : gateway * list NatsMessage :=
  match ss with
  | [] => (g, acks)
  | s :: ss' =>
      let '(_, g', acks') := run_consumer node_id max_ack_pending s g acks in
      fanout_sessions node_id max_ack_pending ss' g' acks'
  end.

(** ** Acknowledgments *)

(** The messages a session takes before it fails or ends. *)
Fixpoint taken (evs : list consumer_event) : list NatsMessage :=
  match evs with
  | [] | EvEnd :: _ | EvError _ :: _ => []
  | EvTick _ :: evs' => taken evs'
  | EvMessage m _ _ _ :: evs' => m :: taken evs'
  end.

(** What a session gets from the consumer, when it could be set up. *)
Definition session_events (node_id : string) (max_ack_pending : Z) (s : ConsumerSession)
    : list consumer_event :=
  let consumer_name := "gw_" +:+ node_id in
  match cs_get_stream s,
        cs_consumer s consumer_name (fanout_consumer consumer_name max_ack_pending),
        cs_messages s with
  | Ok _, Ok _, Ok evs => evs
  | _, _, _ => []
  end.

Definition session_taken (node_id : string) (max_ack_pending : Z) (s : ConsumerSession)
    : list NatsMessage := taken (session_events node_id max_ack_pending s).

Lemma consumer_loop_acks evs g acks n :
  (consumer_loop evs g acks n).2 = acks ++ taken evs.
Proof.
  revert g acks n. induction evs as [|[m t0 t1 i|e| |i] evs IH]; intros g acks n;
    cbn [consumer_loop taken snd]; rewrite ?app_nil_r; [done| |done|done|apply IH].
  rewrite IH, <- app_assoc. done.
Qed.

Lemma run_consumer_acks node_id n s g acks :
  (run_consumer node_id n s g acks).2 = acks ++ session_taken node_id n s.
Proof.
  unfold run_consumer, session_taken, session_events.
  destruct (cs_get_stream s), 
    (cs_consumer s ("gw_" +:+ node_id) (fanout_consumer ("gw_" +:+ node_id) n)), (cs_messages s);
    cbn; rewrite ?app_nil_r; try done.
  apply consumer_loop_acks.
Qed.

(** ** The rate-limit block only touches the limiter and the metrics *)

Lemma rate_limit_frame t0 t1 s g :
  let g' := (rate_limit_message t0 t1 s g).2 in
  g_registry g' = g_registry g ∧ g_channels g' = g_channels g ∧
  g_evictions g' = g_evictions g.
Proof.
  unfold rate_limit_message. destruct (g_limiter g); [|done]. by repeat case_match.
Qed.

(** The decision on a message, and the limiter after it. *)
Definition decide_message (t_new t_now : Z) (s : string) (lim : option StreamRateLimiter)
    : bool * option StreamRateLimiter :=
  match lim with
  | None => (true, None)
  | Some rl => let '((allow, _), rl') := check t_new t_now s rl in (allow, Some rl')
  end.

Lemma rate_limit_decision t0 t1 s g :
  (rate_limit_message t0 t1 s g).1 = (decide_message t0 t1 s (g_limiter g)).1 ∧
  g_limiter (rate_limit_message t0 t1 s g).2 = (decide_message t0 t1 s (g_limiter g)).2.
Proof.
  unfold rate_limit_message, decide_message. destruct (g_limiter g) eqn:E; [|done].
  by repeat case_match.
Qed.

(** ** Delivery through the whole loop *)

(** The frames a connection should see: one per message on a stream of [strs] that the rate
    limiter lets through, in the connection's encoding. *)
Fixpoint live_frames (strs : list string) (binary : bool) (evs : list consumer_event)
    (lim : option StreamRateLimiter) : list string :=
  match evs with
  | [] | EvEnd :: _ | EvError _ :: _ => []
  | EvTick _ :: evs' => live_frames strs binary evs' lim
  | EvMessage m t_new t_now _ :: evs' =>
      let s := extract_stream_name (subject m) in
      let '(allow, lim') := decide_message t_new t_now s lim in
      (if allow && bool_decide (s ∈ strs)
       then [encode_or_default (if binary then rmp_serde else serde_json) (live_message s m)]
       else []) ++ live_frames strs binary evs' lim'
  end.

(** What the rate limiter decides on the messages the consumer takes, in order, and how it
    stands after them. *)
Fixpoint decisions (evs : list consumer_event) (lim : option StreamRateLimiter) : list bool :=
  match evs with
  | [] | EvEnd :: _ | EvError _ :: _ => []
  | EvTick _ :: evs' => decisions evs' lim
  | EvMessage m t_new t_now _ :: evs' =>
      let '(allow, lim') := decide_message t_new t_now (extract_stream_name (subject m)) lim in
      allow :: decisions evs' lim'
  end.

Fixpoint limiter_after (evs : list consumer_event) (lim : option StreamRateLimiter)
    : option StreamRateLimiter :=
  match evs with
  | [] | EvEnd :: _ | EvError _ :: _ => lim
  | EvTick _ :: evs' => limiter_after evs' lim
  | EvMessage m t_new t_now _ :: evs' =>
      limiter_after evs' (decide_message t_new t_now (extract_stream_name (subject m)) lim).2
  end.
End Consumer.

Section Delivery.
Context (serde_json rmp_serde : WireLib).
Context {Tx Ev HB HE : Type}.
Context `{MpscLaws string HB Tx} `{MpscLaws unit HE Ev}.
Context `{!EqDecision Tx} `{!EqDecision Ev}.
Implicit Types (g : Gateway Tx Ev HB HE) (r : Registry Tx Ev).

Lemma fold_deregister_connections (l : list Z) r :
  registry_wf r → connections (fold_left (λ r id, deregister id r) l r) ⊆ connections r.
Proof.
  revert r. induction l as [|id l IH]; intros r Hwf; [done|]. cbn [fold_left].
  etrans; [by apply IH, deregister_wf|].
  pose proof (deregister_spec id r Hwf) as (-> & _). apply delete_subseteq.
Qed.

Lemma senders_distinct_subseteq r r' :
  connections r' ⊆ connections r → senders_distinct r → senders_distinct r'.
Proof.
  intros Hsub Hd id1 id2 e1 e2 He1 He2. apply Hd; by eapply lookup_weaken.
Qed.

Lemma fanout_loop_ends r (json binary : string) (l : list Z) (hb : HB) (he : HE) n ev hb' he' :
  fanout_loop r json binary l hb he = (n, ev, hb', he') → same_ends hb hb'.
Proof using Type*.
  revert hb he n ev hb' he'. induction l as [|id l IH]; intros hb he n ev hb' he'; simpl.
  { by intros [= <- <- <- <-]. }
  destruct (connections r !! id) as [e|]; [|apply IH].
  pose proof (try_send_ends (sender e) (payload_for e json binary) hb) as He.
  destruct (try_send (sender e) _ hb) as [acc hb1]; simpl in He.
  intros Hl. apply (same_ends_trans _ hb1); [done|]. destruct acc.
  - destruct (fanout_loop r json binary l hb1 he) as [[[? ?] ?] ?] eqn:E. simplify_eq.
    by eapply IH.
  - destruct (fanout_loop r json binary l hb1 _) as [[[? ?] ?] ?] eqn:E in Hl. simplify_eq.
    by eapply IH.
Qed.

(** A live connection on the streams [strs] whose channel has room for [n] more frames. *)
Record ready g (id : Z) (e : ConnectionEntry Tx Ev) (strs : list string) (n : nat) : Prop :=
  mkReady {
    rd_wf : registry_wf (g_registry g);
    rd_distinct : senders_distinct (g_registry g);
    rd_entry : connections (g_registry g) !! id = Some e;
    rd_streams : ∀ s, id ∈ subscribers (g_registry g) s ↔ s ∈ strs;
    rd_open : rx_open (sender e) (g_channels g) = true;
    rd_room : length (queue (sender e) (g_channels g)) + n ≤ capacity (sender e) (g_channels g);
  }.

Lemma ready_frame g g' id e strs n :
  g_registry g' = g_registry g → g_channels g' = g_channels g →
  ready g id e strs n → ready g' id e strs n.
Proof. intros Hr Hc []. split; by rewrite ?Hr, ?Hc. Qed.

(** One fan-out, for a connection with room for the frame it may get. *)
Lemma fan_out_ready s m g id e strs n :
  let b := bool_decide (s ∈ strs) in
  let frames := if b then [encode_or_default (if is_binary e then rmp_serde else serde_json)
                             (live_message serde_json rmp_serde s m)] else [] in
  let g' := fan_out_message serde_json rmp_serde s m g in
  ready g id e strs (length frames + n) →
  ready g' id e strs n ∧
  queue (sender e) (g_channels g') = queue (sender e) (g_channels g) ++ frames ∧
  g_limiter g' = g_limiter g.
Proof using Type*.
  intros b frames g' [Hwf Hd He Hs Ho Hroom]. unfold g', fan_out_message, fanout_encoded.
  fold (subscribers (g_registry g) s).
  set (json := encode_or_default serde_json _). set (bin := encode_or_default rmp_serde _).
  destruct (fanout_loop _ json bin _ _ _) as [[[k ev] hb'] he'] eqn:El. cbn [sent evicted].
  destruct (fanout_loop_spec _ _ _ _ _ _ _ _ _ _ Hd (wf_nodup_subs _ Hwf s)
    (λ x, subscriber_registered _ s x Hwf) El) as (Hev & _ & Hq & _).
  pose proof (fanout_loop_ends _ _ _ _ _ _ _ _ _ _ El) as Hends.
  destruct (Hends (sender e)) as (Hcap & Hrx & _).
  assert (bool_decide (id ∈ subscribers (g_registry g) s) = b) as Hb.
  { apply bool_decide_ext, Hs. }
  assert (b = true → has_room (sender e) (g_channels g) = true) as Hhas.
  { intros Hb'. unfold has_room. rewrite Ho. apply Nat.ltb_lt.
    unfold frames in Hroom. rewrite Hb' in Hroom. cbn in Hroom. lia. }
  assert (id ∉ ev) as Hnev.
  { rewrite Hev. intros [Hr Hin]%list_elem_of_filter. unfold room_of in Hr. rewrite He in Hr.
    rewrite Hhas in Hr; [done|]. by rewrite <- Hb; apply bool_decide_eq_true_2. }
  assert (queue (sender e) hb' = queue (sender e) (g_channels g) ++ frames) as Hqe.
  { rewrite (Hq id e He), Hb. unfold frames. destruct b; simpl; [|by rewrite app_nil_r].
    rewrite Hhas by done. unfold payload_for. by destruct (is_binary e). }
  pose proof (fold_deregister_connections ev _ Hwf) as Hsub.
  destruct (fold_deregister_spec ev _ id Hwf) as [Hcs Hss].
  split; [|by split]. split; cbn [g_registry g_channels].
  - by apply fold_deregister_wf.
  - by eapply senders_distinct_subseteq.
  - destruct (proj2 Hcs) as [e' He']; [by eauto|].
    rewrite He'. by rewrite (lookup_weaken _ _ _ _ He' Hsub) in He.
  - intros s'. rewrite Hss, Hs. naive_solver.
  - by rewrite Hrx.
  - rewrite Hqe, Hcap, length_app. lia.
Qed.

Lemma process_ready t0 t1 m g id e strs n lim' allow :
  let s := extract_stream_name (subject m) in
  decide_message t0 t1 s (g_limiter g) = (allow, lim') →
  let frames := if allow && bool_decide (s ∈ strs)
    then [encode_or_default (if is_binary e then rmp_serde else serde_json)
            (live_message serde_json rmp_serde s m)] else [] in
  let g' := process_nats_message serde_json rmp_serde t0 t1 m g in
  ready g id e strs (length frames + n) →
  ready g' id e strs n ∧
  queue (sender e) (g_channels g') = queue (sender e) (g_channels g) ++ frames ∧
  g_limiter g' = lim'.
Proof using Type*.
  intros s Hdec frames g' Hr. unfold g', process_nats_message. fold s.
  pose proof (rate_limit_frame t0 t1 s g) as (Hf1 & Hf2 & Hf3).
  pose proof (rate_limit_decision t0 t1 s g) as [Ha Hl]. rewrite Hdec in Ha, Hl.
  destruct (rate_limit_message t0 t1 s g) as [a g1]; simpl in *. subst a. destruct allow.
  - destruct (fan_out_ready s m g1 id e strs n) as (Hr' & Hq & Hlim).
    { by apply (ready_frame g). }
    split; [done|]. split; [by rewrite Hq, Hf2|congruence].
  - split; [by apply (ready_frame g)|]. split; [by rewrite app_nil_r, Hf2|done].
Qed.

Lemma update_lag_frame info g :
  g_registry (update_consumer_lag info g) = g_registry g ∧
  g_channels (update_consumer_lag info g) = g_channels g ∧
  g_limiter (update_consumer_lag info g) = g_limiter g.
Proof. by destruct info. Qed.

(** The whole loop, for a connection with room for the frames it gets and [n] more. *)
Lemma consumer_loop_ready evs g acks processed id e strs n :
  let frames := live_frames serde_json rmp_serde strs (is_binary e) evs (g_limiter g) in
  let g' := (consumer_loop serde_json rmp_serde evs g acks processed).1.2 in
  ready g id e strs (length frames + n) →
  ready g' id e strs n ∧
  queue (sender e) (g_channels g') = queue (sender e) (g_channels g) ++ frames ∧
  g_limiter g' = limiter_after evs (g_limiter g).
Proof using Type*.
  revert g acks processed.
  induction evs as [|[m t0 t1 info|er| |info] evs IH]; intros g acks processed;
    cbn [live_frames consumer_loop limiter_after fst snd];
    try (intros Hr; rewrite app_nil_r; by split_and!).
  - intros Hr. set (s := extract_stream_name (subject m)) in *.
    destruct (decide_message t0 t1 s (g_limiter g)) as [allow lim'] eqn:Ed.
    rewrite length_app, <- Nat.add_assoc in Hr.
    destruct (process_ready t0 t1 m g id e strs _ lim' allow Ed Hr) as (Hr' & Hq & Hl).
    set (g1 := process_nats_message serde_json rmp_serde t0 t1 m g) in *.
    set (p' := wrapping_add processed 1).
    set (g2 := if (p' mod 10000 =? 0)%Z then update_consumer_lag info g1 else g1).
    assert (g_registry g2 = g_registry g1 ∧ g_channels g2 = g_channels g1 ∧
            g_limiter g2 = g_limiter g1) as (F1 & F2 & F3).
    { unfold g2. destruct (p' mod 10000 =? 0)%Z; [apply update_lag_frame|done]. }
    specialize (IH g2 (acks ++ [m]) p'). cbv zeta in IH. rewrite F3, Hl in IH.
    destruct IH as (IHr & IHq & IHl); [by apply (ready_frame g1)|].
    split; [done|]. split; [|done]. rewrite IHq, F2, Hq, app_assoc. done.
  - intros Hr. destruct (update_lag_frame info g) as (F1 & F2 & F3).
    specialize (IH (update_consumer_lag info g) acks processed). cbv zeta in IH.
    rewrite F2, F3 in IH. apply IH. by apply (ready_frame g).
Qed.

(** C1. End to end, from JetStream to a connection's channel: while the consumer runs, a
    registered connection whose channel has room receives exactly one frame, in its own
    encoding, for every message on one of its streams that the rate limiter lets through,
    in the order the messages were consumed, and nothing else; it keeps its registration
    and its subscriptions whatever happens to the other connections. *)
Theorem live_delivery_exact evs g acks processed id e strs :
  let frames := live_frames serde_json rmp_serde strs (is_binary e) evs (g_limiter g) in
  let g' := (consumer_loop serde_json rmp_serde evs g acks processed).1.2 in
  ready g id e strs (length frames) →
  queue (sender e) (g_channels g') = queue (sender e) (g_channels g) ++ frames ∧
  connections (g_registry g') !! id = Some e ∧
  (∀ s, id ∈ subscribers (g_registry g') s ↔ s ∈ strs).
Proof using Type*.
  intros frames g' Hr.
  destruct (consumer_loop_ready evs g acks processed id e strs 0) as ([] & Hq & _);
    [by rewrite Nat.add_0_r|by split_and!].
Qed.

(** A rate-limited message changes nothing but the limiter's buckets, the token gauge and
    the per-stream drop counter, which goes up by one: no connection sees it, none is
    evicted for it, and it is not counted as fanned out. *)
Theorem rate_limited_message_dropped t_new t_now m g rl tokens rl' :
  let s := extract_stream_name (subject m) in
  g_limiter g = Some rl → check t_new t_now s rl = ((false, tokens), rl') →
  let g' := process_nats_message serde_json rmp_serde t_new t_now m g in
  g_registry g' = g_registry g ∧ g_channels g' = g_channels g ∧
  g_evictions g' = g_evictions g ∧ g_limiter g' = Some rl' ∧
  (∀ k, scalar (g_metrics g') k = scalar (g_metrics g) k) ∧
  stream_rate_limited_total (g_metrics g') =
    <[s := wrapping_add (default 0%Z (stream_rate_limited_total (g_metrics g) !! s)) 1]>
      (stream_rate_limited_total (g_metrics g)).
Proof.
  intros s Hl Hc g'. unfold g', process_nats_message, rate_limit_message. fold s.
  rewrite Hl, Hc. by destruct (tokens =? i64_max)%Z.
Qed.

(** Every message taken from JetStream is handed to an ack task, exactly once and in the
    order taken, whether it was fanned out or rate-limited, over any number of sessions. *)
Lemma fanout_sessions_acks node_id n ss g acks :
  (fanout_sessions serde_json rmp_serde node_id n ss g acks).2
    = acks ++ concat (map (session_taken node_id n) ss).
Proof.
  revert g acks. induction ss as [|c ss IH]; intros g acks; cbn [fanout_sessions];
    [by rewrite app_nil_r|].
  pose proof (run_consumer_acks serde_json rmp_serde node_id n c g acks) as Ha.
  destruct (run_consumer _ _ node_id n c g acks) as [[x g1] acks1]. simpl in Ha. subst acks1.
  rewrite IH. cbn [map concat]. by rewrite app_assoc.
Qed.
End Delivery.

(** ** Witnesses *)

Definition demo_gateway : Gateway nat nat (gmap nat (BoundedQueue string))
    (gmap nat (BoundedQueue unit)) :=
  mkGateway demo_registry demo_outbound demo_evict no_metrics
    (Some (new_rate_limiter 1 1 ∅)).

Definition demo_events : list consumer_event :=
  [EvMessage (mkNatsMessage "TURBOCABLE.s" "" (Ok 1%Z)) 0 0 (Ok 0%Z);
   EvMessage (mkNatsMessage "TURBOCABLE.s" "" (Ok 2%Z)) 0 0 (Ok 0%Z);
   EvMessage (mkNatsMessage "TURBOCABLE.other" "" (Ok 3%Z)) 0 0 (Ok 0%Z)].

Lemma demo_ready : ready demo_gateway 2 (mkEntry 2 2 true) ["s"] 1.
Proof.
  split; [apply demo_registry_wf|apply demo_senders_distinct|reflexivity| |reflexivity
         |vm_compute; lia].
  intros s. unfold subscribers. cbn [g_registry demo_gateway].
  destruct (decide (s = "s")) as [->|Hs]; [vm_compute; set_solver|].
  assert (streams demo_registry !! s = None) as ->.
  { apply eq_None_not_Some. intros [l Hl%elem_of_map_to_list]. vm_compute in Hl. set_solver. }
  simpl. set_solver.
Qed.

(** Of two messages at one instant and a burst of 1, the connection gets the first. *)
Lemma live_delivery_exact_witness :
  queue (Msg := string) 2
    (g_channels (consumer_loop silent_lib silent_lib demo_events demo_gateway [] 0).1.2)
  = queue (Msg := string) 2 demo_outbound ++ [""].
Proof.
  exact (proj1 (live_delivery_exact silent_lib silent_lib demo_events demo_gateway [] 0 2
    (mkEntry 2 2 true) ["s"] demo_ready)).
Defined.

Lemma rate_limited_message_dropped_witness :
  let rl := (check 0 0 "s" (new_rate_limiter 1 1 ∅)).2 in
  let g := mkGateway demo_registry demo_outbound demo_evict no_metrics (Some rl) in
  g_registry (process_nats_message silent_lib silent_lib 0 0
    (mkNatsMessage "TURBOCABLE.s" "" (Ok 2%Z)) g) = demo_registry.
Proof.
  intros rl g.
  refine (proj1 (rate_limited_message_dropped silent_lib silent_lib 0 0
    (mkNatsMessage "TURBOCABLE.s" "" (Ok 2%Z)) g rl 0 (check 0 0 "s" rl).2 eq_refl _)).
  vm_compute. reflexivity.
Defined.
