(* ===== verification/Durable.v ===== *)
(** * The durable consumer ([run_consumer], [fanout_loop] of [src/pubsub/nats.rs])

    The gateway consumes through a durable JetStream consumer with explicit acknowledgments
    and reconnects when a session fails.  This file runs the sessions of [Consumer] against
    such a consumer: what it may hand out in a session and what it may take for acknowledged
    depends on the configuration the code asks for.  The theorem is delivery at least once. *)

From stdpp Require Import base list gmap strings fin_maps sets.
From Stdlib Require Import ZArith Lia.
From S2P Require Import Prelude Channels Config Protocol Float RateLimit Registry RegistrySpec Metrics Nats Json Consumer.

Local Open Scope string_scope.
Local Open Scope list_scope.
Local Open Scope nat_scope.

#[export] Instance nats_message_eq_dec : EqDecision NatsMessage.
Proof. solve_decision. Defined.

(** ** JetStream's side *)

(** What the server remembers of the consumer when a session starts: a consumer without a
    durable name is a new one. *)
Definition remembered (cfg : PullConfig) (acked : list NatsMessage) : list NatsMessage :=
  match durable_name cfg with Some _ => acked | None => [] end.

(** What the server may take for acknowledged: with explicit acknowledgments only what an
    ack was sent for, otherwise everything it delivered. *)
Definition ackable (cfg : PullConfig) (delivered acks : list NatsMessage) : list NatsMessage :=
  match ack_policy cfg with AckExplicit => acks | AckNone | AckAll => delivered end.

(** A session against the messages [stored]: it delivers messages that are not acknowledged,
    some of which ([buffered]) the session does not get to take; acks arrive or are lost. *)
Record session_of (cfg : PullConfig) (stored acked session_takes buffered acks acked' : list NatsMessage)
    : Prop := mkSessionOf {
  so_delivers m : m ∈ session_takes ++ buffered → m ∈ stored ∧ m ∉ remembered cfg acked;
  so_remembers m : m ∈ remembered cfg acked → m ∈ acked';
  so_acked m : m ∈ acked' →
    m ∈ remembered cfg acked ∨ m ∈ ackable cfg (session_takes ++ buffered) acks;
}.

Section Durable.
Context (serde_json rmp_serde : WireLib).
Context {Tx Ev HB HE : Type}.
Context `{MpscLaws string HB Tx} `{MpscLaws unit HE Ev}.
Context `{!EqDecision Tx} `{!EqDecision Ev}.
Context (node_id : string) (max_ack_pending : Z).
Implicit Types (g : Gateway Tx Ev HB HE) (stored acked acks : list NatsMessage).
Abbreviation cfg := (fanout_consumer ("gw_" +:+ node_id) max_ack_pending).
Abbreviation run := (run_consumer serde_json rmp_serde node_id max_ack_pending).
Abbreviation events := (session_events node_id max_ack_pending).
Abbreviation takes := (session_taken node_id max_ack_pending).

(** The gateway's sessions, one after the other, with the consumer between them. *)
Inductive durable_run stored
    : list ConsumerSession → list NatsMessage → Gateway Tx Ev HB HE → list NatsMessage →
      list NatsMessage → Gateway Tx Ev HB HE → list NatsMessage → Prop :=
| dr_nil acked g acks : durable_run stored [] acked g acks acked g acks
| dr_session s ss acked g acks x g1 acks1 buffered acked1 acked' g' acks' :
    run s g acks = (x, g1, acks1) →
    session_of cfg stored acked (takes s) buffered acks1 acked1 →
    durable_run stored ss acked1 g1 acks1 acked' g' acks' →
    durable_run stored (s :: ss) acked g acks acked' g' acks'.

(** The messages the sessions take, each with the rate limiter's decision. *)
Fixpoint decided (ss : list ConsumerSession) (lim : option StreamRateLimiter)
    : list (NatsMessage * bool) :=
  match ss with
  | [] => []
  | s :: ss' => zip (takes s) (decisions (events s) lim) ++ decided ss' (limiter_after (events s) lim)
  end.

Fixpoint sessions_frames (strs : list string) (binary : bool) (ss : list ConsumerSession)
    (lim : option StreamRateLimiter) : list string :=
  match ss with
  | [] => []
  | s :: ss' => live_frames serde_json rmp_serde strs binary (events s) lim ++
                sessions_frames strs binary ss' (limiter_after (events s) lim)
  end.

Lemma decisions_length evs lim : length (decisions evs lim) = length (taken evs).
Proof.
  revert lim. induction evs as [|[m t0 t1 i|er| |i] evs IH]; intros lim; cbn [decisions taken]; try done.
  destruct (decide_message _ _ _ _). cbn. by rewrite IH.
Qed.

Lemma decided_taken ss lim : (decided ss lim).*1 = concat (map takes ss).
Proof.
  revert lim. induction ss as [|s ss IH]; intros lim; [done|]. cbn [decided map concat].
  rewrite fmap_app, IH. f_equal. apply fst_zip. unfold session_taken. by rewrite decisions_length.
Qed.

(** A message that passes gives its frame to every subscriber. *)
Lemma live_frames_passed strs (binary : bool) evs lim m :
  (m, true) ∈ zip (taken evs) (decisions evs lim) → extract_stream_name (subject m) ∈ strs →
  encode_or_default (if binary then rmp_serde else serde_json)
    (live_message serde_json rmp_serde (extract_stream_name (subject m)) m)
  ∈ live_frames serde_json rmp_serde strs binary evs lim.
Proof.
  revert lim. induction evs as [|[m' t0 t1 i|er| |i] evs IH]; intros lim; cbn [taken decisions live_frames];
    try (by intros ?%not_elem_of_nil); [|apply IH].
  destruct (decide_message _ _ _ _) as [allow lim']. cbn [zip zip_with]. intros [Hm|Hm]%elem_of_cons Hs.
  - injection Hm as -> <-. rewrite bool_decide_eq_true_2 by done. by left.
  - apply elem_of_app. right. by apply IH.
Qed.

Lemma sessions_frames_passed strs (binary : bool) ss lim m :
  (m, true) ∈ decided ss lim → extract_stream_name (subject m) ∈ strs →
  encode_or_default (if binary then rmp_serde else serde_json)
    (live_message serde_json rmp_serde (extract_stream_name (subject m)) m)
  ∈ sessions_frames strs binary ss lim.
Proof.
  revert lim. induction ss as [|s ss IH]; intros lim; cbn [decided sessions_frames];
    [by intros ?%not_elem_of_nil|].
  rewrite !elem_of_app. intros [Hm|Hm] Hs; [left; by apply live_frames_passed|right; by apply IH].
Qed.

(** One session, for a connection with room. *)
Lemma run_consumer_ready s g acks id e strs n :
  let frames := live_frames serde_json rmp_serde strs (is_binary e) (events s) (g_limiter g) in
  let g' := (run s g acks).1.2 in
  ready g id e strs (length frames + n) →
  ready g' id e strs n ∧
  queue (sender e) (g_channels g') = queue (sender e) (g_channels g) ++ frames ∧
  g_limiter g' = limiter_after (events s) (g_limiter g).
Proof using Type*.
  unfold run_consumer, session_events. cbv zeta.
  destruct (update_lag_frame (cs_initial_info s) g) as (F1 & F2 & F3).
  destruct (cs_get_stream s),
    (cs_consumer s ("gw_" +:+ node_id) (fanout_consumer ("gw_" +:+ node_id) max_ack_pending)),
    (cs_messages s) as [evs|]; cbn [fst snd live_frames limiter_after];
    try (intros Hr; rewrite app_nil_r; by split_and!).
  - rewrite <- F3, <- F2. intros Hr.
    exact (consumer_loop_ready serde_json rmp_serde evs _ acks 0 id e strs n
      (ready_frame _ _ _ _ _ _ F1 F2 Hr)).
  - rewrite app_nil_r, F2, F3. intros Hr. split_and!; [by apply (ready_frame g)|done..].
Qed.

(** All sessions. *)
Lemma durable_run_ready stored ss acked g acks acked' g' acks' id e strs n :
  durable_run stored ss acked g acks acked' g' acks' →
  ready g id e strs (length (sessions_frames strs (is_binary e) ss (g_limiter g)) + n) →
  ready g' id e strs n ∧
  queue (sender e) (g_channels g') = queue (sender e) (g_channels g) ++
    sessions_frames strs (is_binary e) ss (g_limiter g).
Proof using Type*.
  induction 1 as [|s ss acked g acks x g1 acks1 buffered acked1 acked' g' acks' Hrun _ _ IH];
    cbn [sessions_frames]; [by rewrite app_nil_r|].
  rewrite length_app, <- Nat.add_assoc. intros (Hr & Hq & Hl)%(run_consumer_ready _ _ acks).
  rewrite Hrun in Hr, Hq, Hl. cbn [fst snd] in Hr, Hq, Hl. rewrite <- Hl in Hr.
  destruct (IH Hr) as [Hr' Hq']. split; [done|]. by rewrite Hq', Hq, Hl, app_assoc.
Qed.

Lemma durable_run_app stored ss1 ss2 acked g acks acked' g' acks' :
  durable_run stored (ss1 ++ ss2) acked g acks acked' g' acks' ↔
  ∃ acked1 g1 acks1, durable_run stored ss1 acked g acks acked1 g1 acks1 ∧
    durable_run stored ss2 acked1 g1 acks1 acked' g' acks'.
Proof.
  split.
  - revert acked g acks. induction ss1 as [|s ss1 IH]; intros acked g acks Hrun;
      [by exists acked, g, acks; split; [constructor|]|].
    inversion Hrun as [|????????????? Hs Hof Hrest]; subst.
    destruct (IH _ _ _ Hrest) as (a & b & c & Hl1 & Hl2). exists a, b, c. split; [by econstructor|done].
  - intros (acked1 & g1 & acks1 & Hl1 & Hl2). induction Hl1; [done|]. cbn. econstructor; eauto.
Qed.

(** The gateway's part of a run is [fanout_loop]. *)
Lemma durable_run_sessions stored ss acked g acks acked' g' acks' :
  durable_run stored ss acked g acks acked' g' acks' →
  fanout_sessions serde_json rmp_serde node_id max_ack_pending ss g acks = (g', acks').
Proof.
  induction 1 as [|s ss acked g acks x g1 acks1 ? ? ? ? ? Hrun]; [done|].
  cbn [fanout_sessions]. by rewrite Hrun.
Qed.

(** Nothing is acknowledged that no session took. *)
Lemma durable_run_acked stored ss acked g acks acked' g' acks' :
  durable_run stored ss acked g acks acked' g' acks' →
  (∀ m, m ∈ acked → m ∈ acks) →
  acks' = acks ++ concat (map takes ss) ∧ (∀ m, m ∈ acked' → m ∈ acks').
Proof.
  intros Hrun Ha. split.
  { by rewrite <- (fanout_sessions_acks serde_json rmp_serde _ _ _ g), (durable_run_sessions _ _ _ _ _ _ _ _ Hrun). }
  induction Hrun as [|s ss acked g acks x g1 acks1 buffered acked1 acked' g' acks' Hrun [_ _ Hof] _ IH];
    [done|]. apply IH. intros m [Hm|Hm]%Hof; [|done].
  pose proof (run_consumer_acks serde_json rmp_serde node_id max_ack_pending s g acks) as Hk.
  rewrite Hrun in Hk. cbn [snd] in Hk. rewrite Hk. apply elem_of_app. left. by apply Ha.
Qed.

(** C34. Delivery at least once, over reconnects.  The gateway consumes the stream in sessions;
    each may fail at any point, with messages delivered and not taken, and the acks it sent may
    arrive or not.  Whenever a session takes everything JetStream still counts as
    unacknowledged, every stored message has been taken and handed to an ack task by some
    session, and nothing else was: none is lost between sessions.  A connection subscribed
    throughout, with room, has the frame of every stored message of its streams, or the rate
    limiter dropped that message when it was taken.  And what JetStream counted as
    acknowledged before that session, the session does not take again. *)
Theorem consumed_at_least_once stored ss last g acked g1 acks x g' acks' buffered acked' id e strs :
  durable_run stored ss [] g [] acked g1 acks →
  run last g1 acks = (x, g', acks') →
  session_of cfg stored acked (takes last) buffered acks' acked' →
  (∀ m, m ∈ stored → m ∉ acked → m ∈ takes last) →
  ready g id e strs (length (sessions_frames strs (is_binary e) (ss ++ [last]) (g_limiter g))) →
  fanout_sessions serde_json rmp_serde node_id max_ack_pending (ss ++ [last]) g [] = (g', acks') ∧
  acks' = concat (map takes (ss ++ [last])) ∧
  (∀ m, m ∈ stored → m ∈ acks') ∧
  (∀ m, m ∈ stored → extract_stream_name (subject m) ∈ strs →
     encode_or_default (if is_binary e then rmp_serde else serde_json)
       (live_message serde_json rmp_serde (extract_stream_name (subject m)) m)
       ∈ queue (sender e) (g_channels g') ∨
     (m, false) ∈ decided (ss ++ [last]) (g_limiter g)) ∧
  (∀ m, m ∈ acked → m ∉ takes last).
Proof using Type*.
  intros Hrun Hlast Hof Hall Hr.
  assert (durable_run stored (ss ++ [last]) [] g [] acked' g' acks') as Hrun'.
  { apply durable_run_app. do 3 eexists. split; [done|]. econstructor; [done..|constructor]. }
  destruct (durable_run_acked _ _ _ _ _ _ _ _ Hrun) as [-> Hacked]; [by intros m ?%not_elem_of_nil|].
  destruct (durable_run_acked _ _ _ _ _ _ _ _ Hrun') as [-> _]; [by intros m ?%not_elem_of_nil|].
  assert (∀ m, m ∈ stored → m ∈ concat (map takes (ss ++ [last]))) as Htaken.
  { intros m Hm. rewrite map_app, concat_app. cbn [map concat]. rewrite app_nil_r. apply elem_of_app.
    destruct (decide (m ∈ acked)) as [Ha|Ha]; [left; by apply Hacked in Ha|right; by apply Hall]. }
  split_and!; [by eapply durable_run_sessions|done|done| |].
  - intros m Hm Hs. rewrite <- (Nat.add_0_r (length _)) in Hr.
    destruct (durable_run_ready _ _ _ _ _ _ _ _ _ _ _ _ Hrun' Hr) as [_ ->].
    apply Htaken in Hm. rewrite <- (decided_taken _ (g_limiter g)) in Hm.
    apply list_elem_of_fmap in Hm as ([? [|]] & -> & Hm); [left|by right].
    apply elem_of_app. right. by apply sessions_frames_passed.
  - intros m Ha Ht. destruct Hof as [Hd _ _]. destruct (Hd m) as [_ []]; [|done].
    apply elem_of_app. by left.
Qed.
End Durable.

(** ** Witness *)

(** Three messages.  The first session takes two and fails while the third is on its way; the
    ack of the first arrives, that of the second is lost.  The second session finds no stream,
    the third takes what is not acknowledged. *)
Definition stored_1 : NatsMessage := mkNatsMessage "TURBOCABLE.s" "1" (Ok 1%Z).
Definition stored_2 : NatsMessage := mkNatsMessage "TURBOCABLE.s" "2" (Ok 2%Z).
Definition stored_3 : NatsMessage := mkNatsMessage "TURBOCABLE.s" "3" (Ok 3%Z).

Definition arrives (m : NatsMessage) : consumer_event := EvMessage m 0 0 (Ok 0%Z).

Definition failing_session : ConsumerSession :=
  mkSession (Ok tt) (λ _ _, Ok tt) (Ok 3%Z)
    (Ok [arrives stored_1; arrives stored_2; EvError "connection lost"]).

Definition refused_session : ConsumerSession :=
  mkSession (Err "no responders") (λ _ _, Ok tt) (Ok 0%Z) (Ok []).

Definition last_session : ConsumerSession :=
  mkSession (Ok tt) (λ _ _, Ok tt) (Ok 2%Z) (Ok [arrives stored_2; arrives stored_3]).

Definition roomy_gateway : Gateway nat nat (gmap nat (BoundedQueue string))
    (gmap nat (BoundedQueue unit)) :=
  mkGateway demo_registry {[ 1 := fresh_queue 9; 2 := fresh_queue 9; 3 := fresh_queue 9 ]}
    demo_evict no_metrics None.

Lemma roomy_ready : ready roomy_gateway 1 (mkEntry 1 1 false) ["s"] 4.
Proof.
  split; [apply demo_registry_wf|apply demo_senders_distinct|reflexivity| |reflexivity
         |vm_compute; lia].
  intros s. unfold subscribers. cbn [g_registry roomy_gateway].
  destruct (decide (s = "s")) as [->|Hs]; [vm_compute; set_solver|].
  assert (streams demo_registry !! s = None) as ->.
  { apply eq_None_not_Some. intros [l Hl%elem_of_map_to_list]. vm_compute in Hl. set_solver. }
  simpl. set_solver.
Qed.

Abbreviation demo_run := (run_consumer json_lib silent_lib "n" 100).
Definition after_failing := demo_run failing_session roomy_gateway [].
Definition after_refused := demo_run refused_session after_failing.1.2 after_failing.2.
Definition after_last := demo_run last_session after_refused.1.2 after_refused.2.

Lemma session_of_lists cfg (stored acked takes buffered acks acked' : list NatsMessage) :
  Forall (λ m, m ∈ stored ∧ m ∉ remembered cfg acked) (takes ++ buffered) →
  Forall (λ m, m ∈ acked') (remembered cfg acked) →
  Forall (λ m, m ∈ remembered cfg acked ∨ m ∈ ackable cfg (takes ++ buffered) acks) acked' →
  session_of cfg stored acked takes buffered acks acked'.
Proof. rewrite !Forall_forall. by split. Qed.

Ltac by_lists := apply (bool_decide_unpack _); vm_compute; exact I.

Lemma consumed_at_least_once_witness :
  (∀ m, m ∈ [stored_1; stored_2; stored_3] → m ∈ [stored_1; stored_2; stored_2; stored_3]) ∧
  encode_or_default json_lib (live_message json_lib silent_lib "s" stored_3)
    ∈ queue (Msg := string) 1 (g_channels after_last.1.2).
Proof.
  destruct (consumed_at_least_once json_lib silent_lib "n" 100 [stored_1; stored_2; stored_3]
    [failing_session; refused_session] last_session roomy_gateway [stored_1] after_refused.1.2
    after_refused.2 after_last.1.1 after_last.1.2 after_last.2 [] [stored_1] 1 (mkEntry 1 1 false) ["s"])
    as (_ & _ & Ht & Hf & _).
  - eapply (dr_session _ _ _ _ _ _ _ _ _ _ after_failing.1.1 after_failing.1.2 after_failing.2 [stored_3] [stored_1]);
      [vm_compute; reflexivity|apply session_of_lists; by_lists|].
    eapply (dr_session _ _ _ _ _ _ _ _ _ _ after_refused.1.1 after_refused.1.2 after_refused.2 [] [stored_1]);
      [vm_compute; reflexivity|apply session_of_lists; by_lists|constructor].
  - vm_compute. reflexivity.
  - apply session_of_lists; by_lists.
  - apply (proj1 (Forall_forall (λ m, m ∉ [stored_1] → m ∈ session_taken "n" 100 last_session) _)).
    by_lists.
  - exact roomy_ready.
  - split; [exact Ht|]. destruct (Hf stored_3) as [H|H]; [by_lists..|exact H|].
    exfalso. revert H. by_lists.
Defined.
