(* ===== verification/Presence.v ===== *)
(** * Presence ([src/presence/mod.rs])

    The [TC_PRESENCE] bucket maps a key to the time of its last write; the server drops an
    entry [max_age] after it.  Times are seconds.  Whether a request reaches the server is
    part of the request, because the code only logs failures. *)

From stdpp Require Import base list gmap strings fin_maps.
From Stdlib Require Import ZArith Lia Ascii.
From S2P Require Import Prelude Text.

Local Open Scope string_scope.
Local Open Scope list_scope.
Local Open Scope Z_scope.
Local Arguments String.append !_ _ /.

Definition PRESENCE_BUCKET : string := "TC_PRESENCE".
Definition PRESENCE_TTL_SECS : Z := 30.
Definition HEARTBEAT_INTERVAL_SECS : Z := 25.

Definition presence_key (stream user_id : string) : string := stream +:+ "." +:+ user_id.

(** Opening the bucket: the existing one, else one created with the time-to-live. *)
Record BucketConfig : Type := mkBucketConfig {
  bucket : string;
  history : Z;
  max_age : Z;
}.

Record PresenceServer : Type := mkPresenceServer {
  ps_connect : result unit string;
  ps_get_key_value : string → result unit string;
  ps_create_key_value : BucketConfig → result unit string;
}.

(** [PresenceManager::connect]: its error text, and the bucket it asked to create. *)
Definition presence_connect (ps : PresenceServer) : result (option BucketConfig) string :=
  match ps_connect ps with
  | Err e => Err ("NATS connect for presence failed: " +:+ e)
  | Ok _ =>
      match ps_get_key_value ps PRESENCE_BUCKET with
      | Ok _ => Ok None
      | Err _ =>
          let cfg := mkBucketConfig PRESENCE_BUCKET 1 PRESENCE_TTL_SECS in
          match ps_create_key_value ps cfg with
          | Ok _ => Ok (Some cfg)
          | Err e => Err ("failed to create TC_PRESENCE bucket: " +:+ e)
          end
      end
  end.

(** ** The bucket *)

Abbreviation kv := (gmap string Z).

(** Whether a key is visible at time [now]. *)
Definition present (now : Z) (key : string) (b : kv) : bool :=
  match b !! key with
  | Some written => (now <? written + PRESENCE_TTL_SECS)
  | None => false
  end.

(** [put] and [delete] at time [now]; [ok] is whether the request succeeds. *)
Definition presence_put (now : Z) (ok : bool) (stream user_id : string) (b : kv) : kv :=
  if ok then <[presence_key stream user_id := now]> b else b.

Definition presence_delete (ok : bool) (stream user_id : string) (b : kv) : kv :=
  if ok then delete (presence_key stream user_id) b else b.

(** The heartbeat task started at time [start]: the [n]-th tick after the skipped one comes
    at [start + n * HEARTBEAT_INTERVAL_SECS] and writes the key. *)
Fixpoint heartbeat (start : Z) (n : nat) (stream user_id : string) (b : kv) : kv :=
  match n with
  | O => b
  | S n' => presence_put (start + Z.of_nat n * HEARTBEAT_INTERVAL_SECS) true stream user_id
              (heartbeat start n' stream user_id b)
  end.

(** The ticks that have fired by time [now]. *)
Definition ticks_by (start now : Z) : nat := Z.to_nat ((now - start) / HEARTBEAT_INTERVAL_SECS).

(** ** Lemmas *)

Lemma heartbeat_lookup start n s u b :
  heartbeat start n s u (presence_put start true s u b) !! presence_key s u
  = Some (start + Z.of_nat n * HEARTBEAT_INTERVAL_SECS).
Proof.
  destruct n as [|n]; cbn [heartbeat].
  - unfold presence_put. rewrite lookup_insert_eq. f_equal. lia.
  - unfold presence_put at 1. by rewrite lookup_insert_eq.
Qed.

Lemma heartbeat_other start n s u k b :
  k ≠ presence_key s u → heartbeat start n s u b !! k = b !! k.
Proof.
  intros Hk. induction n as [|n IH]; [done|]. cbn [heartbeat]. unfold presence_put at 1.
  by rewrite lookup_insert_ne.
Qed.

(** [occurs "." u = false]: the user id has no dot. *)
Lemma append_dot_inj s s' u u' :
  occurs "."%char u = false → occurs "."%char u' = false →
  s +:+ "." +:+ u = s' +:+ "." +:+ u' → s = s' ∧ u = u'.
Proof.
  intros Hu Hu'. revert s'. induction s as [|a s IH]; intros [|a' s'] Heq.
  - cbn in Heq. by injection Heq as ->.
  - cbn in Heq. injection Heq as <- Heq. exfalso. subst u. clear -Hu.
    induction s' as [|c s' IH]; cbn in Hu; [done|].
    by apply orb_false_iff in Hu as [_ Hu].
  - cbn in Heq. injection Heq as -> Heq. exfalso. subst u'. clear -Hu'.
    induction s as [|c s IH]; cbn in Hu'; [done|].
    by apply orb_false_iff in Hu' as [_ Hu'].
  - cbn in Heq. injection Heq as -> Heq. destruct (IH _ Heq) as [-> ->]. done.
Qed.

(** From subscribe to unsubscribe a user stays visible on the stream: with the key
    written at subscribe time and the heartbeat ticking, the key is present at every moment
    since, and no other key is touched. *)
Theorem heartbeat_keeps_presence start now stream user b :
  start ≤ now →
  let b' := heartbeat start (ticks_by start now) stream user (presence_put start true stream user b) in
  present now (presence_key stream user) b' = true ∧
  (∀ k, k ≠ presence_key stream user → b' !! k = b !! k).
Proof.
  intros Hle b'. split.
  - unfold present, b'. rewrite heartbeat_lookup. apply Z.ltb_lt.
    unfold ticks_by, PRESENCE_TTL_SECS, HEARTBEAT_INTERVAL_SECS.
    rewrite Z2Nat.id by (apply Z.div_pos; lia).
    pose proof (Z.div_mod (now - start) 25 ltac:(lia)).
    pose proof (Z.mod_pos_bound (now - start) 25 ltac:(lia)). lia.
  - intros k Hk. unfold b'. rewrite heartbeat_other by done. unfold presence_put.
    by rewrite lookup_insert_ne.
Qed.

Lemma heartbeat_keeps_presence_witness :
  present 1000 "room.alice"
    (heartbeat 0 (ticks_by 0 1000) "room" "alice" (presence_put 0 true "room" "alice" ∅)) = true.
Proof. apply (heartbeat_keeps_presence 0 1000 "room" "alice" ∅). lia. Defined.

(** Presence keys of distinct (stream, user) pairs are distinct as long as user ids have
    no dot, so one user's unsubscribe never deletes another's presence. *)
Lemma presence_keys_distinct s s' u u' :
  occurs "."%char u = false → occurs "."%char u' = false →
  presence_key s u = presence_key s' u' → s = s' ∧ u = u'.
Proof. unfold presence_key. apply append_dot_inj. Qed.

(** With a dot in a user id two different pairs share a key. *)
Example presence_key_collision : presence_key "a" "b.c" = presence_key "a.b" "c".
Proof. reflexivity. Qed.
