(* ===== verification/Handler.v ===== *)
(** * Client frames ([inbound_loop], [handle_client_frame], [dispatch_command] of
      [src/connection/handler.rs])

    One connection's inbound task.  Its local variables and the shared state it changes are
    a record ([World]); what it asks of the outside (frames queued on the live channel,
    replay tasks spawned, presence writes, published messages) is a log, in order.
    Awaiting a send on the live channel waits for room, so a send is one log entry. *)

From stdpp Require Import base list gmap strings fin_maps fin_map_dom sets.
From Stdlib Require Import ZArith Lia.
From S2P Require Import Prelude Text Config Protocol Jwt Registry RegistrySpec Metrics.

Local Open Scope string_scope.
Local Open Scope list_scope.
Local Open Scope nat_scope.

(** ** Data *)

Inductive ConnectionState : Type := AwaitingHello | Active.

#[export] Instance ConnectionState_eq_dec : EqDecision ConnectionState.
Proof. solve_decision. Defined.

(** [ConnContext]: what is fixed for the lifetime of a connection.  Its senders are the
    destinations of the log's entries. *)
Record ConnContext : Type := mkCtx {
  ctx_conn_id : Z;
  ctx_codec : Codec;
  ctx_allowed_streams : list string;
  ctx_user_id : option string;
}.

(** The parts of [AppState] the inbound task reads: the enforcement phase, and whether the
    NATS consumer and the presence manager are there. *)
Record AppEnv : Type := mkEnv {
  env_enforcement : ReplayEnforcement;
  env_nats : bool;
  env_presence : bool;
}.

Inductive effect : Type :=
| SendLive (frame : string)
| SpawnReplay (identifier : string) (last_seq : Z)
| PresencePut (stream user_id : string)
| PresenceDelete (stream user_id : string)
| PublishMsg (identifier data : string).

(** [w_heartbeats] maps a stream to the handle of its heartbeat task; [w_tasks] are the
    heartbeat tasks of this connection that are running. *)
Record World (Tx Ev : Type) : Type := mkWorld {
  w_registry : Registry Tx Ev;
  w_metrics : Metrics;
  w_conn_state : ConnectionState;
  w_replay_capable : bool;
  w_last_seq : option Z;
  w_heartbeats : gmap string nat;
  w_tasks : gmap nat (string * string);
  w_next_task : nat;
  w_log : list effect;
}.
Arguments mkWorld {Tx Ev}.
Arguments w_registry {Tx Ev}.
Arguments w_metrics {Tx Ev}.
Arguments w_conn_state {Tx Ev}.
Arguments w_replay_capable {Tx Ev}.
Arguments w_last_seq {Tx Ev}.
Arguments w_heartbeats {Tx Ev}.
Arguments w_tasks {Tx Ev}.
Arguments w_next_task {Tx Ev}.
Arguments w_log {Tx Ev}.

(** ** Stream keys *)

(** [Value::get(key)] on a parsed value: only objects have members. *)
Fixpoint member (key : string) (l : list (string * value)) : option value :=
  match l with
  | [] => None
  | (k, v) :: l' => if decide (k = key) then Some v else member key l'
  end.

Definition value_get (key : string) (v : value) : option value :=
  match v with VObj l => member key l | _ => None end.

(** [stream_key_from_identifier]; [from_str::<Value>] is [wire_parse] followed by the
    collection into a [Value]. *)
Definition stream_key_from_identifier (serde_json : WireLib) (identifier : string) : string :=
  match wire_parse serde_json identifier with
  | Ok v =>
      match value_get "stream" (to_json_value v) ≫= as_string with
      | Some s =>
          match find s identifier with
          | Some start => String.substring start (String.length s) identifier
          | None => identifier
          end
      | None => identifier
      end
  | Err _ => identifier
  end.

(** ** Operations *)

Section Operations.
Context {Tx Ev : Type} (serde_json : WireLib) (ctx : ConnContext) (env : AppEnv).
Abbreviation world := (World Tx Ev).
Abbreviation key_of := (stream_key_from_identifier serde_json).

Definition on_registry (f : Registry Tx Ev → Registry Tx Ev) (w : world) : world :=
  mkWorld (f (w_registry w)) (w_metrics w) (w_conn_state w) (w_replay_capable w) (w_last_seq w)
    (w_heartbeats w) (w_tasks w) (w_next_task w) (w_log w).

Definition on_metrics (f : Metrics → Metrics) (w : world) : world :=
  mkWorld (w_registry w) (f (w_metrics w)) (w_conn_state w) (w_replay_capable w) (w_last_seq w)
    (w_heartbeats w) (w_tasks w) (w_next_task w) (w_log w).

Definition set_conn_state (st : ConnectionState) (w : world) : world :=
  mkWorld (w_registry w) (w_metrics w) st (w_replay_capable w) (w_last_seq w)
    (w_heartbeats w) (w_tasks w) (w_next_task w) (w_log w).

Definition emit (e : effect) (w : world) : world :=
  mkWorld (w_registry w) (w_metrics w) (w_conn_state w) (w_replay_capable w) (w_last_seq w)
    (w_heartbeats w) (w_tasks w) (w_next_task w) (w_log w ++ [e]).

Definition set_heartbeats (hb : gmap string nat) (tasks : gmap nat (string * string))
    (next : nat) (w : world) : world :=
  mkWorld (w_registry w) (w_metrics w) (w_conn_state w) (w_replay_capable w) (w_last_seq w)
    hb tasks next (w_log w).

(** [if let Ok(frame) = codec.encode(&msg) { let _ = live_tx.send(frame).await; }] *)
Definition send_encoded (msg : ServerMessage) (w : world) : world :=
  match encode (ctx_codec ctx) msg with Ok b => emit (SendLive b) w | Err _ => w end.

(** [heartbeats.insert(stream, presence.start_heartbeat(stream, user))]: a replaced handle is
    dropped, which aborts its task. *)
Definition insert_heartbeat (stream uid : string) (w : world) : world :=
  let h := w_next_task w in
  let tasks := <[h := (stream, uid)]> (w_tasks w) in
  let tasks' := match w_heartbeats w !! stream with
                | Some old => delete old tasks
                | None => tasks
                end in
  set_heartbeats (<[stream := h]> (w_heartbeats w)) tasks' (S h) w.

(** [heartbeats.remove(stream)]: the dropped handle aborts its task. *)
Definition remove_heartbeat (stream : string) (w : world) : world :=
  match w_heartbeats w !! stream with
  | Some h => set_heartbeats (delete stream (w_heartbeats w)) (delete h (w_tasks w))
                (w_next_task w) w
  | None => w
  end.

(** The presence block of a subscribe. *)
Definition presence_join (identifier : string) (w : world) : world :=
  match ctx_user_id ctx, env_presence env with
  | Some uid, true => insert_heartbeat identifier uid (emit (PresencePut identifier uid) w)
  | _, _ => w
  end.

(** The presence block of an unsubscribe. *)
Definition presence_leave (identifier : string) (w : world) : world :=
  match ctx_user_id ctx, env_presence env with
  | Some uid, true => emit (PresenceDelete identifier uid) (remove_heartbeat identifier w)
  | _, _ => w
  end.

(** The end of a subscribe: a replay task when the client resumes, else the confirm. *)
Definition replay_or_confirm (identifier : string) (w : world) : world :=
  match w_last_seq w, env_nats env with
  | Some seq, true => emit (SpawnReplay identifier seq) w
  | _, _ => send_encoded (ConfirmSubscription identifier) w
  end.

Definition dispatch_subscribe (identifier : string) (w : world) : world :=
  if rejects_non_replay_subscribe (env_enforcement env) && negb (w_replay_capable w) then
    send_encoded (RejectSubscription identifier)
      (on_metrics (inc handshake_rejected_non_replay_capable_total) w)
  else
    let w1 := if bool_decide (env_enforcement env = SoftEnforce) && negb (w_replay_capable w)
              then on_metrics (inc handshake_soft_non_replay_subscribe_allowed_total) w
              else w in
    if negb (is_allowed (ctx_allowed_streams ctx) identifier) then
      send_encoded (RejectSubscription identifier) w1
    else
      let w2 := on_registry (subscribe (ctx_conn_id ctx) (key_of identifier)) w1 in
      replay_or_confirm identifier (presence_join identifier w2).

Definition dispatch_unsubscribe (identifier : string) (w : world) : world :=
  presence_leave identifier
    (on_registry (unsubscribe (ctx_conn_id ctx) (key_of identifier)) w).

Definition dispatch_message (identifier data : string) (w : world) : world :=
  if env_nats env then emit (PublishMsg identifier data) w else w.

Definition dispatch_command (cmd : ClientCommand) (w : world) : world :=
  match cmd with
  | Subscribe identifier => dispatch_subscribe identifier w
  | Unsubscribe identifier => dispatch_unsubscribe identifier w
  | ClientMessage identifier data => dispatch_message identifier data w
  end.

(** A hello sets the session variables and counts. *)
Definition handle_hello (hello : HelloCommand) (w : world) : world :=
  let w1 := mkWorld (w_registry w) (w_metrics w) Active (is_replay_capable hello)
              (last_seq hello) (w_heartbeats w) (w_tasks w) (w_next_task w) (w_log w) in
  let w2 := if match last_seq hello with Some s => (0 <? s)%Z | None => false end
            then on_metrics (inc client_reconnect_handshake_total) w1 else w1 in
  on_metrics (inc (if is_replay_capable hello then handshake_ok_replay_capable_total
                   else handshake_ok_legacy_total)) w2.

(** A command: the handshake state decides before it is dispatched. *)
Definition handle_command (cmd : ClientCommand) (w : world) : world :=
  if bool_decide (w_conn_state w = AwaitingHello) then
    if requires_hello_first (env_enforcement env) then
      let w1 := on_metrics (inc handshake_rejected_total) w in
      match cmd with
      | Subscribe identifier => send_encoded (RejectSubscription identifier) w1
      | _ => w1
      end
    else
      dispatch_command cmd
        (set_conn_state Active (on_metrics (inc handshake_legacy_warn_total) w))
  else dispatch_command cmd w.

Definition handle_client_frame (data : string) (w : world) : world :=
  match decode (ctx_codec ctx) data with
  | Err _ => w
  | Ok (Hello hello) => handle_hello hello w
  | Ok (Command cmd) => handle_command cmd w
  end.

(** ** The inbound loop *)

(** What the [select!] resolves to.  A tick carries the clock and whether the live channel
    still takes the ping. *)
Inductive inbound_event : Type :=
| InFrame (data : string)
| InControl
| InClosed
| InError (e : string)
| InTick (ts : Z) (accepted : bool)
| InShutdown.

(** The loop: whether it was left, and the state. *)
Fixpoint inbound_run (evs : list inbound_event) (w : world) : bool * world :=
  match evs with
  | [] => (false, w)
  | InFrame data :: evs' => inbound_run evs' (handle_client_frame data w)
  | InControl :: evs' => inbound_run evs' w
  | InClosed :: _ | InError _ :: _ | InShutdown :: _ => (true, w)
  | InTick ts accepted :: evs' =>
      match encode (ctx_codec ctx) (Ping ts) with
      | Ok ping => if accepted then inbound_run evs' (emit (SendLive ping) w) else (true, w)
      | Err _ => inbound_run evs' w
      end
  end.

(** After the loop: the presence of every remaining stream is deleted, and dropping the
    heartbeat map aborts every task in it.  This is the inbound task's own part; the heartbeat
    tasks run until the drop, and [PresenceLife] has their writes between the deletes. *)
Definition inbound_cleanup (w : world) : world :=
  let w1 := match ctx_user_id ctx, env_presence env with
            | Some uid, true =>
                fold_left (λ w stream, emit (PresenceDelete stream uid) w)
                  (map_to_list (w_heartbeats w)).*1 w
            | _, _ => w
            end in
  set_heartbeats ∅ (fold_left (λ t h, delete h t) (map_to_list (w_heartbeats w)).*2 (w_tasks w))
    (w_next_task w) w1.

Definition inbound_loop (evs : list inbound_event) (w : world) : bool * world :=
  let '(ended, w') := inbound_run evs w in
  (ended, if ended then inbound_cleanup w' else w').
End Operations.
