(* ===== verification/HandlerSpec.v ===== *)
(** * What the inbound task guarantees

    The functional behaviour of a subscribe on every branch, and invariants of whole
    sessions: a session is a sequence of the connection's own steps interleaved with
    registry operations of the rest of the gateway. *)

From stdpp Require Import base list gmap strings fin_maps fin_map_dom sets.
From Stdlib Require Import ZArith Lia.
From S2P Require Import Prelude Text Config Protocol Jwt Registry RegistrySpec Metrics Handler.

Local Open Scope string_scope.
Local Open Scope list_scope.
Local Open Scope nat_scope.

(** ** Stream keys *)

(** The ["stream"] member of an identifier that is a JSON object. *)
Definition identifier_stream (serde_json : WireLib) (identifier : string) : option string :=
  match wire_parse serde_json identifier with
  | Ok v => value_get "stream" (to_json_value v) ≫= as_string
  | Err _ => None
  end.

(** The stream key of an identifier is its ["stream"] member when that occurs literally
    in it (an escaped one does not), and the identifier itself otherwise. *)
Lemma stream_key_spec (serde_json : WireLib) (identifier : string) :
  stream_key_from_identifier serde_json identifier =
  match identifier_stream serde_json identifier with
  | Some s => match find s identifier with Some _ => s | None => identifier end
  | None => identifier
  end.
Proof.
  unfold stream_key_from_identifier, identifier_stream.
  destruct (wire_parse serde_json identifier) as [v|]; [|done].
  destruct (value_get "stream" (to_json_value v) ≫= as_string) as [s|]; [|done].
  destruct (find s identifier) as [i|] eqn:E; [|done]. by apply find_substring.
Qed.

(** ** Sessions *)

Section Sessions.
Context {Tx Ev : Type} (serde_json : WireLib) (ctx : ConnContext) (env : AppEnv).
Implicit Types (w : World Tx Ev) (r : Registry Tx Ev).
Abbreviation id := (ctx_conn_id ctx).
Abbreviation key_of := (stream_key_from_identifier serde_json).

(** Registry operations of the other tasks: other connections come, go and subscribe, and
    the fan-out may deregister any connection, this one included. *)
Inductive others_step : Registry Tx Ev → Registry Tx Ev → Prop :=
| os_allocate r : others_step r (allocate_id r).2
| os_register r id' tx b ev :
    id' ≠ id → connections r !! id' = None → others_step r (register id' tx b ev r)
| os_deregister r id' : others_step r (deregister id' r)
| os_subscribe r id' s : id' ≠ id → others_step r (subscribe id' s r)
| os_unsubscribe r id' s : id' ≠ id → others_step r (unsubscribe id' s r).

Inductive session_step : World Tx Ev → World Tx Ev → Prop :=
| ss_frame w data : session_step w (handle_client_frame serde_json ctx env data w)
| ss_ping w b : session_step w (emit (SendLive b) w)
| ss_others w r' : others_step (w_registry w) r' → session_step w (on_registry (λ _, r') w).

(** The state [handle_socket] enters the inbound loop in. *)
Definition session_init w : Prop :=
  registry_wf (w_registry w) ∧ streams_of (w_registry w) id = [] ∧
  w_conn_state w = AwaitingHello ∧ w_replay_capable w = false ∧ w_last_seq w = None ∧
  w_heartbeats w = ∅ ∧ w_tasks w = ∅ ∧ w_log w = [].

(** *** What a frame does to the registry *)

Lemma send_encoded_registry msg w : w_registry (send_encoded ctx msg w) = w_registry w.
Proof. unfold send_encoded. by case_match. Qed.

Lemma presence_join_registry i w : w_registry (presence_join ctx env i w) = w_registry w.
Proof. unfold presence_join, insert_heartbeat. by repeat case_match. Qed.

Lemma presence_leave_registry i w : w_registry (presence_leave ctx env i w) = w_registry w.
Proof. unfold presence_leave, remove_heartbeat. by repeat case_match. Qed.

Lemma replay_or_confirm_registry i w : w_registry (replay_or_confirm ctx env i w) = w_registry w.
Proof.
  unfold replay_or_confirm. repeat case_match; rewrite ?send_encoded_registry; done.
Qed.

(** Whether a subscribe goes through: past the handshake, past the capability check, and
    authorized. *)
Definition accepts w (identifier : string) : bool :=
  negb (bool_decide (w_conn_state w = AwaitingHello) &&
        requires_hello_first (env_enforcement env)) &&
  negb (rejects_non_replay_subscribe (env_enforcement env) && negb (w_replay_capable w)) &&
  is_allowed (ctx_allowed_streams ctx) identifier.

Lemma handle_subscribe_registry i w :
  w_registry (handle_command serde_json ctx env (Subscribe i) w) =
  if accepts w i then subscribe id (key_of i) (w_registry w) else w_registry w.
Proof.
  unfold handle_command, accepts, dispatch_command, dispatch_subscribe.
  destruct (bool_decide (w_conn_state w = AwaitingHello)); cbn [andb negb w_replay_capable
    set_conn_state on_metrics]; [destruct (requires_hello_first _)|]; cbn [andb negb];
    rewrite ?send_encoded_registry; try done;
    (destruct (_ && negb (w_replay_capable w)); cbn [negb andb];
     [by rewrite send_encoded_registry|]);
    (destruct (is_allowed _ _); cbn [negb andb];
     [rewrite replay_or_confirm_registry, presence_join_registry
     |rewrite send_encoded_registry]);
    by destruct (bool_decide _ && _).
Qed.

(** A frame leaves the registry alone, or subscribes an authorized identifier in a state that
    accepts it, or unsubscribes. *)
Lemma handle_frame_registry data w :
  let r' := w_registry (handle_client_frame serde_json ctx env data w) in
  r' = w_registry w ∨
  (∃ i, decode (ctx_codec ctx) data = Ok (Command (Subscribe i)) ∧ accepts w i = true ∧
        r' = subscribe id (key_of i) (w_registry w)) ∨
  (∃ i, r' = unsubscribe id (key_of i) (w_registry w)).
Proof.
  cbv zeta. unfold handle_client_frame.
  destruct (decode (ctx_codec ctx) data) as [[h|[i|i|i d]]|] eqn:Ed; [| | | |by left].
  - left. unfold handle_hello. by repeat case_match.
  - rewrite handle_subscribe_registry. destruct (accepts w i) eqn:Ea; [|by left].
    right; left. eauto.
  - unfold handle_command, dispatch_command, dispatch_unsubscribe.
    destruct (bool_decide _); [destruct (requires_hello_first _)|]; [by left| |];
      right; right; exists i; by rewrite presence_leave_registry.
  - left. unfold handle_command, dispatch_command, dispatch_message.
    by repeat case_match.
Qed.

(** A frame only adds to the log. *)
Lemma handle_frame_log data w :
  w_log w `prefix_of` w_log (handle_client_frame serde_json ctx env data w).
Proof.
  unfold handle_client_frame, handle_hello, handle_command, dispatch_command, dispatch_subscribe,
    dispatch_unsubscribe, dispatch_message, replay_or_confirm, presence_join, presence_leave,
    insert_heartbeat, remove_heartbeat, send_encoded.
  repeat case_match; cbn; rewrite <- ?app_assoc; first [done|by eexists].
Qed.

(** What one event of the inbound loop does, when the loop goes on. *)
Lemma inbound_event_cases ev w w' :
  inbound_run serde_json ctx env [ev] w = (false, w') →
  w' = w ∨ (∃ data, w' = handle_client_frame serde_json ctx env data w) ∨
  ∃ b, w' = emit (SendLive b) w.
Proof.
  destruct ev as [data| | |er|ts accepted|]; cbn; try done.
  - intros [= <-]. eauto.
  - intros [= <-]. by left.
  - case_match; [destruct accepted; [|done]|]; intros [= <-]; eauto.
Qed.

Lemma inbound_event_registry ev w w' :
  inbound_run serde_json ctx env [ev] w = (false, w') →
  w_log w `prefix_of` w_log w' ∧ connections (w_registry w') = connections (w_registry w) ∧
  (registry_wf (w_registry w) → registry_wf (w_registry w')).
Proof.
  intros [->|[[data ->]|[b ->]]]%inbound_event_cases; [done| |by split; [eexists|]].
  split; [apply handle_frame_log|].
  destruct (handle_frame_registry data w) as [->|[(i & _ & _ & ->)|(i & ->)]]; [done| |].
  - split; [|apply subscribe_wf]. unfold subscribe. by repeat case_match.
  - split; [|apply unsubscribe_wf]. apply unsubscribe_spec.
Qed.

(** *** Streams of the connection *)

Lemma subscribe_streams_of id' s r x :
  x ∈ streams_of (subscribe id' s r) id → x ∈ streams_of r id ∨ (id' = id ∧ x = s).
Proof.
  unfold subscribe. destruct (conn_streams r !! id') as [strs|] eqn:E; [|by left].
  case_decide; [by left|]. unfold streams_of; cbn.
  destruct (decide (id' = id)) as [->|Hne]; [|rewrite lookup_insert_ne by done; by left].
  rewrite lookup_insert_eq, E; cbn. rewrite elem_of_app, list_elem_of_singleton. naive_solver.
Qed.

Lemma unsubscribe_streams_of id' s r x :
  x ∈ streams_of (unsubscribe id' s r) id → x ∈ streams_of r id.
Proof.
  pose proof (unsubscribe_spec id' s r) as (_ & _ & _ & Hcs & _).
  unfold streams_of. rewrite Hcs, lookup_alter. case_decide as Hid; [|done].
  rewrite Hid. destruct (conn_streams r !! id); cbn; [|done]. rewrite elem_of_retain_ne. naive_solver.
Qed.

Lemma deregister_streams_of id' r x :
  registry_wf r → x ∈ streams_of (deregister id' r) id → x ∈ streams_of r id.
Proof.
  intros Hwf. pose proof (deregister_spec id' r Hwf) as (_ & Hcs & _).
  unfold streams_of. rewrite Hcs. destruct (decide (id' = id)) as [->|].
  - rewrite lookup_delete_eq. cbn. by rewrite elem_of_nil.
  - by rewrite lookup_delete_ne.
Qed.

Lemma others_step_ok r r' :
  registry_wf r → others_step r r' →
  registry_wf r' ∧ ∀ x, x ∈ streams_of r' id → x ∈ streams_of r id.
Proof.
  intros Hwf Hstep. inversion Hstep; subst; split; eauto with gw.
  - intros x. unfold streams_of, register; cbn. by rewrite lookup_insert_ne.
  - intros x. by apply deregister_streams_of.
  - intros x [?|[? _]]%subscribe_streams_of; [done|congruence].
  - intros x. apply unsubscribe_streams_of.
Qed.

Definition is_send (e : effect) : Prop := match e with SendLive _ => True | _ => False end.

(** Before the hello, in an enforcing phase, a command only gets an answer. *)
Lemma handle_command_gated cmd w :
  requires_hello_first (env_enforcement env) = true → w_conn_state w = AwaitingHello →
  let w' := handle_command serde_json ctx env cmd w in
  w_registry w' = w_registry w ∧ w_conn_state w' = AwaitingHello ∧
  w_heartbeats w' = w_heartbeats w ∧ w_tasks w' = w_tasks w ∧
  ∃ ext, w_log w' = w_log w ++ ext ∧ Forall is_send ext.
Proof.
  intros He Hs. unfold handle_command. rewrite bool_decide_eq_true_2, He by done. cbv zeta.
  unfold send_encoded. destruct cmd as [i|i|i d]; [case_match|..]; cbn; split_and!; try done.
  all: first [by exists []; rewrite app_nil_r|eexists; split; [done|by repeat constructor]].
Qed.

(** *** Session invariant *)

Record session_inv w : Prop := mkSessionInv {
  si_wf : registry_wf (w_registry w);
  si_authorized : ∀ s, s ∈ streams_of (w_registry w) id →
    ∃ i, is_allowed (ctx_allowed_streams ctx) i = true ∧ key_of i = s;
  si_gated : requires_hello_first (env_enforcement env) = true →
    w_conn_state w = AwaitingHello →
    streams_of (w_registry w) id = [] ∧ Forall is_send (w_log w);
}.

Lemma streams_of_shrink_nil r r' :
  (∀ x, x ∈ streams_of r' id → x ∈ streams_of r id) → streams_of r id = [] →
  streams_of r' id = [].
Proof.
  intros Hsub Hnil. destruct (streams_of r' id) as [|x l] eqn:E; [done|].
  specialize (Hsub x). rewrite Hnil in Hsub. exfalso. eapply not_elem_of_nil, Hsub. by left.
Qed.

Lemma session_inv_frame data w :
  session_inv w → session_inv (handle_client_frame serde_json ctx env data w).
Proof.
  intros [Hwf Hauth Hgate].
  pose proof (handle_frame_registry data w) as Hreg. cbv zeta in Hreg.
  set (w' := handle_client_frame serde_json ctx env data w) in *.
  assert (registry_wf (w_registry w')) as Hwf'.
  { destruct Hreg as [->|[(i & _ & _ & ->)|(i & ->)]]; auto with gw. }
  split; [done| |].
  - intros s Hs. destruct Hreg as [Hr|[(i & _ & Ha & Hr)|(i & Hr)]]; rewrite Hr in Hs.
    + auto.
    + apply subscribe_streams_of in Hs as [?|[_ ->]]; [auto|]. exists i. split; [|done].
      unfold accepts in Ha. by apply andb_true_iff in Ha as [_ ?].
    + apply unsubscribe_streams_of in Hs. auto.
  - intros He Hst. unfold w', handle_client_frame in Hst |- *.
    destruct (decode (ctx_codec ctx) data) as [[h|cmd]|].
    + exfalso. revert Hst. unfold handle_hello. repeat case_match; cbn; congruence.
    + destruct (decide (w_conn_state w = AwaitingHello)) as [Hw|Hw].
      * destruct (handle_command_gated cmd w He Hw) as (-> & _ & _ & _ & ext & -> & Hext).
        destruct (Hgate He Hw). split; [done|]. by apply Forall_app.
      * exfalso. revert Hst. unfold handle_command. rewrite bool_decide_eq_false_2 by done.
        intros Hst. apply Hw. revert Hst.
        unfold dispatch_command, dispatch_subscribe, dispatch_unsubscribe, dispatch_message,
          replay_or_confirm, presence_join, presence_leave, insert_heartbeat,
          remove_heartbeat, send_encoded.
        repeat case_match; cbn; done.
    + auto.
Qed.

Lemma session_inv_step w w' : session_inv w → session_step w w' → session_inv w'.
Proof.
  intros Hinv Hstep. inversion Hstep as [? data|? b|? r' Ho]; subst.
  - by apply session_inv_frame.
  - destruct Hinv as [Hwf Ha Hg]. split; [done|done|]. cbn. intros He Hs.
    destruct (Hg He Hs). split; [done|]. apply Forall_app. split; [done|by repeat constructor].
  - destruct Hinv as [Hwf Ha Hg]. destruct (others_step_ok _ _ Hwf Ho) as [Hwf' Hsub].
    split; cbn; [done|auto|]. intros He Hs. destruct (Hg He Hs). split; [|done].
    by eapply streams_of_shrink_nil.
Qed.

Lemma session_inv_reachable w :
  reachable session_init session_step w → session_inv w.
Proof.
  apply reachable_invariant; [|apply session_inv_step].
  intros w0 (Hwf & Hnil & _ & _ & _ & _ & _ & Hlog). split; [done| |].
  - intros s. rewrite Hnil. by intros ?%not_elem_of_nil.
  - intros _ _. by rewrite Hlog.
Qed.

(** *** Heartbeats and presence *)

(** The streams whose last presence write in the log is a put. *)
Definition presence_write (p : gset string) (e : effect) : gset string :=
  match e with
  | PresencePut s _ => {[s]} ∪ p
  | PresenceDelete s _ => p ∖ {[s]}
  | _ => p
  end.

Definition present_after (log : list effect) : gset string := fold_left presence_write log ∅.

#[local] Arguments present_after : simpl never.

Lemma present_after_app log log' :
  present_after (log ++ log') = fold_left presence_write log' (present_after log).
Proof. unfold present_after. by rewrite fold_left_app. Qed.

(** The heartbeat map, the running tasks and the presence entries describe the same streams. *)
Record heartbeat_inv w : Prop := mkHbInv {
  hi_map : ∀ s h, w_heartbeats w !! s = Some h →
    ∃ uid, ctx_user_id ctx = Some uid ∧ env_presence env = true ∧
           w_tasks w !! h = Some (s, uid);
  hi_tasks : ∀ h p, w_tasks w !! h = Some p → w_heartbeats w !! p.1 = Some h;
  hi_fresh : ∀ h p, w_tasks w !! h = Some p → h < w_next_task w;
  hi_present : present_after (w_log w) = dom (w_heartbeats w);
}.

(** The steps that touch neither heartbeats nor presence. *)
Lemma heartbeat_inv_frame w w' :
  w_heartbeats w' = w_heartbeats w → w_tasks w' = w_tasks w →
  w_next_task w' = w_next_task w → present_after (w_log w') = present_after (w_log w) →
  heartbeat_inv w → heartbeat_inv w'.
Proof. intros H1 H2 H3 H4 []. split; by rewrite ?H1, ?H2, ?H3, ?H4. Qed.

Lemma heartbeat_inv_emit e w :
  (∀ p, presence_write p e = p) → heartbeat_inv w → heartbeat_inv (emit e w).
Proof.
  intros He. apply heartbeat_inv_frame; [done..|]. cbn. by rewrite present_after_app; cbn.
Qed.

Lemma heartbeat_inv_send msg w : heartbeat_inv w → heartbeat_inv (send_encoded ctx msg w).
Proof. unfold send_encoded. case_match; [|done]. by apply heartbeat_inv_emit. Qed.

(** The tasks after a heartbeat is started: the new one, and the old ones of the other
    streams. *)
Lemma insert_heartbeat_tasks i uid w k p :
  heartbeat_inv w →
  w_tasks (insert_heartbeat i uid w) !! k = Some p ↔
  (k = w_next_task w ∧ p = (i, uid)) ∨ (w_tasks w !! k = Some p ∧ p.1 ≠ i).
Proof.
  intros [Hm Ht Hf Hp]. unfold insert_heartbeat; cbn. set (h := w_next_task w).
  assert (w_tasks w !! h = None) as Hfree.
  { apply eq_None_not_Some. intros [q Hh%Hf]. unfold h in Hh. lia. }
  destruct (w_heartbeats w !! i) as [old|] eqn:Eo.
  - destruct (Hm _ _ Eo) as (? & _ & _ & Hold).
    assert (old ≠ h) by congruence.
    rewrite lookup_delete_Some, lookup_insert_Some. split.
    + intros (Hne & [[<- <-]|[Hk Hp']]); [by left|]. right. split; [done|].
      intros Hi. apply Ht in Hp' as Hp''. rewrite Hi, Eo in Hp''. congruence.
    + intros [[-> ->]|[Hp' Hi]]; [naive_solver|]. split; [|naive_solver].
      intros <-. rewrite Hold in Hp'. by simplify_eq/=.
  - rewrite lookup_insert_Some. split.
    + intros [[<- <-]|[Hk Hp']]; [by left|]. right. split; [done|].
      intros Hi. apply Ht in Hp'. congruence.
    + intros [[-> ->]|[Hp' Hi]]; naive_solver.
Qed.

(** The tasks after a heartbeat is stopped: those of the other streams. *)
Lemma remove_heartbeat_tasks i w k p :
  heartbeat_inv w →
  w_tasks (remove_heartbeat i w) !! k = Some p ↔ w_tasks w !! k = Some p ∧ p.1 ≠ i.
Proof.
  intros [Hm Ht Hf Hp]. unfold remove_heartbeat. destruct (w_heartbeats w !! i) as [h|] eqn:Eh; cbn.
  - destruct (Hm _ _ Eh) as (u & _ & _ & Hth). rewrite lookup_delete_Some. split.
    + intros [Hne Hk]. split; [done|]. intros Hi. apply Ht in Hk. congruence.
    + intros [Hk Hi]. split; [|done]. intros <-. rewrite Hth in Hk. by simplify_eq/=.
  - split; [|naive_solver]. intros Hk. split; [done|]. intros Hi. apply Ht in Hk. congruence.
Qed.

Lemma heartbeat_inv_join i w : heartbeat_inv w → heartbeat_inv (presence_join ctx env i w).
Proof.
  unfold presence_join. destruct (ctx_user_id ctx) as [uid|] eqn:Eu; [|done].
  destruct (env_presence env) eqn:Ep; [|done]. intros Hinv.
  pose proof (λ k p, insert_heartbeat_tasks i uid w k p Hinv) as Ht'.
  destruct Hinv as [Hm Ht Hf Hp]. split; cbn.
  - intros s k. rewrite lookup_insert_Some. intros [[<- <-]|[Hne Hk]].
    + exists uid. split_and!; [done..|]. apply Ht'. by left.
    + destruct (Hm _ _ Hk) as (u & Hu & Hpr & Htk). exists u. split_and!; [done..|].
      apply Ht'. right. split; [done|]. cbn. done.
  - intros k p [[-> ->]|[Hp' Hi]]%Ht'; cbn; [by rewrite lookup_insert_eq|].
    rewrite lookup_insert_ne by done. by apply Ht.
  - intros k p [[-> ->]|[Hp' Hi]]%Ht'; [lia|]. apply Hf in Hp'. lia.
  - rewrite present_after_app, Hp, dom_insert_L. done.
Qed.

Lemma heartbeat_inv_leave i w : heartbeat_inv w → heartbeat_inv (presence_leave ctx env i w).
Proof.
  unfold presence_leave. destruct (ctx_user_id ctx) as [uid|] eqn:Eu; [|done].
  destruct (env_presence env) eqn:Ep; [|done]. intros Hinv.
  pose proof (λ k p, remove_heartbeat_tasks i w k p Hinv) as Ht'.
  assert (w_heartbeats (remove_heartbeat i w) = delete i (w_heartbeats w) ∧
          w_next_task (remove_heartbeat i w) = w_next_task w ∧
          w_log (remove_heartbeat i w) = w_log w) as (Hh & Hn & Hl).
  { unfold remove_heartbeat. case_match; [done|]. by rewrite delete_id. }
  destruct Hinv as [Hm Ht Hf Hp]. split; cbn; rewrite ?Hh, ?Hn, ?Hl.
  - intros s k [Hne Hk]%lookup_delete_Some. destruct (Hm _ _ Hk) as (u & Hu & Hpr & Htk).
    exists u. split_and!; [done..|]. by apply Ht'.
  - intros k p [Hk Hne]%Ht'. rewrite lookup_delete_ne by done. by apply Ht.
  - intros k p [Hk _]%Ht'. by eapply Hf.
  - rewrite present_after_app, Hp; cbn. by rewrite dom_delete_L.
Qed.

Lemma heartbeat_inv_frame_step data w :
  heartbeat_inv w → heartbeat_inv (handle_client_frame serde_json ctx env data w).
Proof.
  intros Hinv.
  assert (∀ cmd w0, heartbeat_inv w0 →
            heartbeat_inv (dispatch_command serde_json ctx env cmd w0)) as Hdisp.
  { intros [i|i|i d] w0 Hi; cbn [dispatch_command].
    - unfold dispatch_subscribe.
      case_match; [by apply heartbeat_inv_send, (heartbeat_inv_frame w0)|].
      set (w1 := if bool_decide (env_enforcement env = SoftEnforce) && _ then _ else _).
      assert (heartbeat_inv w1) as Hi1.
      { unfold w1. case_match; [|done]. by apply (heartbeat_inv_frame w0). }
      case_match; [by apply heartbeat_inv_send|].
      unfold replay_or_confirm. set (w3 := presence_join _ _ _ _).
      assert (heartbeat_inv w3) as Hi3.
      { apply heartbeat_inv_join. by apply (heartbeat_inv_frame w1). }
      repeat case_match; [by apply heartbeat_inv_emit|by apply heartbeat_inv_send..].
    - unfold dispatch_unsubscribe. apply heartbeat_inv_leave.
      by apply (heartbeat_inv_frame w0).
    - unfold dispatch_message. case_match; [by apply heartbeat_inv_emit|done]. }
  unfold handle_client_frame. destruct (decode _ _) as [[h|cmd]|]; [| |done].
  - unfold handle_hello. apply (heartbeat_inv_frame w); repeat case_match; done.
  - unfold handle_command. repeat case_match;
      first [by apply Hdisp | by apply Hdisp, (heartbeat_inv_frame w)
            | by apply heartbeat_inv_send, (heartbeat_inv_frame w)
            | by apply (heartbeat_inv_frame w)].
Qed.

Lemma heartbeat_inv_reachable w :
  reachable session_init session_step w → heartbeat_inv w.
Proof.
  apply reachable_invariant.
  - intros w0 (_ & _ & _ & _ & _ & Hh & Ht & Hl). split; rewrite ?Hh, ?Ht, ?Hl.
    + intros ??. by rewrite lookup_empty.
    + intros ??. by rewrite lookup_empty.
    + intros ??. by rewrite lookup_empty.
    + by rewrite dom_empty_L.
  - intros w0 w1 Hinv Hstep. inversion Hstep; subst.
    + by apply heartbeat_inv_frame_step.
    + by apply heartbeat_inv_emit.
    + by apply (heartbeat_inv_frame w0).
Qed.

Lemma fold_emit_deletes uid (l : list string) w :
  let w' := fold_left (λ w stream, emit (PresenceDelete stream uid) w) l w in
  present_after (w_log w') = present_after (w_log w) ∖ list_to_set l.
Proof.
  revert w. induction l as [|s l IH]; intros w; cbn -[difference list_to_set].
  - cbn. set_solver.
  - rewrite IH. cbn. rewrite present_after_app. cbn. set_solver.
Qed.

Lemma fold_delete_tasks (l : list nat) (t : gmap nat (string * string)) h p :
  fold_left (λ t h, delete h t) l t !! h = Some p ↔ t !! h = Some p ∧ h ∉ l.
Proof.
  revert t. induction l as [|k l IH]; intros t; cbn; [set_solver|].
  rewrite IH, lookup_delete_Some, not_elem_of_cons. naive_solver.
Qed.

Lemma cleanup_no_tasks w : heartbeat_inv w → w_tasks (inbound_cleanup ctx env w) = ∅.
Proof.
  intros [_ Ht _ _]. cbn. apply map_empty. intros h. apply eq_None_not_Some. intros [p Hh].
  apply fold_delete_tasks in Hh as [Hh Hn]. apply Hn. apply Ht in Hh.
  apply list_elem_of_fmap. exists (p.1, h). split; [done|]. by apply elem_of_map_to_list.
Qed.
End Sessions.

(** The log of a dispatched subscribe. *)
Lemma dispatch_subscribe_spec {Tx Ev} (serde_json : WireLib) (ctx : ConnContext) (env : AppEnv)
    i (w : World Tx Ev) reject confirm :
  encode (ctx_codec ctx) (RejectSubscription i) = Ok reject →
  encode (ctx_codec ctx) (ConfirmSubscription i) = Ok confirm →
  let w' := dispatch_subscribe serde_json ctx env i w in
  if negb (rejects_non_replay_subscribe (env_enforcement env) && negb (w_replay_capable w)) &&
     is_allowed (ctx_allowed_streams ctx) i then
    w_conn_state w' = w_conn_state w ∧
    w_log w' = w_log w ++
      match ctx_user_id ctx, env_presence env with
      | Some uid, true => [PresencePut i uid]
      | _, _ => []
      end ++
      [match w_last_seq w, env_nats env with
       | Some seq, true => SpawnReplay i seq
       | _, _ => SendLive confirm
       end]
  else w_tasks w' = w_tasks w ∧ w_log w' = w_log w ++ [SendLive reject].
Proof.
  intros Hr Hc. unfold dispatch_subscribe. cbv zeta.
  destruct (rejects_non_replay_subscribe _ && _); cbn [negb andb].
  { unfold send_encoded. by rewrite Hr. }
  set (w1 := if _ && negb (w_replay_capable w) then _ else w).
  assert (w_conn_state w1 = w_conn_state w ∧ w_log w1 = w_log w ∧ w_tasks w1 = w_tasks w ∧
          w_last_seq w1 = w_last_seq w) as (Hs1 & Hl1 & Ht1 & Hq1).
  { unfold w1. by case_match. }
  destruct (is_allowed _ i); cbn [negb].
  2: { unfold send_encoded. rewrite Hr. cbn. by rewrite Ht1, Hl1. }
  set (w2 := on_registry _ w1). unfold replay_or_confirm.
  set (w3 := presence_join ctx env i w2).
  assert (w_conn_state w3 = w_conn_state w ∧ w_last_seq w3 = w_last_seq w ∧
          w_log w3 = w_log w ++ match ctx_user_id ctx, env_presence env with
                                | Some uid, true => [PresencePut i uid] | _, _ => [] end)
    as (Hs3 & Hq3 & Hl3).
  { unfold w3, presence_join. destruct (ctx_user_id ctx), (env_presence env); cbn;
      by rewrite ?Hl1, ?app_nil_r. }
  rewrite Hq3, app_assoc, <- Hl3. unfold send_encoded. rewrite Hc.
  destruct (w_last_seq w), (env_nats env); cbn; by rewrite Hs3.
Qed.

(** ** Properties *)

Section Properties.
Context {Tx Ev : Type} (serde_json : WireLib) (ctx : ConnContext) (env : AppEnv).
Implicit Types (w : World Tx Ev).
Abbreviation id := (ctx_conn_id ctx).
Abbreviation key_of := (stream_key_from_identifier serde_json).
Abbreviation session w := (reachable (session_init ctx) (session_step serde_json ctx env) w).

(** C9. In every session, whatever frames the client sends and whatever the other tasks do to
    the registry, the connection is only subscribed to stream keys of identifiers that its
    token's patterns allow, and the registry stays well-formed. *)
Theorem subscriptions_are_authorized w :
  session w →
  registry_wf (w_registry w) ∧
  ∀ s, id ∈ subscribers (w_registry w) s →
    ∃ i, is_allowed (ctx_allowed_streams ctx) i = true ∧ key_of i = s.
Proof.
  intros [Hwf Ha _]%session_inv_reachable. split; [done|].
  intros s Hs. apply Ha. by apply (wf_subs _ Hwf).
Qed.

(** C10. In the enforcing phases a client that has not sent a hello has no effect: while the
    session awaits the hello the connection has no subscription, and nothing was published,
    replayed or written to presence on its behalf; it only ever got answers. *)
Theorem no_effect_before_hello w :
  session w → env_enforcement env ≠ Compat → w_conn_state w = AwaitingHello →
  (∀ s, id ∉ subscribers (w_registry w) s) ∧ Forall is_send (w_log w).
Proof.
  intros [Hwf _ Hg]%session_inv_reachable He Hs.
  destruct Hg as [Hnil Hlog]; [by destruct (env_enforcement env)|done|].
  split; [|done]. intros s Hin. rewrite (wf_subs _ Hwf), Hnil in Hin.
  by apply not_elem_of_nil in Hin.
Qed.

(** The answer to a subscribe frame. *)
Lemma handle_subscribe_spec w data i reject confirm :
  decode (ctx_codec ctx) data = Ok (Command (Subscribe i)) →
  encode (ctx_codec ctx) (RejectSubscription i) = Ok reject →
  encode (ctx_codec ctx) (ConfirmSubscription i) = Ok confirm →
  let w' := handle_client_frame serde_json ctx env data w in
  if accepts ctx env w i then
    w_registry w' = subscribe id (key_of i) (w_registry w) ∧ w_conn_state w' = Active ∧
    w_log w' = w_log w ++
      match ctx_user_id ctx, env_presence env with
      | Some uid, true => [PresencePut i uid]
      | _, _ => []
      end ++
      [match w_last_seq w, env_nats env with
       | Some seq, true => SpawnReplay i seq
       | _, _ => SendLive confirm
       end]
  else
    w_registry w' = w_registry w ∧ w_tasks w' = w_tasks w ∧
    w_log w' = w_log w ++ [SendLive reject].
Proof.
  intros Hd Hr Hc. unfold handle_client_frame. rewrite Hd. cbv zeta.
  rewrite handle_subscribe_registry. unfold accepts, handle_command.
  cbn [dispatch_command].
  destruct (w_conn_state w) eqn:Es;
    [rewrite bool_decide_eq_true_2 by done; destruct (requires_hello_first _)
    |rewrite bool_decide_eq_false_2 by done]; cbn [andb negb].
  - unfold send_encoded. by rewrite Hr.
  - set (w1 := set_conn_state _ _).
    pose proof (dispatch_subscribe_spec serde_json ctx env i w1 reject confirm Hr Hc) as Hs.
    change (w_replay_capable w1) with (w_replay_capable w) in Hs. cbv zeta in Hs.
    destruct (negb (_ && negb (w_replay_capable w)) && _); by split.
  - pose proof (dispatch_subscribe_spec serde_json ctx env i w reject confirm Hr Hc) as Hs.
    rewrite Es in Hs. cbv zeta in Hs.
    destruct (negb (_ && negb (w_replay_capable w)) && _); by split.
Qed.

(** C26. Every subscribe frame gets exactly one answer, on every branch: if the handshake
    state, the capability and the authorization accept it, the connection is subscribed,
    presence is written, and then either a replay task is spawned (which answers) or the
    confirmation is sent; otherwise nothing changes and a rejection is sent. *)
Theorem subscribe_answered_once w data i reject confirm :
  decode (ctx_codec ctx) data = Ok (Command (Subscribe i)) →
  encode (ctx_codec ctx) (RejectSubscription i) = Ok reject →
  encode (ctx_codec ctx) (ConfirmSubscription i) = Ok confirm →
  let w' := handle_client_frame serde_json ctx env data w in
  if accepts ctx env w i then
    w_registry w' = subscribe id (key_of i) (w_registry w) ∧ w_conn_state w' = Active ∧
    w_log w' = w_log w ++
      match ctx_user_id ctx, env_presence env with
      | Some uid, true => [PresencePut i uid]
      | _, _ => []
      end ++
      [match w_last_seq w, env_nats env with
       | Some seq, true => SpawnReplay i seq
       | _, _ => SendLive confirm
       end]
  else
    w_registry w' = w_registry w ∧ w_tasks w' = w_tasks w ∧
    w_log w' = w_log w ++ [SendLive reject].
Proof.
  apply handle_subscribe_spec.
Qed.

(** C28. In the hard phase only a connection that announced [replay_v1] in its latest hello
    gains subscriptions, and in every phase a frame of one connection leaves the
    registrations and the subscriptions of all others as they were. *)
Theorem hard_enforcement_and_isolation w data :
  let r := w_registry w in
  let r' := w_registry (handle_client_frame serde_json ctx env data w) in
  (∀ s, env_enforcement env = HardEnforce → s ∈ streams_of r' id → s ∉ streams_of r id →
        w_replay_capable w = true ∧ w_conn_state w = Active) ∧
  connections r' = connections r ∧
  (∀ id', id' ≠ id → streams_of r' id' = streams_of r id').
Proof.
  cbv zeta. pose proof (handle_frame_registry serde_json ctx env data w) as Hreg.
  cbv zeta in Hreg. set (r' := w_registry (handle_client_frame _ _ _ _ _)) in *.
  destruct Hreg as [->|[(i & _ & Ha & ->)|(i & ->)]]; [done| |].
  - split; [|split].
    + intros s He _ _. unfold accepts in Ha. rewrite He in Ha. cbn in Ha.
      destruct (w_replay_capable w), (w_conn_state w); done.
    + unfold subscribe. by repeat case_match.
    + intros id' Hne. unfold subscribe, streams_of. repeat case_match; try done. cbn.
      by rewrite lookup_insert_ne.
  - pose proof (unsubscribe_spec id (key_of i) (w_registry w)) as (Hc & _ & _ & Hcs & _).
    split; [|split].
    + intros s _ Hin Hn. by apply unsubscribe_streams_of in Hin.
    + done.
    + intros id' Hne. unfold streams_of. by rewrite Hcs, lookup_alter_ne.
Qed.

(** Heartbeats do not leak: during a session exactly one heartbeat task runs per stream whose
    last presence request is a put, and after the inbound loop a delete has been requested
    for every such stream and no heartbeat task of the connection is left running.  What the
    requests and the heartbeats make of the bucket is in [PresenceLife]. *)
Lemma presence_is_cleaned_up w :
  session w →
  (∀ s, s ∈ present_after (w_log w) ↔ ∃ h uid, w_tasks w !! h = Some (s, uid)) ∧
  (∀ h1 h2 s u1 u2, w_tasks w !! h1 = Some (s, u1) → w_tasks w !! h2 = Some (s, u2) → h1 = h2) ∧
  w_tasks (inbound_cleanup ctx env w) = ∅ ∧
  present_after (w_log (inbound_cleanup ctx env w)) = ∅.
Proof.
  intros [Hm Ht Hf Hp]%heartbeat_inv_reachable. split_and!.
  - intros s. rewrite Hp, elem_of_dom. split.
    + intros [h Hh]. destruct (Hm _ _ Hh) as (u & _ & _ & ?). eauto.
    + intros (h & u & Hh%Ht). eauto.
  - intros h1 h2 s u1 u2 H1%Ht H2%Ht. cbn in *. congruence.
  - by apply cleanup_no_tasks.
  - unfold inbound_cleanup. cbn [w_log set_heartbeats].
    assert (list_to_set (map_to_list (w_heartbeats w)).*1 = dom (w_heartbeats w)) as Hd.
    { apply set_eq. intros s. rewrite elem_of_list_to_set, list_elem_of_fmap, elem_of_dom.
      split.
      - intros ([s' h] & -> & Hh%elem_of_map_to_list). eauto.
      - intros [h Hh]. exists (s, h). split; [done|]. by apply elem_of_map_to_list. }
    assert (w_heartbeats w ≠ ∅ → is_Some (ctx_user_id ctx) ∧ env_presence env = true) as Hne.
    { intros [s [h Hh]]%map_choose. destruct (Hm _ _ Hh) as (u & -> & -> & _). eauto. }
    destruct (decide (w_heartbeats w = ∅)) as [He|He].
    + rewrite He. rewrite map_to_list_empty. cbn. repeat case_match; rewrite Hp, He; set_solver.
    + destruct (Hne He) as [[u ->] ->]. rewrite fold_emit_deletes, Hd, Hp. set_solver.
Qed.
End Properties.

(** ** Witnesses *)

(** A codec of three frames, and one connection of user [u] allowed on [room*]. *)
Definition tiny_codec : Codec := {|
  decode data :=
    if decide (data = "hello") then Ok (Hello (mkHello (Some 7%Z) ["replay_v1"]))
    else if decide (data = "sub") then Ok (Command (Subscribe "room1"))
    else if decide (data = "other") then Ok (Command (Subscribe "news"))
    else Err (Protocol "");
  encode msg :=
    match msg with
    | ConfirmSubscription _ => Ok "confirm"
    | RejectSubscription _ => Ok "reject"
    | _ => Ok "frame"
    end |}.

Definition plain_json : WireLib := mkWireLib (λ _, Err "not JSON") (λ _, Err "") (λ _, "").

Definition demo_ctx : ConnContext := mkCtx 1 tiny_codec ["room*"] (Some "u").

Definition demo_world : World nat nat :=
  mkWorld (register 1 1 false 1 new_registry) no_metrics AwaitingHello false None ∅ ∅ 0 [].

Lemma demo_session_init : session_init demo_ctx demo_world.
Proof.
  split; [apply register_wf; [done|apply new_registry_wf]|]. by vm_compute.
Qed.

(** The session that sent [sub] under the given environment. *)
Definition demo_after (env : AppEnv) (data : string) : World nat nat :=
  handle_client_frame plain_json demo_ctx env data demo_world.

Lemma demo_session env data :
  reachable (session_init demo_ctx) (session_step plain_json demo_ctx env) (demo_after env data).
Proof.
  eapply reachable_step; [apply reachable_init, demo_session_init|]. apply ss_frame.
Qed.

Lemma subscriptions_are_authorized_witness :
  ∃ i, is_allowed ["room*"] i = true ∧ stream_key_from_identifier plain_json i = "room1".
Proof.
  apply (proj2 (subscriptions_are_authorized plain_json demo_ctx (mkEnv Compat true true)
    (demo_after (mkEnv Compat true true) "sub") (demo_session _ _))).
  vm_compute. by left.
Defined.

Lemma no_effect_before_hello_witness :
  Forall is_send (w_log (demo_after (mkEnv SoftEnforce true true) "sub")).
Proof.
  refine (proj2 (no_effect_before_hello plain_json demo_ctx (mkEnv SoftEnforce true true)
    (demo_after (mkEnv SoftEnforce true true) "sub") (demo_session _ _) _ _)).
  - done.
  - reflexivity.
Defined.

(** A subscribe outside the allowed patterns is answered with a rejection. *)
Lemma subscribe_answered_once_witness :
  w_log (demo_after (mkEnv Compat true true) "other") = [SendLive "reject"].
Proof.
  exact (proj2 (proj2 (subscribe_answered_once plain_json demo_ctx (mkEnv Compat true true)
    demo_world "other" "news" "reject" "confirm" eq_refl eq_refl eq_refl))).
Defined.

(** The enforcement scenarios of the test suite, evaluated. *)
Example enforcement_examples :
  w_log (demo_after (mkEnv Compat false false) "sub") = [SendLive "confirm"] ∧
  w_log (demo_after (mkEnv SoftEnforce false false) "sub") = [SendLive "reject"] ∧
  w_log (handle_client_frame plain_json demo_ctx (mkEnv HardEnforce true false) "sub"
           (demo_after (mkEnv HardEnforce true false) "hello")) = [SpawnReplay "room1" 7].
Proof. by vm_compute. Qed.

(** ** Structured identifiers

    A structured identifier is subscribed under its ["stream"] member, but authorization,
    replay and publishing use the identifier as it is. *)

(** A parser that reads one structured identifier. *)
Definition structured_id : string := "<channel Chat, stream secret>".

Definition structured_json : WireLib :=
  mkWireLib
    (λ b, if decide (b = structured_id)
          then Ok (VObj [("channel", VStr "Chat"); ("stream", VStr "secret")]) else Err "")
    (λ _, Err "") (λ _, "").

Definition structured_codec : Codec := {|
  decode data :=
    if decide (data = "hello") then Ok (Hello (mkHello (Some 7%Z) ["replay_v1"]))
    else if decide (data = "sub") then Ok (Command (Subscribe structured_id))
    else Ok (Command (ClientMessage structured_id "hi"));
  encode _ := Ok "frame" |}.

Definition structured_ctx : ConnContext := mkCtx 1 structured_codec ["<channel Chat*"] None.

Definition structured_session (frames : list string) : World nat nat :=
  fold_left (λ w d, handle_client_frame structured_json structured_ctx (mkEnv Compat true false) d w)
    frames demo_world.

(** A token that allows the identifiers of one channel subscribes to any stream. *)
Example authorization_checks_identifier_not_stream :
  is_allowed ["<channel Chat*"] "secret" = false ∧
  subscribers (w_registry (structured_session ["sub"])) "secret" = [1%Z].
Proof. by vm_compute. Qed.

(** The connection listens on ["secret"], but its replay and its own messages go to the
    subject of the whole identifier. *)
Example replay_and_publish_use_identifier :
  subscribers (w_registry (structured_session ["hello"; "sub"; "msg"])) "secret" = [1%Z] ∧
  w_log (structured_session ["hello"; "sub"; "msg"]) =
    [SpawnReplay structured_id 7; PublishMsg structured_id "hi"].
Proof. by vm_compute. Qed.
