(* ===== verification/PresenceLife.v ===== *)
(** * Presence over the life of a connection
      ([inbound_loop] of [src/connection/handler.rs] with [src/presence/mod.rs])

    The session of [HandlerSpec] together with the [TC_PRESENCE] bucket, the clock and the
    heartbeat tasks, which run on their own: a tick may come at any moment, also between the
    deletes that follow the inbound loop and the drop of the heartbeat handles.  A request
    takes effect when it is made, in order; each may fail. *)

From stdpp Require Import base list gmap strings fin_maps fin_map_dom sets.
From Stdlib Require Import ZArith Lia.
From S2P Require Import Prelude Text Config Protocol Jwt Registry RegistrySpec Metrics Handler HandlerSpec Presence.

Local Open Scope string_scope.
Local Open Scope list_scope.
Local Open Scope Z_scope.

(** ** The model *)

(** Where the connection is: in the inbound loop, deleting the presence of the streams still
    [todo] (the heartbeat handles alive), or past the end of [inbound_loop] since a time. *)
Inductive stage : Type :=
| InSession
| Cleaning (todo : list string)
| Closed (since : Z).

(** [l_due] is the deadline of each heartbeat task's interval.  The rest is what the theorems
    speak of: [l_joined], the identifiers subscribed and not unsubscribed; [l_lapsed], whether
    a presence request failed or a tick was written too late; [l_raced], whether a heartbeat
    wrote a stream whose delete had already been made at the end of the connection. *)
Record Life (Tx Ev : Type) : Type := mkLife {
  l_world : World Tx Ev;
  l_due : gmap nat Z;
  l_bucket : kv;
  l_now : Z;
  l_stage : stage;
  l_joined : gset string;
  l_lapsed : bool;
  l_raced : bool;
}.
Arguments mkLife {Tx Ev}.
Arguments l_world {Tx Ev}.
Arguments l_due {Tx Ev}.
Arguments l_bucket {Tx Ev}.
Arguments l_now {Tx Ev}.
Arguments l_stage {Tx Ev}.
Arguments l_joined {Tx Ev}.
Arguments l_lapsed {Tx Ev}.
Arguments l_raced {Tx Ev}.

Definition is_presence (e : effect) : bool :=
  match e with PresencePut _ _ | PresenceDelete _ _ => true | _ => false end.

(** One presence request of the inbound task, made at [now]. *)
Definition apply_request (now : Z) (b : kv) (r : bool * effect) : kv :=
  match r.2 with
  | PresencePut s u => presence_put now r.1 s u b
  | PresenceDelete s u => presence_delete r.1 s u b
  | _ => b
  end.

(** How late a heartbeat may be before its entry expires. *)
Definition HEARTBEAT_SLACK : Z := PRESENCE_TTL_SECS - HEARTBEAT_INTERVAL_SECS.

Definition on_time (now : Z) (due : gmap nat Z) : bool :=
  bool_decide (map_Forall (λ _ d, now < d + HEARTBEAT_SLACK) due).

(** The deadlines after the inbound task started or aborted heartbeats: the first deadline of
    an interval is passed at once, the next comes a period later. *)
Definition redue (now : Z) (due : gmap nat Z) (tasks : gmap nat (string * string)) : gmap nat Z :=
  map_imap (λ h _, Some (default (now + HEARTBEAT_INTERVAL_SECS) (due !! h))) tasks.

Section Life.
Context {Tx Ev : Type} (serde_json : WireLib) (ctx : ConnContext) (env : AppEnv).
Implicit Types (w : World Tx Ev) (l : Life Tx Ev).
Abbreviation life := (Life Tx Ev).

(** The presence requests that lead from [w] to [w']. *)
Definition new_requests w w' : list effect :=
  base.filter is_presence (drop (length (w_log w)) (w_log w')).

(** Whether a command is dispatched: the gate on the hello. *)
Definition dispatches w : bool :=
  negb (bool_decide (w_conn_state w = AwaitingHello) && requires_hello_first (env_enforcement env)).

(** The identifiers subscribed after a frame. *)
Definition joined_after (data : string) w (joined : gset string) : gset string :=
  match decode (ctx_codec ctx) data with
  | Ok (Command (Subscribe i)) => if accepts ctx env w i then {[i]} ∪ joined else joined
  | Ok (Command (Unsubscribe i)) => if dispatches w then joined ∖ {[i]} else joined
  | _ => joined
  end.

(** The streams whose presence is deleted after the loop: the keys of [heartbeats]. *)
Definition cleanup_keys w : list string :=
  match ctx_user_id ctx, env_presence env with
  | Some _, true => (map_to_list (w_heartbeats w)).*1
  | _, _ => []
  end.

(** A frame, with the outcomes of the presence requests it makes. *)
Definition frame_life (data : string) (oks : list bool) l : life :=
  let w := l_world l in
  let w' := handle_client_frame serde_json ctx env data w in
  mkLife w' (redue (l_now l) (l_due l) (w_tasks w'))
    (fold_left (apply_request (l_now l)) (zip oks (new_requests w w')) (l_bucket l))
    (l_now l) (l_stage l) (joined_after data w (l_joined l))
    (l_lapsed l || existsb negb oks) (l_raced l).

(** A tick of the heartbeat task [h], whose deadline [d] has come: it writes the key, and the
    next deadline is a period after this one. *)
Definition tick_life (h : nat) (s u : string) (d : Z) (ok : bool) l : life :=
  mkLife (l_world l) (<[h := d + HEARTBEAT_INTERVAL_SECS]> (l_due l))
    (presence_put (l_now l) ok s u (l_bucket l)) (l_now l) (l_stage l) (l_joined l)
    (l_lapsed l || negb ok)
    (l_raced l || match l_stage l with
                  | Cleaning todo => negb (bool_decide (s ∈ todo))
                  | _ => false
                  end).

(** One delete after the loop. *)
Definition delete_life (s u : string) (todo : list string) (ok : bool) l : life :=
  mkLife (l_world l) (l_due l) (presence_delete ok s u (l_bucket l)) (l_now l) (Cleaning todo)
    (l_joined l) (l_lapsed l || negb ok) (l_raced l).

(** The end of [inbound_loop]: the handles are dropped. *)
Definition drop_life l : life :=
  mkLife (inbound_cleanup ctx env (l_world l)) ∅ (l_bucket l) (l_now l) (Closed (l_now l))
    (l_joined l) (l_lapsed l) (l_raced l).

Definition with_world w l : life :=
  mkLife w (l_due l) (l_bucket l) (l_now l) (l_stage l) (l_joined l) (l_lapsed l) (l_raced l).

Definition with_stage st l : life :=
  mkLife (l_world l) (l_due l) (l_bucket l) (l_now l) st (l_joined l) (l_lapsed l) (l_raced l).

Definition with_bucket b l : life :=
  mkLife (l_world l) (l_due l) b (l_now l) (l_stage l) (l_joined l) (l_lapsed l) (l_raced l).

Definition with_now now l : life :=
  mkLife (l_world l) (l_due l) (l_bucket l) now (l_stage l) (l_joined l)
    (l_lapsed l || negb (on_time now (l_due l))) (l_raced l).

Inductive life_step : life → life → Prop :=
| ls_frame l data oks :
    l_stage l = InSession →
    length oks = length (new_requests (l_world l)
                           (handle_client_frame serde_json ctx env data (l_world l))) →
    life_step l (frame_life data oks l)
| ls_ping l b : l_stage l = InSession → life_step l (with_world (emit (SendLive b) (l_world l)) l)
| ls_others l r' :
    l_stage l = InSession → others_step ctx (w_registry (l_world l)) r' →
    life_step l (with_world (on_registry (λ _, r') (l_world l)) l)
| ls_tick l h s u d ok :
    w_tasks (l_world l) !! h = Some (s, u) → l_due l !! h = Some d → d ≤ l_now l →
    life_step l (tick_life h s u d ok l)
| ls_time l now : l_now l ≤ now → life_step l (with_now now l)
| ls_foreign l b' :
    (∀ s u, ctx_user_id ctx = Some u →
       b' !! presence_key s u = l_bucket l !! presence_key s u) →
    life_step l (with_bucket b' l)
| ls_leave l todo :
    l_stage l = InSession → todo ≡ₚ cleanup_keys (l_world l) →
    life_step l (with_stage (Cleaning todo) l)
| ls_delete l s todo u ok :
    l_stage l = Cleaning (s :: todo) → ctx_user_id ctx = Some u →
    life_step l (delete_life s u todo ok l)
| ls_drop l : l_stage l = Cleaning [] → life_step l (drop_life l).

(** A connection enters the inbound loop with no entry of its user left in the bucket. *)
Definition life_init l : Prop :=
  session_init ctx (l_world l) ∧ l_due l = ∅ ∧ l_stage l = InSession ∧ l_joined l = ∅ ∧
  l_lapsed l = false ∧ l_raced l = false ∧
  ∀ s u, ctx_user_id ctx = Some u → l_bucket l !! presence_key s u = None.
End Life.

(** ** Lemmas *)





(** *** The presence part of a frame *)

Section Frames.
Context {Tx Ev : Type} (serde_json : WireLib) (ctx : ConnContext) (env : AppEnv) (uid : string).
Context (Huid : ctx_user_id ctx = Some uid) (Hpresence : env_presence env = true).
Implicit Types (w : World Tx Ev).






End Frames.

(** *** The invariant *)

Section Invariant.
Context {Tx Ev : Type} (serde_json : WireLib) (ctx : ConnContext) (env : AppEnv) (uid : string).
Context (Huid : ctx_user_id ctx = Some uid) (Hpresence : env_presence env = true).
Implicit Types (w : World Tx Ev) (l : Life Tx Ev).
Abbreviation own l s := (l_bucket l !! presence_key s uid).




















End Invariant.

(** ** Properties *)


(** ** Witnesses *)

Abbreviation demo_env := (mkEnv Compat true true).

Definition demo_life : Life nat nat := mkLife demo_world ∅ ∅ 0 InSession ∅ false false.

(** Subscribed at 0, the heartbeat written at 26, one second late. *)
Definition demo_joined : Life nat nat :=
  tick_life 0 "room1" "u" 25 true (with_now 26 (frame_life plain_json demo_ctx demo_env "sub" [true] demo_life)).

Lemma demo_joined_reachable :
  reachable (life_init demo_ctx) (life_step plain_json demo_ctx demo_env) demo_joined.
Proof.
  do 3 (eapply reachable_step;
    [|first [eapply ls_tick; by vm_compute | apply ls_time; by vm_compute | apply ls_frame; by vm_compute]]).
  apply reachable_init. split; [apply demo_session_init|]. split_and!; [done..|].
  intros s u _. apply lookup_empty.
Qed.




(** The deletes come before the handles are dropped: a heartbeat that is due between the two
    writes the entry back, and the user stays visible after the connection is gone, until the
    entry expires. *)
Definition demo_raced : Life nat nat :=
  drop_life demo_ctx demo_env
    (tick_life 0 "room1" "u" 50 true
       (delete_life "room1" "u" [] true
          (with_stage (Cleaning ["room1"]) (with_now 50 demo_joined)))).

Example late_heartbeat_resurrects_presence :
  reachable (life_init demo_ctx) (life_step plain_json demo_ctx demo_env) demo_raced ∧
  l_stage demo_raced = Closed 50 ∧ l_lapsed demo_raced = false ∧
  present 79 "room1.u" (l_bucket demo_raced) = true ∧
  present 80 "room1.u" (l_bucket demo_raced) = false.
Proof.
  split; [|by vm_compute].
  eapply reachable_step; [|by apply ls_drop].
  eapply reachable_step; [|by eapply ls_tick].
  eapply reachable_step; [|by apply ls_delete].
  eapply reachable_step; [|apply ls_leave; [done|by vm_compute]].
  eapply reachable_step; [apply demo_joined_reachable|by apply ls_time].
Qed.
