(* ===== verification/Outbound.v ===== *)
(** * The outbound task ([outbound_loop] of [src/connection/handler.rs])

    The task owns the receiving ends of the connection's four channels and the WebSocket
    sink.  One iteration of the biased [select!] polls them in the order of the source:
    eviction, urgent close, shutdown, replay, live.  The sink fails or not as the socket
    decides: [send_ok n] is the outcome of a send after [n] messages went out. *)

From stdpp Require Import base list gmap strings fin_maps.
From Stdlib Require Import ZArith Lia.
From S2P Require Import Prelude Channels Text.

Local Open Scope string_scope.
Local Open Scope list_scope.
Local Open Scope nat_scope.

Definition WS_CLOSE_GOING_AWAY : Z := 1001.
Definition OUTBOUND_REPLAY_BURST : nat := 512.

Inductive WsMessage : Type :=
| WsText (s : string)
| WsBinary (b : string)
| WsClose (code : Z) (reason : string).

(** [bytes_to_ws_msg]: a payload that is not UTF-8 is dropped on a JSON connection. *)
Definition bytes_to_ws_msg (payload : string) (is_binary : bool) : option WsMessage :=
  if is_binary then Some (WsBinary payload)
  else if utf8_valid payload then Some (WsText payload) else None.

(** The sink: what went out, and whether it was closed. *)
Record Sink : Type := mkSink {
  out : list WsMessage;
  closed : bool;
}.

Section Outbound.
Context {HB HE Ch Ev : Type} `{!Mpsc string HB Ch} `{!Mpsc unit HE Ev}.
Context (live_rx replay_rx urgent_close_rx : Ch) (evict_rx : Ev).
Context (is_binary : bool) (disconnect_frame : string) (send_ok : nat → bool).

Record OutState : Type := mkOut {
  o_chan : HB;
  o_evict : HE;
  o_sink : Sink;
  o_urgent_open : bool;
  o_evict_open : bool;
}.

(** [sender.send(msg).await]: whether it succeeded. *)
Definition sink_send (m : WsMessage) (s : Sink) : bool * Sink :=
  if send_ok (length (out s)) then (true, mkSink (out s ++ [m]) (closed s)) else (false, s).

Definition sink_close (s : Sink) : Sink := mkSink (out s) true.

(** [if let Some(msg) = bytes_to_ws_msg(payload) { sender.send(msg) }]: false on a failed
    send. *)
Definition send_payload (payload : string) (s : Sink) : bool * Sink :=
  match bytes_to_ws_msg payload is_binary with
  | Some m => sink_send m s
  | None => (true, s)
  end.

Definition set_sink (s : Sink) (st : OutState) : OutState :=
  mkOut (o_chan st) (o_evict st) s (o_urgent_open st) (o_evict_open st).

Definition set_chan (h : HB) (st : OutState) : OutState :=
  mkOut h (o_evict st) (o_sink st) (o_urgent_open st) (o_evict_open st).

(** [while let Ok(payload) = rx.try_recv() { ... }] of the shutdown branch; the fuel is the
    number of messages queued. *)
Fixpoint drain (fuel : nat) (rx : Ch) (h : HB) (s : Sink) : HB * Sink :=
  match fuel with
  | O => (h, s)
  | S fuel' =>
      match try_recv rx h with
      | (Some payload, h') =>
          let '(ok, s') := send_payload payload s in
          if ok then drain fuel' rx h' s' else (h', s')
      | (None, h') => (h', s)
      end
  end.

(** [for _ in 0..n] of the replay branch: false when a send failed. *)
Fixpoint replay_burst (n : nat) (h : HB) (s : Sink) : bool * HB * Sink :=
  match n with
  | O => (true, h, s)
  | S n' =>
      match try_recv replay_rx h with
      | (Some payload, h') =>
          let '(ok, s') := send_payload payload s in
          if ok then replay_burst n' h' s' else (false, h', s')
      | (None, h') => (true, h', s)
      end
  end.

(** How an iteration ends: go on, return from the task, leave the loop (and close the sink),
    or wait because no branch is ready. *)
Inductive out_result : Type :=
| OContinue (st : OutState)
| OReturn (st : OutState)
| OWait (st : OutState).

Definition break_ws (st : OutState) : out_result := OReturn (set_sink (sink_close (o_sink st)) st).

(** A disconnect frame, then close. *)
Definition send_and_close (payload : string) (st : OutState) : out_result :=
  OReturn (set_sink (sink_close (send_payload payload (o_sink st)).2) st).

Definition shutdown_branch (st : OutState) : out_result :=
  let '(h1, s1) := drain (length (queue replay_rx (o_chan st))) replay_rx (o_chan st) (o_sink st) in
  let '(h2, s2) := drain (length (queue live_rx h1)) live_rx h1 s1 in
  let s3 := (sink_send (WsClose WS_CLOSE_GOING_AWAY "server shutting down") s2).2 in
  OReturn (set_sink s3 (set_chan h2 st)).

Definition live_branch (st : OutState) : out_result :=
  match poll_recv live_rx (o_chan st) with
  | (Ready (Some payload), h) =>
      let '(ok, s) := send_payload payload (o_sink st) in
      let st' := set_sink s (set_chan h st) in
      if ok then OContinue st' else break_ws st'
  | (Ready None, h) => break_ws (set_chan h st)
  | (Pending, h) => OWait (set_chan h st)
  end.

Definition replay_branch (st : OutState) : out_result :=
  match poll_recv replay_rx (o_chan st) with
  | (Ready (Some payload), h) =>
      let '(ok, s) := send_payload payload (o_sink st) in
      if ok then
        let '(ok', h', s') := replay_burst (OUTBOUND_REPLAY_BURST - 1) h s in
        let st' := set_sink s' (set_chan h' st) in
        if ok' then OContinue st' else break_ws st'
      else break_ws (set_sink s (set_chan h st))
  | (Ready None, h) => OContinue (set_chan h st)
  | (Pending, h) => live_branch (set_chan h st)
  end.

Definition shutdown_or_replay (shutdown : bool) (st : OutState) : out_result :=
  if shutdown then shutdown_branch st else replay_branch st.

Definition urgent_branch (shutdown : bool) (st : OutState) : out_result :=
  if o_urgent_open st then
    match poll_recv urgent_close_rx (o_chan st) with
    | (Ready (Some payload), h) => send_and_close payload (set_chan h st)
    | (Ready None, h) =>
        OContinue (mkOut h (o_evict st) (o_sink st) false (o_evict_open st))
    | (Pending, h) => shutdown_or_replay shutdown (set_chan h st)
    end
  else shutdown_or_replay shutdown st.

(** One iteration of the loop; [shutdown] is whether the shutdown signal has changed. *)
Definition outbound_iter (shutdown : bool) (st : OutState) : out_result :=
  if o_evict_open st then
    match poll_recv evict_rx (o_evict st) with
    | (Ready (Some _), h) =>
        send_and_close disconnect_frame
          (mkOut (o_chan st) h (o_sink st) (o_urgent_open st) (o_evict_open st))
    | (Ready None, h) =>
        OContinue (mkOut (o_chan st) h (o_sink st) (o_urgent_open st) false)
    | (Pending, h) =>
        urgent_branch shutdown
          (mkOut (o_chan st) h (o_sink st) (o_urgent_open st) (o_evict_open st))
    end
  else urgent_branch shutdown st.

(** At most [n] iterations without the environment interfering. *)
Fixpoint outbound_run (n : nat) (shutdown : bool) (st : OutState) : out_result :=
  match n with
  | O => OContinue st
  | S n' =>
      match outbound_iter shutdown st with
      | OContinue st' => outbound_run n' shutdown st'
      | r => r
      end
  end.
End Outbound.

Arguments mkOut {HB HE}.
Arguments o_chan {HB HE}.
Arguments o_evict {HB HE}.
Arguments o_sink {HB HE}.
Arguments o_urgent_open {HB HE}.
Arguments o_evict_open {HB HE}.
Arguments OContinue {HB HE}.
Arguments OReturn {HB HE}.
Arguments OWait {HB HE}.

(** ** Properties *)

Section OutboundProperties.
Context {HB HE Ch Ev : Type} `{MpscLaws string HB Ch} `{MpscLaws unit HE Ev}.
Context (live_rx replay_rx urgent_close_rx : Ch) (evict_rx : Ev).
Context (is_binary : bool) (disconnect_frame : string) (send_ok : nat → bool).
Implicit Types (st : OutState (HB := HB) (HE := HE)) (h : HB) (s : Sink).

Abbreviation iter :=
  (outbound_iter live_rx replay_rx urgent_close_rx evict_rx is_binary disconnect_frame send_ok).
Abbreviation run :=
  (outbound_run live_rx replay_rx urgent_close_rx evict_rx is_binary disconnect_frame send_ok).

(** The WebSocket messages of a list of payloads. *)
Definition ws_frames (l : list string) : list WsMessage :=
  omap (λ p, bytes_to_ws_msg p is_binary) l.

#[local] Arguments ws_frames : simpl never.

Lemma ws_frames_app l l' : ws_frames (l ++ l') = ws_frames l ++ ws_frames l'.
Proof. apply omap_app. Qed.

(** Neither an eviction nor an urgent close is pending. *)
Definition quiet st : Prop :=
  (o_evict_open st = true →
     queue evict_rx (o_evict st) = [] ∧ tx_open evict_rx (o_evict st) = true) ∧
  (o_urgent_open st = true →
     queue urgent_close_rx (o_chan st) = [] ∧ tx_open urgent_close_rx (o_chan st) = true).

Lemma quiet_iter shutdown st :
  quiet st → iter shutdown st = shutdown_or_replay live_rx replay_rx is_binary send_ok shutdown st.
Proof using Type*.
  intros [Hev Hur]. destruct st as [hb he sk uo eo]; cbn in *.
  assert (urgent_branch live_rx replay_rx urgent_close_rx is_binary send_ok shutdown
            (mkOut hb he sk uo eo)
          = shutdown_or_replay live_rx replay_rx is_binary send_ok shutdown
              (mkOut hb he sk uo eo)) as Hu.
  { unfold urgent_branch; cbn. destruct uo; [|done]. destruct Hur as [Hq Ht]; [done|].
    by rewrite (poll_recv_empty _ _ Hq Ht). }
  unfold outbound_iter; cbn. destruct eo; [|done]. destruct Hev as [Hq Ht]; [done|].
  by rewrite (poll_recv_empty _ _ Hq Ht).
Qed.

Section Sending.
Hypothesis send_always : ∀ n, send_ok n = true.

Lemma send_payload_ok p s :
  send_payload is_binary send_ok p s = (true, mkSink (out s ++ ws_frames [p]) (closed s)).
Proof using send_always.
  unfold send_payload, sink_send, ws_frames; cbn.
  destruct (bytes_to_ws_msg p is_binary); [by rewrite send_always|].
  destruct s; cbn. by rewrite app_nil_r.
Qed.

(** Receiving until the queue is empty, or [n] times. *)
Lemma drain_spec rx h s :
  ∃ h', drain is_binary send_ok (length (queue rx h)) rx h s
        = (h', mkSink (out s ++ ws_frames (queue rx h)) (closed s)) ∧
        queue rx h' = [] ∧ (∀ c, c ≠ rx → queue c h' = queue c h) ∧ same_ends h h'.
Proof using Type*.
  remember (queue rx h) as l eqn:Hl. revert h s Hl.
  induction l as [|p l IH]; intros h s Hl; cbn [length drain].
  { exists h. destruct s; cbn. by rewrite app_nil_r. }
  destruct (try_recv_msg rx h p l (eq_sym Hl)) as [Hm Hq].
  pose proof (λ c, try_recv_frame rx c h) as Hf.
  pose proof (try_recv_ends rx h) as He.
  destruct (try_recv rx h) as [m h1]; cbn in *. subst m.
  rewrite send_payload_ok.
  destruct (IH h1 (mkSink (out s ++ ws_frames [p]) (closed s)) (eq_sym Hq))
    as (h' & -> & Hq' & Hf' & He').
  exists h'. cbn [out closed]. split_and!; [| |by intros; rewrite Hf' by done; apply Hf|].
  - change (p :: l) with ([p] ++ l). by rewrite ws_frames_app, app_assoc.
  - done.
  - by eapply same_ends_trans.
Qed.

Lemma replay_burst_spec n h s :
  ∃ h', replay_burst replay_rx is_binary send_ok n h s
        = (true, h', mkSink (out s ++ ws_frames (take n (queue replay_rx h))) (closed s)) ∧
        queue replay_rx h' = drop n (queue replay_rx h) ∧
        (∀ c, c ≠ replay_rx → queue c h' = queue c h) ∧ same_ends h h'.
Proof using Type*.
  revert h s. induction n as [|n IH]; intros h s; cbn [replay_burst].
  { exists h. destruct s; cbn. by rewrite app_nil_r. }
  destruct (queue replay_rx h) as [|p l] eqn:Hl.
  { rewrite (try_recv_empty _ _ Hl). exists h. destruct s; cbn. by rewrite app_nil_r. }
  destruct (try_recv_msg replay_rx h p l Hl) as [Hm Hq].
  pose proof (λ c, try_recv_frame replay_rx c h) as Hf.
  pose proof (try_recv_ends replay_rx h) as He.
  destruct (try_recv replay_rx h) as [m h1]; cbn in *. subst m.
  rewrite send_payload_ok.
  destruct (IH h1 (mkSink (out s ++ ws_frames [p]) (closed s))) as (h' & -> & Hq' & Hf' & He').
  exists h'. cbn [out closed take drop]. rewrite Hq in *. split_and!; [| |by intros; rewrite Hf' by done; apply Hf|].
  - change (p :: take n l) with ([p] ++ take n l). by rewrite ws_frames_app, app_assoc.
  - done.
  - by eapply same_ends_trans.
Qed.

(** An iteration with replay pending sends the first frame and a burst of the rest. *)
Lemma replay_branch_pending st p l :
  queue replay_rx (o_chan st) = p :: l →
  ∃ h', replay_branch live_rx replay_rx is_binary send_ok st =
    OContinue (mkOut h' (o_evict st)
      (mkSink (out (o_sink st) ++
               ws_frames (p :: take (OUTBOUND_REPLAY_BURST - 1) l)) (closed (o_sink st)))
      (o_urgent_open st) (o_evict_open st)) ∧
    queue replay_rx h' = drop (OUTBOUND_REPLAY_BURST - 1) l ∧
    (∀ c, c ≠ replay_rx → queue c h' = queue c (o_chan st)) ∧ same_ends (o_chan st) h'.
Proof using Type*.
  intros Hl. unfold replay_branch. set (k := OUTBOUND_REPLAY_BURST - 1).
  destruct (poll_recv_msg replay_rx (o_chan st) p l Hl) as [Hm Hq].
  pose proof (λ c, poll_recv_frame replay_rx c (o_chan st)) as Hf.
  pose proof (poll_recv_ends replay_rx (o_chan st)) as He.
  destruct (poll_recv replay_rx (o_chan st)) as [m h1]; cbn in Hm, Hq, Hf, He. subst m.
  rewrite send_payload_ok by done.
  destruct (replay_burst_spec k h1
    (mkSink (out (o_sink st) ++ ws_frames [p]) (closed (o_sink st))))
    as (h' & -> & Hq' & Hf' & He').
  cbn [out closed]. rewrite Hq in *. exists h'. split_and!; [|done| |].
  - change (p :: take k l) with ([p] ++ take k l). by rewrite ws_frames_app, app_assoc.
  - intros c Hc. rewrite Hf' by done. by apply Hf.
  - by eapply same_ends_trans.
Qed.

Lemma live_branch_pending st p l :
  queue live_rx (o_chan st) = p :: l →
  ∃ h', live_branch live_rx is_binary send_ok st =
    OContinue (mkOut h' (o_evict st)
      (mkSink (out (o_sink st) ++ ws_frames [p]) (closed (o_sink st)))
      (o_urgent_open st) (o_evict_open st)) ∧
    queue live_rx h' = l ∧
    (∀ c, c ≠ live_rx → queue c h' = queue c (o_chan st)) ∧ same_ends (o_chan st) h'.
Proof using Type*.
  intros Hl. unfold live_branch.
  destruct (poll_recv_msg live_rx (o_chan st) p l Hl) as [Hm Hq].
  pose proof (λ c, poll_recv_frame live_rx c (o_chan st)) as Hf.
  pose proof (poll_recv_ends live_rx (o_chan st)) as He.
  destruct (poll_recv live_rx (o_chan st)) as [m h1]; cbn in Hm, Hq, Hf, He. subst m.
  rewrite send_payload_ok by done. exists h1. split_and!; [done|done| |done].
  intros c Hc. by apply Hf.
Qed.
End Sending.

Section Channels.
Hypothesis distinct : NoDup [live_rx; replay_rx; urgent_close_rx].

Lemma channels_distinct :
  live_rx ≠ replay_rx ∧ live_rx ≠ urgent_close_rx ∧ replay_rx ≠ urgent_close_rx.
Proof using distinct.
  clear -distinct. apply NoDup_cons in distinct as [H1 H2].
  apply NoDup_cons in H2 as [H2 _]. set_solver.
Qed.

Lemma quiet_moves st h' sk :
  quiet st → queue urgent_close_rx h' = queue urgent_close_rx (o_chan st) →
  same_ends (o_chan st) h' →
  quiet (mkOut h' (o_evict st) sk (o_urgent_open st) (o_evict_open st)).
Proof using Type.
  intros [Hev Hur] Hq He. split; [done|]. cbn. intros Ho. destruct (Hur Ho) as [Hq0 Ht].
  destruct (He urgent_close_rx) as (_ & _ & ->). by rewrite Hq.
Qed.

(** Running until both channels are empty. *)
Lemma outbound_run_drains st n :
  (∀ k, send_ok k = true) → quiet st →
  tx_open replay_rx (o_chan st) = true → tx_open live_rx (o_chan st) = true →
  let R := queue replay_rx (o_chan st) in
  let L := queue live_rx (o_chan st) in
  length R + length L < n →
  ∃ st', run n false st = OWait st' ∧
    out (o_sink st') = out (o_sink st) ++ ws_frames R ++ ws_frames L ∧
    closed (o_sink st') = closed (o_sink st) ∧
    queue replay_rx (o_chan st') = [] ∧ queue live_rx (o_chan st') = [].
Proof using Type*.
  intros Hok. destruct channels_distinct as (Dlr & Dlu & Dru). revert st.
  induction n as [|n IH]; intros st Hquiet Htr Htl; cbv zeta; [lia|]. intros Hn.
  cbn [outbound_run]. rewrite quiet_iter by done. cbn [shutdown_or_replay].
  destruct (queue replay_rx (o_chan st)) as [|p R] eqn:HR.
  - unfold replay_branch. rewrite (poll_recv_empty _ _ HR Htr).
    destruct st as [hb he sk uo eo]; cbn [o_chan set_chan o_sink] in *.
    change (set_chan hb (mkOut hb he sk uo eo)) with (mkOut hb he sk uo eo).
    destruct (queue live_rx hb) as [|q L] eqn:HL.
    + unfold live_branch; cbn [o_chan]. rewrite (poll_recv_empty _ _ HL Htl).
      exists (mkOut hb he sk uo eo). cbn. by rewrite !app_nil_r.
    + destruct (live_branch_pending Hok (mkOut hb he sk uo eo) q L HL)
        as (h' & -> & HL' & Hf & He). cbn [o_chan o_evict o_sink o_urgent_open o_evict_open] in *.
      destruct (He replay_rx) as (_ & _ & Htr'), (He live_rx) as (_ & _ & Htl').
      edestruct (IH (mkOut h' he (mkSink (out sk ++ ws_frames [q]) (closed sk)) uo eo))
        as (st' & Hrun & Ho & Hc & ? & ?).
      * apply (quiet_moves (mkOut hb he sk uo eo)); [done| |done]. by apply Hf.
      * cbn. by rewrite Htr'.
      * cbn. by rewrite Htl'.
      * cbn. rewrite HL', (Hf replay_rx), HR by done. cbn in *. lia.
      * exists st'. split_and!; [done| |done..]. rewrite Ho. cbn.
        rewrite HL', (Hf replay_rx), HR by done.
        change (q :: L) with ([q] ++ L). by rewrite ws_frames_app, <- app_assoc.
  - destruct (replay_branch_pending Hok st p R HR) as (h' & -> & HR' & Hf & He).
    destruct (He replay_rx) as (_ & _ & Htr'), (He live_rx) as (_ & _ & Htl').
    set (k := OUTBOUND_REPLAY_BURST - 1) in *.
    edestruct (IH (mkOut h' (o_evict st)
      (mkSink (out (o_sink st) ++ ws_frames (p :: take k R)) (closed (o_sink st)))
      (o_urgent_open st) (o_evict_open st))) as (st' & Hrun & Ho & Hc & ? & ?).
    + apply quiet_moves; [done| |done]. by apply Hf.
    + cbn [o_chan]. by rewrite Htr'.
    + cbn [o_chan]. by rewrite Htl'.
    + cbn [o_chan]. rewrite HR', (Hf live_rx), length_drop by done. cbn [length] in Hn. lia.
    + exists st'. split_and!; [done| |done..]. rewrite Ho. cbn [o_chan o_sink out].
      rewrite HR', (Hf live_rx) by done. rewrite <- app_assoc. f_equal.
      rewrite app_assoc, <- ws_frames_app. by rewrite <- app_comm_cons, take_drop.
Qed.

(** C16. Catch-up precedes live traffic: left to run while its senders are alive, the task
    writes every queued replay frame and then every queued live frame to the socket, each
    once and in order (frames that are not UTF-8 are dropped on a JSON connection), and then
    waits with both channels empty. *)
Theorem outbound_replay_before_live st n :
  (∀ k, send_ok k = true) → quiet st →
  tx_open replay_rx (o_chan st) = true → tx_open live_rx (o_chan st) = true →
  let R := queue replay_rx (o_chan st) in
  let L := queue live_rx (o_chan st) in
  length R + length L < n →
  ∃ st', run n false st = OWait st' ∧
    out (o_sink st') = out (o_sink st) ++ ws_frames R ++ ws_frames L ∧
    closed (o_sink st') = closed (o_sink st) ∧
    queue replay_rx (o_chan st') = [] ∧ queue live_rx (o_chan st') = [].
Proof using Type*.
  apply outbound_run_drains.
Qed.

(** On shutdown the task flushes everything queued, replay before live, sends close 1001,
    and returns: no frame that was queued is lost. *)
Theorem outbound_shutdown_flushes st :
  (∀ k, send_ok k = true) → quiet st →
  ∃ st', iter true st = OReturn st' ∧
    out (o_sink st') = out (o_sink st) ++ ws_frames (queue replay_rx (o_chan st)) ++
      ws_frames (queue live_rx (o_chan st)) ++
      [WsClose WS_CLOSE_GOING_AWAY "server shutting down"] ∧
    queue replay_rx (o_chan st') = [] ∧ queue live_rx (o_chan st') = [].
Proof using Type*.
  intros Hok Hquiet. destruct channels_distinct as (Dlr & Dlu & Dru).
  rewrite quiet_iter by done. cbn [shutdown_or_replay]. unfold shutdown_branch.
  destruct (drain_spec Hok replay_rx (o_chan st) (o_sink st)) as (h1 & -> & Hq1 & Hf1 & _).
  cbn [out closed].
  destruct (drain_spec Hok live_rx h1
    (mkSink (out (o_sink st) ++ ws_frames (queue replay_rx (o_chan st))) (closed (o_sink st))))
    as (h2 & -> & Hq2 & Hf2 & _).
  unfold sink_send. rewrite Hok. eexists. split; [done|].
  cbn [o_sink o_chan set_sink set_chan out closed snd]. split_and!; [|by rewrite Hf2|done].
  rewrite (Hf1 live_rx) by done. by rewrite <- !app_assoc.
Qed.
End Channels.

(** With an eviction signal queued the iteration sends the disconnect frame and returns. *)
Lemma evicted_iter st shutdown u q :
  o_evict_open st = true → queue evict_rx (o_evict st) = u :: q →
  ∃ st', iter shutdown st = OReturn st' ∧ closed (o_sink st') = true ∧
    o_chan st' = o_chan st ∧
    o_sink st' = sink_close (send_payload is_binary send_ok disconnect_frame (o_sink st)).2.
Proof using Type*.
  intros Ho Hq. unfold outbound_iter. rewrite Ho.
  destruct (poll_recv_msg evict_rx (o_evict st) u q Hq) as [Hm _].
  destruct (poll_recv evict_rx (o_evict st)) as [m h1]; cbn in Hm. subst m.
  eexists. split; [done|]. by cbn.
Qed.

(** With an urgent frame queued, and no eviction signal, it sends that frame and returns. *)
Lemma urgent_iter st shutdown p q :
  (o_evict_open st = true →
     queue evict_rx (o_evict st) = [] ∧ tx_open evict_rx (o_evict st) = true) →
  o_urgent_open st = true → queue urgent_close_rx (o_chan st) = p :: q →
  ∃ st', iter shutdown st = OReturn st' ∧ closed (o_sink st') = true ∧
    o_sink st' = sink_close (send_payload is_binary send_ok p (o_sink st)).2.
Proof using Type*.
  intros Hev Ho Hq. unfold outbound_iter.
  assert (∀ st0, o_chan st0 = o_chan st → o_sink st0 = o_sink st → o_urgent_open st0 = true →
    ∃ st', urgent_branch live_rx replay_rx urgent_close_rx is_binary send_ok shutdown st0
           = OReturn st' ∧ closed (o_sink st') = true ∧
           o_sink st' = sink_close (send_payload is_binary send_ok p (o_sink st)).2) as Hub.
  { intros st0 Hc Hs Hu. unfold urgent_branch. rewrite Hu, Hc.
    destruct (poll_recv_msg urgent_close_rx (o_chan st) p q Hq) as [Hm _].
    destruct (poll_recv urgent_close_rx (o_chan st)) as [m h1]; cbn in Hm. subst m.
    eexists. split; [done|]. cbn. by rewrite Hs. }
  destruct (o_evict_open st) eqn:Eo; [|by apply Hub].
  destruct Hev as [Hq0 Ht]; [done|]. rewrite (poll_recv_empty _ _ Hq0 Ht). by apply Hub.
Qed.

(** C17. Eviction wins over everything: with an eviction signal queued the next thing the task
    does is send the backpressure disconnect frame, close the socket and return, whatever
    else is pending, shutdown included; an urgent close wins over shutdown, replay and live
    traffic in the same way. *)
Theorem outbound_eviction_first st shutdown :
  (∀ u q, o_evict_open st = true → queue evict_rx (o_evict st) = u :: q →
     ∃ st', iter shutdown st = OReturn st' ∧ closed (o_sink st') = true ∧
       o_chan st' = o_chan st ∧
       o_sink st' = sink_close (send_payload is_binary send_ok disconnect_frame (o_sink st)).2) ∧
  (∀ p q, (o_evict_open st = true →
             queue evict_rx (o_evict st) = [] ∧ tx_open evict_rx (o_evict st) = true) →
     o_urgent_open st = true → queue urgent_close_rx (o_chan st) = p :: q →
     ∃ st', iter shutdown st = OReturn st' ∧ closed (o_sink st') = true ∧
       o_sink st' = sink_close (send_payload is_binary send_ok p (o_sink st)).2).
Proof using Type*.
  split; [intros u q; apply evicted_iter|intros p q; apply urgent_iter].
Qed.

(** What is left of a connection after [handle_socket] deregistered it and dropped its
    senders: every channel without a sender, no replay, urgent or eviction message queued. *)
Record abandoned st : Prop := mkAbandoned {
  ab_evict : queue evict_rx (o_evict st) = [] ∧ tx_open evict_rx (o_evict st) = false;
  ab_urgent : queue urgent_close_rx (o_chan st) = [] ∧
              tx_open urgent_close_rx (o_chan st) = false;
  ab_replay : queue replay_rx (o_chan st) = [] ∧ tx_open replay_rx (o_chan st) = false;
}.

(** The task does not end after an ordinary disconnect: once the senders are gone, the
    replay branch is ready with [None] in every iteration and hides the live branch behind
    it, so for every number of iterations the task is still looping, has not closed the
    socket and has sent none of the live frames that are still queued. *)
Theorem outbound_spins_when_abandoned st n :
  abandoned st →
  ∃ st', run n false st = OContinue st' ∧ abandoned st' ∧ o_sink st' = o_sink st ∧
    o_chan st' = o_chan st.
Proof using Type*.
  revert st. induction n as [|n IH]; intros st Hab; cbn [outbound_run]; [by exists st|].
  assert (∃ st', iter false st = OContinue st' ∧ abandoned st' ∧ o_sink st' = o_sink st ∧
            o_chan st' = o_chan st) as (st1 & -> & Hab1 & Hs1 & Hc1).
  { destruct Hab as [[He Het] [Hu Hut] [Hr Hrt]]. destruct st as [hb he sk uo eo].
    cbn [o_evict o_chan] in *. unfold outbound_iter, urgent_branch, shutdown_or_replay,
      replay_branch; cbn [o_evict_open o_urgent_open o_chan o_evict o_sink].
    destruct eo; [rewrite (poll_recv_closed _ _ He Het)
      |destruct uo; [rewrite (poll_recv_closed _ _ Hu Hut)
                    |rewrite (poll_recv_closed _ _ Hr Hrt)]];
      (eexists; split; [done|]; split; [by split|done]). }
  destruct (IH st1 Hab1) as (st2 & -> & Hab2 & Hs2 & Hc2).
  exists st2. split_and!; [done|done|congruence|congruence].
Qed.
End OutboundProperties.

(** ** Witnesses *)

(** Channels 0 (live), 1 (replay) and 2 (urgent), with two replay and one live frame queued. *)
Definition demo_chan (tx : bool) (replay : list string) : gmap nat (BoundedQueue string) :=
  {[ 0 := mkQueue ["c"] 4 true tx; 1 := mkQueue replay 4 true tx; 2 := mkQueue [] 1 true tx ]}.

Definition demo_out (tx : bool) (replay : list string) :
    OutState (HB := gmap nat (BoundedQueue string)) (HE := gmap nat (BoundedQueue unit)) :=
  mkOut (demo_chan tx replay) {[ 0 := mkQueue [] 1 true tx ]} (mkSink [] false) true true.

Lemma demo_distinct : NoDup [0; 1; 2].
Proof. by apply (bool_decide_unpack _). Qed.

Lemma demo_quiet : quiet 2 0 (demo_out true ["a"; "b"]).
Proof. by vm_compute. Qed.

Lemma outbound_replay_before_live_witness :
  ∃ st', outbound_run 0 1 2 0 false "bye" (λ _, true) 4 false (demo_out true ["a"; "b"]) = OWait st' ∧
    out (o_sink st') = [WsText "a"; WsText "b"; WsText "c"].
Proof.
  destruct (outbound_replay_before_live 0 1 2 0 false "bye" (λ _, true) demo_distinct
    (demo_out true ["a"; "b"]) 4 (λ _, eq_refl) demo_quiet eq_refl eq_refl)
    as (st' & Hrun & Hout & _).
  - vm_compute. lia.
  - exists st'. split; [exact Hrun|]. rewrite Hout. reflexivity.
Defined.

Lemma outbound_shutdown_flushes_witness :
  ∃ st', outbound_iter 0 1 2 0 false "bye" (λ _, true) true (demo_out true ["a"; "b"]) = OReturn st' ∧
    out (o_sink st') = [WsText "a"; WsText "b"; WsText "c";
                        WsClose 1001 "server shutting down"].
Proof.
  destruct (outbound_shutdown_flushes 0 1 2 0 false "bye" (λ _, true) demo_distinct
    (demo_out true ["a"; "b"]) (λ _, eq_refl) demo_quiet) as (st' & Hit & Hout & _).
  exists st'. split; [exact Hit|]. rewrite Hout. reflexivity.
Defined.

Lemma outbound_spins_when_abandoned_witness :
  ∃ st', outbound_run 0 1 2 0 false "bye" (λ _, true) 1000 false (demo_out false [])
         = OContinue st' ∧ out (o_sink st') = [].
Proof.
  destruct (outbound_spins_when_abandoned 0 1 2 0 false "bye" (λ _, true) (demo_out false [])
    1000) as (st' & Hrun & _ & Hs & _).
  - by split.
  - exists st'. split; [exact Hrun|]. rewrite Hs. reflexivity.
Defined.

(** An eviction signal queued behind two replay frames and a shutdown. *)
Definition demo_evicting :
    OutState (HB := gmap nat (BoundedQueue string)) (HE := gmap nat (BoundedQueue unit)) :=
  mkOut (demo_chan true ["a"; "b"]) {[ 0 := mkQueue [()] 1 true true ]} (mkSink [] false)
    true true.

Lemma outbound_eviction_first_witness :
  ∃ st', outbound_iter 0 1 2 0 false "bye" (λ _, true) true demo_evicting = OReturn st' ∧
    o_sink st' = mkSink [WsText "bye"] true.
Proof.
  destruct (proj1 (outbound_eviction_first 0 1 2 0 false "bye" (λ _, true) demo_evicting true)
    () []) as (st' & Hit & _ & _ & Hs).
  - vm_compute. reflexivity.
  - vm_compute. reflexivity.
  - exists st'. split; [exact Hit|]. rewrite Hs. reflexivity.
Defined.
