(* ===== verification/System.v ===== *)
(** * The gateway around one connection

    The parts put together: the consumer fans messages out to the connection's live channel;
    the inbound task handles the client's frames, changes the registry, answers on the live
    channel and spawns replay tasks; these fill the replay channel and may ask for the
    connection to be closed on the urgent one; the outbound task moves all of it to the
    socket; and the tasks of other connections change the registry and use their own
    channels.  The tasks run in any interleaving of their steps.  Nothing that reaches the
    connection is lost or reordered on the way, unless the client is told to reconnect. *)

From stdpp Require Import base list gmap strings fin_maps sets sorting.
From Stdlib Require Import ZArith Lia Sorted.
From S2P Require Import Prelude Channels Text Config Protocol Jwt Float RateLimit Registry RegistrySpec Metrics Nats Replay ReplayTask Consumer Handler HandlerSpec Outbound.

Local Open Scope string_scope.
Local Open Scope list_scope.
Local Open Scope nat_scope.

(** ** Interleavings of two lists *)

Inductive interleaved {A} : list A → list A → list A → Prop :=
| il_nil : interleaved [] [] []
| il_left l1 l2 l k : interleaved l1 l2 l → interleaved (l1 ++ k) l2 (l ++ k)
| il_right l1 l2 l k : interleaved l1 l2 l → interleaved l1 (l2 ++ k) (l ++ k).

Lemma interleaved_sublist {A} (l1 l2 l : list A) :
  interleaved l1 l2 l → l1 `sublist_of` l ∧ l2 `sublist_of` l ∧ l ≡ₚ l1 ++ l2.
Proof.
  induction 1 as [|l1 l2 l k _ (IH1 & IH2 & IHp)|l1 l2 l k _ (IH1 & IH2 & IHp)]; [done|..].
  - split_and!; [by apply sublist_app|by apply sublist_inserts_r|].
    rewrite IHp, <- !app_assoc. apply Permutation_app_head, Permutation_app_comm.
  - split_and!; [by apply sublist_inserts_r|by apply sublist_app|].
    by rewrite IHp, app_assoc.
Qed.

(** ** State and steps *)

(** What happens on the live side: a message the consumer takes, with what the rate limiter
    said of it; a frame the inbound task sends; the streams the connection is on after the
    inbound task handled an event. *)
Inductive arrival : Type :=
| FromStream (m : NatsMessage) (allowed : bool)
| FromInbound (frame : string)
| NowOn (strs : list string).

(** A replay task: what it was spawned for, the frames it has queued, those it has still to
    queue, and what it then puts on the urgent channel. *)
Record ReplayRun : Type := mkRun {
  run_stream : string;
  run_cursor : Z;
  run_sent : list string;
  run_todo : list string;
  run_urgent : list string;
}.

(** [y_session] has the variables of the inbound task (its registry and metrics are those of
    the gateway), [y_replies] the frames it is sending.  [y_queued] are the frames the replay
    tasks queued, with the number of the task, and [y_arrived] what happened on the live
    side, both in order. *)
Record Sys (Tx Ev HB HE : Type) : Type := mkSys {
  y_gateway : Gateway Tx Ev HB HE;
  y_session : World Tx Ev;
  y_sink : Sink;
  y_replies : list string;
  y_runs : list ReplayRun;
  y_queued : list (nat * string);
  y_arrived : list arrival;
}.
Arguments mkSys {Tx Ev HB HE}.
Arguments y_gateway {Tx Ev HB HE}.
Arguments y_session {Tx Ev HB HE}.
Arguments y_sink {Tx Ev HB HE}.
Arguments y_replies {Tx Ev HB HE}.
Arguments y_runs {Tx Ev HB HE}.
Arguments y_queued {Tx Ev HB HE}.
Arguments y_arrived {Tx Ev HB HE}.

(** What the inbound task asked for, by kind. *)
Definition sends (l : list effect) : list string :=
  omap (λ x, match x with SendLive frame => Some frame | _ => None end) l.

Definition spawns (l : list effect) : list (string * Z) :=
  omap (λ x, match x with SpawnReplay i seq => Some (i, seq) | _ => None end) l.

Section System.
Context (serde_json rmp_serde : WireLib) (ctx : ConnContext) (env : AppEnv).
Context {Tx Ev HB HE : Type} `{!Mpsc string HB Tx} `{!Mpsc unit HE Ev}.
(** The connection's registry entry, and the channels the entry does not have. *)
Context (e : ConnectionEntry Tx Ev) (replay_tx urgent_tx : Tx) (disconnect_frame : string).
Abbreviation sys := (Sys Tx Ev HB HE).
Abbreviation id := (ctx_conn_id ctx).

Definition with_channels (h : HB) (g : Gateway Tx Ev HB HE) : Gateway Tx Ev HB HE :=
  mkGateway (g_registry g) h (g_evictions g) (g_metrics g) (g_limiter g).

(** The rate limiter's decision on a message. *)
Definition admits (t_new t_now : Z) (m : NatsMessage) (g : Gateway Tx Ev HB HE) : bool :=
  (decide_message t_new t_now (extract_stream_name (subject m)) (g_limiter g)).1.

(** The inbound task's view of the state: its variables and the shared parts. *)
Definition inbound_view (y : sys) : World Tx Ev :=
  on_registry (λ _, g_registry (y_gateway y)) (on_metrics (λ _, g_metrics (y_gateway y)) (y_session y)).

(** What an event added to the log. *)
Definition new_effects (y : sys) (w' : World Tx Ev) : list effect :=
  drop (length (w_log (y_session y))) (w_log w').

(** The task of a resuming subscribe: what [replay_task] does against a server [js]. *)
Definition start_run (js : ReplayServer) (permit : bool) (s : string * Z) : ReplayRun :=
  let t := replay_task serde_json rmp_serde (ctx_codec ctx) (λ _, true) true js permit s.1 s.2
             no_metrics in
  mkRun s.1 s.2 [] (t_replay t) (t_urgent t).

(** The state after the inbound task handled an event. *)
Definition after_inbound (w' : World Tx Ev) (runs : list ReplayRun) (y : sys) : sys :=
  let g := y_gateway y in
  mkSys (mkGateway (w_registry w') (g_channels g) (g_evictions g) (w_metrics w') (g_limiter g))
    w' (y_sink y) (sends (new_effects y w')) (y_runs y ++ runs) (y_queued y)
    (y_arrived y ++ [NowOn (streams_of (w_registry w') id)]).

(** The outbound task's view of the state. *)
Definition outbound_view (y : sys) : OutState :=
  mkOut (g_channels (y_gateway y)) (g_evictions (y_gateway y)) (y_sink y) true true.

Definition outbound_turn (shutdown : bool) (y : sys) : out_result :=
  outbound_iter (sender e) replay_tx urgent_tx (evict_tx e) (is_binary e) disconnect_frame
    (λ _, true) shutdown (outbound_view y).

(** Registry operations of other connections' tasks. *)
Inductive peers_step : Registry Tx Ev → Registry Tx Ev → Prop :=
| ps_io r : peers_step r r
| ps_allocate r : peers_step r (allocate_id r).2
| ps_register r id' tx b ev :
    id' ≠ id → connections r !! id' = None → tx ∉ [sender e; replay_tx; urgent_tx] →
    (∀ id1 e1, connections r !! id1 = Some e1 → sender e1 ≠ tx) →
    peers_step r (register id' tx b ev r)
| ps_deregister r id' : id' ≠ id → peers_step r (deregister id' r)
| ps_subscribe r id' s : id' ≠ id → peers_step r (subscribe id' s r)
| ps_unsubscribe r id' s : id' ≠ id → peers_step r (unsubscribe id' s r).

(** A channel as it was. *)
Definition same_channel {Msg H Ch : Type} `{!Mpsc Msg H Ch} (c : Ch) (h h' : H) : Prop :=
  queue c h' = queue c h ∧ capacity c h' = capacity c h ∧ rx_open c h' = rx_open c h ∧
  tx_open c h' = tx_open c h.

(** What the connection's tasks do with work they have: the inbound task sends its answers, the
    replay tasks queue their frames and requests, the outbound task empties the channels. *)
Inductive task_step : sys → sys → Prop :=
| ts_reply y frame rest :
    y_replies y = frame :: rest → has_room (sender e) (g_channels (y_gateway y)) = true →
    task_step y (mkSys (with_channels (try_send (sender e) frame (g_channels (y_gateway y))).2
                         (y_gateway y))
                  (y_session y) (y_sink y) rest (y_runs y) (y_queued y)
                  (y_arrived y ++ [FromInbound frame]))
| ts_replay y k r frame rest :
    y_runs y !! k = Some r → run_todo r = frame :: rest →
    has_room replay_tx (g_channels (y_gateway y)) = true →
    task_step y (mkSys (with_channels (try_send replay_tx frame (g_channels (y_gateway y))).2
                         (y_gateway y))
                  (y_session y) (y_sink y) (y_replies y)
                  (<[k := mkRun (run_stream r) (run_cursor r) (run_sent r ++ [frame]) rest
                            (run_urgent r)]> (y_runs y))
                  (y_queued y ++ [(k, frame)]) (y_arrived y))
| ts_urgent y k r frame rest :
    y_runs y !! k = Some r → run_todo r = [] → run_urgent r = frame :: rest →
    has_room urgent_tx (g_channels (y_gateway y)) = true →
    task_step y (mkSys (with_channels (try_send urgent_tx frame (g_channels (y_gateway y))).2
                         (y_gateway y))
                  (y_session y) (y_sink y) (y_replies y)
                  (<[k := mkRun (run_stream r) (run_cursor r) (run_sent r) [] rest]> (y_runs y))
                  (y_queued y) (y_arrived y))
| ts_outbound y hb he sk :
    outbound_turn false y = OContinue (mkOut hb he sk true true) →
    task_step y (mkSys (mkGateway (g_registry (y_gateway y)) hb he (g_metrics (y_gateway y))
                         (g_limiter (y_gateway y)))
                  (y_session y) sk (y_replies y) (y_runs y) (y_queued y) (y_arrived y)).

(** All steps: those, and what comes from outside (messages, client frames, pings, other
    connections).  They cover a connection from the start of its inbound loop to the end of
    it; what follows that end (presence deletes, deregistration, the dropped senders and the
    drained channels) is in [PresenceLife], [Socket] and [Outbound]. *)
Inductive sys_step : sys → sys → Prop :=
| sys_message y m t_new t_now :
    sys_step y (mkSys (process_nats_message serde_json rmp_serde t_new t_now m (y_gateway y))
                  (y_session y) (y_sink y) (y_replies y) (y_runs y) (y_queued y)
                  (y_arrived y ++ [FromStream m (admits t_new t_now m (y_gateway y))]))
| sys_inbound y ev w' runs :
    y_replies y = [] →
    inbound_run serde_json ctx env [ev] (inbound_view y) = (false, w') →
    Forall2 (λ s r, ∃ js permit, r = start_run js permit s) (spawns (new_effects y w')) runs →
    sys_step y (after_inbound w' runs y)
| sys_task y y' : task_step y y' → sys_step y y'
| sys_peers y r' hb' he' :
    peers_step (g_registry (y_gateway y)) r' →
    (∀ c, c ∈ [sender e; replay_tx; urgent_tx] → same_channel c (g_channels (y_gateway y)) hb') →
    same_channel (evict_tx e) (g_evictions (y_gateway y)) he' →
    sys_step y (mkSys (mkGateway r' hb' he' (g_metrics (y_gateway y)) (g_limiter (y_gateway y)))
                  (y_session y) (y_sink y) (y_replies y) (y_runs y) (y_queued y) (y_arrived y)).

(** ** What should be on the live side *)

Definition live_frame (m : NatsMessage) : string :=
  encode_or_default (if is_binary e then rmp_serde else serde_json)
    (live_message serde_json rmp_serde (extract_stream_name (subject m)) m).

(** The streams after what happened, from [strs]. *)
Fixpoint now_on (strs : list string) (l : list arrival) : list string :=
  match l with
  | [] => strs
  | NowOn strs' :: l' => now_on strs' l'
  | _ :: l' => now_on strs l'
  end.

(** The frames: one per message on the streams of the moment that the rate limiter let through,
    and those of the inbound task. *)
Definition frame_for (strs : list string) (a : arrival) : list string :=
  match a with
  | FromStream m allowed =>
      if allowed && bool_decide (extract_stream_name (subject m) ∈ strs) then [live_frame m] else []
  | FromInbound frame => [frame]
  | NowOn _ => []
  end.

Fixpoint expected (strs : list string) (l : list arrival) : list string :=
  match l with
  | [] => []
  | a :: l' => frame_for strs a ++ expected (now_on strs [a]) l'
  end.

(** The messages the consumer took, the frames of the inbound task, those of a replay task. *)
Definition taken_of (l : list arrival) : list NatsMessage :=
  omap (λ a, match a with FromStream m _ => Some m | _ => None end) l.

Definition answers_of (l : list arrival) : list string :=
  omap (λ a, match a with FromInbound frame => Some frame | _ => None end) l.

Definition of_run (k : nat) (l : list (nat * string)) : list string :=
  omap (λ p, if decide (p.1 = k) then Some p.2 else None) l.

Lemma now_on_app strs l l' : now_on strs (l ++ l') = now_on (now_on strs l) l'.
Proof. revert strs. induction l as [|a l IH]; intros strs; [done|]. destruct a; apply IH. Qed.

Lemma expected_app strs l l' :
  expected strs (l ++ l') = expected strs l ++ expected (now_on strs l) l'.
Proof.
  revert strs. induction l as [|a l IH]; intros strs; [done|]. cbn [app expected].
  rewrite IH, <- app_assoc. by destruct a.
Qed.

Lemma of_run_snoc k l k' frame :
  of_run k (l ++ [(k', frame)]) = of_run k l ++ (if decide (k' = k) then [frame] else []).
Proof. unfold of_run. rewrite omap_app. cbn. by case_decide. Qed.
End System.

(** ** Invariant *)

Section Invariant.
Context (serde_json rmp_serde : WireLib) (ctx : ConnContext) (env : AppEnv).
Context {Tx Ev HB HE : Type} `{MpscLaws string HB Tx} `{MpscLaws unit HE Ev}.
Context `{!EqDecision Tx} `{!EqDecision Ev}.
Context (e : ConnectionEntry Tx Ev) (replay_tx urgent_tx : Tx) (disconnect_frame : string).
(** What the socket had before, and what [handle_socket] sends first: the welcome frame. *)
Context (out0 : list WsMessage) (greeting : list string).
Implicit Types (y : Sys Tx Ev HB HE) (g : Gateway Tx Ev HB HE) (w : World Tx Ev) (r : Registry Tx Ev).

Abbreviation id := (ctx_conn_id ctx).
Abbreviation step :=
  (sys_step serde_json rmp_serde ctx env e replay_tx urgent_tx disconnect_frame).
Abbreviation ws := (ws_frames (is_binary e)).
Abbreviation frames_of := (expected serde_json rmp_serde e []).
Abbreviation task := (task_step e replay_tx urgent_tx disconnect_frame).
Abbreviation turn := (outbound_turn e replay_tx urgent_tx disconnect_frame).

(** The channels of a connection that is alive: its receivers are the outbound task, its
    senders the other tasks. *)
Record plumbing g : Prop := mkPlumbing {
  pl_wf : registry_wf (g_registry g);
  pl_distinct : senders_distinct (g_registry g);
  pl_open c : c ∈ [sender e; replay_tx; urgent_tx] →
    rx_open c (g_channels g) = true ∧ tx_open c (g_channels g) = true ∧ 0 < capacity c (g_channels g);
  pl_evict : rx_open (evict_tx e) (g_evictions g) = true ∧
             tx_open (evict_tx e) (g_evictions g) = true ∧
             0 < capacity (evict_tx e) (g_evictions g);
  pl_private id' e' : connections (g_registry g) !! id' = Some e' →
                      sender e' ≠ replay_tx ∧ sender e' ≠ urgent_tx;
  pl_own : NoDup [sender e; replay_tx; urgent_tx];
}.

(** Registered, with the given streams, and with a channel that holds what it can. *)
Definition subscribed (strs : list string) g : Prop :=
  connections (g_registry g) !! id = Some e ∧
  (∀ s, id ∈ subscribers (g_registry g) s ↔ s ∈ strs) ∧
  length (queue (sender e) (g_channels g)) ≤ capacity (sender e) (g_channels g).

(** Every frame is on the socket or in its channel, in the order of its source. *)
Definition accounted y : Prop :=
  ∃ R L k,
    R ++ queue replay_tx (g_channels (y_gateway y)) = (y_queued y).*2 ∧
    L ++ queue (sender e) (g_channels (y_gateway y)) = frames_of (y_arrived y) ∧
    out (y_sink y) = out0 ++ k ∧ interleaved (ws R) (ws L) k.

(** The frames that tell a client to reconnect. *)
Definition closing (frame : string) : Prop :=
  frame = disconnect_frame ∨
  ∃ reason, reason ∈ ["replay_window_exceeded"; "replay_truncated"] ∧
    encode (ctx_codec ctx) (disconnect_for reason) = Ok frame.

(** The replay tasks: what each queued is in the queue order, and what they may ask for. *)
Definition runs_ok y : Prop :=
  (∀ k t, y_runs y !! k = Some t →
     of_run k (y_queued y) = run_sent t ∧ Forall closing (run_urgent t)) ∧
  (∀ k, length (y_runs y) ≤ k → of_run k (y_queued y) = []).

(** The inbound side's frames are those it has sent and those it is sending. *)
Definition answered y : Prop :=
  answers_of (y_arrived y) ++ y_replies y = greeting ++ sends (w_log (y_session y)).

(** Something that makes the outbound task end is queued. *)
Definition ending g : Prop :=
  queue (evict_tx e) (g_evictions g) ≠ [] ∨ queue urgent_tx (g_channels g) ≠ [].

Record sys_inv y : Prop := mkSysInv {
  yi_plumbing : plumbing (y_gateway y);
  yi_runs : runs_ok y;
  yi_answered : answered y;
  yi_urgent : Forall closing (queue urgent_tx (g_channels (y_gateway y)));
  yi_case : subscribed (now_on [] (y_arrived y)) (y_gateway y) ∧ accounted y ∨ ending (y_gateway y);
}.

(** The connection is registered, nothing is queued, and the welcome frame is to be sent. *)
Definition sys_init y : Prop :=
  plumbing (y_gateway y) ∧ subscribed (now_on [] (y_arrived y)) (y_gateway y) ∧
  queue (sender e) (g_channels (y_gateway y)) = [] ∧
  queue replay_tx (g_channels (y_gateway y)) = [] ∧
  queue urgent_tx (g_channels (y_gateway y)) = [] ∧
  w_log (y_session y) = [] ∧ y_replies y = greeting ∧ y_runs y = [] ∧ y_queued y = [] ∧
  y_arrived y = [NowOn (streams_of (g_registry (y_gateway y)) id)] ∧ out (y_sink y) = out0.

Lemma sys_inv_init y : sys_init y → sys_inv y.
Proof using Type.
  intros (Hp & Hs & Hl & Hr & Hu & Hw & Hre & Hrun & Hq & Ha & Ho). split; [done| | | |].
  - unfold runs_ok. rewrite Hrun, Hq. by split.
  - unfold answered. by rewrite Ha, Hre, Hw, app_nil_r.
  - by rewrite Hu.
  - left. split; [done|]. exists [], [], []. rewrite Hl, Hr, Hq, Ha, Ho.
    split_and!; [done|done|by rewrite app_nil_r|apply il_nil].
Qed.

(** *** A message *)

(** What a fan-out leaves alone. *)
Lemma fan_out_frame s m g :
  registry_wf (g_registry g) → senders_distinct (g_registry g) →
  let g' := fan_out_message serde_json rmp_serde s m g in
  registry_wf (g_registry g') ∧ connections (g_registry g') ⊆ connections (g_registry g) ∧
  same_ends (g_channels g) (g_channels g') ∧ same_ends (g_evictions g) (g_evictions g') ∧
  (∀ c, (∀ id e, connections (g_registry g) !! id = Some e → sender e ≠ c) →
        queue c (g_channels g') = queue c (g_channels g)) ∧
  (∀ c, queue c (g_evictions g) `prefix_of` queue c (g_evictions g')) ∧
  (∀ id e, connections (g_registry g) !! id = Some e → id ∈ subscribers (g_registry g) s →
     has_room (sender e) (g_channels g) = false →
     rx_open (evict_tx e) (g_evictions g) = true → 0 < capacity (evict_tx e) (g_evictions g) →
     connections (g_registry g') !! id = None ∧ queue (evict_tx e) (g_evictions g') ≠ []) ∧
  g_limiter g' = g_limiter g.
Proof using Type*.
  intros Hwf Hd g'. unfold g', fan_out_message, fanout_encoded.
  fold (subscribers (g_registry g) s).
  destruct (fanout_loop _ _ _ _ _ _) as [[[k ev] hb'] he'] eqn:El.
  cbn [g_registry g_channels g_evictions g_limiter].
  destruct (fanout_loop_spec _ _ _ _ _ _ _ _ _ _ Hd (wf_nodup_subs _ Hwf s)
    (λ x, subscriber_registered _ s x Hwf) El) as (Hev & _ & _ & Hother).
  destruct (fanout_loop_evict_grows _ _ _ _ _ _ _ _ _ _ El) as [Hends Hgrow].
  split_and!; [by apply fold_deregister_wf|by apply fold_deregister_connections
    |by eapply fanout_loop_ends|done|done|done| |done].
  intros id' e' He' Hin Hroom Hrx Hcap.
  assert (id' ∈ ev) as Hmem.
  { rewrite Hev. apply list_elem_of_filter. split; [|done]. unfold room_of. by rewrite He'. }
  destruct (fold_deregister_spec ev _ id' Hwf) as [Hc _]. split.
  - apply eq_None_not_Some. rewrite Hc. tauto.
  - by eapply fanout_loop_signals.
Qed.

(** Nothing the outbound task would end on goes away while it does not run. *)
Lemma ending_grows g g' :
  queue urgent_tx (g_channels g') = queue urgent_tx (g_channels g) →
  queue (evict_tx e) (g_evictions g) `prefix_of` queue (evict_tx e) (g_evictions g') →
  ending g → ending g'.
Proof using Type.
  intros Hu [k Hk] [Hq|Hq]; [left|right; congruence]. rewrite Hk.
  by destruct (queue (evict_tx e) (g_evictions g)).
Qed.

Lemma inv_fan_out y m :
  sys_inv y →
  sys_inv (mkSys (fan_out_message serde_json rmp_serde (extract_stream_name (subject m)) m
                    (y_gateway y))
             (y_session y) (y_sink y) (y_replies y) (y_runs y) (y_queued y)
             (y_arrived y ++ [FromStream m true])).
Proof using Type*.
  intros [Hp Hruns Hans Hurg Hcase].
  set (g := y_gateway y) in *. set (s := extract_stream_name (subject m)).
  pose proof Hp as [Hwf Hd Hopen (Her & Het & Hec) Hpr Hown].
  assert (rx_open (sender e) (g_channels g) = true) as Hlr by (apply Hopen; set_solver).
  destruct (fan_out_frame s m g Hwf Hd)
    as (Hwf' & Hsub & Hends & Hevends & Hother & Hgrow & Hevict & _).
  set (g' := fan_out_message serde_json rmp_serde s m g) in *.
  destruct (Hevends (evict_tx e)) as (Hec' & Her' & Het').
  assert (queue urgent_tx (g_channels g') = queue urgent_tx (g_channels g)) as Hqu
    by (apply Hother; intros id' e' He'; by apply (Hpr id' e')).
  split; cbn [y_gateway y_arrived y_session y_replies].
  - split; rewrite ?Her', ?Het', ?Hec'; try done.
    + by eapply senders_distinct_subseteq.
    + intros c Hc. destruct (Hends c) as (-> & -> & ->). by apply Hopen.
    + intros id' e' He'. by apply (Hpr id' e'), (lookup_weaken _ _ _ _ He').
  - done.
  - unfold answered, answers_of. cbn. by rewrite omap_app, app_nil_r.
  - by rewrite Hqu.
  - rewrite now_on_app. cbn [now_on].
    destruct Hcase as [((He & Hs & Hfit) & R & L & k & HR & HL & Ho & Hi)|Hend];
      [|right; by eapply ending_grows].
    destruct (decide (s ∈ now_on [] (y_arrived y) ∧ has_room (sender e) (g_channels g) = false))
      as [[Hin Hno]|Hyes].
    { right. left. apply (Hevict id e); try done. by apply Hs. }
    left. destruct (fan_out_ready serde_json rmp_serde s m g id e (now_on [] (y_arrived y)) 0)
      as (Hr & Hq & _).
    { split; try done. case_bool_decide as Hb; cbn; [|lia].
      destruct (has_room (sender e) (g_channels g)) eqn:Er; [|naive_solver].
      unfold has_room in Er. apply andb_true_iff in Er as [_ Er%Nat.ltb_lt]. lia. }
    fold g' in Hr, Hq. split; [destruct Hr; split_and!; [done|done|lia]|].
    exists R, L, k. cbn [y_gateway y_queued y_arrived y_sink].
    rewrite Hother by (intros id' e' He'; by apply (Hpr id' e')).
    split_and!; [done| |done|done].
    rewrite expected_app, <- HL, Hq, app_assoc. f_equal. cbn. by rewrite app_nil_r.
Qed.

(** The rate limiter touches neither the registry nor the channels. *)
Lemma inv_limited y g' m :
  g_registry g' = g_registry (y_gateway y) → g_channels g' = g_channels (y_gateway y) →
  g_evictions g' = g_evictions (y_gateway y) → sys_inv y →
  sys_inv (mkSys g' (y_session y) (y_sink y) (y_replies y) (y_runs y) (y_queued y) (y_arrived y)) ∧
  sys_inv (mkSys g' (y_session y) (y_sink y) (y_replies y) (y_runs y) (y_queued y)
             (y_arrived y ++ [FromStream m false])).
Proof using Type.
  intros Hr Hc He [[] Hruns Hans Hurg Hcase].
  split; (split; cbn [y_gateway y_arrived]; rewrite ?now_on_app;
    [split; by rewrite ?Hr, ?Hc, ?He|done| |by rewrite Hc|]);
    unfold answered, answers_of, accounted, subscribed, ending in *; cbn;
    rewrite ?omap_app, ?expected_app, ?app_nil_r, ?Hr, ?Hc, ?He; done.
Qed.

Lemma inv_message y m t_new t_now :
  sys_inv y →
  sys_inv (mkSys (process_nats_message serde_json rmp_serde t_new t_now m (y_gateway y))
             (y_session y) (y_sink y) (y_replies y) (y_runs y) (y_queued y)
             (y_arrived y ++ [FromStream m (admits t_new t_now m (y_gateway y))])).
Proof using Type*.
  intros Hinv. unfold admits, process_nats_message. set (s := extract_stream_name (subject m)).
  destruct (rate_limit_frame t_new t_now s (y_gateway y)) as (Hr & Hc & He).
  destruct (rate_limit_decision t_new t_now s (y_gateway y)) as [<- _].
  destruct (rate_limit_message t_new t_now s (y_gateway y)) as [allow g1]; cbn [fst snd] in *.
  destruct (inv_limited y g1 m Hr Hc He Hinv) as [Hg1 Hdrop].
  destruct allow; [|done]. by apply (inv_fan_out _ m) in Hg1.
Qed.

(** *** Frames of the inbound task and of the replay tasks *)

Lemma plumbing_channels h' g :
  plumbing g → same_ends (g_channels g) h' → plumbing (with_channels h' g).
Proof using Type.
  intros [] Hends. split; cbn; try done.
  intros c Hc. destruct (Hends c) as (-> & -> & ->). by apply pl_open0.
Qed.

Lemma own_distinct g :
  plumbing g → sender e ≠ replay_tx ∧ sender e ≠ urgent_tx ∧ replay_tx ≠ urgent_tx.
Proof using Type. intros []. by apply channels_distinct. Qed.

Lemma inv_reply y frame rest :
  y_replies y = frame :: rest → has_room (sender e) (g_channels (y_gateway y)) = true →
  sys_inv y →
  sys_inv (mkSys (with_channels (try_send (sender e) frame (g_channels (y_gateway y))).2
                    (y_gateway y)) (y_session y) (y_sink y) rest (y_runs y) (y_queued y)
             (y_arrived y ++ [FromInbound frame])).
Proof using Type*.
  intros Hrep (Hq & Hlt & Hf & Hends)%(send_room _ frame) [Hp Hruns Hans Hurg Hcase].
  destruct (own_distinct _ Hp) as (Dlr & Dlu & Dru). destruct (Hends (sender e)) as (Hc & _).
  split; cbn [y_gateway y_arrived with_channels g_channels].
  - by apply plumbing_channels.
  - done.
  - unfold answered, answers_of in *. cbn. rewrite omap_app, <- Hans, Hrep. cbn.
    by rewrite <- app_assoc.
  - by rewrite Hf.
  - rewrite now_on_app. cbn [now_on].
    destruct Hcase as [((He & Hs & Hfit) & R & L & k & HR & HL & Ho & Hi)|Hend];
      [left|right; apply (ending_grows (y_gateway y)); [by apply Hf|done|done]].
    split; [split_and!; [done|done|]; cbn; rewrite Hq, Hc, length_app; cbn; lia|].
    exists R, L, k. cbn. rewrite Hf, Hq by done. split_and!; [done| |done|done].
    rewrite expected_app, <- HL. cbn. by rewrite app_assoc.
Qed.

Lemma inv_replay y k t frame rest :
  y_runs y !! k = Some t → run_todo t = frame :: rest →
  has_room replay_tx (g_channels (y_gateway y)) = true → sys_inv y →
  sys_inv (mkSys (with_channels (try_send replay_tx frame (g_channels (y_gateway y))).2
                    (y_gateway y)) (y_session y) (y_sink y) (y_replies y)
             (<[k := mkRun (run_stream t) (run_cursor t) (run_sent t ++ [frame]) rest
                       (run_urgent t)]> (y_runs y))
             (y_queued y ++ [(k, frame)]) (y_arrived y)).
Proof using Type*.
  intros Hk Ht (Hq & _ & Hf & Hends)%(send_room _ frame) [Hp [Hr1 Hr2] Hans Hurg Hcase].
  destruct (own_distinct _ Hp) as (Dlr & Dlu & Dru). destruct (Hends (sender e)) as (Hc & _).
  pose proof (lookup_lt_Some _ _ _ Hk) as Hlt.
  split; cbn [y_gateway y_arrived with_channels g_channels].
  - by apply plumbing_channels.
  - split; cbn [y_runs y_queued].
    + intros k' t' Hk'. rewrite of_run_snoc. apply list_lookup_insert_Some in Hk'
        as [(<- & <- & _)|[Hne Hk']].
      * rewrite decide_True by done. cbn. destruct (Hr1 _ _ Hk) as [-> Hcl]. done.
      * rewrite decide_False, app_nil_r by done. by apply Hr1.
    + intros k'. rewrite length_insert. intros Hge. rewrite of_run_snoc, decide_False by lia.
      by rewrite Hr2.
  - done.
  - by rewrite Hf.
  - destruct Hcase as [((He & Hs & Hfit) & R & L & o & HR & HL & Ho & Hi)|Hend];
      [left|right; apply (ending_grows (y_gateway y)); [by apply Hf|done|done]].
    split; [split_and!; [done|done|]; cbn; by rewrite Hf, Hc|].
    exists R, L, o. cbn. rewrite Hq, Hf by done. split_and!; [|done|done|done].
    by rewrite fmap_app, <- HR, app_assoc.
Qed.

Lemma inv_urgent y k t frame rest :
  y_runs y !! k = Some t → run_todo t = [] → run_urgent t = frame :: rest →
  has_room urgent_tx (g_channels (y_gateway y)) = true → sys_inv y →
  sys_inv (mkSys (with_channels (try_send urgent_tx frame (g_channels (y_gateway y))).2
                    (y_gateway y)) (y_session y) (y_sink y) (y_replies y)
             (<[k := mkRun (run_stream t) (run_cursor t) (run_sent t) [] rest]> (y_runs y))
             (y_queued y) (y_arrived y)).
Proof using Type*.
  intros Hk Ht Hu (Hq & _ & Hf & Hends)%(send_room _ frame) [Hp [Hr1 Hr2] Hans Hurg Hcase].
  destruct (Hr1 _ _ Hk) as [Hsent Hcl]. rewrite Hu in Hcl. apply Forall_cons in Hcl as [Hcf Hcl].
  split; cbn [y_gateway y_arrived with_channels g_channels].
  - by apply plumbing_channels.
  - split; cbn [y_runs y_queued]; [|intros k'; rewrite length_insert; apply Hr2].
    intros k' t' Hk'. apply list_lookup_insert_Some in Hk' as [(<- & <- & _)|[Hne Hk']]; [done|].
    by apply Hr1.
  - done.
  - rewrite Hq. apply Forall_app. split; [done|]. by apply Forall_singleton.
  - right. right. cbn. rewrite Hq. intros [_ Habs]%app_eq_nil. done.
Qed.

(** *** The outbound task *)

(** One turn: with an eviction signal or an urgent frame queued the task sends a closing frame
    and returns; otherwise it moves frames of the replay channel, or one of the live channel
    when there are none, or waits. *)
Lemma turn_ends shutdown y :
  plumbing (y_gateway y) → Forall closing (queue urgent_tx (g_channels (y_gateway y))) →
  ending (y_gateway y) →
  ∃ st frame, turn shutdown y = OReturn st ∧ closing frame ∧
    o_sink st = mkSink (out (y_sink y) ++ ws [frame]) true.
Proof using Type*.
  intros Hp Hurg Hend. destruct Hp as [_ _ _ (Her & Het & Hec) _ _].
  destruct (queue (evict_tx e) (g_evictions (y_gateway y))) as [|u q] eqn:Eq.
  - destruct Hend as [Hq|Hq]; [done|].
    destruct (queue urgent_tx (g_channels (y_gateway y))) as [|p q] eqn:Eu; [done|].
    destruct (urgent_iter (sender e) replay_tx urgent_tx (evict_tx e) (is_binary e)
      disconnect_frame (λ _, true) (outbound_view y) shutdown p q (λ _, conj Eq Het) eq_refl Eu)
      as (st & Hit & _ & Hs).
    apply Forall_cons in Hurg as [Hc _]. exists st, p. split_and!; [done|done|].
    rewrite Hs, send_payload_ok by done. done.
  - destruct (evicted_iter (sender e) replay_tx urgent_tx (evict_tx e) (is_binary e)
      disconnect_frame (λ _, true) (outbound_view y) shutdown u q eq_refl Eq) as (st & Hit & _ & _ & Hs).
    exists st, disconnect_frame. split_and!; [done|by left|].
    rewrite Hs, send_payload_ok by done. done.
Qed.

Lemma not_ending g :
  ~ ending g → queue (evict_tx e) (g_evictions g) = [] ∧ queue urgent_tx (g_channels g) = [].
Proof using Type. unfold ending. intros Hne. split; apply dec_stable; tauto. Qed.

Lemma turn_moves y :
  plumbing (y_gateway y) → ~ ending (y_gateway y) →
  let h := g_channels (y_gateway y) in
  (turn false y = OWait (outbound_view y) ∧ queue replay_tx h = [] ∧ queue (sender e) h = []) ∨
  ∃ h' k, turn false y = OContinue (mkOut h' (g_evictions (y_gateway y))
                    (mkSink (out (y_sink y) ++ ws k) (closed (y_sink y))) true true) ∧ k ≠ [] ∧
    same_ends h h' ∧ queue urgent_tx h' = queue urgent_tx h ∧
    (queue replay_tx h = k ++ queue replay_tx h' ∧ queue (sender e) h' = queue (sender e) h ∨
     queue (sender e) h = k ++ queue (sender e) h' ∧ queue replay_tx h' = queue replay_tx h).
Proof using Type*.
  intros Hp Hne h. destruct (own_distinct _ Hp) as (Dlr & Dlu & Dru).
  destruct Hp as [Hwf Hd Hopen (Her & Het & Hec) Hpr Hown].
  destruct (Hopen (sender e)) as (_ & Htl & _); [set_solver|].
  destruct (Hopen replay_tx) as (_ & Htr & _); [set_solver|].
  destruct (Hopen urgent_tx) as (_ & Htu & _); [set_solver|].
  destruct (not_ending _ Hne) as [Hne1 Hne2].
  unfold outbound_turn.
  rewrite quiet_iter by (split; intros _; cbn; done). cbn [shutdown_or_replay].
  destruct (queue replay_tx h) as [|p l] eqn:Hr.
  - unfold replay_branch. cbn [outbound_view o_chan].
    rewrite (poll_recv_empty replay_tx (g_channels (y_gateway y)) Hr Htr).
    change (set_chan _ _) with (outbound_view y).
    destruct (queue (sender e) h) as [|p l] eqn:Hlv.
    + left. unfold live_branch. cbn [outbound_view o_chan].
      by rewrite (poll_recv_empty (sender e) (g_channels (y_gateway y)) Hlv Htl).
    + right. destruct (live_branch_pending (sender e) replay_tx urgent_tx (evict_tx e) (is_binary e)
        (λ _, true) (λ _, eq_refl) (outbound_view y) p l Hlv) as (h' & Hb & Hq & Hf & Hends).
      exists h', [p]. rewrite Hb, Hq. split_and!; [done|done|done|by apply Hf|]. right.
      split; [done|]. by rewrite <- Hr; apply Hf.
  - right. destruct (replay_branch_pending (sender e) replay_tx urgent_tx (evict_tx e) (is_binary e)
      (λ _, true) (λ _, eq_refl) (outbound_view y) p l Hr) as (h' & Hb & Hq & Hf & Hends).
    exists h', (p :: take (OUTBOUND_REPLAY_BURST - 1) l). rewrite Hb, Hq.
    split_and!; [done|done|done|by apply Hf|]. left. split; [|by apply Hf].
    rewrite <- app_comm_cons. by rewrite take_drop.
Qed.

Lemma inv_outbound y hb he sk :
  turn false y = OContinue (mkOut hb he sk true true) → sys_inv y →
  sys_inv (mkSys (mkGateway (g_registry (y_gateway y)) hb he (g_metrics (y_gateway y))
                    (g_limiter (y_gateway y))) (y_session y) sk (y_replies y) (y_runs y)
             (y_queued y) (y_arrived y)).
Proof using Type*.
  intros Ht [Hp Hruns Hans Hurg Hcase].
  assert (~ ending (y_gateway y)) as Hne.
  { intros Hend. destruct (turn_ends false y Hp Hurg Hend) as (st & f & Hr & _). congruence. }
  destruct (turn_moves y Hp Hne) as [(Hw & _)|(h' & k & Hk & _ & Hends & Hu & Hqs)]; [congruence|].
  rewrite Ht in Hk. injection Hk as -> -> ->.
  destruct Hcase as [((He & Hs & Hfit) & R & L & o & HR & HL & Ho & Hi)|Hend]; [|done].
  destruct (Hends (sender e)) as (Hc & _).
  split; cbn [y_gateway g_channels y_arrived];
    [by apply (plumbing_channels h' (y_gateway y))|done|done|by rewrite Hu|].
  left. split.
  { split_and!; [done|done|]. cbn. rewrite Hc.
    destruct Hqs as [[_ ->]|[Hql _]]; [done|]. rewrite Hql, length_app in Hfit. lia. }
  destruct Hqs as [[Hqr Hql]|[Hql Hqr]].
  - exists (R ++ k), L, (o ++ ws k). cbn. rewrite Hql, ws_frames_app.
    split_and!; [|done|by rewrite Ho, app_assoc|by apply il_left]. by rewrite <- HR, Hqr, <- app_assoc.
  - exists R, (L ++ k), (o ++ ws k). cbn. rewrite Hqr, ws_frames_app.
    split_and!; [done| |by rewrite Ho, app_assoc|by apply il_right]. by rewrite <- HL, Hql, <- app_assoc.
Qed.

(** *** The inbound task *)

Lemma start_run_ok js permit st :
  let t := start_run serde_json rmp_serde ctx js permit st in
  run_sent t = [] ∧ Forall closing (run_urgent t).
Proof using Type.
  split; [done|]. cbn. unfold replay_task. destruct permit; [|done].
  destruct (replay_since _ _ _ _ _ _ _) as [res queued]. unfold replay_outcome, try_queue.
  repeat case_match; try done; cbn; apply Forall_singleton; right;
    eexists; (split; [|done]); rewrite !elem_of_cons; auto.
Qed.

(** Whatever the inbound task does, it keeps the log, and answers what it logs. *)
Lemma new_effects_log y w' :
  w_log (y_session y) `prefix_of` w_log w' → w_log w' = w_log (y_session y) ++ new_effects y w'.
Proof using Type. intros [k Hk]. unfold new_effects. by rewrite Hk, drop_app_length. Qed.

Lemma inv_inbound y ev w' runs :
  y_replies y = [] → inbound_run serde_json ctx env [ev] (inbound_view y) = (false, w') →
  Forall2 (λ s t, ∃ js permit, t = start_run serde_json rmp_serde ctx js permit s)
    (spawns (new_effects y w')) runs →
  sys_inv y → sys_inv (after_inbound ctx w' runs y).
Proof using Type*.
  intros Hrep Hrun Hsp [Hp [Hr1 Hr2] Hans Hurg Hcase].
  destruct (inbound_event_registry _ _ _ _ _ _ Hrun) as (Hlog & Hconn & Hwf).
  cbn in Hlog, Hconn, Hwf. pose proof Hp as [Hwf0 Hd Hopen Hev Hpr Hown].
  specialize (Hwf Hwf0). split; cbn [after_inbound y_gateway y_arrived g_channels].
  - split; cbn; try done; unfold senders_distinct in *; rewrite Hconn; auto.
  - split; cbn [after_inbound y_runs y_queued].
    + intros k t [Hk|[Hge Hk]]%lookup_app_Some; [by apply Hr1|]. rewrite Hr2 by done.
      destruct (Forall2_lookup_r _ _ _ _ _ Hsp Hk) as (st & _ & js & permit & ->).
      by destruct (start_run_ok js permit st) as [-> Hcl].
    + intros k. rewrite length_app. intros ?. apply Hr2. lia.
  - unfold answered, answers_of, sends in *. cbn. rewrite omap_app, (new_effects_log y w' Hlog), omap_app.
    cbn. by rewrite app_nil_r, app_assoc, <- Hans, Hrep, app_nil_r.
  - done.
  - rewrite now_on_app. cbn [now_on].
    destruct Hcase as [((He & Hs & Hfit) & R & L & o & HR & HL & Ho & Hi)|Hend]; [left|by right].
    split; [split_and!; cbn; [by rewrite Hconn|intros s; apply (wf_subs _ Hwf)|done]|].
    exists R, L, o. cbn. rewrite expected_app, app_nil_r. done.
Qed.

(** *** Other connections *)

Lemma peers_step_ok r r' :
  registry_wf r → peers_step ctx e replay_tx urgent_tx r r' →
  registry_wf r' ∧ connections r' !! id = connections r !! id ∧
  streams_of r' id = streams_of r id ∧ (senders_distinct r → senders_distinct r') ∧
  (∀ id' e', connections r' !! id' = Some e' →
     connections r !! id' = Some e' ∨ sender e' ∉ [sender e; replay_tx; urgent_tx]).
Proof using Type.
  intros Hwf Hstep. unfold streams_of.
  destruct Hstep as [r|r|r id' tx b ev Hid Hn Hown Hfresh|r id' Hid|r id' s Hid|r id' s Hid].
  - split_and!; auto.
  - split_and!; auto with gw.
  - split; [auto with gw|]. unfold register, senders_distinct; cbn.
    rewrite !lookup_insert_ne by done. split_and!; [done|done| |].
    + intros Hd id1 id2 e1 e2 [[<- <-]|[? He1]]%lookup_insert_Some
        [[<- <-]|[? He2]]%lookup_insert_Some Heq; [done|..]; cbn in *; [| |by eapply Hd].
      * by apply Hfresh in He2.
      * by apply Hfresh in He1.
    + intros id1 e1 [[<- <-]|[_ He1]]%lookup_insert_Some; [by right|by left].
  - pose proof (deregister_spec id' r Hwf) as (Hc & Hcs & _). split; [auto with gw|].
    rewrite Hc, Hcs, !lookup_delete_ne by done. split_and!; [done|done| |].
    + apply senders_distinct_subseteq. rewrite Hc. apply delete_subseteq.
    + intros id1 e1 [_ He1]%lookup_delete_Some. by left.
  - assert (connections (subscribe id' s r) = connections r) as Hc
      by (unfold subscribe; by repeat case_match).
    split; [auto with gw|]. unfold senders_distinct. rewrite Hc. split_and!; auto.
    unfold subscribe. repeat case_match; cbn; rewrite ?lookup_insert_ne by done; done.
  - pose proof (unsubscribe_spec id' s r) as (Hc & _ & _ & Hcs & _).
    split; [auto with gw|]. unfold senders_distinct. rewrite Hc, Hcs. split_and!; auto.
    by rewrite lookup_alter_ne.
Qed.

Lemma inv_peers y r' hb' he' :
  peers_step ctx e replay_tx urgent_tx (g_registry (y_gateway y)) r' →
  (∀ c, c ∈ [sender e; replay_tx; urgent_tx] → same_channel c (g_channels (y_gateway y)) hb') →
  same_channel (evict_tx e) (g_evictions (y_gateway y)) he' →
  sys_inv y →
  sys_inv (mkSys (mkGateway r' hb' he' (g_metrics (y_gateway y)) (g_limiter (y_gateway y)))
             (y_session y) (y_sink y) (y_replies y) (y_runs y) (y_queued y) (y_arrived y)).
Proof using Type*.
  intros Hstep Hown' (Heq & Hec' & Her' & Het') [Hp Hruns Hans Hurg Hcase].
  pose proof Hp as [Hwf0 Hd Hopen (Her & Het & Hec) Hpr Hown].
  destruct (peers_step_ok _ _ Hwf0 Hstep) as (Hwf & Hid & Hst & Hd' & Hpr').
  destruct (Hown' (sender e)) as (Hq1 & Hc1 & Hr1 & Ht1); [set_solver|].
  destruct (Hown' replay_tx) as (Hq2 & Hc2 & Hr2 & Ht2); [set_solver|].
  destruct (Hown' urgent_tx) as (Hq3 & Hc3 & Hr3 & Ht3); [set_solver|].
  split; cbn [y_gateway y_arrived g_channels].
  - split; cbn; rewrite ?Her', ?Het', ?Hec'; auto.
    + intros c Hc. destruct (Hown' c Hc) as (_ & -> & -> & ->). by apply Hopen.
    + intros id' e' [He'|Hn]%Hpr'; [by apply (Hpr id')|set_solver].
  - done.
  - done.
  - by rewrite Hq3.
  - destruct Hcase as [((He & Hs & Hfit) & R & L & o & HR & HL & Ho & Hi)|Hend].
    + left. split; [split_and!; cbn|].
      * by rewrite Hid.
      * intros s. rewrite (wf_subs _ Hwf), Hst, <- (wf_subs _ Hwf0). apply Hs.
      * by rewrite Hq1, Hc1.
      * exists R, L, o. cbn. by rewrite Hq1, Hq2.
    + right. unfold ending in *. cbn. by rewrite Heq, Hq3.
Qed.

Lemma sys_inv_task y y' : sys_inv y → task y y' → sys_inv y'.
Proof using Type*.
  intros Hinv. destruct 1; [by apply inv_reply|by eapply inv_replay|by eapply inv_urgent|by apply inv_outbound].
Qed.

Lemma sys_inv_step y y' : sys_inv y → step y y' → sys_inv y'.
Proof using Type*.
  intros Hinv. destruct 1; [by apply inv_message|by eapply inv_inbound|by eapply sys_inv_task|by apply inv_peers].
Qed.

Lemma sys_inv_reachable y : reachable sys_init step y → sys_inv y.
Proof using Type*. apply reachable_invariant; [apply sys_inv_init|apply sys_inv_step]. Qed.

(** *** Properties *)

(** C12. From the channels to the socket, in every interleaving of the consumer, the inbound
    task, any number of replay tasks and the outbound task of a connection, whatever its
    client sends and whatever other connections do: either the connection is still registered
    with the streams its client subscribed to, and then every frame the replay tasks queued
    and every frame of the live side, one per message on the streams of the moment that the
    rate limiter let through, the welcome and one per answer, is on the socket or still in its channel, each side in its own order and
    nothing else in between; or the next thing its outbound task does is send a disconnect
    frame, of an eviction or of a replay that cannot be completed, and close the socket. *)
Theorem delivered_or_disconnected y :
  reachable sys_init step y →
  ((subscribed (now_on [] (y_arrived y)) (y_gateway y) ∧ accounted y) ∨
   (∃ st frame, turn false y = OReturn st ∧ closing frame ∧
      o_sink st = mkSink (out (y_sink y) ++ ws [frame]) true)) ∧
  (∀ k t, y_runs y !! k = Some t → of_run k (y_queued y) = run_sent t) ∧
  answers_of (y_arrived y) ++ y_replies y = greeting ++ sends (w_log (y_session y)).
Proof using Type*.
  intros [Hp [Hr _] Hans Hurg Hcase]%sys_inv_reachable. split_and!.
  - destruct Hcase as [Hok|Hend]; [by left|right]. by apply turn_ends.
  - intros k t Hk. by apply Hr.
  - done.
Qed.
End Invariant.
