(* ===== verification/Resume.v ===== *)
(** * Resuming, end to end

    A client says hello with the sequence it saw last and subscribes, once or several times.
    On top of [System], where all tasks of the connection run in any interleaving: when they
    have caught up, every message after the cursor is on the socket. *)

From stdpp Require Import base list gmap strings fin_maps sets sorting relations.
From Stdlib Require Import ZArith Lia Sorted.
From S2P Require Import Prelude Channels Text Config Protocol Jwt Float RateLimit Registry RegistrySpec Metrics Nats Replay ReplayTask Consumer Handler HandlerSpec Outbound System.

Local Open Scope string_scope.
Local Open Scope list_scope.
Local Open Scope nat_scope.

(** ** The stream *)

(** The history of the JetStream stream: the consumer took [before] ahead of the subscribe and
    [after] since; the replay finds [store] retained, when everything in [before] has been
    published; the oldest retained message is not newer than the first one the client
    misses. *)
Record history (before after store : list NatsMessage) (seq : Z) : Prop := mkHistory {
  hi_sequenced : Forall (λ m, is_ok (msg_info m) = true) (before ++ after);
  hi_sorted : StronglySorted Z.lt (sequences (before ++ after));
  hi_store : ∃ expired later, before ++ after = expired ++ store ++ later ∧
               before `prefix_of` expired ++ store;
  hi_window m0 ms : store = m0 :: ms → (seq_of m0 ≤ seq + 1)%Z;
  hi_empty : store = [] → seq = 0%Z ∧ before = [];
}.

(** Sequences grow along the log. *)
Lemma sorted_before l1 m l2 m' :
  Forall (λ m, is_ok (msg_info m) = true) (l1 ++ m' :: l2) →
  StronglySorted Z.lt (sequences (l1 ++ m' :: l2)) → m ∈ l1 → (seq_of m < seq_of m')%Z.
Proof.
  intros Hok Hs Hin. apply list_elem_of_split in Hin as (k1 & k2 & ->).
  rewrite <- app_assoc, <- app_comm_cons in Hok, Hs.
  assert (∀ x, x ∈ k1 ++ m :: k2 ++ m' :: l2 → extract_stream_sequence x = Some (seq_of x)) as Hx.
  { intros x Hx. rewrite Forall_forall in Hok. specialize (Hok x Hx).
    unfold seq_of, extract_stream_sequence. by destruct (msg_info x). }
  unfold sequences in Hs. rewrite omap_app in Hs. cbn in Hs.
  rewrite Hx in Hs by set_solver. rewrite omap_app in Hs. cbn in Hs. rewrite Hx in Hs by set_solver.
  apply StronglySorted_app_1_r, StronglySorted_inv in Hs as [_ Hf].
  rewrite Forall_forall in Hf. apply Hf. set_solver.
Qed.

(** Nothing beyond the cursor is outside the retained messages and what the consumer took
    since. *)
Lemma history_covers before after store seq m :
  history before after store seq → m ∈ before ++ after → (seq < seq_of m)%Z →
  m ∈ store ∨ m ∈ after.
Proof.
  intros [Hok Hsort (expired & later & Heq & Hpre) Hwin Hempty] Hin Hgt.
  apply elem_of_app in Hin as [Hin|]; [|by right]. left.
  assert (m ∈ expired ++ store) as [Hex|]%elem_of_app by (by destruct Hpre as [k ->]; set_solver);
    [|done].
  destruct store as [|m0 ms]; [destruct Hempty as [_ ->]; set_solver|].
  rewrite Heq in Hok, Hsort. cbn in Hok, Hsort.
  pose proof (sorted_before expired m (ms ++ later) m0 Hok Hsort Hex) as Hlt.
  specialize (Hwin m0 ms eq_refl). lia.
Qed.

(** ** Frames of a stream the connection stays on *)
Lemma now_on_keeps strs l i :
  i ∈ strs → (∀ strs', NowOn strs' ∈ l → i ∈ strs') → i ∈ now_on strs l.
Proof.
  revert strs. induction l as [|a l IH]; intros strs Hi Hon; [done|].
  destruct a; cbn; apply IH; try done; set_solver.
Qed.

Lemma live_expected {Tx Ev} serde_json rmp_serde (e : ConnectionEntry Tx Ev) strs l m i :
  i ∈ strs → (∀ strs', NowOn strs' ∈ l → i ∈ strs') → FromStream m true ∈ l →
  extract_stream_name (subject m) = i →
  live_frame serde_json rmp_serde e m ∈ expected serde_json rmp_serde e strs l.
Proof.
  intros Hi Hon (l1 & l2 & ->)%list_elem_of_split Hs. rewrite expected_app. apply elem_of_app. right.
  cbn [expected frame_for]. apply elem_of_app. left.
  rewrite Hs, bool_decide_eq_true_2; [by left|]. apply now_on_keeps; set_solver.
Qed.

Lemma of_run_elem k l f : f ∈ of_run k l → f ∈ l.*2.
Proof.
  intros ([k' f'] & Hin & Hf)%list_elem_of_omap. case_decide; simplify_eq/=.
  apply list_elem_of_fmap. by exists (k, f).
Qed.

(** ** The client *)

Section Resume.
Context (serde_json rmp_serde : WireLib) (ctx : ConnContext) (env : AppEnv).
Context {Tx Ev HB HE : Type} `{MpscLaws string HB Tx} `{MpscLaws unit HE Ev}.
Context `{!EqDecision Tx} `{!EqDecision Ev}.
Context (e : ConnectionEntry Tx Ev) (replay_tx urgent_tx : Tx) (disconnect_frame : string).
Context (out0 : list WsMessage) (greeting : list string).
Implicit Types (y : Sys Tx Ev HB HE) (w : World Tx Ev) (m : NatsMessage).
Abbreviation id := (ctx_conn_id ctx).
Abbreviation step :=
  (sys_step serde_json rmp_serde ctx env e replay_tx urgent_tx disconnect_frame).
Abbreviation reached :=
  (reachable (sys_init ctx e replay_tx urgent_tx out0 greeting) step).

(** The session sends the subscribe frame [data] for the plain stream [i], after a hello with
    the cursor [seq]. *)
Record resuming w (data i : string) (seq : Z) : Prop := mkResuming {
  re_frame : decode (ctx_codec ctx) data = Ok (Command (Subscribe i));
  re_accepted : accepts ctx env w i = true;
  re_cursor : w_last_seq w = Some seq;
  re_nats : env_nats env = true;
  re_plain : stream_key_from_identifier serde_json i = i;
  re_entry : is_Some (connections (w_registry w) !! id);
}.

Lemma subscribe_subscribed s (r : Registry Tx Ev) :
  registry_wf r → is_Some (connections r !! id) → s ∈ streams_of (subscribe id s r) id.
Proof using Type.
  intros Hwf Hc%(wf_reverse _ Hwf). destruct Hc as [l Hl]. unfold streams_of, subscribe.
  rewrite Hl. case_decide; cbn; [by rewrite Hl|]. rewrite lookup_insert_eq. cbn.
  apply elem_of_app. right. by left.
Qed.

(** The tasks have nothing left to do, and nothing told the client to reconnect. *)
Definition caught_up y : Prop :=
  ~ ending e urgent_tx (y_gateway y) ∧ Forall (λ t, run_todo t = []) (y_runs y) ∧
  queue replay_tx (g_channels (y_gateway y)) = [] ∧
  queue (sender e) (g_channels (y_gateway y)) = [].

(** *** What later steps keep *)

Definition continues y y' : Prop :=
  y_arrived y `prefix_of` y_arrived y' ∧
  ∀ k t, y_runs y !! k = Some t →
    ∃ t', y_runs y' !! k = Some t' ∧ run_sent t' ++ run_todo t' = run_sent t ++ run_todo t.

Lemma continues_insert y k t t' (l : list arrival) k0 t0 :
  y_runs y !! k = Some t → run_sent t' ++ run_todo t' = run_sent t ++ run_todo t →
  y_runs y !! k0 = Some t0 →
  ∃ t1, <[k := t']> (y_runs y) !! k0 = Some t1 ∧ run_sent t1 ++ run_todo t1 = run_sent t0 ++ run_todo t0.
Proof using Type.
  intros Hk Ht Hk0. destruct (decide (k = k0)) as [->|Hne].
  - exists t'. rewrite list_lookup_insert_eq by (by eapply lookup_lt_Some). split; [done|congruence].
  - exists t0. by rewrite list_lookup_insert_ne.
Qed.

Lemma step_continues y y' : step y y' → continues y y'.
Proof using Type.
  destruct 1 as [y m t0 t1|y ev w' runs Hrep Hrun Hsp|y y' Ht|y r' hb he Hp Ho He];
    [| |destruct Ht as [y f rest Hrep Hroom|y k t f rest Hk Ht Hroom|y k t f rest Hk Ht Hu Hroom
      |y hb he sk Ht]|];
    (split; cbn; [first [done|by eexists]|]); eauto.
  - intros k t Hk. exists t. split; [by apply lookup_app_l_Some|done].
  - intros k0 t0 Hk0. eapply continues_insert; [exact []|done| |done]. cbn. by rewrite Ht, <- app_assoc.
  - intros k0 t0 Hk0. eapply continues_insert; [exact []|done| |done]. cbn. by rewrite Ht.
Qed.

#[local] Instance continues_preorder : PreOrder continues.
Proof.
  split; [intros y; split; [done|eauto]|].
  intros y1 y2 y3 [Ha1 Ht1] [Ha2 Ht2]. split; [by etrans|].
  intros k t (t' & (t'' & Hk & Heq)%Ht2 & Heq')%Ht1. exists t''. split; [done|congruence].
Qed.

Lemma steps_continue y y' : rtc step y y' → continues y y'.
Proof using Type. induction 1 as [|y1 y2 y3 Hs _ IH]; [done|]. etrans; [by apply step_continues|done]. Qed.

Lemma reached_steps y y' : reached y → rtc step y y' → reached y'.
Proof using Type. intros Hr. induction 1; [done|]. eauto using reachable_step. Qed.

(** Caught up, the socket has the replay frames and the live frames, interleaved. *)
Lemma caught_up_out y :
  reached y → caught_up y →
  ∃ o, out (y_sink y) = out0 ++ o ∧
    interleaved (ws_frames (is_binary e) (y_queued y).*2)
      (ws_frames (is_binary e) (expected serde_json rmp_serde e [] (y_arrived y))) o.
Proof using Type*.
  intros Hr (Hne & _ & Hqr & Hql).
  destruct (sys_inv_reachable _ _ _ _ _ _ _ _ _ _ _ Hr)
    as [_ _ _ _ [[_ (R & L & o & HR & HL & Ho & Hi)]|Hend]]; [|done].
  exists o. rewrite Hqr, app_nil_r in HR. rewrite Hql, app_nil_r in HL. by subst.
Qed.

(** Caught up, the frames of a replay task and those of the live side are on the socket. *)
Lemma caught_up_written y f x :
  reached y → caught_up y →
  f ∈ (y_queued y).*2 ∨ f ∈ expected serde_json rmp_serde e [] (y_arrived y) →
  bytes_to_ws_msg f (is_binary e) = Some x → x ∈ out (y_sink y).
Proof using Type*.
  intros Hr Hdone Hf Hx.
  destruct (caught_up_out _ Hr Hdone) as (o & -> & (_ & _ & Hperm)%interleaved_sublist).
  rewrite elem_of_app, Hperm, elem_of_app. right. unfold ws_frames. rewrite !list_elem_of_omap.
  destruct Hf; [left|right]; eauto.
Qed.

Lemma run_written y1 y k t f x :
  reached y1 → rtc step y1 y → caught_up y → y_runs y1 !! k = Some t →
  f ∈ run_sent t ++ run_todo t → bytes_to_ws_msg f (is_binary e) = Some x → x ∈ out (y_sink y).
Proof using Type*.
  intros Hr1 Hsteps Hdone Hk Hf.
  pose proof (reached_steps _ _ Hr1 Hsteps) as Hr.
  destruct (steps_continue _ _ Hsteps) as [_ Hruns].
  destruct (Hruns k t Hk) as (t' & Hk' & Heq).
  destruct (sys_inv_reachable _ _ _ _ _ _ _ _ _ _ _ Hr) as [_ [Hok _] _ _ _].
  destruct (Hok _ _ Hk') as [Hq _]. pose proof Hdone as (_ & Htodo & _).
  rewrite Forall_lookup in Htodo. rewrite (Htodo _ _ Hk'), app_nil_r in Heq.
  apply caught_up_written; [done|done|]. left. apply (of_run_elem k). by rewrite Hq, Heq.
Qed.

(** The inbound task handles the subscribe: it spawns one replay task. *)
Lemma subscribe_step y data i seq confirm reject js permit :
  y_replies y = [] → resuming (inbound_view y) data i seq →
  encode (ctx_codec ctx) (ConfirmSubscription i) = Ok confirm →
  encode (ctx_codec ctx) (RejectSubscription i) = Ok reject →
  let w' := handle_client_frame serde_json ctx env data (inbound_view y) in
  step y (after_inbound ctx w' [start_run serde_json rmp_serde ctx js permit (i, seq)] y) ∧
  w_registry w' = subscribe id i (g_registry (y_gateway y)) ∧ SpawnReplay i seq ∈ w_log w'.
Proof using Type.
  intros Hrep [Hd Ha Hl Hn Hk He] Hc Hrej w'.
  pose proof (handle_subscribe_spec serde_json ctx env (inbound_view y) data i reject confirm Hd Hrej Hc)
    as Hsub.
  cbv zeta in Hsub. rewrite Ha, Hl, Hn, Hk in Hsub. fold w' in Hsub. destruct Hsub as (Hreg & _ & Hlog).
  split_and!; [|done|rewrite Hlog, !elem_of_app, list_elem_of_singleton; auto].
  apply (sys_inbound _ _ _ _ _ _ _ _ _ (InFrame data)); [done|done|].
  unfold new_effects. rewrite Hlog. cbn [inbound_view on_registry on_metrics w_log].
  rewrite drop_app_length. repeat case_match; repeat constructor; by eexists _, _.
Qed.

(** C11. Resuming loses nothing, end to end, for a plain identifier: one that is its own stream
    key.  At any moment of a session a client that said hello with its cursor subscribes to
    such a stream; the frame handler subscribes it and spawns a replay task, which JetStream
    answers without an error (its purge window reaching back to the cursor), with at most
    [MAX_REPLAY_MESSAGES] missed messages, each of which the codec can encode.  From then on
    the consumer, this and any other replay task, the inbound and the outbound task and those
    of other connections run in any interleaving, while the client sends what it likes but
    stays on the stream.  When they have caught up and the client was not told to reconnect,
    the confirmation and every message of the stream after the cursor, whether it was
    published before the subscribe, during the replay or after it, were written to the socket,
    the message as a replay frame or as a live frame; the only exception are messages over the
    stream's rate limit, which the consumer drops for every subscriber. *)
Theorem resumed_client_misses_nothing y0 data i seq confirm reject store js_matches js earlier y :
  reached y0 → y_replies y0 = [] → resuming (inbound_view y0) data i seq →
  encode (ctx_codec ctx) (ConfirmSubscription i) = Ok confirm →
  encode (ctx_codec ctx) (RejectSubscription i) = Ok reject →
  ReplayServerLaws store js_matches js → (∀ s, js_matches s s = true) →
  is_u64 seq → (seq < u64_max)%Z →
  Forall (encodable serde_json rmp_serde (ctx_codec ctx) i) (missed i store js_matches seq) →
  length (missed i store js_matches seq) ≤ MAX_REPLAY_MESSAGES →
  let w' := handle_client_frame serde_json ctx env data (inbound_view y0) in
  let y1 := after_inbound ctx w' [start_run serde_json rmp_serde ctx js true (i, seq)] y0 in
  rtc step y1 y →
  let since := drop (length (y_arrived y1)) (y_arrived y) in
  (∀ strs, NowOn strs ∈ since → i ∈ strs) →
  caught_up y → history (earlier ++ taken_of (y_arrived y0)) (taken_of since) store seq →
  step y0 y1 ∧
  (∀ x, bytes_to_ws_msg confirm (is_binary e) = Some x → x ∈ out (y_sink y)) ∧
  ∀ m, m ∈ earlier ++ taken_of (y_arrived y) → subject m = stream_subject i → (seq < seq_of m)%Z →
    FromStream m false ∈ since ∨
    ∃ frame,
      (frame_of serde_json rmp_serde (ctx_codec ctx) i frame m ∨
       frame = live_frame serde_json rmp_serde e m) ∧
      ∀ x, bytes_to_ws_msg frame (is_binary e) = Some x → x ∈ out (y_sink y).
Proof using Type*.
  intros Hr0 Hrep Hres Hc Hrej Hlaws Hmatch Hu Hmax Henc Hlen w' y1 Hsteps since Hstay Hdone Hh.
  destruct (subscribe_step y0 data i seq confirm reject js true Hrep Hres Hc Hrej)
    as (Hstep & Hreg & _). fold w' y1 in Hstep, Hreg.
  pose proof (reachable_step _ _ _ _ Hr0 Hstep) as Hr1.
  pose proof (reached_steps _ _ Hr1 Hsteps) as Hr.
  destruct (steps_continue _ _ Hsteps) as [[k0 Harr] _].
  assert (since = k0) as -> by (unfold since; by rewrite Harr, drop_app_length).
  set (t := start_run serde_json rmp_serde ctx js true (i, seq)) in *.
  assert (y_runs y1 !! length (y_runs y0) = Some t) as Ht by (by apply list_lookup_middle).
  assert (∀ f x, f ∈ run_todo t → bytes_to_ws_msg f (is_binary e) = Some x → x ∈ out (y_sink y))
    as Hrun by (intros f x; by apply (run_written y1 y (length (y_runs y0)) t f x)).
  pose proof (replay_complete serde_json rmp_serde (ctx_codec ctx) (λ _, true) i store js_matches
    js seq Hlaws Hu Hmax (hi_window _ _ _ _ Hh) (λ E, proj1 (hi_empty _ _ _ _ Hh E))
    (λ _, eq_refl) Henc) as Hrc. cbv zeta in Hrc.
  unfold t, start_run, replay_task in Hrun. cbn [fst snd] in Hrun.
  destruct (replay_since _ _ _ _ _ _ _) as [r queued].
  destruct Hrc as (Hframes & Hle & _). destruct (Hle Hlen) as [first ->].
  cbn in Hrun. unfold try_queue in Hrun. rewrite Hc in Hrun. setoid_rewrite elem_of_app in Hrun.
  split_and!; [done|intros x; apply Hrun; right; by left|].
  intros m Hin Hsubj Hgt.
  assert (taken_of (y_arrived y) = taken_of (y_arrived y0) ++ taken_of k0) as Htaken.
  { rewrite Harr. unfold y1, taken_of. cbn [after_inbound y_arrived]. rewrite !omap_app. cbn.
    by rewrite app_nil_r. }
  rewrite Htaken, app_assoc in Hin.
  destruct (history_covers _ _ _ _ _ Hh Hin Hgt) as [Hst|Htk].
  - rewrite take_ge in Hframes by done.
    assert (m ∈ missed i store js_matches seq) as [n Hm]%list_elem_of_lookup.
    { apply list_elem_of_filter. by rewrite Hsubj, Hmatch. }
    destruct (Forall2_lookup_r _ _ _ _ _ Hframes Hm) as (frame & Hf & Hfo).
    right. exists frame. split; [by left|]. intros x. apply Hrun. left. by eapply list_elem_of_lookup_2.
  - apply list_elem_of_omap in Htk as ([m' []| |] & Hfrom & [= ->]); [right|by left].
    exists (live_frame serde_json rmp_serde e m). split; [by right|]. intros x.
    apply caught_up_written; [done|done|]. right. rewrite Harr, expected_app. apply elem_of_app. right.
    apply (live_expected _ _ _ _ _ _ i); [|done|done|by rewrite Hsubj, extract_stream_subject].
    unfold y1. cbn [after_inbound y_arrived]. rewrite now_on_app. cbn. rewrite Hreg.
    apply subscribe_subscribed; [|by apply Hres].
    by destruct (sys_inv_reachable _ _ _ _ _ _ _ _ _ _ _ Hr0) as [[] _ _ _ _].
Qed.
End Resume.

(** ** Schedules *)

(** A turn of one task; a replay task spawned by an event finds the server [js]. *)
Inductive sys_turn : Type :=
| YMessage (m : NatsMessage)
| YInbound (ev : inbound_event) (js : ReplayServer)
| YReply
| YReplay (k : nat)
| YOutbound.

Section Schedules.
Context (serde_json rmp_serde : WireLib) (ctx : ConnContext) (env : AppEnv).
Context {Tx Ev HB HE : Type} `{!Mpsc string HB Tx} `{!Mpsc unit HE Ev}.
Context (e : ConnectionEntry Tx Ev) (replay_tx urgent_tx : Tx) (disconnect_frame : string).
Abbreviation sys := (Sys Tx Ev HB HE).
Abbreviation step :=
  (sys_step serde_json rmp_serde ctx env e replay_tx urgent_tx disconnect_frame).

(** The state after a turn, if the task can take it. *)
Definition sys_take (a : sys_turn) (y : sys) : option sys :=
  let h := g_channels (y_gateway y) in
  match a with
  | YMessage m =>
      Some (mkSys (process_nats_message serde_json rmp_serde 0 0 m (y_gateway y)) (y_session y)
              (y_sink y) (y_replies y) (y_runs y) (y_queued y)
              (y_arrived y ++ [FromStream m (admits 0 0 m (y_gateway y))]))
  | YInbound ev js =>
      match y_replies y, inbound_run serde_json ctx env [ev] (inbound_view y) with
      | [], (false, w') =>
          Some (after_inbound ctx w'
                  (map (start_run serde_json rmp_serde ctx js true) (spawns (new_effects y w'))) y)
      | _, _ => None
      end
  | YReply =>
      match y_replies y with
      | frame :: rest =>
          if has_room (sender e) h then
            Some (mkSys (with_channels (try_send (sender e) frame h).2 (y_gateway y)) (y_session y)
                    (y_sink y) rest (y_runs y) (y_queued y) (y_arrived y ++ [FromInbound frame]))
          else None
      | [] => None
      end
  | YReplay k =>
      match y_runs y !! k with
      | Some (mkRun i seq sent (frame :: rest) urgent) =>
          if has_room replay_tx h then
            Some (mkSys (with_channels (try_send replay_tx frame h).2 (y_gateway y)) (y_session y)
                    (y_sink y) (y_replies y)
                    (<[k := mkRun i seq (sent ++ [frame]) rest urgent]> (y_runs y))
                    (y_queued y ++ [(k, frame)]) (y_arrived y))
          else None
      | _ => None
      end
  | YOutbound =>
      match outbound_turn e replay_tx urgent_tx disconnect_frame false y with
      | OContinue (mkOut hb he sk true true) =>
          Some (mkSys (mkGateway (g_registry (y_gateway y)) hb he (g_metrics (y_gateway y))
                         (g_limiter (y_gateway y))) (y_session y) sk (y_replies y) (y_runs y)
                  (y_queued y) (y_arrived y))
      | _ => None
      end
  end.

Fixpoint sys_takes (l : list sys_turn) (y : sys) : option sys :=
  match l with
  | [] => Some y
  | a :: l' => match sys_take a y with Some y' => sys_takes l' y' | None => None end
  end.

Lemma sys_take_step a y y' : sys_take a y = Some y' → step y y'.
Proof.
  destruct a; cbn [sys_take]; repeat case_match; intros; simplify_eq;
    try solve [econstructor; by eauto|apply sys_task; econstructor; by eauto].
  - eapply sys_inbound; [done|done|]. induction (spawns _); constructor; eauto.
  - subst. apply sys_task. by eapply (ts_replay _ _ _ _ y k (mkRun _ _ _ _ _)).
Qed.

Lemma sys_takes_steps l y y' : sys_takes l y = Some y' → rtc step y y'.
Proof.
  revert y. induction l as [|a l IH]; intros y; cbn; [by intros [= <-]|].
  destruct (sys_take a y) as [y1|] eqn:E; [|done]. intros Hl.
  eapply rtc_l; [by eapply sys_take_step|by apply IH].
Qed.
End Schedules.

(** ** Witnesses *)

Definition note_subscribe (i : string) : value :=
  VObj [("command", VStr "subscribe"); ("identifier", VStr i)].

(** A library that reads a hello and two subscribe frames and prints the kind and sequence of a
    message. *)
Definition note_lib : WireLib := {|
  wire_parse s :=
    if decide (s = "hello") then
      Ok (VObj [("type", VStr "hello"); ("last_seq", VNum (NPos 4));
                ("capabilities", VArr [VStr "replay_v1"])])
    else if decide (s = "room please") then Ok (note_subscribe "room")
    else if decide (s = "news please") then Ok (note_subscribe "news")
    else Err "unreadable";
  wire_print v :=
    match v with
    | VObj l =>
        let kind := match member "replayed" l, member "type" l with
                    | Some _, _ => "replayed"
                    | None, Some (VStr t) => t
                    | _, _ => ""
                    end in
        match member "seq" l with
        | Some (VNum (NPos n)) => Ok (kind +:+ " " +:+ pretty.pretty (Z.to_N n))
        | _ => Ok kind
        end
    | _ => Err "unprintable"
    end;
  wire_mismatch _ := "";
|}.

Definition resume_ctx : ConnContext := mkCtx 1 (json_codec note_lib) ["*"] None.
Definition resume_env : AppEnv := mkEnv HardEnforce true false.
Definition resume_entry : ConnectionEntry nat nat := mkEntry 0 0 false.

Abbreviation DemoSys := (Sys nat nat (gmap nat (BoundedQueue string)) (gmap nat (BoundedQueue unit))).

(** Connection 1 with channels 0 (live), 1 (replay) and 2 (urgent), all empty. *)
Definition resume_start : DemoSys :=
  mkSys (mkGateway (register 1 0 false 0 new_registry)
           {[ 0 := fresh_queue 4; 1 := fresh_queue 4; 2 := fresh_queue 1 ]} {[ 0 := fresh_queue 1 ]}
           no_metrics None)
    (mkWorld new_registry no_metrics AwaitingHello false None ∅ ∅ 0 []) (mkSink [] false)
    ["welcome"] [] [] [NowOn []].

Definition resume_takes (l : list sys_turn) (y : DemoSys) : option DemoSys :=
  sys_takes note_lib note_lib resume_ctx resume_env resume_entry 1 2 "bye" l y.

(** The client says hello with cursor 4 and resumes [news]; then it resumes [room]. *)
Definition resume_before : DemoSys :=
  default resume_start (resume_takes
    [YReply; YInbound (InFrame "hello") demo_server; YInbound (InFrame "news please") demo_server]
    resume_start).

Definition resume_subscribed : DemoSys :=
  after_inbound resume_ctx
    (handle_client_frame note_lib resume_ctx resume_env "room please" (inbound_view resume_before))
    [start_run note_lib note_lib resume_ctx demo_server true ("room", 4%Z)] resume_before.

(** The consumer takes message 7 and the outbound task writes it before the two replay tasks
    get to run; the inbound task sends a ping; then message 8 arrives. *)
Definition resume_schedule : list sys_turn :=
  [YMessage (mkNatsMessage "TURBOCABLE.room" "c" (Ok 7%Z)); YOutbound; YOutbound; YReplay 1; YReplay 0;
   YReplay 1; YInbound (InTick 99 true) demo_server; YReply;
   YMessage (mkNatsMessage "TURBOCABLE.room" "d" (Ok 8%Z)); YReplay 1; YOutbound; YReplay 0;
   YOutbound; YOutbound; YOutbound].

Definition resume_end : DemoSys :=
  default resume_start (resume_takes resume_schedule resume_subscribed).

(** A live message can overtake the replay: the subscription is in place before the replay
    task runs, and an outbound task that finds no replay frame writes live ones. *)
Example live_overtakes_replay :
  out (y_sink resume_end) =
    [WsText "welcome"; WsText "message 7"; WsText "replayed 5"; WsText "replayed 6";
     WsText "replayed 7"; WsText "confirm_subscription"; WsText "confirm_subscription";
     WsText "ping"; WsText "message 8"].
Proof. vm_compute. reflexivity. Qed.

Lemma resume_connections id e :
  connections (register 1 0 false 0 new_registry : Registry nat nat) !! id = Some e →
  id = 1%Z ∧ e = resume_entry.
Proof.
  intros Hl%elem_of_map_to_list. vm_compute in Hl. by apply list_elem_of_singleton in Hl as [= -> ->].
Qed.

Lemma resume_init : sys_init resume_ctx resume_entry 1 2 [] ["welcome"] resume_start.
Proof.
  assert (registry_wf (register 1 0 false 0 new_registry : Registry nat nat)) as Hwf.
  { apply register_wf; [done|apply new_registry_wf]. }
  split_and!; try done.
  - split; try done; cbn [resume_start y_gateway g_registry].
    + intros id1 id2 e1 e2 [-> _]%resume_connections [-> _]%resume_connections. done.
    + intros c [->|[->|[->|?%not_elem_of_nil]%elem_of_cons]%elem_of_cons]%elem_of_cons; [..|done];
        vm_compute; split_and!; (reflexivity || lia).
    + vm_compute. lia.
    + by intros id' e' [_ ->]%resume_connections.
    + by apply demo_distinct.
  - split_and!; [done|intros s; apply (wf_subs _ Hwf)|]. vm_compute. lia.
Qed.

Abbreviation demo_step :=
  (sys_step note_lib note_lib resume_ctx resume_env resume_entry 1 2 "bye").
Abbreviation demo_reached := (reachable (sys_init resume_ctx resume_entry 1 2 [] ["welcome"]) demo_step).

Lemma resume_before_reached : demo_reached resume_before.
Proof.
  eapply reached_steps; [apply reachable_init, resume_init|].
  eapply (sys_takes_steps _ _ _ _ _ _ _ _
    [YReply; YInbound (InFrame "hello") demo_server; YInbound (InFrame "news please") demo_server]).
  vm_compute. reflexivity.
Qed.

Lemma resume_end_steps : rtc demo_step resume_subscribed resume_end.
Proof. eapply (sys_takes_steps _ _ _ _ _ _ _ _ resume_schedule). vm_compute. reflexivity. Qed.

Lemma resume_since :
  drop (length (y_arrived resume_subscribed)) (y_arrived resume_end) =
    [FromStream (mkNatsMessage "TURBOCABLE.room" "c" (Ok 7%Z)) true; NowOn ["news"; "room"];
     FromInbound "ping"; FromStream (mkNatsMessage "TURBOCABLE.room" "d" (Ok 8%Z)) true].
Proof. vm_compute. reflexivity. Qed.

Lemma resume_stays strs :
  NowOn strs ∈ drop (length (y_arrived resume_subscribed)) (y_arrived resume_end) → "room" ∈ strs.
Proof.
  rewrite resume_since, !elem_of_cons.
  intros [?|[?|[?|[?|?%not_elem_of_nil]]]]; simplify_eq; set_solver.
Qed.

Lemma resume_none_dropped m :
  FromStream m false ∉ drop (length (y_arrived resume_subscribed)) (y_arrived resume_end).
Proof. rewrite resume_since, !not_elem_of_cons. split_and!; [done..|apply not_elem_of_nil]. Qed.

Lemma resume_caught_up : caught_up resume_entry 1 2 resume_end.
Proof.
  split_and!; [| |vm_compute; reflexivity|vm_compute; reflexivity].
  - intros [Hq|Hq]; apply Hq; vm_compute; reflexivity.
  - apply (bool_decide_unpack _). vm_compute. exact I.
Qed.

Lemma resume_resuming : resuming note_lib resume_ctx resume_env (inbound_view resume_before) "room please" "room" 4.
Proof. split; try (vm_compute; reflexivity). vm_compute. by eexists. Qed.

Lemma resume_end_reached : demo_reached resume_end.
Proof.
  eapply reached_steps; [eapply reachable_step; [exact resume_before_reached|]|exact resume_end_steps].
  eapply (subscribe_step note_lib note_lib resume_ctx resume_env resume_entry 1 2 "bye" resume_before
    "room please" "room" 4 "confirm_subscription" "reject_subscription" demo_server true);
    [vm_compute; reflexivity|exact resume_resuming|vm_compute; reflexivity|vm_compute; reflexivity].
Qed.

(** In that state the welcome and all answers, here one ping, have been sent. *)
Lemma delivered_or_disconnected_witness :
  accounted note_lib note_lib resume_entry 1 [] resume_end ∧
  answers_of (y_arrived resume_end) = ["welcome"; "ping"].
Proof.
  destruct (delivered_or_disconnected note_lib note_lib resume_ctx resume_env resume_entry 1 2 "bye" []
    ["welcome"] resume_end resume_end_reached) as ([[_ Ha]|(st & f & Hn & _)] & _ & Hans).
  - split; [exact Ha|]. vm_compute in Hans |- *. exact Hans.
  - vm_compute in Hn. discriminate Hn.
Defined.

Lemma resume_history : history
  ([mkNatsMessage "TURBOCABLE.room" "a" (Ok 5%Z); mkNatsMessage "TURBOCABLE.news" "b" (Ok 6%Z)] ++
   taken_of (y_arrived resume_before))
  (taken_of (drop (length (y_arrived resume_subscribed)) (y_arrived resume_end))) demo_store 4.
Proof.
  assert (taken_of (y_arrived resume_before) = []) as -> by (vm_compute; reflexivity).
  rewrite resume_since. cbn [taken_of omap list_omap].
  split.
  - by repeat constructor.
  - repeat constructor.
  - exists [], [mkNatsMessage "TURBOCABLE.room" "d" (Ok 8%Z)]. split; [done|]. by eexists [_].
  - intros m0 ms [= <- _]. vm_compute. discriminate.
  - done.
Qed.

(** Message 5, published before the subscribe, is on the socket. *)
Lemma resumed_client_misses_nothing_witness :
  ∃ frame, (frame_of note_lib note_lib (json_codec note_lib) "room" frame
              (mkNatsMessage "TURBOCABLE.room" "a" (Ok 5%Z)) ∨
            frame = live_frame note_lib note_lib resume_entry
              (mkNatsMessage "TURBOCABLE.room" "a" (Ok 5%Z))) ∧
    ∀ x, bytes_to_ws_msg frame false = Some x → x ∈ out (y_sink resume_end).
Proof.
  refine (match _ with or_introl H => False_ind _ (resume_none_dropped _ H) | or_intror H => H end).
  refine (proj2 (proj2 (resumed_client_misses_nothing note_lib note_lib resume_ctx resume_env
    resume_entry 1 2 "bye" [] ["welcome"] resume_before "room please" "room" 4 "confirm_subscription"
    "reject_subscription" demo_store exact_match demo_server _ resume_end resume_before_reached _
    resume_resuming _ _ demo_server_laws _ _ _ _ _ resume_end_steps _ _ resume_history)) _ _ _ _).
  - vm_compute. reflexivity.
  - vm_compute. reflexivity.
  - vm_compute. reflexivity.
  - intros s. unfold exact_match. by apply bool_decide_eq_true_2.
  - unfold is_u64, u64_modulus. lia.
  - unfold u64_max, u64_modulus. lia.
  - assert (missed "room" demo_store exact_match 4 =
      [mkNatsMessage "TURBOCABLE.room" "a" (Ok 5%Z); mkNatsMessage "TURBOCABLE.room" "c" (Ok 7%Z)])
      as -> by (vm_compute; reflexivity).
    repeat constructor; [exists 5%Z, "replayed 5"|exists 7%Z, "replayed 7"]; by vm_compute.
  - apply Nat.leb_le. vm_compute. reflexivity.
  - apply resume_stays.
  - exact resume_caught_up.
  - apply elem_of_app. left. left.
  - reflexivity.
  - vm_compute. reflexivity.
Defined.
