(* ===== verification/Progress.v ===== *)
(** * Catching up and shutting down

    The tasks of a connection, left alone with the work they have, finish it: every schedule of
    their steps is bounded by the number of frames still to be moved, and where no step is
    possible everything is on the socket (or the client is being told to reconnect).  On
    shutdown everything that is queued is written before the close frame. *)

From stdpp Require Import base list gmap strings fin_maps sets sorting relations.
From Stdlib Require Import ZArith Lia.
From S2P Require Import Prelude Channels Text Config Protocol Jwt Float RateLimit Registry RegistrySpec Metrics Nats Replay ReplayTask Consumer Handler HandlerSpec Outbound System Resume.

Local Open Scope string_scope.
Local Open Scope list_scope.
Local Open Scope nat_scope.

Lemma sum_list_with_insert {A} (f : A → nat) (l : list A) k x y :
  l !! k = Some x → sum_list_with f (<[k := y]> l) + f x = sum_list_with f l + f y.
Proof.
  revert k. induction l as [|z l IH]; intros [|k] Hk; [done..| |].
  - injection Hk as ->. cbn. lia.
  - change (<[S k := y]> (z :: l)) with (z :: <[k := y]> l). specialize (IH k Hk). cbn. lia.
Qed.

Section Progress.
Context (serde_json rmp_serde : WireLib) (ctx : ConnContext) (env : AppEnv).
Context {Tx Ev HB HE : Type} `{MpscLaws string HB Tx} `{MpscLaws unit HE Ev}.
Context `{!EqDecision Tx} `{!EqDecision Ev}.
Context (e : ConnectionEntry Tx Ev) (replay_tx urgent_tx : Tx) (disconnect_frame : string).
Context (out0 : list WsMessage) (greeting : list string).
Implicit Types (y : Sys Tx Ev HB HE).
Abbreviation step :=
  (sys_step serde_json rmp_serde ctx env e replay_tx urgent_tx disconnect_frame).
Abbreviation task := (task_step e replay_tx urgent_tx disconnect_frame).
Abbreviation inv :=
  (sys_inv serde_json rmp_serde ctx e replay_tx urgent_tx disconnect_frame out0 greeting).
Abbreviation reached := (reachable (sys_init ctx e replay_tx urgent_tx out0 greeting) step).
Abbreviation ends y := (ending e urgent_tx (y_gateway y)).
Abbreviation turn := (outbound_turn e replay_tx urgent_tx disconnect_frame).

(** The work left: a frame that is not queued yet has to be queued and written. *)
Definition pending y : nat :=
  2 * length (y_replies y) +
  sum_list_with (λ t, 2 * length (run_todo t) + length (run_urgent t)) (y_runs y) +
  length (queue replay_tx (g_channels (y_gateway y))) +
  length (queue (sender e) (g_channels (y_gateway y))).

(** Nothing is left to do. *)
Definition settled y : Prop :=
  caught_up e replay_tx urgent_tx y ∧ y_replies y = [] ∧ Forall (λ t, run_urgent t = []) (y_runs y).

Lemma task_decreases y y' : inv y → task y y' → pending y' < pending y.
Proof using Type*.
  intros Hinv Hstep. pose proof (yi_plumbing _ _ _ _ _ _ _ _ _ _ Hinv) as Hp.
  destruct (own_distinct _ _ _ _ Hp) as (Dlr & Dlu & Dru). unfold pending.
  destruct Hstep as [y f rest Hrep Hroom|y k t f rest Hk Ht Hroom|y k t f rest Hk Ht Hu Hroom
    |y hb he sk Ht]; cbn [y_replies y_runs y_gateway with_channels g_channels].
  - destruct (send_room _ f _ Hroom) as (Hq & _ & Hf & _). rewrite Hq, Hf, Hrep, length_app by done.
    cbn. lia.
  - destruct (send_room _ f _ Hroom) as (Hq & _ & Hf & _). rewrite Hq, Hf, length_app by done.
    pose proof (sum_list_with_insert (λ t, 2 * length (run_todo t) + length (run_urgent t)) _ k t
      (mkRun (run_stream t) (run_cursor t) (run_sent t ++ [f]) rest (run_urgent t)) Hk) as Hsum.
    cbn beta in Hsum. rewrite Ht in Hsum. cbn in Hsum |- *. lia.
  - destruct (send_room _ f _ Hroom) as (_ & _ & Hf & _). rewrite !Hf by done.
    pose proof (sum_list_with_insert (λ t, 2 * length (run_todo t) + length (run_urgent t)) _ k t
      (mkRun (run_stream t) (run_cursor t) (run_sent t) [] rest) Hk) as Hsum.
    cbn beta in Hsum. rewrite Ht, Hu in Hsum. cbn in Hsum |- *. lia.
  - destruct Hinv as [_ _ _ Hurg _].
    destruct (decide (ends y)) as [Hend|Hne].
    { destruct (turn_ends _ _ _ _ _ false y Hp Hurg Hend) as (st & f & Hr & _). congruence. }
    destruct (turn_moves _ _ _ disconnect_frame y Hp Hne) as [(Hw & _)|(h' & k & Hk & Hne' & _ & _ & Hqs)]; [congruence|].
    rewrite Ht in Hk. injection Hk as -> -> ->. destruct k as [|f k]; [done|].
    destruct Hqs as [[-> ->]|[-> ->]]; rewrite length_app; cbn; lia.
Qed.

(** A connection whose tasks have work can take a step. *)
Lemma task_progress y : inv y → ends y ∨ settled y ∨ ∃ y', task y y'.
Proof using Type*.
  intros Hinv. destruct (decide (ends y)) as [|Hne]; [by left|right].
  pose proof (yi_plumbing _ _ _ _ _ _ _ _ _ _ Hinv) as Hp.
  destruct (turn_moves _ _ _ disconnect_frame y Hp Hne) as [(_ & Hqr & Hql)|(h' & k & Hk & _)];
    [|right; eexists; by eapply ts_outbound].
  destruct (not_ending _ _ _ Hne) as [_ Hqu].
  assert (∀ c, c ∈ [sender e; replay_tx; urgent_tx] → queue c (g_channels (y_gateway y)) = [] →
    has_room c (g_channels (y_gateway y)) = true) as Hroom.
  { intros c Hc Hq. destruct Hp as [_ _ Hopen _ _ _]. destruct (Hopen c Hc) as (Hrx & _ & Hcap).
    unfold has_room. rewrite Hrx, Hq. by apply Nat.ltb_lt. }
  destruct (y_replies y) as [|f rest] eqn:Hrep;
    [|right; eexists; eapply ts_reply; [done|apply Hroom; [set_solver|done]]].
  destruct (Forall_Exists_dec _ _ (λ t, decide (run_todo t = [])) (y_runs y)) as [Ht|Ht].
  2: { right. apply Exists_exists in Ht as (t & [k Hk]%list_elem_of_lookup & Htd).
       destruct (run_todo t) as [|f rest] eqn:E; [done|].
       eexists. eapply ts_replay; [done|done|apply Hroom; [set_solver|done]]. }
  destruct (Forall_Exists_dec _ _ (λ t, decide (run_urgent t = [])) (y_runs y)) as [Hu|Hu].
  2: { right. apply Exists_exists in Hu as (t & [k Hk]%list_elem_of_lookup & Hud).
       rewrite Forall_lookup in Ht. destruct (run_urgent t) as [|f rest] eqn:E; [done|].
       eexists. eapply ts_urgent; [done|by eapply Ht|done|apply Hroom; [set_solver|done]]. }
  by left.
Qed.

Lemma task_inv y y' : rtc task y y' → inv y → inv y'.
Proof using Type*. induction 1; eauto using sys_inv_task. Qed.

Lemma tasks_bounded n y y' : nsteps task n y y' → inv y → n + pending y' ≤ pending y.
Proof using Type*.
  induction 1 as [|n y y1 y' Hs _ IH]; intros Hinv; [done|].
  pose proof (task_decreases _ _ Hinv Hs). specialize (IH (sys_inv_task _ _ _ _ _ _ _ _ _ _ _ Hinv Hs)). lia.
Qed.

Lemma tasks_finish y : inv y → ∃ y', rtc task y y' ∧ (ends y' ∨ settled y').
Proof using Type*.
  induction y as [y IH] using (induction_ltof1 _ pending). unfold ltof in IH. intros Hinv.
  destruct (task_progress y Hinv) as [Hend|[Hset|[y1 Hs]]]; [eauto using rtc_refl..|].
  destruct (IH y1) as (y' & Hr & Hd); [by apply task_decreases|by eapply sys_inv_task|].
  exists y'. split; [by eapply rtc_l|done].
Qed.

(** C18. A connection always catches up.  From every reachable state, when nothing new comes from
    outside, the inbound, replay and outbound tasks finish: however their steps are scheduled
    there are at most as many as there are frames to move (counting a frame that is not yet
    queued twice), they get stuck nowhere before everything is done (no task waits for a
    channel that never empties), and they do get there.  Done means that all replay, live and
    answer frames are on the socket, or that the client is being told to reconnect. *)
Theorem tasks_catch_up y :
  reached y →
  (∀ n y', nsteps task n y y' → n ≤ pending y) ∧
  (∀ y', rtc task y y' → nf task y' → ends y' ∨ settled y') ∧
  (∃ y', rtc task y y' ∧ (ends y' ∨ settled y')).
Proof using Type*.
  intros Hr0. pose proof (sys_inv_reachable _ _ _ _ _ _ _ _ _ _ _ Hr0) as Hinv. split_and!.
  - intros n y' Hn. pose proof (tasks_bounded _ _ _ Hn Hinv). lia.
  - intros y' Hr Hnf. destruct (task_progress y' (task_inv _ _ Hr Hinv)) as [|[|[y'' Hs]]]; auto.
    destruct Hnf. by eexists.
  - by apply tasks_finish.
Qed.

(** C19. Graceful shutdown of a connection, in whatever state its tasks are when the signal
    comes: the next thing the outbound task does is write every frame that is still queued,
    so that the socket has every frame the replay tasks queued and every live frame and
    answer sent to the connection, each side in its order and nothing else, then the close
    frame 1001; or, when the client is being told to reconnect anyway, that frame. *)
Theorem shutdown_writes_what_is_queued y :
  reached y →
  (∃ st frame, turn true y = OReturn st ∧
     closing ctx disconnect_frame frame ∧
     o_sink st = mkSink (out (y_sink y) ++ ws_frames (is_binary e) [frame]) true) ∨
  (∃ st k, turn true y = OReturn st ∧
     out (o_sink st) = out0 ++ k ++ [WsClose WS_CLOSE_GOING_AWAY "server shutting down"] ∧
     interleaved (ws_frames (is_binary e) (y_queued y).*2)
       (ws_frames (is_binary e) (expected serde_json rmp_serde e [] (y_arrived y))) k).
Proof using Type*.
  intros Hr0. pose proof (sys_inv_reachable _ _ _ _ _ _ _ _ _ _ _ Hr0) as [Hp _ _ Hurg Hcase].
  destruct (decide (ends y)) as [Hend|Hne]; [left; by apply turn_ends|right].
  destruct Hcase as [[_ (R & L & k & HR & HL & Ho & Hi)]|]; [|done].
  destruct (not_ending _ _ _ Hne) as [Hqe Hqu].
  pose proof Hp as [_ _ Hopen (_ & Het & _) _ Hown].
  destruct (Hopen urgent_tx) as (_ & Htu & _); [set_solver|].
  destruct (outbound_shutdown_flushes (sender e) replay_tx urgent_tx (evict_tx e) (is_binary e)
    disconnect_frame (λ _, true) Hown (outbound_view y)) as (st & Hit & Hout & _); [done|by split|].
  exists st, (k ++ ws_frames (is_binary e) (queue replay_tx (g_channels (y_gateway y))) ++
    ws_frames (is_binary e) (queue (sender e) (g_channels (y_gateway y)))).
  split_and!; [done| |].
  - rewrite Hout. cbn [outbound_view o_sink o_chan]. by rewrite Ho, <- !app_assoc.
  - rewrite <- HR, <- HL, !ws_frames_app, app_assoc. by apply il_right, il_left.
Qed.
End Progress.

(** ** Witnesses *)

(** Two resuming subscriptions: five replay frames to be queued and written. *)
Lemma resume_subscribed_reached : demo_reached resume_subscribed.
Proof.
  eapply reachable_step; [exact resume_before_reached|].
  eapply (subscribe_step note_lib note_lib resume_ctx resume_env resume_entry 1 2 "bye" resume_before
    "room please" "room" 4 "confirm_subscription" "reject_subscription" demo_server true);
    [vm_compute; reflexivity|exact resume_resuming|vm_compute; reflexivity|vm_compute; reflexivity].
Qed.

Lemma tasks_catch_up_witness :
  (∀ n y', nsteps (task_step resume_entry 1 2 "bye") n resume_subscribed y' → n ≤ 11) ∧
  ∃ y', rtc (task_step resume_entry 1 2 "bye") resume_subscribed y' ∧
    (ending resume_entry 2 (y_gateway y') ∨ settled resume_entry 1 2 y').
Proof.
  destruct (tasks_catch_up note_lib note_lib resume_ctx resume_env resume_entry 1 2 "bye" [] ["welcome"]
    resume_subscribed resume_subscribed_reached) as (Hn & _ & He).
  split; [|exact He]. intros n y' Hs. apply Hn in Hs.
  assert (pending resume_entry 1 resume_subscribed = 11) as E by (vm_compute; reflexivity).
  rewrite E in Hs. exact Hs.
Defined.

(** The shutdown signal comes before the welcome frame is written. *)
Lemma shutdown_writes_what_is_queued_witness :
  ∃ st k, outbound_turn resume_entry 1 2 "bye" true resume_subscribed = OReturn st ∧
    out (o_sink st) = k ++ [WsClose WS_CLOSE_GOING_AWAY "server shutting down"] ∧ WsText "welcome" ∈ k.
Proof.
  destruct (shutdown_writes_what_is_queued note_lib note_lib resume_ctx resume_env resume_entry 1 2 "bye"
    [] ["welcome"] resume_subscribed resume_subscribed_reached)
    as [(st & f & Ht & _ & Hs)|(st & k & Ht & Ho & (_ & Hk & _)%interleaved_sublist)].
  - exfalso. vm_compute in Ht. injection Ht as <-. vm_compute in Hs. discriminate Hs.
  - exists st, k. split; [exact Ht|]. split; [exact Ho|].
    assert (ws_frames false (expected note_lib note_lib resume_entry [] (y_arrived resume_subscribed))
      = [WsText "welcome"]) as E by (vm_compute; reflexivity).
    change (is_binary resume_entry) with false in Hk. rewrite E in Hk.
    apply sublist_submseteq in Hk. eapply elem_of_submseteq; [|exact Hk]. left.
Defined.
