(* ===== verification/Echo.v ===== *)
(** * From one client to another

    A client's [message] command goes through three components: the inbound task publishes
    it ([src/connection/handler.rs]), JetStream stores it, the fan-out consumer reads it and
    hands a frame to every subscriber ([src/pubsub/nats.rs], [src/connection/registry.rs]),
    and the subscriber's client reads the frame ([src/protocol]).  This file composes their
    models.  JetStream is what it answers to each publish ([js]), the sequences it gives to
    what it acknowledged, and what it hands to the consumer between them. *)

From stdpp Require Import base list gmap strings sorting.
From Stdlib Require Import ZArith Lia OrdersEx.
From S2P Require Import Prelude Channels Text Protocol Json Msgpack RateLimit Registry RegistrySpec Metrics Nats Config Consumer Handler.

Local Open Scope string_scope.
Local Open Scope list_scope.
Local Open Scope nat_scope.

(** ** Payloads are canonical

    [to_json_value] builds the [BTreeMap]s of a [serde_json::Value]; a value that was built
    so is not changed by building it again. *)

Definition key_lt (a b : string * value) : Prop := String_as_OT.lt a.1 b.1.

#[local] Instance key_lt_trans : Transitive key_lt.
Proof. intros a b c. unfold key_lt. apply (StrictOrder_Transitive (R := String_as_OT.lt)). Qed.

Lemma btree_insert_all (P : string * value → Prop) k v l :
  P (k, v) → Forall P l → Forall P (btree_insert k v l).
Proof.
  intros Hk. induction 1 as [|[k' v'] l Hp Hl IH]; cbn [btree_insert]; [by repeat constructor|].
  destruct (String.compare k k'); by repeat constructor.
Qed.

Lemma compare_lt k k' : CompSpec eq String_as_OT.lt k k' (String.compare k k').
Proof.
  assert (String.compare k k' = String_as_OT.compare k k') as ->; [|apply String_as_OT.compare_spec].
  revert k'. induction k as [|a k IH]; intros [|a' k']; [done..|]. cbn. by rewrite IH.
Qed.

Lemma btree_insert_sorted k v l :
  StronglySorted key_lt l → StronglySorted key_lt (btree_insert k v l).
Proof.
  induction 1 as [|[k' v'] l Hl IH Hf]; cbn [btree_insert]; [by repeat constructor|].
  destruct (compare_lt k k') as [<-|Hc|Hc].
  - by constructor.
  - constructor; [by constructor|]. constructor; [done|]. eapply Forall_impl; [exact Hf|].
    intros kv ?. by trans (k', v').
  - constructor; [done|]. by apply btree_insert_all.
Qed.

Lemma btree_insert_last k v l :
  Forall (λ kv, key_lt kv (k, v)) l → btree_insert k v l = l ++ [(k, v)].
Proof.
  induction 1 as [|[k' v'] l Hk Hl IH]; [done|]. cbn [btree_insert app]. rewrite IH.
  destruct (compare_lt k k') as [<-|Hc|Hc]; [| |done]; exfalso.
  - by apply (StrictOrder_Irreflexive (R := String_as_OT.lt) k).
  - apply (StrictOrder_Irreflexive (R := String_as_OT.lt) k). by trans k'.
Qed.

Abbreviation btree_of := (fold_left (λ acc kv, btree_insert kv.1 kv.2 acc)).

Lemma btree_of_sorted l acc : StronglySorted key_lt acc → StronglySorted key_lt (btree_of l acc).
Proof.
  revert acc. induction l as [|kv l IH]; intros acc Ha; [done|]. by apply IH, btree_insert_sorted.
Qed.

Lemma btree_of_all (P : string * value → Prop) l acc :
  Forall P l → Forall P acc → Forall P (btree_of l acc).
Proof.
  intros Hl. revert acc. induction Hl as [|[k v] l Hk Hl IH]; intros acc Ha; [done|].
  by apply IH, btree_insert_all.
Qed.

Lemma btree_of_id l acc : StronglySorted key_lt (acc ++ l) → btree_of l acc = acc ++ l.
Proof.
  revert acc. induction l as [|[k v] l IH]; intros acc Hs; cbn [fold_left fst snd].
  { by rewrite app_nil_r. }
  rewrite btree_insert_last.
  - rewrite IH, <- app_assoc; [done|]. by rewrite <- app_assoc.
  - apply StronglySorted_app in Hs as (Ha & _). apply Forall_forall. intros kv Hkv.
    apply Ha; set_solver.
Qed.

Lemma to_json_value_canonical v : json_canonical (to_json_value v).
Proof.
  unfold json_canonical. induction v as [| | | |l IH|l IH] using value_tree_ind; try done;
    cbn [to_json_value]; f_equal.
  - rewrite map_map. apply map_ext_Forall, IH.
  - set (m := btree_of (map _ l) []).
    assert (Forall (λ kv, (kv.1, to_json_value kv.2) = kv) m) as Hm.
    { apply btree_of_all; [|done]. apply Forall_map. eapply Forall_impl; [exact IH|].
      intros [k v] Hv; cbn in *. congruence. }
    assert (map (λ kv, (kv.1, to_json_value kv.2)) m = m) as ->.
    { rewrite <- (map_id m) at 2. by apply map_ext_Forall. }
    apply (btree_of_id m []), btree_of_sorted. constructor.
Qed.

Lemma decode_payload_canonical serde_json rmp_serde b :
  json_canonical (decode_payload serde_json rmp_serde b).
Proof. unfold decode_payload. repeat case_match; try apply to_json_value_canonical. done. Qed.

(** ** What a session publishes *)

(** The publications of a session's log, in order. *)
Definition published (log : list effect) : list (string * string) :=
  omap (λ e, match e with PublishMsg i d => Some (i, d) | _ => None end) log.


Section Sender.
Context {Tx Ev : Type} (serde_json : WireLib) (ctx : ConnContext) (env : AppEnv).
Implicit Types (w : World Tx Ev).


(** A step that keeps the session active and publishes nothing. *)
Definition quiet w w' : Prop :=
  w_conn_state w' = w_conn_state w ∧ published (w_log w') = published (w_log w).

#[local] Instance quiet_preorder : PreOrder quiet.
Proof. split; [done|]. intros w1 w2 w3 [] []. split; congruence. Qed.







End Sender.

(** ** What the consumer makes of it *)




Section Receiver.
Context (serde_json rmp_serde : WireLib) `{!WireLaws serde_json} `{!WireLaws rmp_serde}.







Context {Tx Ev HB HE : Type}.
Context `{MpscLaws string HB Tx} `{MpscLaws unit HE Ev}.
Context `{!EqDecision Tx} `{!EqDecision Ev}.

End Receiver.

(** ** Witness *)







