(* ===== verification/Socket.v ===== *)
(** * The life of a connection ([handle_socket] of [src/connection/handler.rs])

    Admission (the per-IP limiter, then the token), registration, the inbound loop, and the
    release of everything on the way out.  The model runs one socket on its own: how the
    steps of many sockets interleave is the subject of [Sockets].  Awaiting the outbound task
    at the very end is left out. *)

From stdpp Require Import base list gmap strings fin_maps fin_map_dom sets.
From Stdlib Require Import ZArith Lia Ascii.
From S2P Require Import Prelude Text Config Limiter Protocol Jwt Registry RegistrySpec Metrics Handler HandlerSpec.

Local Open Scope string_scope.
Local Open Scope list_scope.
Local Open Scope nat_scope.

Definition WS_CLOSE_AUTH_FAILED : Z := 3000.

(** The shared state a socket takes from and gives back to. *)
Record Node (Tx Ev : Type) : Type := mkNode {
  nd_limiter : ConnectionLimiter;
  nd_registry : Registry Tx Ev;
  nd_metrics : Metrics;
}.
Arguments mkNode {Tx Ev}.
Arguments nd_limiter {Tx Ev}.
Arguments nd_registry {Tx Ev}.
Arguments nd_metrics {Tx Ev}.

(** [str::replace(pat, "")]: every non-overlapping occurrence, left to right; the fuel is the
    length of the string. *)
Fixpoint remove_all (fuel : nat) (pat s : string) : string :=
  match fuel with
  | O => s
  | S fuel' =>
      match strip_prefix pat s with
      | Some rest => remove_all fuel' pat rest
      | None => match s with
                | EmptyString => EmptyString
                | String a s' => String a (remove_all fuel' pat s')
                end
      end
  end.

(** How a socket ended: closed by the admission with a close frame, or accepted, with the log
    of its inbound task; [Panicked] when the negotiated protocol has no codec, when tokio
    refuses a channel's capacity, or when it refuses the ping interval. *)
Inductive socket_exit : Type :=
| Rejected (code : Z) (reason : string)
| Served (log : list effect)
| StillOpen (log : list effect)
| Panicked.

Section Socket.
Context {Key Tx Ev : Type}.
Context (serde_json rmp_serde : WireLib).
Context (jwt_decode : Z → string → Key → Validation → result Claims JwtErrorKind).

(** The parts of [AppState] that do not change. *)
Record SocketEnv : Type := mkSocketEnv {
  se_verifier : option (JwtVerifier Key);
  se_now : Z;
  se_env : AppEnv;
  se_ws_channel_capacity : Z;
  se_ws_replay_channel_capacity : Z;
  se_ping_interval_secs : Z;
}.

(** [mpsc::channel] panics on a capacity of zero and beyond the semaphore's [MAX_PERMITS]
    ([usize::MAX >> 3]); [tokio::time::interval] panics on a period of zero. *)
Definition capacity_ok (cap : Z) : bool := (0 <? cap)%Z && (cap <=? MAX_PERMITS)%Z.

Definition channels_ok (se : SocketEnv) : bool :=
  capacity_ok (se_ws_channel_capacity se) && capacity_ok (se_ws_replay_channel_capacity se).

Definition interval_ok (se : SocketEnv) : bool := negb (se_ping_interval_secs se =? 0)%Z.

(** The admission's verdict on the token: the streams allowed and the user, or the close
    reason; and the metrics. *)
Definition authenticate (se : SocketEnv) (token : option string) (m : Metrics)
    : result (list string * option string) string * Metrics :=
  match se_verifier se with
  | None => (Ok (["*"], None), m)
  | Some v =>
      match token with
      | Some t =>
          if decide (t = "") then (Err "auth failed", inc connections_rejected m)
          else
            let m1 := observe auth_duration_secs m in
            match verify jwt_decode (se_now se) v t with
            | Ok claims => (Ok (allowed_streams claims, Some (sub claims)), m1)
            | Err e =>
                let text := gateway_error_to_string e in
                (Err (remove_all (String.length text) "auth failed: " text),
                 inc connections_rejected m1)
            end
      | None => (Err "auth failed", inc connections_rejected m)
      end
  end.

(** The state the inbound loop starts in. *)
Definition start_world (r : Registry Tx Ev) (m : Metrics) : World Tx Ev :=
  mkWorld r m AwaitingHello false None ∅ ∅ 0 [].

(** Registration and the session of an admitted socket. *)
Definition serve (se : SocketEnv) (codec : Codec) (is_binary : bool) (allowed : list string)
    (user_id : option string) (ip : IpAddr) (live_tx : Tx) (evict_tx : Ev)
    (evs : list inbound_event) (nd : Node Tx Ev) : socket_exit * Node Tx Ev :=
  let '(conn_id, r1) := allocate_id (nd_registry nd) in
  if channels_ok se then
    let r2 := register conn_id live_tx is_binary evict_tx r1 in
    let m1 := gauge_inc connections_active (inc connections_total (nd_metrics nd)) in
    let ctx := mkCtx conn_id codec allowed user_id in
    let w0 := send_encoded ctx Welcome (start_world r2 m1) in
    if interval_ok se then
      let '(ended, w) := inbound_loop serde_json ctx (se_env se) evs w0 in
      if ended then
        (Served (w_log w),
         mkNode (release (nd_limiter nd) ip) (deregister conn_id (w_registry w))
           (gauge_dec connections_active (w_metrics w)))
      else (StillOpen (w_log w), mkNode (nd_limiter nd) (w_registry w) (w_metrics w))
    else (Panicked, mkNode (nd_limiter nd) (w_registry w0) (w_metrics w0))
  else (Panicked, mkNode (nd_limiter nd) r1 (nd_metrics nd)).

Definition handle_socket (se : SocketEnv) (protocol : string) (token : option string)
    (ip : IpAddr) (live_tx : Tx) (evict_tx : Ev) (evs : list inbound_event)
    (nd : Node Tx Ev) : socket_exit * Node Tx Ev :=
  let '(acquired, lim1) := try_acquire (nd_limiter nd) ip in
  if acquired : bool then
    let '(verdict, m1) := authenticate se token (nd_metrics nd) in
    match verdict with
    | Err reason =>
        (Rejected WS_CLOSE_AUTH_FAILED reason, mkNode (release lim1 ip) (nd_registry nd) m1)
    | Ok (allowed, user_id) =>
        match codec_for_protocol serde_json rmp_serde protocol with
        | None => (Panicked, mkNode lim1 (nd_registry nd) m1)
        | Some codec =>
            serve se codec (bool_decide (protocol = SUB_PROTOCOL_MSGPACK)) allowed user_id ip
              live_tx evict_tx evs (mkNode lim1 (nd_registry nd) m1)
        end
    end
  else (Rejected 1008 "too many connections from this IP",
        mkNode lim1 (nd_registry nd) (inc connections_rejected (nd_metrics nd))).
End Socket.

(** ** Lemmas *)

Section SocketLemmas.
Context {Tx Ev : Type} (serde_json : WireLib) (ctx : ConnContext) (env : AppEnv).
Implicit Types (w : World Tx Ev) (r : Registry Tx Ev).
Abbreviation id := (ctx_conn_id ctx).

(** A refused acquisition leaves a limiter with a positive limit as it was. *)
Lemma acquire_refused_id lim ip lim' :
  (0 < max_per_ip lim)%Z → try_acquire lim ip = (false, lim') → lim' = lim.
Proof.
  destruct lim as [m mx]. unfold try_acquire; cbn. intros Hmx.
  destruct (Z.leb_spec mx (default 0%Z (m !! ip))) as [Hle|]; intros; simplify_eq.
  f_equal. destruct (m !! ip) as [c|] eqn:E; cbn in *; [by rewrite insert_id|lia].
Qed.

(** What a session does not touch: the other connections, and the connection gauge. *)
Record confined (r0 : Registry Tx Ev) (m0 : Metrics) w : Prop := mkConfined {
  cf_wf : registry_wf (w_registry w);
  cf_connections : connections (w_registry w) = connections r0;
  cf_streams : ∀ id', id' ≠ id → streams_of (w_registry w) id' = streams_of r0 id';
  cf_gauge : scalar (w_metrics w) connections_active = scalar m0 connections_active;
}.

Lemma confined_same r0 m0 w w' :
  w_registry w' = w_registry w →
  scalar (w_metrics w') connections_active = scalar (w_metrics w) connections_active →
  confined r0 m0 w → confined r0 m0 w'.
Proof. intros Hr Hm []. split; by rewrite ?Hr, ?Hm. Qed.

Lemma send_encoded_metrics msg w : w_metrics (send_encoded ctx msg w) = w_metrics w.
Proof. unfold send_encoded. by case_match. Qed.

Lemma handle_frame_gauge data w :
  scalar (w_metrics (handle_client_frame serde_json ctx env data w)) connections_active
  = scalar (w_metrics w) connections_active.
Proof.
  assert (∀ cmd w0, scalar (w_metrics (dispatch_command serde_json ctx env cmd w0))
            connections_active = scalar (w_metrics w0) connections_active) as Hd.
  { intros [i|i|i d] w0; cbn [dispatch_command].
    - unfold dispatch_subscribe, replay_or_confirm, presence_join.
      repeat case_match; rewrite ?send_encoded_metrics; done.
    - unfold dispatch_unsubscribe, presence_leave, remove_heartbeat. by repeat case_match.
    - unfold dispatch_message. by case_match. }
  unfold handle_client_frame. destruct (decode _ _) as [[h|cmd]|]; [| |done].
  - unfold handle_hello. by repeat case_match.
  - unfold handle_command. repeat case_match; rewrite ?Hd, ?send_encoded_metrics; done.
Qed.

Lemma confined_frame r0 m0 data w :
  confined r0 m0 w → confined r0 m0 (handle_client_frame serde_json ctx env data w).
Proof.
  intros [Hwf Hc Hs Hg].
  pose proof (handle_frame_registry serde_json ctx env data w) as Hreg. cbv zeta in Hreg.
  assert (scalar (w_metrics (handle_client_frame serde_json ctx env data w))
            connections_active = scalar m0 connections_active) as Hg'.
  { by rewrite handle_frame_gauge. }
  set (w' := handle_client_frame serde_json ctx env data w) in *.
  destruct Hreg as [Hr|[(i & _ & _ & Hr)|(i & Hr)]].
  - split; by rewrite ?Hr.
  - split; rewrite ?Hr; [by apply subscribe_wf| | |done].
    + rewrite <- Hc. unfold subscribe. by repeat case_match.
    + intros id' Hne. rewrite <- Hs by done. unfold subscribe, streams_of.
      repeat case_match; try done. cbn. by rewrite lookup_insert_ne.
  - pose proof (unsubscribe_spec id (stream_key_from_identifier serde_json i) (w_registry w))
      as (Hc' & _ & _ & Hcs & _).
    split; rewrite ?Hr; [by apply unsubscribe_wf|congruence| |done].
    intros id' Hne. rewrite <- Hs by done. unfold streams_of. by rewrite Hcs, lookup_alter_ne.
Qed.

Lemma confined_run r0 m0 evs w :
  confined r0 m0 w → confined r0 m0 (inbound_run serde_json ctx env evs w).2.
Proof.
  revert w. induction evs as [|[data| | |e|ts ok|] evs IH]; intros w Hc; cbn [inbound_run snd];
    try done.
  - by apply IH, confined_frame.
  - by apply IH.
  - repeat case_match; try done; apply IH; [|done].
    by apply (confined_same _ _ w).
Qed.

(** The end of the loop only touches presence and heartbeats. *)
Lemma cleanup_frame w :
  w_registry (inbound_cleanup ctx env w) = w_registry w ∧
  w_metrics (inbound_cleanup ctx env w) = w_metrics w.
Proof.
  unfold inbound_cleanup; cbn. repeat case_match; try done.
  generalize (map_to_list (w_heartbeats w)).*1. intros l. clear.
  revert w. induction l as [|x l IH]; intros w; cbn; [done|]. destruct (IH (emit (PresenceDelete x s) w)) as [-> ->]. done.
Qed.

Lemma confined_loop r0 m0 evs w :
  confined r0 m0 w → confined r0 m0 (inbound_loop serde_json ctx env evs w).2.
Proof.
  intros Hc. apply (confined_run _ _ evs) in Hc. unfold inbound_loop.
  destruct (inbound_run _ _ _ evs w) as [[] w']; cbn [snd] in *; [|done].
  destruct (cleanup_frame w') as [Hr Hm]. apply (confined_same _ _ w'); [done|by rewrite Hm|done].
Qed.
End SocketLemmas.

(** A negotiated protocol has a codec. *)
Lemma negotiated_codec serde_json rmp_serde header :
  is_Some (codec_for_protocol serde_json rmp_serde (negotiate_protocol header)).
Proof.
  unfold negotiate_protocol.
  destruct (first_supported_cases (split "," header)) as [-> | ->]; by vm_compute; eexists.
Qed.

(** Serving and deregistering a fresh connection leaves no trace in the registry. *)
Lemma deregister_fresh {Tx Ev} (r r' : Registry Tx Ev) conn_id e :
  registry_wf r → registry_wf r' → connections r !! conn_id = None →
  connections r' = <[conn_id := e]> (connections r) →
  (∀ id', id' ≠ conn_id → streams_of r' id' = streams_of r id') →
  registry_wf (deregister conn_id r') ∧ abs_of (deregister conn_id r') = abs_of r ∧
  connection_count (deregister conn_id r') = connection_count r.
Proof.
  intros Hwf Hwf' Hfree Hc Hs.
  pose proof (deregister_wf conn_id r' Hwf') as Hwfd.
  pose proof (deregister_spec conn_id r' Hwf') as (Hcd & Hcsd & _).
  assert (connections (deregister conn_id r') = connections r) as Heq.
  { rewrite Hcd, Hc. by apply delete_insert_id. }
  assert (∀ i, streams_of (deregister conn_id r') i = streams_of r i) as Hst.
  { intros i. destruct (decide (i = conn_id)) as [->|Hne].
    - unfold streams_of at 1. rewrite Hcsd, lookup_delete_eq; cbn.
      unfold streams_of. destruct (conn_streams r !! conn_id) eqn:E; [|done].
      destruct (proj2 (wf_reverse _ Hwf conn_id)) as [? ?]; [eauto|congruence].
    - rewrite <- Hs by done. unfold streams_of. by rewrite Hcsd, lookup_delete_ne. }
  split; [done|]. split.
  - apply abs_of_eq; cbn.
    + intros i. by rewrite Heq, elem_of_dom.
    + intros i s. change (list_to_set _) with (subs (abs_of r)). by rewrite elem_of_abs_subs, Hst.
  - unfold connection_count. by rewrite (wf_active _ Hwfd), (wf_active _ Hwf), Heq.
Qed.

(** ** Properties *)

Section SocketProperties.
Context {Key Tx Ev : Type} (serde_json rmp_serde : WireLib).
Context (jwt_decode : Z → string → Key → Validation → result Claims JwtErrorKind).
Implicit Types (nd : Node Tx Ev) (se : SocketEnv (Key := Key)).
Abbreviation socket := (handle_socket serde_json rmp_serde jwt_decode).

(** A socket that is over, one way or the other. *)
Definition finished (x : socket_exit) : Prop :=
  match x with Rejected _ _ | Served _ => True | _ => False end.

Lemma authenticate_gauge se token m :
  scalar (authenticate jwt_decode se token m).2 connections_active = scalar m connections_active.
Proof. unfold authenticate. by repeat case_match. Qed.

Lemma authenticate_rejects se token m :
  match (authenticate jwt_decode se token m).1 with
  | Ok _ => True
  | Err _ => ∃ m0, (authenticate jwt_decode se token m).2 = inc connections_rejected m0 ∧
               scalar m0 connections_active = scalar m connections_active
  end.
Proof. unfold authenticate. repeat case_match; simplify_eq/=; try done; by eexists. Qed.

Lemma serve_balanced se codec b allowed user ip tx ev evs nd :
  channels_ok se = true → interval_ok se = true →
  registry_wf (nd_registry nd) →
  connections (nd_registry nd) !! next_id (nd_registry nd) = None →
  (- 2 ^ 63 ≤ scalar (nd_metrics nd) connections_active < 2 ^ 63)%Z →
  let '(x, nd') := serve serde_json se codec b allowed user ip tx ev evs nd in
  x ≠ Panicked ∧
  (finished x →
   nd_limiter nd' = release (nd_limiter nd) ip ∧ registry_wf (nd_registry nd') ∧
   abs_of (nd_registry nd') = abs_of (nd_registry nd) ∧
   connection_count (nd_registry nd') = connection_count (nd_registry nd) ∧
   scalar (nd_metrics nd') connections_active = scalar (nd_metrics nd) connections_active).
Proof.
  intros Hch Hiv Hwf Hfree Hg. unfold serve. cbn [allocate_id]. rewrite Hch, Hiv.
  set (cid := next_id (nd_registry nd)) in *. set (ctx := mkCtx cid codec allowed user).
  set (r2 := register cid tx b ev _). set (m1 := gauge_inc connections_active _).
  assert (registry_wf r2) as Hwf2.
  { apply register_wf; [done|]. by apply (allocate_id_wf (nd_registry nd)). }
  assert (confined ctx r2 m1 (send_encoded ctx Welcome (start_world r2 m1))) as Hc.
  { apply (confined_same _ _ _ (start_world r2 m1)); [|by rewrite send_encoded_metrics|by split].
    by rewrite send_encoded_registry. }
  apply (confined_loop serde_json ctx (se_env se) _ _ evs) in Hc.
  destruct (inbound_loop _ _ _ _ _) as [ended w]; cbn [snd] in Hc.
  destruct ended; (split; [done|]); [intros _|done]. destruct Hc as [Hwfw Hcw Hsw Hgw].
  destruct (deregister_fresh (nd_registry nd) (w_registry w) cid (mkEntry tx ev b) Hwf Hwfw
    Hfree Hcw) as (H1 & H2 & H3).
  { intros id' Hne. rewrite Hsw by done. unfold r2, register, streams_of; cbn.
    by rewrite lookup_insert_ne. }
  split_and!; [done..|]. cbn [nd_metrics]. unfold gauge_dec. rewrite scalar_with, decide_True by done.
  rewrite Hgw. pose proof (gauge_dec_inc connections_active (inc connections_total (nd_metrics nd)))
    as Hdi. unfold gauge_dec in Hdi. rewrite scalar_with, decide_True in Hdi by done.
  unfold m1. rewrite Hdi; [by apply with_scalar_other|].
  unfold inc, inc_by. by rewrite with_scalar_other.
Qed.

(** C20. A socket takes nothing away with it.  With channel capacities and a ping interval that
    tokio accepts (see [zero_ping_interval_leaks] for what happens otherwise), the handler of a
    negotiated protocol does not panic, and on every path, rejected at the limit, rejected by
    authentication or served to its end, the limiter, the registry's connections and
    subscriptions, its connection count and the active-connections gauge are what they were
    before. *)
Theorem socket_releases_everything se header token ip tx ev evs nd :
  channels_ok se = true → interval_ok se = true →
  is_u64 (max_per_ip (nd_limiter nd)) → (0 < max_per_ip (nd_limiter nd))%Z →
  (∀ c, counts (nd_limiter nd) !! ip = Some c → (0 < c)%Z) →
  registry_wf (nd_registry nd) →
  connections (nd_registry nd) !! next_id (nd_registry nd) = None →
  (- 2 ^ 63 ≤ scalar (nd_metrics nd) connections_active < 2 ^ 63)%Z →
  let '(x, nd') := socket se (negotiate_protocol header) token ip tx ev evs nd in
  x ≠ Panicked ∧
  (finished x →
   nd_limiter nd' = nd_limiter nd ∧ registry_wf (nd_registry nd') ∧
   abs_of (nd_registry nd') = abs_of (nd_registry nd) ∧
   connection_count (nd_registry nd') = connection_count (nd_registry nd) ∧
   scalar (nd_metrics nd') connections_active = scalar (nd_metrics nd) connections_active).
Proof.
  intros Hch Hiv Hmax Hpos Hc Hwf Hfree Hg. unfold handle_socket.
  destruct (try_acquire (nd_limiter nd) ip) as [[] lim1] eqn:Ea.
  - pose proof (authenticate_gauge se token (nd_metrics nd)) as Hga.
    destruct (authenticate jwt_decode se token (nd_metrics nd)) as [[[allowed user]|reason] m1];
      cbn [snd] in Hga.
    + destruct (negotiated_codec serde_json rmp_serde header) as [codec ->].
      pose proof (serve_balanced se codec
        (bool_decide (negotiate_protocol header = SUB_PROTOCOL_MSGPACK)) allowed user ip tx ev evs
        (mkNode lim1 (nd_registry nd) m1) Hch Hiv Hwf Hfree) as Hs. cbn [nd_metrics] in Hs.
      rewrite Hga in Hs. specialize (Hs Hg).
      destruct (serve _ _ _ _ _ _ _ _ _ _ _) as [x nd']. destruct Hs as [Hx Hs].
      split; [done|]. intros Hfin. destruct (Hs Hfin) as (-> & Hrest). cbn [nd_limiter].
      split; [by apply acquire_release_id|done].
    + split; [done|]. intros _. cbn. split_and!; try done. by apply acquire_release_id.
  - split; [done|]. intros _. cbn. split_and!; try done. by eapply acquire_refused_id.
Qed.

Lemma remove_auth_prefix reason :
  reason ∈ auth_reasons →
  let text := gateway_error_to_string (Auth reason) in
  remove_all (String.length text) "auth failed: " text = reason.
Proof.
  unfold auth_reasons. intros Hr. repeat (apply elem_of_cons in Hr as [->|Hr]; [by vm_compute|]).
  by apply not_elem_of_nil in Hr.
Qed.

(** C23. With authentication configured, the outcome of a socket names its cause.  It is served
    only when the limiter had a slot and the verifier accepted its non-empty token, and then
    with that token's streams and subject.  It is closed with 1008 exactly for want of a slot,
    with 3000 and "auth failed" for want of a token, and with 3000 and the verifier's reason,
    without the error prefix, when the verifier refused the token; then nothing was
    registered, and a slot it had taken is given back. *)
Theorem admission_requires_valid_token se v protocol token ip tx ev evs nd x nd' :
  se_verifier se = Some v →
  socket se protocol token ip tx ev evs nd = (x, nd') →
  let '(acquired, lim1) := try_acquire (nd_limiter nd) ip in
  match x with
  | Served _ | StillOpen _ =>
      acquired = true ∧
      ∃ t claims codec, token = Some t ∧ t ≠ "" ∧
        verify jwt_decode (se_now se) v t = Ok claims ∧
        codec_for_protocol serde_json rmp_serde protocol = Some codec ∧
        (x, nd') = serve serde_json se codec (bool_decide (protocol = SUB_PROTOCOL_MSGPACK))
                     (allowed_streams claims) (Some (sub claims)) ip tx ev evs
                     (mkNode lim1 (nd_registry nd) (observe auth_duration_secs (nd_metrics nd)))
  | Rejected code reason =>
      nd_registry nd' = nd_registry nd ∧
      (acquired = false ∧ nd_limiter nd' = lim1 ∧
         code = 1008%Z ∧ reason = "too many connections from this IP" ∨
       acquired = true ∧ nd_limiter nd' = release lim1 ip ∧ code = WS_CLOSE_AUTH_FAILED ∧
         ((token = None ∨ token = Some "") ∧ reason = "auth failed" ∨
          ∃ t, token = Some t ∧ t ≠ "" ∧
               verify jwt_decode (se_now se) v t = Err (Auth reason)))
  | Panicked =>
      acquired = true ∧ (codec_for_protocol serde_json rmp_serde protocol = None ∨
                         channels_ok se = false ∨ interval_ok se = false)
  end.
Proof.
  intros Hv. unfold handle_socket, authenticate. rewrite Hv.
  destruct (try_acquire (nd_limiter nd) ip) as [[] lim1];
    [|by intros [= <- <-]; split; [|left]].
  destruct token as [t|]; [|by intros [= <- <-]; split; [|right; naive_solver]].
  destruct (decide (t = "")) as [->|Hne]; [by intros [= <- <-]; split; [|right; naive_solver]|].
  destruct (verify jwt_decode (se_now se) v t) as [claims|e] eqn:Hver.
  - destruct (codec_for_protocol _ _ protocol) as [codec|]; [|by intros [= <- <-]; auto].
    intros Hs. assert ((x = Panicked → channels_ok se = false ∨ interval_ok se = false) ∧
                       ∀ c r, x ≠ Rejected c r) as [Hx1 Hx2].
    { revert Hs. unfold serve. repeat case_match; intros [= <- <-]; (split; [first [done|by auto]|done]). }
    destruct x; [naive_solver|..|by auto]; (split; [done|]); by exists t, claims, codec.
  - intros [= <- <-]. split; [done|]. right. split_and!; [done..|]. right. exists t.
    split_and!; [done..|]. rewrite Hver.
    destruct (verify_error_reason _ _ _ _ _ Hver) as (reason & -> & Hin).
    by rewrite remove_auth_prefix.
Qed.

(** A ping interval of zero leaks connections: the configuration is accepted, but every
    admitted socket panics once it is registered, so its registry entry, its slot of the
    per-IP limit and its count in the active-connections gauge are never given back. *)
Theorem zero_ping_interval_leaks se header ip tx ev evs nd lim1 :
  se_verifier se = None → channels_ok se = true → se_ping_interval_secs se = 0%Z →
  try_acquire (nd_limiter nd) ip = (true, lim1) →
  let '(x, nd') := socket se (negotiate_protocol header) None ip tx ev evs nd in
  let id := next_id (nd_registry nd) in
  x = Panicked ∧ nd_limiter nd' = lim1 ∧ is_Some (connections (nd_registry nd') !! id) ∧
  connection_count (nd_registry nd') = wrapping_add (connection_count (nd_registry nd)) 1 ∧
  scalar (nd_metrics nd') connections_active
    = to_i64 (scalar (nd_metrics nd) connections_active + 1).
Proof.
  intros Hv Hch Hiv Ha. unfold handle_socket, authenticate. rewrite Ha, Hv.
  destruct (negotiated_codec serde_json rmp_serde header) as [codec ->].
  unfold serve. cbn [allocate_id nd_registry]. rewrite Hch.
  assert (interval_ok se = false) as -> by (unfold interval_ok; by rewrite Hiv).
  cbn [nd_limiter nd_registry nd_metrics].
  rewrite send_encoded_registry, send_encoded_metrics. split_and!; try done.
  cbn [start_world w_registry register connections]. rewrite lookup_insert_eq. eauto.
Qed.
End SocketProperties.

(** ** Witnesses *)

(** A wire library that knows one subscribe frame. *)
Definition sub_lib : WireLib :=
  mkWireLib
    (λ b, if decide (b = "sub") then Ok (client_frame_to_value (Command (Subscribe "room")))
          else Err "syntax")
    (λ _, Ok "frame") (λ _, "mismatch").

Definition demo_node : Node nat nat :=
  mkNode (mkLimiter {[demo_ip := 1%Z]} 5) new_registry no_metrics.

Definition open_env : SocketEnv (Key := string) := 
  mkSocketEnv None 0 (mkEnv Compat true true) 4096 4096 30.

(** A socket that subscribes and closes. *)
Lemma socket_releases_everything_witness :
  nd_limiter (handle_socket sub_lib sub_lib demo_jwt_decode open_env
    (negotiate_protocol "") None demo_ip 1 1 [InFrame "sub"; InClosed] demo_node).2
  = nd_limiter demo_node.
Proof.
  pose proof (socket_releases_everything sub_lib sub_lib demo_jwt_decode open_env "" None
    demo_ip 1 1 [InFrame "sub"; InClosed] demo_node) as H.
  destruct (handle_socket sub_lib sub_lib demo_jwt_decode open_env (negotiate_protocol "") None
    demo_ip 1 1 [InFrame "sub"; InClosed] demo_node) as [x nd'] eqn:E.
  destruct H as [_ H].
  - reflexivity.
  - reflexivity.
  - by vm_compute.
  - by vm_compute.
  - intros c Hc. vm_compute in Hc. by injection Hc as <-.
  - apply new_registry_wf.
  - reflexivity.
  - cbn. lia.
  - apply H. vm_compute in E. injection E as <- _. exact I.
Defined.

Definition closed_env (v : JwtVerifier string) : SocketEnv :=
  mkSocketEnv (Some v) 0 (mkEnv Compat true true) 4096 4096 30.

Definition demo_verifier : JwtVerifier string :=
  mkVerifier (mkLock "key" false) (mkLock "pem" false) (mkValidation RS256 []).

(** A socket without a token is closed and not registered. *)
Lemma admission_requires_valid_token_witness :
  nd_registry (handle_socket sub_lib sub_lib demo_jwt_decode (closed_env demo_verifier)
    SUB_PROTOCOL_JSON None demo_ip 1 1 [] demo_node).2 = nd_registry demo_node.
Proof.
  destruct (handle_socket sub_lib sub_lib demo_jwt_decode (closed_env demo_verifier)
    SUB_PROTOCOL_JSON None demo_ip 1 1 [] demo_node) as [x nd'] eqn:E.
  pose proof (admission_requires_valid_token sub_lib sub_lib demo_jwt_decode
    (closed_env demo_verifier) demo_verifier SUB_PROTOCOL_JSON None demo_ip 1 1 [] demo_node
    x nd' eq_refl E) as H.
  vm_compute in E. injection E as <- <-. exact (proj1 H).
Defined.

Lemma zero_ping_interval_leaks_witness :
  (handle_socket sub_lib sub_lib demo_jwt_decode
     (mkSocketEnv None 0 (mkEnv Compat true true) 4096 4096 0) (negotiate_protocol "") None
     demo_ip 1 1 [] demo_node).1 = Panicked.
Proof.
  pose proof (zero_ping_interval_leaks sub_lib sub_lib demo_jwt_decode
    (mkSocketEnv None 0 (mkEnv Compat true true) 4096 4096 0) "" demo_ip 1 1 [] demo_node
    (try_acquire (nd_limiter demo_node) demo_ip).2 eq_refl eq_refl eq_refl eq_refl) as H.
  destruct (handle_socket _ _ _ _ _ _ _ _ _ _ _) as [x nd']. exact (proj1 H).
Defined.
