(* ===== verification/Sockets.v ===== *)
(** * All sockets of the process

    [Socket] runs one socket from admission to release; here any number of them share the
    limiter, the registry and the connection gauge, and their steps interleave with each other
    and with the consumer's fan-outs.  A socket is at one of the points of [handle_socket]
    between two changes of shared state; [release] has its two critical sections.  The
    configuration is one tokio accepts, so that no socket panics ([Socket] has those exits). *)

From stdpp Require Import base list gmap strings fin_maps relations.
From Stdlib Require Import ZArith Lia.
From S2P Require Import Prelude Text Channels Limiter Protocol Jwt Metrics Registry RegistrySpec Handler HandlerSpec Socket.

Local Open Scope list_scope.

(** ** States *)

Inductive stage : Type :=
| Accepted            (** holds a slot, the token is being verified *)
| Registered (id : Z) (** in the registry, not yet counted *)
| Serving (id : Z)    (** counted, in the inbound loop *)
| Leaving             (** deregistered, still counted *)
| Uncounted           (** not counted any more, still holds the slot *)
| Removing            (** in [release], between its two halves *)
| Closed.

#[export] Instance stage_eq_dec : EqDecision stage.
Proof. solve_decision. Defined.

Definition holds_slot (s : stage) : bool :=
  match s with Removing | Closed => false | _ => true end.

Definition is_counted (s : stage) : bool :=
  match s with Serving _ | Leaving => true | _ => false end.

Definition stage_id (s : stage) : option Z :=
  match s with Registered id | Serving id => Some id | _ => None end.

Record Sockets (Tx Ev : Type) : Type := mkSockets {
  k_limiter : ConnectionLimiter;
  k_registry : Registry Tx Ev;
  k_metrics : Metrics;
  k_socks : gmap nat (IpAddr * stage);
}.
Arguments mkSockets {Tx Ev}.
Arguments k_limiter {Tx Ev}.
Arguments k_registry {Tx Ev}.
Arguments k_metrics {Tx Ev}.
Arguments k_socks {Tx Ev}.

(** ** Steps *)

Section Steps.
Context {Tx Ev HB HE : Type} `{!Mpsc string HB Tx} `{!Mpsc unit HE Ev}.
Abbreviation sockets := (Sockets Tx Ev).
Implicit Types (l : ConnectionLimiter) (r : Registry Tx Ev) (m : Metrics).
Implicit Types (ss : gmap nat (IpAddr * stage)).

(** The changes of shared state that [handle_socket] makes, one by one.  A new connection gets
    an id that no socket has (the counter is 64 bits wide). *)
Inductive sock_step : sockets → sockets → Prop :=
| sock_accept l r m ss k ip l' :
    ss !! k = None → try_acquire l ip = (true, l') →
    sock_step (mkSockets l r m ss) (mkSockets l' r m (<[k := (ip, Accepted)]> ss))
| sock_full l r m ss k ip l' :
    ss !! k = None → try_acquire l ip = (false, l') →
    sock_step (mkSockets l r m ss)
      (mkSockets l' r (inc connections_rejected m) (<[k := (ip, Closed)]> ss))
| sock_reject l r m ss k ip rm l' :
    ss !! k = Some (ip, Accepted) → release_dec l ip = (rm, l') →
    sock_step (mkSockets l r m ss)
      (mkSockets l' r (inc connections_rejected m)
         (<[k := (ip, if rm : bool then Removing else Closed)]> ss))
| sock_register l r m ss k ip id r1 tx binary ev :
    ss !! k = Some (ip, Accepted) → allocate_id r = (id, r1) →
    map_Forall (λ _ x, stage_id x.2 ≠ Some id) ss →
    sock_step (mkSockets l r m ss)
      (mkSockets l (register id tx binary ev r1) m (<[k := (ip, Registered id)]> ss))
| sock_count l r m ss k ip id :
    ss !! k = Some (ip, Registered id) →
    sock_step (mkSockets l r m ss)
      (mkSockets l r (gauge_inc connections_active (inc connections_total m))
         (<[k := (ip, Serving id)]> ss))
| sock_subscribe l r m ss k ip id s :
    ss !! k = Some (ip, Serving id) →
    sock_step (mkSockets l r m ss) (mkSockets l (subscribe id s r) m ss)
| sock_unsubscribe l r m ss k ip id s :
    ss !! k = Some (ip, Serving id) →
    sock_step (mkSockets l r m ss) (mkSockets l (unsubscribe id s r) m ss)
| sock_fanout l r m ss s json binary (hb : HB) (he : HE) res r' hb' he' :
    fanout_encoded s json binary r hb he = (res, r', hb', he') →
    sock_step (mkSockets l r m ss) (mkSockets l r' m ss)
| sock_other_metric l r m ss m' :
    scalar m' connections_active = scalar m connections_active →
    sock_step (mkSockets l r m ss) (mkSockets l r m' ss)
| sock_leave l r m ss k ip id :
    ss !! k = Some (ip, Serving id) →
    sock_step (mkSockets l r m ss) (mkSockets l (deregister id r) m (<[k := (ip, Leaving)]> ss))
| sock_uncount l r m ss k ip :
    ss !! k = Some (ip, Leaving) →
    sock_step (mkSockets l r m ss)
      (mkSockets l r (gauge_dec connections_active m) (<[k := (ip, Uncounted)]> ss))
| sock_release l r m ss k ip rm l' :
    ss !! k = Some (ip, Uncounted) → release_dec l ip = (rm, l') →
    sock_step (mkSockets l r m ss)
      (mkSockets l' r m (<[k := (ip, if rm : bool then Removing else Closed)]> ss))
| sock_remove l r m ss k ip :
    ss !! k = Some (ip, Removing) →
    sock_step (mkSockets l r m ss)
      (mkSockets (release_remove_if l ip) r m (<[k := (ip, Closed)]> ss)).

Definition sockets_init (max : Z) (st : sockets) : Prop :=
  k_limiter st = new_limiter max ∧ k_registry st = new_registry ∧
  scalar (k_metrics st) connections_active = 0%Z ∧ k_socks st = ∅.
End Steps.

(** ** The limiter's share of the invariant *)

(** The slots an address holds, and the sockets the gauge counts. *)
Definition holders (ip : IpAddr) (ss : gmap nat (IpAddr * stage)) : nat :=
  map_count (λ x, bool_decide (x.1 = ip) && holds_slot x.2) ss.

Definition counted (ss : gmap nat (IpAddr * stage)) : nat := map_count (λ x, is_counted x.2) ss.

Section LimiterPart.
Context (max : Z) (Hmax : is_u64 max) (Hpos : (0 < max)%Z).
Implicit Types (l : ConnectionLimiter) (ss : gmap nat (IpAddr * stage)).

Record slots_inv l ss : Prop := mkSlots {
  sl_max : max_per_ip l = max;
  sl_count ip : count_for l ip = Z.of_nat (holders ip ss);
  sl_bound ip : (Z.of_nat (holders ip ss) ≤ max)%Z;
  sl_zero ip : counts l !! ip = Some 0%Z → ∃ k, ss !! k = Some (ip, Removing);
}.

Definition slot (b : bool) : nat := if b then 1 else 0.

Lemma holders_fresh ss k ip s ip' :
  ss !! k = None →
  holders ip' (<[k := (ip, s)]> ss) = (holders ip' ss + slot (bool_decide (ip = ip') && holds_slot s))%nat.
Proof. intros Hk. unfold holders. by rewrite map_count_fresh. Qed.

Lemma holders_move ss k ip old s ip' :
  ss !! k = Some (ip, old) →
  (holders ip' (<[k := (ip, s)]> ss) + slot (bool_decide (ip = ip') && holds_slot old))%nat =
  (holders ip' ss + slot (bool_decide (ip = ip') && holds_slot s))%nat.
Proof.
  intros Hk.
  apply (map_count_update (λ x, bool_decide (x.1 = ip') && holds_slot x.2) ss k (ip, old) (ip, s) Hk).
Qed.

(** A socket moves without touching the limiter. *)
Lemma slots_move l ss k ip old s :
  ss !! k = Some (ip, old) → holds_slot old = holds_slot s → old ≠ Removing →
  slots_inv l ss → slots_inv l (<[k := (ip, s)]> ss).
Proof.
  intros Hk Hh Hr [Hm Hc Hb Hz].
  assert (∀ ip', holders ip' (<[k := (ip, s)]> ss) = holders ip' ss) as He.
  { intros ip'. pose proof (holders_move ss k ip old s ip' Hk) as Hmv. rewrite Hh in Hmv. lia. }
  split; [done|intros; by rewrite He|intros; by rewrite He|].
  intros ip' Hip'. destruct (Hz ip' Hip') as [k' Hk']. exists k'.
  rewrite lookup_insert_ne; [done|]. intros <-. congruence.
Qed.

Lemma slots_acquire l ss k ip l' ok :
  ss !! k = None → try_acquire l ip = (ok, l') → slots_inv l ss →
  slots_inv l' (<[k := (ip, if ok : bool then Accepted else Closed)]> ss).
Proof using Hmax Hpos.
  intros Hk Hop [Hm Hc Hb Hz].
  pose proof (try_acquire_spec l ip) as Hspec. rewrite Hop in Hspec.
  destruct Hspec as (Hok & Hm' & Hc'); [rewrite Hc; lia|by rewrite Hm|]. rewrite Hc, Hm in Hok.
  assert (∀ ip', holders ip' (<[k := (ip, if ok then Accepted else Closed)]> ss) =
    (holders ip' ss + slot (bool_decide (ip = ip') && ok))%nat) as He.
  { intros ip'. rewrite holders_fresh by done. by destruct ok. }
  split; [congruence|intros ip'; rewrite He, Hc'|intros ip'; rewrite He; specialize (Hb ip')|].
  - rewrite !Hc. unfold slot. case_decide; case_bool_decide; subst; try done; destruct ok; cbn; lia.
  - unfold slot. case_bool_decide; subst; destruct ok; cbn; try lia.
  - intros ip' Hip'.
    assert (counts l !! ip' = Some 0%Z) as Hold.
    { destruct (decide (ip' = ip)) as [->|Hne].
      - pose proof (Hc' ip) as E. unfold count_for at 1 in E. rewrite Hip', decide_True in E by done.
        cbn in E. rewrite Hc in E. destruct ok; [lia|].
        assert (¬ Z.of_nat (holders ip ss) < max)%Z by (intros Hlt; by apply Hok in Hlt). lia.
      - rewrite <- Hip'. pose proof (try_acquire_other l ip ip' Hne) as Ho. by rewrite Hop in Ho. }
    destruct (Hz ip' Hold) as [k' Hk']. exists k'. rewrite lookup_insert_ne; [done|congruence].
Qed.

Lemma slots_release l ss k ip old rm l' :
  ss !! k = Some (ip, old) → holds_slot old = true → release_dec l ip = (rm, l') →
  slots_inv l ss → slots_inv l' (<[k := (ip, if rm : bool then Removing else Closed)]> ss).
Proof.
  intros Hk Hh Hop [Hm Hc Hb Hz].
  pose proof (release_dec_spec l ip) as Hspec. rewrite Hop in Hspec. destruct Hspec as (Hm' & Hrm & Hc').
  assert (∀ ip', (holders ip' (<[k := (ip, if rm then Removing else Closed)]> ss) +
    slot (bool_decide (ip = ip')))%nat = holders ip' ss) as He.
  { intros ip'. pose proof (holders_move ss k ip old (if rm then Removing else Closed) ip' Hk) as Hmv.
    rewrite Hh, andb_true_r in Hmv.
    destruct rm; cbn [holds_slot] in Hmv; rewrite andb_false_r in Hmv; cbn in Hmv; lia. }
  assert (counts l !! ip = Some (Z.of_nat (holders ip ss))) as Hin.
  { specialize (Hc ip). specialize (He ip). rewrite bool_decide_eq_true_2 in He by done. cbn in He.
    unfold count_for in Hc. destruct (counts l !! ip); cbn in Hc; [congruence|lia]. }
  split; [congruence| | |].
  - intros ip'. rewrite Hc', Hin. specialize (He ip'). unfold saturating_sub, slot in *.
    destruct (decide (ip' = ip)) as [->|Hne].
    + rewrite bool_decide_eq_true_2 in He by done. lia.
    + rewrite bool_decide_eq_false_2 in He by done. rewrite Hc. lia.
  - intros ip'. specialize (Hb ip'). specialize (He ip'). lia.
  - intros ip' Hip'. destruct (decide (ip' = ip)) as [->|Hne].
    + exists k. rewrite lookup_insert_eq. revert Hop. unfold release_dec. rewrite Hin.
      intros [= <- <-]. cbn in Hip'. rewrite lookup_insert_eq in Hip'. injection Hip' as ->. done.
    + destruct (Hz ip') as [k' Hk'].
      { rewrite <- Hip'. pose proof (release_dec_other l ip ip' Hne) as Ho. by rewrite Hop in Ho. }
      exists k'. rewrite lookup_insert_ne; [done|]. intros <-. congruence.
Qed.

Lemma slots_remove l ss k ip :
  ss !! k = Some (ip, Removing) →
  slots_inv l ss → slots_inv (release_remove_if l ip) (<[k := (ip, Closed)]> ss).
Proof.
  intros Hk [Hm Hc Hb Hz].
  assert (∀ ip', holders ip' (<[k := (ip, Closed)]> ss) = holders ip' ss) as He.
  { intros ip'. pose proof (holders_move ss k ip Removing Closed ip' Hk) as Hmv. cbn in Hmv. lia. }
  split; [by rewrite release_remove_if_max|intros; by rewrite release_remove_if_count, He
         |intros; by rewrite He|].
  intros ip' Hip'. destruct (decide (ip' = ip)) as [->|Hne].
  - exfalso. revert Hip'. unfold release_remove_if. destruct (counts l !! ip) as [v|] eqn:E; [|congruence].
    destruct (Z.eqb_spec v 0); cbn; [by rewrite lookup_delete_eq|congruence].
  - destruct (Hz ip') as [k' Hk'].
    { revert Hip'. unfold release_remove_if. repeat case_match; cbn; try done.
      by rewrite lookup_delete_ne. }
    exists k'. rewrite lookup_insert_ne; [done|]. intros <-. congruence.
Qed.
End LimiterPart.

(** ** The registry's share *)

Section RegistryPart.
Context {Tx Ev : Type}.
Implicit Types (r : Registry Tx Ev) (ss : gmap nat (IpAddr * stage)).

(** The registry is well-formed, and a registered connection is the one of exactly one socket
    that has not left. *)
Record owners_inv r ss : Prop := mkOwners {
  ow_wf : registry_wf r;
  ow_owner id : is_Some (connections r !! id) → ∃ k ip s, ss !! k = Some (ip, s) ∧ stage_id s = Some id;
  ow_unique k k' x x' id :
    ss !! k = Some x → ss !! k' = Some x' → stage_id x.2 = Some id → stage_id x'.2 = Some id →
    k = k';
}.

(** A well-formed registry without connections has no subscriber list. *)
Lemma no_connections_no_streams r : registry_wf r → connections r = ∅ → streams r = ∅.
Proof.
  intros Hwf He. apply map_empty. intros s. destruct (streams r !! s) as [[|id ids]|] eqn:E; [|exfalso|done].
  - by apply (wf_nonempty _ Hwf) in E.
  - assert (id ∈ subscribers r s) as Hin by (unfold subscribers; rewrite E; cbn; set_solver).
    apply (wf_subs _ Hwf) in Hin. unfold streams_of in Hin.
    destruct (conn_streams r !! id) eqn:Ec; [|by apply elem_of_nil in Hin].
    assert (is_Some (connections r !! id)) as Hs by (apply (wf_reverse _ Hwf); by rewrite Ec).
    rewrite He, lookup_empty in Hs. by destruct Hs.
Qed.

(** A socket moves to a point without an id, and a connection it had is no longer registered. *)
Lemma owners_drop r ss k ip s :
  (∀ id x, ss !! k = Some x → stage_id x.2 = Some id → connections r !! id = None) →
  stage_id s = None → owners_inv r ss → owners_inv r (<[k := (ip, s)]> ss).
Proof.
  intros Hgone Hs [Hwf Ho Hu]. split; [done| |].
  - intros id Hid. destruct (Ho id Hid) as (k' & ip' & s' & Hk' & Hs').
    exists k', ip', s'. split; [|done]. rewrite lookup_insert_ne; [done|]. intros <-.
    rewrite (Hgone id (ip', s') Hk' Hs') in Hid. by destruct Hid.
  - intros k1 k2 x1 x2 id. rewrite !lookup_insert_Some.
    intros [[<- <-]|[_ H1]] [[<- <-]|[_ H2]] E1 E2; cbn in *; try congruence. by eapply Hu.
Qed.

(** The registry loses connections. *)
Lemma owners_shrink r r' ss :
  registry_wf r' → (∀ id, is_Some (connections r' !! id) → is_Some (connections r !! id)) →
  owners_inv r ss → owners_inv r' ss.
Proof. intros Hwf' Hsub [Hwf Ho Hu]. split; auto. Qed.

Lemma owners_register r ss k ip id r1 tx binary ev :
  ss !! k = Some (ip, Accepted) → allocate_id r = (id, r1) →
  map_Forall (λ _ x, stage_id x.2 ≠ Some id) ss → owners_inv r ss →
  owners_inv (register id tx binary ev r1) (<[k := (ip, Registered id)]> ss).
Proof.
  intros Hk Ha Hnew [Hwf Ho Hu].
  assert (connections r1 = connections r) as Hc by (unfold allocate_id in Ha; by injection Ha as <- <-).
  assert (registry_wf r1) as Hwf1 by (pose proof (allocate_id_wf r Hwf) as E; by rewrite Ha in E).
  assert (connections r1 !! id = None) as Hfresh.
  { rewrite Hc. destruct (connections r !! id) as [e|] eqn:E; [|done].
    destruct (Ho id) as (k' & ip' & s' & Hk' & Hs'); [by eexists|].
    by apply Hnew in Hk'. }
  split; [by apply register_wf| |].
  - intros id' Hid'. cbn in Hid'. rewrite Hc in Hid'.
    destruct (decide (id' = id)) as [->|Hne].
    { exists k, ip, (Registered id). by rewrite lookup_insert_eq. }
    rewrite lookup_insert_ne in Hid' by done. destruct (Ho id' Hid') as (k' & ip' & s' & Hk' & Hs').
    exists k', ip', s'. rewrite lookup_insert_ne; [done|]. intros <-.
    rewrite Hk in Hk'. by injection Hk' as <- <-.
  - intros k1 k2 x1 x2 id'. rewrite !lookup_insert_Some.
    intros [[<- <-]|[_ H1]] [[<- <-]|[_ H2]] E1 E2; cbn in *; [done| | |by eapply Hu].
    + injection E1 as <-. by apply Hnew in H2.
    + injection E2 as <-. by apply Hnew in H1.
Qed.

(** Counting in keeps the id. *)
Lemma owners_same r ss k ip old s :
  ss !! k = Some (ip, old) → stage_id s = stage_id old →
  owners_inv r ss → owners_inv r (<[k := (ip, s)]> ss).
Proof.
  intros Hk Hs [Hwf Ho Hu]. split; [done| |].
  - intros id Hid. destruct (Ho id Hid) as (k' & ip' & s' & Hk' & Hs').
    destruct (decide (k' = k)) as [->|Hne].
    + exists k, ip, s. rewrite lookup_insert_eq. rewrite Hk in Hk'. injection Hk' as <- <-.
      by rewrite Hs.
    + exists k', ip', s'. by rewrite lookup_insert_ne.
  - intros k1 k2 x1 x2 id. rewrite !lookup_insert_Some.
    intros [[<- <-]|[_ H1]] [[<- <-]|[_ H2]] E1 E2; cbn in *; rewrite ?Hs in *;
      [done|by apply (Hu k k2 (ip, old) x2 id)|by apply (Hu k1 k x1 (ip, old) id)|by eapply Hu].
Qed.
Lemma owners_leave r ss k ip id :
  ss !! k = Some (ip, Serving id) → owners_inv r ss →
  owners_inv (deregister id r) (<[k := (ip, Leaving)]> ss).
Proof.
  intros Hk Ho. pose proof (deregister_spec id r (ow_wf _ _ Ho)) as [Hc _].
  apply owners_drop; [|done|].
  - intros id' x Hx. rewrite Hk in Hx. injection Hx as <-. cbn. intros [= <-].
    by rewrite Hc, lookup_delete_eq.
  - eapply owners_shrink, Ho; [apply deregister_wf, Ho|].
    intros id'. rewrite Hc. by intros [_ ?]%lookup_delete_is_Some.
Qed.

Lemma owners_fanout {HB HE : Type} `{!Mpsc string HB Tx} `{!Mpsc unit HE Ev}
    r ss st json binary (hb : HB) (he : HE) res r' hb' he' :
  fanout_encoded st json binary r hb he = (res, r', hb', he') →
  owners_inv r ss → owners_inv r' ss.
Proof.
  unfold fanout_encoded. destruct (fanout_loop _ _ _ _ _ _) as [[[n ev] hb1] he1].
  intros [= _ <- _ _] Ho. eapply owners_shrink, Ho; [apply fold_deregister_wf, Ho|].
  intros id. destruct (fold_deregister_spec ev r id) as [Hc _]; [apply Ho|]. rewrite Hc. by intros [? _].
Qed.

Lemma owners_subscribe r ss id s : owners_inv r ss → owners_inv (subscribe id s r) ss.
Proof.
  intros Ho. eapply owners_shrink, Ho; [apply subscribe_wf, Ho|].
  intros id'. unfold subscribe. by repeat case_match.
Qed.

Lemma owners_unsubscribe r ss id s : owners_inv r ss → owners_inv (unsubscribe id s r) ss.
Proof.
  intros Ho. eapply owners_shrink, Ho; [apply unsubscribe_wf, Ho|].
  intros id'. pose proof (unsubscribe_spec id s r) as [Hc _]. by rewrite Hc.
Qed.
End RegistryPart.

(** ** The gauge *)

Lemma to_i64_step a b : to_i64 (to_i64 a + b) = to_i64 (a + b).
Proof.
  unfold to_i64. f_equal.
  replace ((a + 2 ^ 63) mod u64_modulus - 2 ^ 63 + b + 2 ^ 63)%Z
    with ((a + 2 ^ 63) mod u64_modulus + b)%Z by lia.
  rewrite Zplus_mod_idemp_l. f_equal. lia.
Qed.

Definition gauge_counts (m : Metrics) (ss : gmap nat (IpAddr * stage)) : Prop :=
  scalar m connections_active = to_i64 (Z.of_nat (counted ss)).

Lemma counted_move ss k ip old s :
  ss !! k = Some (ip, old) →
  (counted (<[k := (ip, s)]> ss) + slot (is_counted old))%nat =
  (counted ss + slot (is_counted s))%nat.
Proof. intros Hk. apply (map_count_update (λ x, is_counted x.2) ss k (ip, old) (ip, s) Hk). Qed.

Lemma gauge_same m m' ss k ip old s :
  ss !! k = Some (ip, old) → is_counted old = is_counted s →
  scalar m' connections_active = scalar m connections_active →
  gauge_counts m ss → gauge_counts m' (<[k := (ip, s)]> ss).
Proof.
  intros Hk Hs Hm Hg. unfold gauge_counts. rewrite Hm, Hg. do 2 f_equal.
  pose proof (counted_move ss k ip old s Hk) as Hc. rewrite Hs in Hc. lia.
Qed.

Lemma inc_not_active k m :
  k ≠ connections_active → scalar (inc k m) connections_active = scalar m connections_active.
Proof. intros Hk. unfold inc, inc_by. by rewrite with_scalar_other. Qed.

Lemma gauge_fresh m m' ss k ip s :
  ss !! k = None → is_counted s = false →
  scalar m' connections_active = scalar m connections_active →
  gauge_counts m ss → gauge_counts m' (<[k := (ip, s)]> ss).
Proof.
  intros Hk Hs Hm Hg. unfold gauge_counts, counted. rewrite Hm, Hg, map_count_fresh by done.
  cbn. rewrite Hs, Nat.add_0_r. done.
Qed.

Lemma gauge_moves m f d ss k ip old s :
  ss !! k = Some (ip, old) →
  (Z.of_nat (slot (is_counted s)) - Z.of_nat (slot (is_counted old)))%Z = d →
  (∀ v, f v = to_i64 (v + d)) → gauge_counts m ss →
  gauge_counts (with_scalar connections_active f m) (<[k := (ip, s)]> ss).
Proof.
  intros Hk Hd Hf Hg. unfold gauge_counts. rewrite scalar_with, decide_True, Hf, Hg, to_i64_step by done.
  f_equal. pose proof (counted_move ss k ip old s Hk). lia.
Qed.

(** ** The invariant *)

Section Accounting.
Context {Tx Ev HB HE : Type} `{!Mpsc string HB Tx} `{!Mpsc unit HE Ev}.
Context (max : Z) (Hmax : is_u64 max) (Hpos : (0 < max)%Z).
Abbreviation sockets := (Sockets Tx Ev).
Implicit Types (st : sockets).

Record sockets_inv st : Prop := mkSocketsInv {
  si_slots : slots_inv max (k_limiter st) (k_socks st);
  si_owners : owners_inv (k_registry st) (k_socks st);
  si_gauge : gauge_counts (k_metrics st) (k_socks st);
}.

Lemma sockets_inv_init st : sockets_init max st → sockets_inv st.
Proof using Hpos.
  destruct st as [l r m ss]. intros (Hl & Hr & Hg & Hs). cbn in *. subst.
  split; cbn.
  - split; [done|intros; unfold holders; rewrite map_count_empty; cbn; try done; lia..|done].
  - split; [apply new_registry_wf|intros id [? [=]]|intros ??????; by rewrite lookup_empty].
  - unfold gauge_counts, counted. by rewrite Hg, map_count_empty.
Qed.


(** A socket without an id moves to a point without one. *)
Lemma owners_move (r : Registry Tx Ev) ss k ip old s :
  ss !! k = Some (ip, old) → stage_id old = None → stage_id s = None →
  owners_inv r ss → owners_inv r (<[k := (ip, s)]> ss).
Proof. intros Hk Ho Hs. apply owners_same with old; congruence. Qed.

(** With every socket closed nothing remains. *)
Lemma closed_nothing_left st :
  sockets_inv st → map_Forall (λ _ x, x.2 = Closed) (k_socks st) →
  counts (k_limiter st) = ∅ ∧ connections (k_registry st) = ∅ ∧ streams (k_registry st) = ∅ ∧
  connection_count (k_registry st) = 0%Z ∧ scalar (k_metrics st) connections_active = 0%Z.
Proof.
  intros [Hsl Ho Hg] Hall.
  assert (connections (k_registry st) = ∅) as Hempty.
  { apply map_empty. intros id. apply eq_None_not_Some. intros Hid.
    destruct (ow_owner _ _ Ho id Hid) as (k & ip & s & Hk & Hs). apply Hall in Hk. cbn in Hk.
    by subst. }
  split_and!; [|done| | |].
  - apply map_empty. intros ip. destruct (counts (k_limiter st) !! ip) as [v|] eqn:E; [|done].
    assert (v = 0%Z) as ->.
    { pose proof (sl_count _ _ _ Hsl ip) as Hc. unfold count_for in Hc. rewrite E in Hc. cbn in Hc.
      rewrite Hc. unfold holders. rewrite (proj2 (map_count_zero _ _)); [done|].
      intros k x Hk. apply Hall in Hk. rewrite Hk. by rewrite andb_false_r. }
    destruct (sl_zero _ _ _ Hsl ip E) as [k Hk]. by apply Hall in Hk.
  - apply no_connections_no_streams, Hempty. apply Ho.
  - unfold connection_count. by rewrite (wf_active _ (ow_wf _ _ Ho)), Hempty.
  - rewrite Hg. unfold counted. rewrite (proj2 (map_count_zero _ _)); [done|].
    intros k x Hk. apply Hall in Hk. by rewrite Hk.
Qed.

Lemma sockets_inv_step st st' : sockets_inv st → sock_step (HB := HB) (HE := HE) st st' → sockets_inv st'.
Proof using Hmax Hpos.
  intros [Hsl Ho Hg] Hstep. destruct Hstep; cbn in *; split; cbn;
    try done; try (eapply slots_move; [eassumption|done..]).
  - by eapply (slots_acquire _ Hmax Hpos _ _ _ _ _ true).
  - apply owners_drop; [congruence|done..].
  - by eapply gauge_fresh.
  - by eapply (slots_acquire _ Hmax Hpos _ _ _ _ _ false).
  - apply owners_drop; [congruence|done..].
  - eapply gauge_fresh, Hg; [done|done|by apply inc_not_active].
  - by eapply slots_release.
  - eapply owners_move, Ho; [eassumption|done|by destruct rm].
  - eapply gauge_same, Hg; [eassumption|by destruct rm|by apply inc_not_active].
  - by eapply owners_register.
  - by eapply gauge_same.
  - by eapply owners_same.
  - eapply (gauge_moves _ _ 1); [eassumption|done|done|]. unfold gauge_counts.
    rewrite inc_not_active; done.
  - by apply owners_subscribe.
  - by apply owners_unsubscribe.
  - by eapply owners_fanout.
  - unfold gauge_counts. congruence.
  - by apply owners_leave.
  - by eapply gauge_same.
  - by eapply owners_move.
  - by eapply (gauge_moves _ _ (-1)).
  - by eapply slots_release.
  - eapply owners_move, Ho; [eassumption|done|by destruct rm].
  - eapply gauge_same, Hg; [eassumption|by destruct rm|done].
  - by eapply slots_remove.
  - by eapply owners_move.
  - by eapply gauge_same.
Qed.

(** C21. Whatever the interleaving of any number of sockets with each other and with the
    fan-outs: the limiter's count of an address is the number of its sockets between admission
    and release and never exceeds the limit; the gauge is the number of sockets between
    counting in and counting out; the registry is well-formed and each of its connections
    belongs to exactly one socket that has not left.  When every socket is closed nothing
    remains of any of them: no entry in the limiter, no connection, no subscriber list, and
    both counts are zero. *)
Theorem sockets_account_for_everything st :
  reachable (sockets_init max) (sock_step (HB := HB) (HE := HE)) st →
  (∀ ip, count_for (k_limiter st) ip = Z.of_nat (holders ip (k_socks st)) ∧
         (count_for (k_limiter st) ip ≤ max)%Z) ∧
  scalar (k_metrics st) connections_active = to_i64 (Z.of_nat (counted (k_socks st))) ∧
  registry_wf (k_registry st) ∧
  (∀ id, is_Some (connections (k_registry st) !! id) →
     ∃ k ip, k_socks st !! k ∈ [Some (ip, Registered id); Some (ip, Serving id)] ∧
       ∀ k' x, k_socks st !! k' = Some x → stage_id x.2 = Some id → k' = k) ∧
  (map_Forall (λ _ x, x.2 = Closed) (k_socks st) →
     counts (k_limiter st) = ∅ ∧ connections (k_registry st) = ∅ ∧ streams (k_registry st) = ∅ ∧
     connection_count (k_registry st) = 0%Z ∧ scalar (k_metrics st) connections_active = 0%Z).
Proof using Hmax Hpos.
  intros Hr. assert (sockets_inv st) as [Hsl Ho Hg].
  { revert Hr. apply reachable_invariant; eauto using sockets_inv_init, sockets_inv_step. }
  split_and!; [|done|apply Ho| |].
  - intros ip. rewrite (sl_count _ _ _ Hsl). split; [done|apply Hsl].
  - intros id Hid. destruct (ow_owner _ _ Ho id Hid) as (k & ip & s & Hk & Hs). exists k, ip. split.
    + rewrite Hk. destruct s; try done; cbn in Hs; injection Hs as ->; set_solver.
    + intros k' x Hk' Hx. by apply (ow_unique _ _ Ho k' k x (ip, s) id).
  - intros Hall. by apply closed_nothing_left.
Qed.
End Accounting.

(** ** [handle_socket] takes these steps *)

Section Simulation.
Context {Key Tx Ev HB HE : Type} `{!Mpsc string HB Tx} `{!Mpsc unit HE Ev}.
Context (serde_json rmp_serde : WireLib).
Context (jwt_decode : Z → string → Key → Validation → result Claims JwtErrorKind).
Implicit Types (l : ConnectionLimiter) (r : Registry Tx Ev) (m : Metrics) (w : World Tx Ev).
Implicit Types (ss : gmap nat (IpAddr * stage)) (se : SocketEnv (Key := Key)).
Abbreviation step := (sock_step (Tx := Tx) (Ev := Ev) (HB := HB) (HE := HE)).

(** A frame, and a whole session, change the shared state by subscriptions, unsubscriptions and
    metrics other than the gauge. *)
Lemma frame_steps ctx env data w l ss k ip :
  ss !! k = Some (ip, Serving (ctx_conn_id ctx)) →
  let w' := handle_client_frame serde_json ctx env data w in
  rtc step (mkSockets l (w_registry w) (w_metrics w) ss)
    (mkSockets l (w_registry w') (w_metrics w') ss).
Proof.
  intros Hk w'. pose proof (handle_frame_gauge serde_json ctx env data w) as Hg. fold w' in Hg.
  pose proof (handle_frame_registry serde_json ctx env data w) as Hr. cbv zeta in Hr. fold w' in Hr.
  eapply rtc_l; [by apply (sock_other_metric _ _ _ _ (w_metrics w'))|].
  destruct Hr as [-> |[(i & _ & _ & ->)|(i & ->)]]; [done|apply rtc_once..].
  - by eapply sock_subscribe.
  - by eapply sock_unsubscribe.
Qed.

Lemma session_steps ctx env evs w l ss k ip :
  ss !! k = Some (ip, Serving (ctx_conn_id ctx)) →
  let w' := (inbound_run serde_json ctx env evs w).2 in
  rtc step (mkSockets l (w_registry w) (w_metrics w) ss)
    (mkSockets l (w_registry w') (w_metrics w') ss).
Proof.
  intros Hk. revert w. induction evs as [|[data| | |e|ts ok|] evs IH]; intros w; cbn [inbound_run snd];
    try done.
  - etrans; [by eapply frame_steps|apply IH].
  - repeat case_match; try done; apply (IH (emit _ w)) || apply IH.
Qed.

Lemma loop_steps ctx env evs w l ss k ip :
  ss !! k = Some (ip, Serving (ctx_conn_id ctx)) →
  let w' := (inbound_loop serde_json ctx env evs w).2 in
  rtc step (mkSockets l (w_registry w) (w_metrics w) ss)
    (mkSockets l (w_registry w') (w_metrics w') ss).
Proof.
  intros Hk. pose proof (session_steps ctx env evs w l ss k ip Hk) as Hs. unfold inbound_loop.
  destruct (inbound_run _ _ _ evs w) as [[] w']; cbn [snd] in *; [|done].
  destruct (cleanup_frame ctx env w') as [-> ->]. done.
Qed.

(** The release at the end, in its two halves. *)
Lemma release_steps l r m ss k ip :
  ss !! k = Some (ip, Uncounted) →
  rtc step (mkSockets l r m ss) (mkSockets (release l ip) r m (<[k := (ip, Closed)]> ss)).
Proof.
  intros Hk. unfold release. destruct (release_dec l ip) as [rm l'] eqn:E.
  eapply rtc_l; [by apply (sock_release _ _ _ _ _ _ _ _ Hk E)|]. destruct rm; [|done].
  eapply rtc_l; [eapply sock_remove, lookup_insert_eq|]. by rewrite insert_insert_eq.
Qed.

Lemma serve_steps se codec b allowed user ip tx ev evs l r m ss k x nd' :
  channels_ok se = true → interval_ok se = true →
  ss !! k = Some (ip, Accepted) → map_Forall (λ _ x, stage_id x.2 ≠ Some (next_id r)) ss →
  serve serde_json se codec b allowed user ip tx ev evs (mkNode l r m) = (x, nd') → finished x →
  rtc step (mkSockets l r m ss)
    (mkSockets (nd_limiter nd') (nd_registry nd') (nd_metrics nd') (<[k := (ip, Closed)]> ss)).
Proof.
  intros Hch Hiv Hk Hnew. unfold serve. cbn [allocate_id nd_registry nd_metrics nd_limiter]. rewrite Hch, Hiv.
  set (cid := next_id r). set (ctx := mkCtx cid codec allowed user).
  set (r2 := register cid tx b ev _). set (m1 := gauge_inc connections_active _).
  pose proof (loop_steps ctx (se_env se) evs (send_encoded ctx Welcome (start_world r2 m1)) l
    (<[k := (ip, Serving cid)]> ss) k ip (lookup_insert_eq _ _ _)) as Hloop.
  cbv zeta in Hloop. rewrite send_encoded_registry, send_encoded_metrics in Hloop.
  destruct (inbound_loop _ _ _ _ _) as [[] w]; intros [= <- <-] []; cbn [snd start_world w_registry
    w_metrics nd_registry nd_metrics nd_limiter] in *.
  eapply rtc_l; [by apply (sock_register _ _ _ _ k ip cid _ tx b ev Hk eq_refl)|].
  eapply rtc_l; [by eapply sock_count, lookup_insert_eq|]. rewrite insert_insert_eq.
  etrans; [apply Hloop|].
  eapply rtc_l; [by eapply sock_leave, lookup_insert_eq|]. rewrite insert_insert_eq.
  eapply rtc_l; [by eapply sock_uncount, lookup_insert_eq|]. rewrite insert_insert_eq.
  etrans; [apply release_steps, lookup_insert_eq|]. by rewrite insert_insert_eq.
Qed.

(** C22. [handle_socket] is a path of the steps above: run alone to its end, whichever way the
    admission and the session go, it changes the limiter, the registry and the metrics by the
    steps of one socket from its arrival to its closing, in their order. *)
Theorem handle_socket_refines_steps se header token ip tx ev evs l r m ss k x nd' :
  channels_ok se = true → interval_ok se = true →
  ss !! k = None → map_Forall (λ _ x, stage_id x.2 ≠ Some (next_id r)) ss →
  handle_socket serde_json rmp_serde jwt_decode se (negotiate_protocol header) token ip tx ev evs
    (mkNode l r m) = (x, nd') → finished x →
  rtc step (mkSockets l r m ss)
    (mkSockets (nd_limiter nd') (nd_registry nd') (nd_metrics nd') (<[k := (ip, Closed)]> ss)).
Proof.
  intros Hch Hiv Hk Hnew. unfold handle_socket. cbn [nd_limiter nd_registry nd_metrics].
  destruct (try_acquire l ip) as [[] l1] eqn:Ea;
    [|intros [= <- <-] _; by apply rtc_once, sock_full].
  pose proof (authenticate_gauge jwt_decode se token m) as Hga.
  pose proof (authenticate_rejects jwt_decode se token m) as Hrej.
  destruct (authenticate jwt_decode se token m) as [[[allowed user]|reason] m1]; cbn [fst snd] in Hga, Hrej.
  - destruct (codec_for_protocol _ _ _) as [codec|]; [|by intros [= <- <-]].
    intros Hs Hfin. eapply rtc_l; [by apply (sock_accept _ _ _ _ k ip l1)|].
    eapply rtc_l; [by apply (sock_other_metric _ _ _ _ m1)|].
    pose proof (serve_steps se codec
      (bool_decide (negotiate_protocol header = SUB_PROTOCOL_MSGPACK)) allowed user ip tx ev evs l1 r m1
      (<[k := (ip, Accepted)]> ss) k x nd' Hch Hiv (lookup_insert_eq _ _ _)) as Hst.
    rewrite insert_insert_eq in Hst. eapply Hst; [|done|done].
    by apply map_Forall_insert_2.
  - intros [= <- <-] _. destruct Hrej as (m0 & -> & Hm0). cbn [nd_limiter nd_registry nd_metrics].
    eapply rtc_l; [by apply (sock_accept _ _ _ _ k ip l1)|].
    eapply rtc_l; [by apply (sock_other_metric _ _ _ _ m0)|].
    unfold release. destruct (release_dec l1 ip) as [rm l2] eqn:E.
    eapply rtc_l; [by apply (sock_reject _ _ _ _ _ _ _ _ (lookup_insert_eq _ _ _) E)|].
    rewrite insert_insert_eq. destruct rm; [|done].
    eapply rtc_l; [by eapply sock_remove, lookup_insert_eq|]. by rewrite insert_insert_eq.
Qed.
End Simulation.

(** ** Witnesses *)

(** Two sockets of one address under a limit of one, the first in its inbound loop and
    subscribed, the second refused. *)
Definition two_sockets : Sockets nat nat :=
  mkSockets (mkLimiter {[demo_ip := 1%Z]} 1)
    (subscribe 1 "room" (register 1 0%nat false 0%nat (allocate_id new_registry).2))
    (inc connections_rejected (gauge_inc connections_active (inc connections_total no_metrics)))
    (<[1%nat := (demo_ip, Closed)]> (<[0%nat := (demo_ip, Serving 1)]> ∅)).

(** The same after the first has left. *)
Definition two_closed : Sockets nat nat :=
  mkSockets (release_remove_if (mkLimiter {[demo_ip := 0%Z]} 1) demo_ip) (deregister 1 (k_registry two_sockets))
    (gauge_dec connections_active (k_metrics two_sockets))
    (<[0%nat := (demo_ip, Closed)]> (k_socks two_sockets)).

Abbreviation demo_step :=
  (sock_step (Tx := nat) (Ev := nat) (HB := gmap nat (BoundedQueue string))
     (HE := gmap nat (BoundedQueue unit))).

Lemma two_sockets_reachable : reachable (sockets_init 1) demo_step two_sockets.
Proof.
  set (lim := mkLimiter {[demo_ip := 1%Z]} 1).
  eapply reachable_step; [|apply (sock_full lim _ _ _ 1%nat demo_ip); [done|vm_compute; reflexivity]].
  eapply reachable_step; [|by apply (sock_subscribe _ _ _ _ 0%nat demo_ip 1)].
  rewrite <- (insert_insert_eq ∅ 0%nat (demo_ip, Serving 1) (demo_ip, Registered 1)).
  eapply reachable_step; [|by apply (sock_count _ _ _ _ 0%nat demo_ip 1)].
  rewrite <- (insert_insert_eq ∅ 0%nat (demo_ip, Registered 1) (demo_ip, Accepted)).
  eapply reachable_step; [|apply (sock_register _ new_registry _ _ 0%nat demo_ip 1);
    [done|done|by apply map_Forall_insert_2; [|apply map_Forall_empty]]].
  eapply reachable_step; [|apply (sock_accept (new_limiter 1) _ _ _ 0%nat demo_ip lim); reflexivity].
  by apply reachable_init.
Qed.

Lemma two_closed_reachable : reachable (sockets_init 1) demo_step two_closed.
Proof.
  unfold two_closed. set (ss := k_socks two_sockets).
  rewrite <- (insert_insert_eq ss 0%nat (demo_ip, Closed) (demo_ip, Removing)).
  eapply reachable_step; [|by apply (sock_remove _ _ _ _ 0%nat demo_ip)].
  rewrite <- (insert_insert_eq ss 0%nat (demo_ip, Removing) (demo_ip, Uncounted)).
  eapply reachable_step;
    [|by apply (sock_release (k_limiter two_sockets) _ _ _ 0%nat demo_ip true)].
  rewrite <- (insert_insert_eq ss 0%nat (demo_ip, Uncounted) (demo_ip, Leaving)).
  eapply reachable_step; [|by apply (sock_uncount _ _ _ _ 0%nat demo_ip)].
  eapply reachable_step; [apply two_sockets_reachable|by apply (sock_leave _ _ _ _ 0%nat demo_ip 1)].
Qed.

Lemma sockets_account_for_everything_witness :
  count_for (k_limiter two_sockets) demo_ip = Z.of_nat (holders demo_ip (k_socks two_sockets)) ∧
  counts (k_limiter two_closed) = ∅ ∧ connections (k_registry two_closed) = ∅.
Proof.
  split.
  - apply (sockets_account_for_everything 1); [by vm_compute|lia|apply two_sockets_reachable].
  - destruct (sockets_account_for_everything 1 ltac:(by vm_compute) ltac:(lia) two_closed)
      as (_ & _ & _ & _ & H); [apply two_closed_reachable|].
    destruct H as (? & ? & _); [apply map_Forall_to_list; by vm_compute; repeat constructor|done].
Defined.

(** A socket that subscribes and closes, beside one that is already there. *)
Lemma handle_socket_refines_steps_witness :
  ∃ st, rtc demo_step
    (mkSockets (nd_limiter demo_node) (nd_registry demo_node) (nd_metrics demo_node)
       {[0%nat := (demo_ip, Accepted)]}) st ∧
    k_socks st = <[1%nat := (demo_ip, Closed)]> {[0%nat := (demo_ip, Accepted)]}.
Proof.
  destruct (handle_socket sub_lib sub_lib demo_jwt_decode open_env (negotiate_protocol "") None
    demo_ip 1%nat 1%nat [InFrame "sub"; InClosed] demo_node) as [x nd'] eqn:E.
  exists (mkSockets (nd_limiter nd') (nd_registry nd') (nd_metrics nd')
    (<[1%nat := (demo_ip, Closed)]> {[0%nat := (demo_ip, Accepted)]})).
  split; [|reflexivity].
  - apply (handle_socket_refines_steps sub_lib sub_lib demo_jwt_decode open_env "" None demo_ip
      1%nat 1%nat [InFrame "sub"; InClosed] (nd_limiter demo_node) (nd_registry demo_node)
      (nd_metrics demo_node) {[0%nat := (demo_ip, Accepted)]} 1%nat x nd');
      [reflexivity..| |exact E|].
    + by apply map_Forall_singleton.
    + vm_compute in E. injection E as <- _. exact I.
Defined.
