(* ===== verification/Token.v ===== *)
(** * Tokens, from signing to admission

    The verifier is parametric in the JWT library; here the library is an interface with its
    documented behaviour (jsonwebtoken: a token decodes to the claims it was made of when its
    algorithm is allowed, its signature belongs to the key and it has not expired by more than
    the leeway, and each failure has its error).  Against it: which sockets are let in while
    the watcher rotates keys, and the tests of [src/auth/jwt.rs] that sign tokens. *)

From stdpp Require Import base list gmap strings sets.
From Stdlib Require Import ZArith Lia Ascii String.
From S2P Require Import Prelude Text Protocol Json Jwt Limiter Registry Metrics Config Handler HandlerSpec Socket.

Local Open Scope string_scope.
Local Open Scope list_scope.
Local Open Scope Z_scope.

(** ** The library *)

(** The algorithms the tests sign with. *)
Inductive SigningAlgorithm : Type := SignRS256 | SignHS256.

(** [jsonwebtoken::encode] and [decode], and whether a signing key belongs to a public one. *)
Class JwtLib (Key EncodingKey : Type) : Type := {
  jwt_encode : SigningAlgorithm → Claims → EncodingKey → string;
  jwt_decode : Z → string → Key → Validation → result Claims JwtErrorKind;
  pairs : EncodingKey → Key → bool;
}.

(** The default leeway of a [Validation], in seconds. *)
Definition LEEWAY : Z := 60.

(** Timestamps are [usize]. *)
Definition claims_ok (c : Claims) : Prop := is_u64 (exp c) ∧ is_u64 (iat c).

(** The registered claims a [Claims] token carries: a validation that requires others (such as
    [aud], [iss] or [nbf]) would refuse it. *)
Definition carried_claims : list string := ["exp"; "sub"; "iat"].

(** What the library says of a token of known origin. *)
Definition token_check (now : Z) (alg : SigningAlgorithm) (c : Claims) (paired : bool) :
    result Claims JwtErrorKind :=
  match alg with
  | SignHS256 => Err InvalidAlgorithm
  | SignRS256 =>
      if paired then if exp c <? now - LEEWAY then Err ExpiredSignature else Ok c
      else Err InvalidSignature
  end.

(** [s] with its last character, if any, replaced. *)
Fixpoint replace_last (f : ascii → ascii) (s : string) : string :=
  match s with
  | EmptyString => EmptyString
  | String a EmptyString => String (f a) EmptyString
  | String a s' => String a (replace_last f s')
  end.

Class JwtLaws (Key EncodingKey : Type) `{!JwtLib Key EncodingKey} : Prop := {
  encode_nonempty alg c k : jwt_encode alg c k ≠ "";
  decode_encode now alg c k pub claims :
    claims_ok c → claims ⊆ carried_claims →
    jwt_decode now (jwt_encode alg c k) pub (mkValidation RS256 claims) =
    token_check now alg c (pairs k pub);
  (** A signature with another last character is not one. *)
  decode_tampered now c k pub v f :
    (∀ a, f a ≠ a) → is_ok (jwt_decode now (replace_last f (jwt_encode SignRS256 c k)) pub v) = false;
}.

(** ** Admission while keys rotate *)

Section Admission.
Context {Key EncodingKey Tx Ev : Type} `{JwtLaws Key EncodingKey}.
Context (serde_json rmp_serde : WireLib) (parse_pem : string → result Key string).
Implicit Types (nd : Node Tx Ev) (se : SocketEnv (Key := Key)).

(** The verifier of the key watcher, on a token of known origin. *)
Lemma verify_issued ks v before after now c k :
  load_and_watch_from_nats parse_pem ks = Ok (v, before ++ after) → claims_ok c →
  ∃ bytes pub, ks_get ks = Ok (Some bytes) ∧
    parse_pem (last_valid_pem parse_pem bytes before) = Ok pub ∧
    verify jwt_decode now (watch_loop parse_pem before v) (jwt_encode SignRS256 c k) =
    map_err (λ e, Auth (auth_reason e)) (token_check now SignRS256 c (pairs k pub)).
Proof using Type*.
  intros Hl Hc.
  assert (load_and_watch_from_nats parse_pem
    (mkKeyStore (ks_connect ks) (ks_bucket ks) (ks_get ks) (Ok before)) = Ok (v, before)) as Hl'.
  { revert Hl. unfold load_and_watch_from_nats. cbn [ks_connect ks_bucket ks_get ks_watch].
    repeat (case_match; simplify_eq/=; try done). by intros [= -> _]. }
  destruct (loaded_verifier parse_pem jwt_decode _ _ _ Hl') as (bytes & pub & Hg & Hcur & Hp & Hv).
  exists bytes, pub. split_and!; [done|congruence|]. by rewrite Hv, decode_encode.
Qed.

(** C24. Which tokens open a socket while the watcher rotates keys: at any point of the watch, a
    socket that comes with a token signed by some key is served, with that token's streams and
    subject, exactly when the key is the one of the last valid entry and the token has not
    expired by more than the library's leeway of 60 seconds; otherwise it is closed with code 3000 and the reason, and
    the registry is as it was. *)
Theorem rotation_decides_admission ks v before after se c k header ip tx ev evs nd lim1 :
  load_and_watch_from_nats parse_pem ks = Ok (v, before ++ after) →
  se_verifier se = Some (watch_loop parse_pem before v) → claims_ok c →
  try_acquire (nd_limiter nd) ip = (true, lim1) →
  let token := jwt_encode SignRS256 c k in
  let '(x, nd') := handle_socket serde_json rmp_serde jwt_decode se (negotiate_protocol header)
                     (Some token) ip tx ev evs nd in
  ∃ bytes pub, ks_get ks = Ok (Some bytes) ∧
    parse_pem (last_valid_pem parse_pem bytes before) = Ok pub ∧
    if pairs k pub && (se_now se - LEEWAY <=? exp c) then
      ∃ codec, codec_for_protocol serde_json rmp_serde (negotiate_protocol header) = Some codec ∧
        (x, nd') = serve serde_json se codec
          (bool_decide (negotiate_protocol header = SUB_PROTOCOL_MSGPACK)) (allowed_streams c)
          (Some (sub c)) ip tx ev evs
          (mkNode lim1 (nd_registry nd) (observe auth_duration_secs (nd_metrics nd)))
    else x = Rejected WS_CLOSE_AUTH_FAILED (if pairs k pub then "token expired" else "invalid signature") ∧
         nd_registry nd' = nd_registry nd.
Proof using Type*.
  intros Hl Hse Hc Ha token.
  destruct (verify_issued ks v before after (se_now se) c k Hl Hc) as (bytes & pub & Hg & Hp & Hv).
  unfold handle_socket, authenticate. rewrite Ha, Hse. unfold token.
  destruct (decide (jwt_encode SignRS256 c k = "")) as [E|_]; [by apply encode_nonempty in E|].
  rewrite Hv. unfold token_check.
  assert ((exp c <? se_now se - LEEWAY) = negb (se_now se - LEEWAY <=? exp c)) as ->
    by apply Z.ltb_antisym.
  destruct (pairs k pub) eqn:Hpair; [destruct (se_now se - LEEWAY <=? exp c)|]; cbn [negb map_err].
  - assert (is_Some (codec_for_protocol serde_json rmp_serde (negotiate_protocol header)))
      as [codec Hcodec] by apply negotiated_codec.
    rewrite Hcodec. destruct (serve _ _ _ _ _ _ _ _ _ _ _) as [x nd'] eqn:Hs.
    exists bytes, pub. rewrite Hpair. split_and!; [done|done|]. cbn [andb]. exists codec. by rewrite <- Hs.
  - exists bytes, pub. rewrite Hpair. split_and!; [done|done|]. cbn [andb]. split; [|done].
    by rewrite remove_auth_prefix by (unfold auth_reasons; set_solver).
  - exists bytes, pub. rewrite Hpair. split_and!; [done|done|]. cbn [andb]. split; [|done].
    by rewrite remove_auth_prefix by (unfold auth_reasons; set_solver).
Qed.
End Admission.

(** ** An instance *)

Module Plain.

(** The claims in clear, with the key's name and a mark in place of the signature. *)
Definition body (alg : SigningAlgorithm) (c : Claims) (k : string) : value :=
  VArr [VBool (match alg with SignRS256 => true | SignHS256 => false end); VStr k; VStr (sub c);
        VArr (map VStr (allowed_streams c)); VNum (NPos (exp c)); VNum (NPos (iat c))].

Definition plain_encode (alg : SigningAlgorithm) (c : Claims) (k : string) : string :=
  print_value (body alg c k) +:+ "S".

Definition read_claims (v : value) : option (SigningAlgorithm * Claims * string) :=
  match v with
  | VArr [VBool rs; VStr k; VStr s; VArr streams; VNum (NPos e); VNum (NPos i)] =>
      match as_strings streams with
      | Some l => Some (if rs then SignRS256 else SignHS256, mkClaims s l e i, k)
      | None => None
      end
  | _ => None
  end.

Definition plain_decode (now : Z) (token k : string) (_ : Validation) : result Claims JwtErrorKind :=
  match strip_suffix_char "S"%char token with
  | None => Err InvalidSignature
  | Some text =>
      match wire_parse json_lib text with
      | Err _ => Err OtherKind
      | Ok v => match read_claims v with
                | Some (alg, c, k') => token_check now alg c (bool_decide (k' = k))
                | None => Err OtherKind
                end
      end
  end.

#[global] Instance plain_lib : JwtLib string string :=
  { jwt_encode := plain_encode; jwt_decode := plain_decode; pairs k k' := bool_decide (k = k') }.

Lemma plain_nonempty (s : string) a : s +:+ String a "" ≠ "".
Proof. by destruct s. Qed.

Lemma replace_last_snoc f s a : replace_last f (s +:+ String a "") = s +:+ String (f a) "".
Proof.
  induction s as [|b s IH]; [done|]. change (String b s +:+ ?t) with (String b (s +:+ t)).
  cbn [replace_last]. destruct (s +:+ String a "") eqn:E; [by apply plain_nonempty in E|]. by rewrite IH.
Qed.

Lemma snoc_inj s s' a a' : s +:+ String a "" = s' +:+ String a' "" → a = a'.
Proof.
  revert s'. induction s as [|b s IH]; intros [|b' s'] E;
    change (String ?x ?y +:+ ?z) with (String x (y +:+ z)) in E; cbn in E; simplify_eq; try done.
  - by destruct s'.
  - by destruct s.
  - by eapply IH.
Qed.

Lemma read_body alg c k : read_claims (body alg c k) = Some (alg, c, k).
Proof. destruct c as [s l e i], alg; cbn; by rewrite as_strings_map. Qed.

Lemma printable_body alg c k : claims_ok c → printable (body alg c k) = true.
Proof.
  intros [[He1 He2] [Hi1 Hi2]]. cbn [body printable forallb number_fits].
  assert (forallb printable (map VStr (allowed_streams c)) = true) as -> by (by induction (allowed_streams c)).
  rewrite !andb_true_iff, !Z.leb_le, !Z.ltb_lt. unfold u64_modulus in *. lia.
Qed.

#[global] Instance plain_laws : JwtLaws string string.
Proof.
  split.
  - intros alg c k. apply plain_nonempty.
  - intros now alg c k pub claims Hc _. cbn [jwt_decode jwt_encode pairs plain_lib]. unfold plain_decode, plain_encode.
    rewrite (proj2 (strip_suffix_char_Some _ _ (print_value (body alg c k)))) by done.
    rewrite (wire_roundtrip (body alg c k)).
    + by rewrite read_body.
    + cbn. by rewrite float_free_strings.
    + unfold WIRE_DEPTH. cbn. rewrite depth_strings. lia.
    + cbn [wire_print json_lib]. by rewrite printable_body.
  - intros now c k pub v f Hf. cbn [jwt_decode jwt_encode plain_lib]. unfold plain_decode, plain_encode.
    rewrite replace_last_snoc. destruct (strip_suffix_char "S" _) as [r|] eqn:E; [|done].
    apply strip_suffix_char_Some, snoc_inj in E. by apply Hf in E.
Qed.
End Plain.

(** ** The tests of [src/auth/jwt.rs] that sign tokens *)

Module JwtTests.
Section Tests.
Context {Key EncodingKey : Type} `{JwtLaws Key EncodingKey}.
(** The key pair of the tests, and the secret of the HMAC one. *)
Context (parse_pem : string → result Key string) (encoding_key : string → result EncodingKey string).
Context (TEST_RSA_PRIVATE_KEY TEST_RSA_PUBLIC_KEY : string) (hs256_key : EncodingKey).
Context (private_key : EncodingKey) (public_key : Key).
Context (Hprivate : encoding_key TEST_RSA_PRIVATE_KEY = Ok private_key).
Context (Hpublic : parse_pem TEST_RSA_PUBLIC_KEY = Ok public_key).
Context (Hpair : pairs private_key public_key = true).
(** The clock, far enough from both ends of its range. *)
Context (now : Z) (Hnow : 3600 <= now < 2 ^ 63).

(** [make_claims] *)
Definition make_claims (sub : string) (streams : list string) (exp_offset_secs : Z) : Claims :=
  mkClaims sub streams (now + exp_offset_secs) now.

(** [encode_rs256] *)
Definition encode_rs256 (c : Claims) : option string :=
  jwt_encode SignRS256 c <$> ok_option (encoding_key TEST_RSA_PRIVATE_KEY).

(** [test_verifier] *)
Definition test_verifier : option (JwtVerifier Key) := ok_option (from_rsa_pem parse_pem TEST_RSA_PUBLIC_KEY).

Definition valid_token_accepted : Prop :=
  ∃ verifier token decoded, test_verifier = Some verifier ∧
    encode_rs256 (make_claims "user_42" ["chat_room_*"] 3600) = Some token ∧
    verify jwt_decode now verifier token = Ok decoded ∧
    sub decoded = "user_42" ∧ allowed_streams decoded = ["chat_room_*"].

Definition expired_token_rejected : Prop :=
  ∃ verifier token err, test_verifier = Some verifier ∧
    encode_rs256 (make_claims "user_42" ["*"] (-3600)) = Some token ∧
    verify jwt_decode now verifier token = Err err ∧
    gateway_error_to_string err = "auth failed: token expired".

Definition wrong_algorithm_rejected : Prop :=
  ∃ verifier err, test_verifier = Some verifier ∧
    verify jwt_decode now verifier (jwt_encode SignHS256 (make_claims "user_42" ["*"] 3600) hs256_key) = Err err ∧
    gateway_error_to_string err = "auth failed: invalid algorithm".

Definition tampered_signature_rejected : Prop :=
  ∃ verifier token err, test_verifier = Some verifier ∧
    encode_rs256 (make_claims "user_42" ["*"] 3600) = Some token ∧
    verify jwt_decode now verifier
      (replace_last (λ last, if decide (last = "A"%char) then "B"%char else "A"%char) token) = Err err.

(** The key is replaced by one with the same text. *)
Definition key_update_changes_verification : Prop :=
  ∃ verifier token verifier', test_verifier = Some verifier ∧
    encode_rs256 (make_claims "user_42" ["*"] 3600) = Some token ∧
    is_ok (verify jwt_decode now verifier token) = true ∧
    update_key parse_pem TEST_RSA_PUBLIC_KEY verifier = (Ok (), verifier') ∧
    is_ok (verify jwt_decode now verifier' token) = true.

Lemma make_claims_ok s l off : -3600 <= off <= 3600 → claims_ok (make_claims s l off).
Proof using Hnow. intros. unfold claims_ok, is_u64, u64_modulus; cbn. lia. Qed.

Lemma test_verifier_key :
  ∃ v, test_verifier = Some v ∧ key v = mkLock public_key false ∧
       validation v = mkValidation RS256 ["exp"; "sub"; "iat"] ∧ poisoned (pem v) = false.
Proof using Hpublic. unfold test_verifier, from_rsa_pem. rewrite Hpublic. by eexists. Qed.

Lemma jwt_tests_hold :
  valid_token_accepted ∧ expired_token_rejected ∧ wrong_algorithm_rejected ∧
  tampered_signature_rejected ∧ key_update_changes_verification.
Proof using Type*.
  destruct test_verifier_key as (v & Hv & Hk & Hval & Hpem).
  assert (∀ c, encode_rs256 c = Some (jwt_encode SignRS256 c private_key)) as Henc
    by (intros c; unfold encode_rs256; by rewrite Hprivate).
  assert (∀ alg c k, claims_ok c → verify jwt_decode now v (jwt_encode alg c k) =
    map_err (λ e, Auth (auth_reason e)) (token_check now alg c (pairs k public_key))) as Hver.
  { intros alg c k Hc. unfold verify. rewrite Hk, Hval. cbn [poisoned cell]. by rewrite decode_encode. }
  assert (∀ s l, verify jwt_decode now v (jwt_encode SignRS256 (make_claims s l 3600) private_key) =
    Ok (make_claims s l 3600)) as Hfresh.
  { intros s l. rewrite Hver by (apply make_claims_ok; lia). unfold token_check. rewrite Hpair. cbn [exp make_claims].
    destruct (Z.ltb_spec (now + 3600) (now - LEEWAY)); [unfold LEEWAY in *; lia|done]. }
  split_and!.
  - by eexists v, _, _.
  - eexists v, _, _. split_and!; [done|done| |].
    + rewrite Hver by (apply make_claims_ok; lia). unfold token_check. rewrite Hpair. cbn [exp make_claims].
      destruct (Z.ltb_spec (now + -3600) (now - LEEWAY)); [reflexivity|unfold LEEWAY in *; lia].
    + done.
  - eexists v, _. split_and!; [done| |]; [rewrite Hver by (apply make_claims_ok; lia); reflexivity|done].
  - pose proof (decode_tampered now (make_claims "user_42" ["*"] 3600) private_key public_key
      (mkValidation RS256 ["exp"; "sub"; "iat"])
      (λ last, if decide (last = "A"%char) then "B"%char else "A"%char)) as Ht.
    destruct (jwt_decode now _ public_key _) as [|e] eqn:E in Ht.
    { exfalso. assert (true = false) by (apply Ht; intros x; case_decide; congruence). done. }
    eexists v, _, _. split_and!; [done|done|]. unfold verify. rewrite Hk, Hval. cbn [poisoned cell].
    rewrite E. reflexivity.
  - exists v. eexists _, (mkVerifier (mkLock public_key false) (mkLock TEST_RSA_PUBLIC_KEY false) (validation v)).
    split_and!; [done|done|by rewrite Hfresh| |].
    + unfold update_key. by rewrite Hpublic, Hk, Hpem.
    + unfold verify in *. rewrite Hk in Hfresh. cbn in *. by rewrite Hfresh.
Qed.
End Tests.
End JwtTests.

(** ** Witnesses *)

Definition old_claims : Claims := mkClaims "user_42" ["chat_*"] 100 0.

Definition rotating_store : KeyStore :=
  mkKeyStore (Ok ()) (Ok ()) (Ok (Some "k1")) (Ok [Ok "k2"; Ok "garbage"; Ok "k3"]).

Definition first_verifier : JwtVerifier string :=
  mkVerifier (mkLock "k1" false) (mkLock "k1" false) (mkValidation RS256 ["exp"; "sub"; "iat"]).

(** A token of the first key, after the second has arrived and an unusable entry. *)
Lemma rotation_decides_admission_witness :
  (handle_socket sub_lib sub_lib (jwt_decode (JwtLib := Plain.plain_lib))
     (closed_env (watch_loop demo_parse_pem [Ok "k2"; Ok "garbage"] first_verifier))
     (negotiate_protocol "") (Some (Plain.plain_encode SignRS256 old_claims "k1")) demo_ip 1%nat 1%nat
     [InClosed] demo_node).1
  = Rejected WS_CLOSE_AUTH_FAILED "invalid signature".
Proof.
  pose proof (rotation_decides_admission (Key := string) (EncodingKey := string) sub_lib sub_lib
    demo_parse_pem rotating_store first_verifier [Ok "k2"; Ok "garbage"] [Ok "k3"]
    (closed_env (watch_loop demo_parse_pem [Ok "k2"; Ok "garbage"] first_verifier))
    old_claims "k1" "" demo_ip 1%nat 1%nat [InClosed] demo_node (try_acquire (nd_limiter demo_node) demo_ip).2
    eq_refl eq_refl ltac:(unfold claims_ok, is_u64, u64_modulus; cbn; lia) ltac:(vm_compute; reflexivity)) as Hw.
  change (jwt_encode SignRS256 old_claims "k1") with (Plain.plain_encode SignRS256 old_claims "k1") in Hw.
  destruct Hw as (bytes & pub & Hg & Hp & Hx). injection Hg as <-. vm_compute in Hp. injection Hp as <-.
  destruct Hx as [Hx _]. etrans; [|exact Hx]. vm_compute. reflexivity.
Defined.

(** A token stays good for the leeway after its [exp]; [docs/jwt-authentication.md] has one
    whose [exp] is in the past closed as expired. *)
Example expired_within_leeway_accepted :
  verify (jwt_decode (JwtLib := Plain.plain_lib)) 150 first_verifier
    (Plain.plain_encode SignRS256 old_claims "k1") = Ok old_claims.
Proof. by vm_compute. Qed.

(** The tests hold of a library. *)
Lemma jwt_tests_hold_plain :
  JwtTests.valid_token_accepted (Key := string) (EncodingKey := string) demo_parse_pem Ok "k" "k" 1000000.
Proof. by apply (JwtTests.jwt_tests_hold demo_parse_pem Ok "k" "k" "secret" "k" "k" eq_refl eq_refl). Qed.
