(* ===== verification/Upgrade.v ===== *)
(** * The WebSocket upgrade ([ws_upgrade] of [src/connection/handler.rs])

    The HTTP side of a connection: which sub-protocol the handshake response announces, and
    which one the socket is run with.  The header type and the upgrade response are axum's:
    a class with the documented laws, and an instance. *)

From stdpp Require Import base list gmap strings fin_maps.
From Stdlib Require Import ZArith Lia Ascii String.
From S2P Require Import Prelude Text Config Limiter Protocol Jwt Registry RegistrySpec Metrics Handler HandlerSpec Socket.

Local Open Scope string_scope.
Local Open Scope list_scope.

(** [WsQueryParams] *)
Record WsQueryParams : Type := mkWsQueryParams { token : option string }.

(** [HeaderValue::to_str], and [WebSocketUpgrade::protocols] as the sub-protocol of the
    response, from the request's header and the protocols the server knows. *)
Class AxumWs : Type := {
  header_to_str : string → option string;
  response_protocol : option string → list string → option string;
}.

(** The items of a request header. *)
Definition offers `{AxumWs} (header : option string) (p : string) : Prop :=
  ∃ bytes s, header = Some bytes ∧ header_to_str bytes = Some s ∧
             p ∈ trim <$> split ","%char s.

(** The response names a known protocol that the request has; it names none only when there
    is no such protocol. *)
Class AxumWsLaws `{AxumWs} : Prop := {
  response_sound header known p :
    response_protocol header known = Some p → p ∈ known ∧ offers header p;
  response_complete header known p :
    p ∈ known → offers header p → is_Some (response_protocol header known);
  response_no_known header : response_protocol header [] = None;
}.

Section Upgrade.
Context `{AxumWs}.
Context {Key Tx Ev : Type}.
Context (serde_json rmp_serde : WireLib).
Context (jwt_decode : Z → string → Key → Validation → result Claims JwtErrorKind).

(** The protocol the socket is run with, and the known protocols handed to the upgrade. *)
Definition choose_protocol (sec_websocket_protocol : option string) : string * list string :=
  match (match sec_websocket_protocol with Some v => header_to_str v | None => None end) with
  | Some val => let chosen := negotiate_protocol val in (chosen, [chosen])
  | None => (SUB_PROTOCOL_JSON, [])
  end.

(** [ws_upgrade]: the sub-protocol of the response, and the socket it goes on to serve. *)
Definition ws_upgrade (se : SocketEnv) (sec_websocket_protocol : option string)
    (params : WsQueryParams) (ip : IpAddr) (live_tx : Tx) (evict_tx : Ev)
    (evs : list inbound_event) (nd : Node Tx Ev)
    : option string * (socket_exit * Node Tx Ev) :=
  let '(protocol, known) := choose_protocol sec_websocket_protocol in
  (response_protocol sec_websocket_protocol known,
   handle_socket serde_json rmp_serde jwt_decode se protocol (token params) ip live_tx evict_tx
     evs nd).
End Upgrade.

(** ** Properties *)

Section Properties.
Context `{AxumWsLaws}.
Context {Key Tx Ev : Type}.
Context (serde_json rmp_serde : WireLib).
Context (jwt_decode : Z → string → Key → Validation → result Claims JwtErrorKind).

(** C38. The handshake and the socket agree on the sub-protocol: a response that names one
    names a protocol the client offered, and the socket uses exactly that one's codec; a
    response names none only for a client that offered neither of the two protocols, and
    its socket speaks JSON.  With workable channel capacities and a ping
    interval, no upgrade ends in a panic. *)
Theorem upgrade_announces_the_codec (se : SocketEnv) header params ip (tx : Tx) (ev : Ev) evs nd :
  channels_ok se = true → interval_ok se = true →
  let '(announced, (x, nd')) :=
    ws_upgrade serde_json rmp_serde jwt_decode se header params ip tx ev evs nd in
  x ≠ Panicked ∧
  ∃ protocol, is_Some (codec_for_protocol serde_json rmp_serde protocol) ∧
    (x, nd') = handle_socket serde_json rmp_serde jwt_decode se protocol (token params) ip tx ev
                 evs nd ∧
    match announced with
    | Some p => p = protocol ∧ offers header p
    | None => protocol = SUB_PROTOCOL_JSON ∧
              ¬ offers header SUB_PROTOCOL_JSON ∧ ¬ offers header SUB_PROTOCOL_MSGPACK
    end.
Proof using Type*.
  intros Hch Hiv. unfold ws_upgrade. destruct (choose_protocol header) as [protocol known] eqn:Hcp.
  assert (is_Some (codec_for_protocol serde_json rmp_serde protocol)) as Hcodec.
  { unfold choose_protocol in Hcp. case_match; simplify_eq; [|by vm_compute; eauto].
    unfold negotiate_protocol. destruct (first_supported_cases (split "," s)) as [-> | ->];
      by vm_compute; eauto. }
  destruct (handle_socket _ _ _ se protocol _ _ _ _ _ _) as [x nd'] eqn:Hs.
  split.
  { intros ->. destruct Hcodec as [c Hc]. revert Hs. unfold handle_socket. rewrite Hc.
    repeat case_match; intros; simplify_eq; unfold serve in *; rewrite Hch, Hiv in *;
      repeat case_match; simplify_eq. }
  exists protocol. split; [done|]. split; [done|].
  destruct (response_protocol header known) as [p|] eqn:Hr.
  - destruct (response_sound _ _ _ Hr) as [Hk Ho]. split; [|done].
    unfold choose_protocol in Hcp. case_match; simplify_eq; [set_solver|].
    by apply not_elem_of_nil in Hk.
  - assert (∀ p, p ∈ known → ¬ offers header p) as Hnone.
    { intros p Hk Ho. destruct (response_complete _ _ _ Hk Ho) as [? ?]. congruence. }
    unfold choose_protocol in Hcp. destruct header as [bytes|]; cbn in Hcp.
    2: { simplify_eq. split; [done|]. split; intros (? & ? & ? & _); done. }
    destruct (header_to_str bytes) as [val|] eqn:Hstr; simplify_eq.
    2: { split; [done|]. split; intros (b & s & [= <-] & Hb & _); congruence. }
    assert (∀ p, offers (Some bytes) p → ∃ item, item ∈ split "," val ∧ trim item = p) as Hoff.
    { intros p (b & s & [= <-] & Hb & Hin). simplify_eq.
      apply list_elem_of_fmap in Hin as (item & -> & ?). eauto. }
    unfold negotiate_protocol in *.
    destruct (first_supported_spec (split "," val)) as [(bf & it & af & Heq & Hit & _)|[Hj Hno]].
    + exfalso. apply (Hnone (first_supported (split "," val))); [by left|].
      exists bytes, val. split_and!; [done..|]. rewrite <- Hit. apply list_elem_of_fmap_2.
      rewrite Heq. set_solver.
    + split; [done|]. split; intros (item & Hin & Htrim)%Hoff; by destruct (Hno item Hin).
Qed.
End Properties.

(** ** Instance and example *)

(** Headers of printable characters; the first known protocol the request has. *)
Definition plain_to_str (b : string) : option string :=
  if forallb (λ a, (32 <=? nat_of_ascii a)%nat && (nat_of_ascii a <? 127)%nat)
       (list_ascii_of_string b) then Some b else None.

#[export] Instance plain_axum : AxumWs := {
  header_to_str := plain_to_str;
  response_protocol header known :=
    match header with
    | Some b => match plain_to_str b with
                | Some s => head (filter (λ p, p ∈ trim <$> split ","%char s) known)
                | None => None
                end
    | None => None
    end;
}.

#[export] Instance plain_axum_laws : AxumWsLaws.
Proof.
  split; cbn -[plain_to_str].
  - intros [b|] known p; [|done]. destruct (plain_to_str b) as [s|] eqn:E; [|done]. intros Hh.
    destruct (filter _ known) as [|x l] eqn:Ef; simplify_eq/=.
    assert (p ∈ p :: l) as Hin by left. rewrite <- Ef in Hin.
    apply list_elem_of_filter in Hin as [Hp Hk]. split; [done|]. by exists b, s.
  - intros header known p Hk (b & s & -> & Hs & Hp). cbn -[plain_to_str] in Hs. rewrite Hs.
    destruct (filter _ known) as [|x l] eqn:Ef; [|by eauto].
    exfalso. apply (not_elem_of_nil p). rewrite <- Ef. by apply list_elem_of_filter.
  - intros [b|]; [|done]. by case_match.
Qed.

(** A client that lists an unknown protocol first gets the known one. *)
Lemma upgrade_announces_the_codec_witness :
  (ws_upgrade sub_lib sub_lib demo_jwt_decode open_env
     (Some "graphql-ws, turbocable-v1-msgpack") (mkWsQueryParams None) demo_ip 1 1 [] demo_node).2.1
  ≠ Panicked.
Proof.
  pose proof (upgrade_announces_the_codec sub_lib sub_lib demo_jwt_decode open_env
    (Some "graphql-ws, turbocable-v1-msgpack") (mkWsQueryParams None) demo_ip 1 1 [] demo_node
    eq_refl eq_refl) as H.
  destruct (ws_upgrade _ _ _ _ _ _ _ _ _ _ _) as [announced [x nd']].
  exact (proj1 H).
Defined.
