(* ===== verification/Server.v ===== *)
(** * Startup, endpoints and shutdown ([src/server.rs])

    The decisions of the startup path (which optional components run), the JSON and PEM
    endpoints, and the shutdown sequence with its drain loop.  Sockets, the HTTP router and
    the file system are outside; their answers are arguments. *)

From stdpp Require Import base list gmap strings fin_maps.
From Stdlib Require Import ZArith Lia Ascii.
From S2P Require Import Prelude Channels Text Config Limiter Protocol Jwt Float RateLimit Registry Metrics Nats Consumer Presence.

Local Open Scope string_scope.
Local Open Scope list_scope.
Local Open Scope Z_scope.

Definition DRAIN_TIMEOUT_SECS : Z := 30.
(** [DRAIN_POLL_INTERVAL], in milliseconds. *)
Definition DRAIN_POLL_INTERVAL : Z := 100.

(** ** Startup *)

(** [build_rate_limiter] *)
Definition build_rate_limiter (cfg : Config) : option StreamRateLimiter :=
  let rl := new_rate_limiter (stream_rate_limit_rps cfg) (stream_rate_limit_burst cfg)
              (parse_stream_rate_overrides cfg) in
  if is_disabled rl then None else Some rl.

(** A startup step either goes on, ends the process or panics. *)
Inductive startup (A : Type) : Type :=
| Started (a : A)
| ExitProcess (code : Z)
| PanicProcess.
Arguments Started {A} a.
Arguments ExitProcess {A} code.
Arguments PanicProcess {A}.

(** [init_jwt_verifier]: the verifier and the key events its watcher will handle, if one was
    started; [read_file] and [ks] answer for the file system and the key store. *)
Definition init_jwt_verifier {Key} (parse_pem : string → result Key string)
    (read_file : string → result string string) (ks : KeyStore) (cfg : Config)
    : startup (option (JwtVerifier Key * list (result string string))) :=
  match jwt_public_key_path cfg with
  | Some path =>
      match read_file path with
      | Err _ => ExitProcess 1
      | Ok bytes =>
          match from_rsa_pem parse_pem bytes with
          | Err _ => ExitProcess 1
          | Ok v =>
              Started (Some (v, match start_nats_key_watcher ks with
                                | Ok events => events
                                | Err _ => []
                                end))
          end
      end
  | None =>
      match load_and_watch_from_nats parse_pem ks with
      | Ok p => Started (Some p)
      | Err _ => Started None
      end
  end.

(** [NatsConsumer::connect]: the configuration of the stream it makes sure exists. *)
Record StreamConfig : Type := mkStreamConfig {
  sc_name : string;
  sc_subjects : list string;
  sc_max_age : Z;
  sc_num_replicas : nat;
}.

Definition nats_connect (connect_result : result unit string)
    (get_or_create_stream : StreamConfig → result unit string) (num_replicas : nat)
    : result StreamConfig GatewayError :=
  let cfg := mkStreamConfig STREAM_NAME [SUBJECT_PREFIX +:+ ">"] (7 * 24 * 60 * 60) num_replicas in
  (let? _ := map_err (λ e, JetStream ("NATS connect failed: " +:+ e)) connect_result in
   let? _ := map_err (λ e, JetStream ("stream create/get failed: " +:+ e))
               (get_or_create_stream cfg) in
   Ok cfg)%gw.

(** The fan-out loop [start_fanout_loop] spawns, by its arguments. *)
Record FanoutTask : Type := mkFanoutTask {
  ft_node_id : string;
  ft_max_ack_pending : Z;
  ft_limiter : option StreamRateLimiter;
}.

(** [init_nats_consumer]: the spawned loop, or nothing when NATS is not there. *)
Definition init_nats_consumer (cfg : Config) (r : result StreamConfig GatewayError)
    (rate_limiter : option StreamRateLimiter) : option FanoutTask :=
  match r with
  | Ok _ => Some (mkFanoutTask (node_id cfg) (max_ack_pending cfg) rate_limiter)
  | Err _ => None
  end.

(** [init_presence]: whether presence is tracked. *)
Definition init_presence (ps : PresenceServer) : bool :=
  match presence_connect ps with Ok _ => true | Err _ => false end.

(** The [AppState] that [run] builds. *)
Record AppState (Key Tx Ev : Type) : Type := mkAppState {
  st_registry : Registry Tx Ev;
  st_limiter : ConnectionLimiter;
  st_ping_interval_secs : Z;
  st_jwt_verifier : option (JwtVerifier Key);
  st_nats_consumer : option FanoutTask;
  st_presence : bool;
  st_ws_channel_capacity : nat;
  st_ws_replay_channel_capacity : nat;
  st_replay_enforcement : ReplayEnforcement;
  st_replay_permits : nat;
}.
Arguments mkAppState {Key Tx Ev}.
Arguments st_registry {Key Tx Ev}.
Arguments st_limiter {Key Tx Ev}.
Arguments st_ping_interval_secs {Key Tx Ev}.
Arguments st_jwt_verifier {Key Tx Ev}.
Arguments st_nats_consumer {Key Tx Ev}.
Arguments st_presence {Key Tx Ev}.
Arguments st_ws_channel_capacity {Key Tx Ev}.
Arguments st_ws_replay_channel_capacity {Key Tx Ev}.
Arguments st_replay_enforcement {Key Tx Ev}.
Arguments st_replay_permits {Key Tx Ev}.

(** The start of [run], up to binding the listener. *)
Definition run_startup {Key Tx Ev} (parse_pem : string → result Key string)
    (read_file : string → result string string) (ks : KeyStore)
    (connect_result : result unit string)
    (get_or_create_stream : StreamConfig → result unit string) (ps : PresenceServer)
    (cfg : Config) : startup (AppState Key Tx Ev) :=
  match init_jwt_verifier parse_pem read_file ks cfg with
  | ExitProcess code => ExitProcess code
  | PanicProcess => PanicProcess
  | Started verifier =>
      let rate_limiter := build_rate_limiter cfg in
      let nats := nats_connect connect_result get_or_create_stream (nats_stream_replicas cfg) in
      if semaphore_fits (max_replay_concurrency cfg) then
        Started
          (mkAppState new_registry (new_limiter (max_connections_per_ip cfg))
             (ping_interval_secs cfg) (fst <$> verifier)
             (init_nats_consumer cfg nats rate_limiter) (init_presence ps)
             (ws_channel_capacity cfg) (ws_replay_channel_capacity cfg)
             (replay_enforcement cfg) (max_replay_concurrency cfg))
      else PanicProcess
  end.

(** ** Endpoints *)

(** [health]; [nats_connected] is the client's connection state when there is a consumer. *)
Definition health {Tx Ev} (version : string) (r : Registry Tx Ev) (nats_connected : option bool)
    : value :=
  VObj [("connections", VNum (NPos (connection_count r)));
        ("nats_connected", VBool (default false nats_connected));
        ("status", VStr "ok"); ("version", VStr version)].

Inductive http_response : Type :=
| HttpOk (content_type body : string)
| HttpStatus (code : Z).

Definition pubkey_handler {Key} (v : option (JwtVerifier Key)) : http_response :=
  match v with
  | Some v =>
      let pem_bytes := current_pem v in
      if utf8_valid pem_bytes then HttpOk "application/x-pem-file" pem_bytes
      else HttpStatus 500
  | None => HttpStatus 404
  end.

(** ** Shutdown *)

Inductive drain_exit : Type := Drained | DrainTimedOut.

(** The drain loop: [count i] and [now i] are the connection count and the clock (in
    milliseconds) in its [i]-th iteration. *)
Fixpoint drain_loop (fuel : nat) (count now : nat → Z) (deadline : Z) (i : nat)
    : option (drain_exit * nat) :=
  match fuel with
  | O => None
  | S fuel' =>
      if (count i =? 0) then Some (Drained, i)
      else if (deadline <=? now i) then Some (DrainTimedOut, i)
      else drain_loop fuel' count now deadline (S i)
  end.

(** The tail of [run] after the listener has stopped: signal, drain, flush, in that order. *)
Inductive shutdown_action : Type :=
| SignalShutdown
| DrainEnded (e : drain_exit)
| NatsFlushed
| NatsFlushFailed.

Definition run_shutdown (fuel : nat) (count now : nat → Z) (start : Z)
    (flush : option (result unit string)) : option (list shutdown_action) :=
  let deadline := start + DRAIN_TIMEOUT_SECS * 1000 in
  match drain_loop fuel count now deadline 0 with
  | Some (e, _) =>
      Some ([SignalShutdown; DrainEnded e] ++
            match flush with
            | Some (Ok _) => [NatsFlushed]
            | Some (Err _) => [NatsFlushFailed]
            | None => []
            end)
  | None => None
  end.

(** ** Lemmas *)

Lemma parsed_overrides_u64 cfg :
  map_Forall (λ _ p, is_u64 p.1 ∧ is_u64 p.2) (parse_stream_rate_overrides cfg).
Proof.
  unfold parse_stream_rate_overrides. case_decide; [apply map_Forall_empty|].
  intros k [rps burst] (l1 & l2 & Heq & _)%lookup_collect_map.
  assert ((k, (rps, burst)) ∈ omap parse_override_entry
            (split ";"%char (stream_rate_overrides cfg))) as Hin.
  { rewrite Heq. set_solver. }
  apply list_elem_of_omap in Hin as (e & _ & He).
  apply parse_override_entry_spec in He as (n & r & b & _ & _ & _ & _ & Hr & Hb).
  cbn. split; by eapply parse_u64_is_u64.
Qed.

(** Clock readings that are at least an interval apart. *)
Lemma drain_loop_spec fuel count now deadline i :
  (∀ j, now j + DRAIN_POLL_INTERVAL ≤ now (S j)) →
  deadline - now i ≤ (Z.of_nat fuel - 1) * DRAIN_POLL_INTERVAL →
  (0 < fuel)%nat →
  ∃ e j, drain_loop fuel count now deadline i = Some (e, j) ∧ (i ≤ j < i + fuel)%nat ∧
    (e = Drained ↔ count j = 0) ∧ (e = DrainTimedOut → deadline ≤ now j) ∧
    (∀ k, (i ≤ k < j)%nat → count k ≠ 0 ∧ now k < deadline).
Proof.
  intros Hclk. revert i. induction fuel as [|fuel IH]; intros i Hd Hf; [lia|].
  cbn [drain_loop]. destruct (Z.eqb_spec (count i) 0) as [Hz|Hz].
  { exists Drained, i. split_and!; try done; [lia..|]. intros; lia. }
  destruct (Z.leb_spec deadline (now i)) as [Ht|Ht].
  { exists DrainTimedOut, i. split_and!; try done; [lia..|]. intros; lia. }
  specialize (Hclk i). unfold DRAIN_POLL_INTERVAL in *.
  destruct (IH (S i)) as (e & j & -> & Hj & He & Hto & Hk); [lia| |].
  { destruct fuel; lia. }
  exists e, j. split_and!; try done; [lia..|]. intros k Hik.
  destruct (decide (k = i)) as [->|]; [done|]. apply Hk. lia.
Qed.

(** ** Properties *)

(** The most iterations the drain loop makes: one per poll interval until the timeout. *)
Definition drain_bound : nat := 301.

(** Shutdown always completes: with the polls at least an interval apart, the drain loop
    ends after at most 301 of them, whatever the connections do; it reports a drained server
    exactly when it saw no connection left, gives up only once 30 seconds have passed, and
    the NATS flush comes last, after the connections were told to close. *)
Theorem shutdown_terminates count now start flush :
  start ≤ now 0%nat → (∀ j, now j + DRAIN_POLL_INTERVAL ≤ now (S j)) →
  ∃ e j, (j < drain_bound)%nat ∧
    run_shutdown drain_bound count now start flush =
      Some ([SignalShutdown; DrainEnded e] ++
            match flush with
            | Some (Ok _) => [NatsFlushed]
            | Some (Err _) => [NatsFlushFailed]
            | None => []
            end) ∧
    (e = Drained ↔ count j = 0) ∧
    (e = DrainTimedOut → start + 30000 ≤ now j) ∧
    (∀ k, (k < j)%nat → count k ≠ 0 ∧ now k < start + 30000).
Proof.
  intros Hs Hclk. unfold run_shutdown.
  destruct (drain_loop_spec drain_bound count now (start + DRAIN_TIMEOUT_SECS * 1000) 0)
    as (e & j & -> & Hj & He & Hto & Hk); [done| |unfold drain_bound; lia|].
  { unfold DRAIN_TIMEOUT_SECS, DRAIN_POLL_INTERVAL, drain_bound. lia. }
  unfold DRAIN_TIMEOUT_SECS in *. exists e, j.
  split_and!; [lia|done|done|done|]. intros k Hkj. apply Hk. lia.
Qed.

Lemma shutdown_terminates_witness :
  ∃ e j, (j < drain_bound)%nat ∧
    run_shutdown drain_bound (λ _, 1) (λ j, 5 + Z.of_nat j * 100) 5 (Some (Ok ())) =
      Some ([SignalShutdown; DrainEnded e] ++ [NatsFlushed]) ∧ e = DrainTimedOut.
Proof.
  destruct (shutdown_terminates (λ _, 1) (λ j, 5 + Z.of_nat j * 100) 5 (Some (Ok ())))
    as (e & j & Hj & Hrun & He & _).
  - lia.
  - intros j. unfold DRAIN_POLL_INTERVAL. lia.
  - exists e, j. split; [exact Hj|]. split; [exact Hrun|].
    destruct e; [|reflexivity]. exfalso. by destruct He as [He _]; specialize (He eq_refl).
Defined.

(** Leaving the rate limiter out when the configuration disables it changes nothing for
    the clients: over any sequence of consumed messages a connection gets the same frames
    as with the limiter in place. *)
Theorem disabled_limiter_is_transparent serde_json rmp_serde cfg strs binary evs :
  is_u64 (stream_rate_limit_rps cfg) →
  live_frames serde_json rmp_serde strs binary evs (build_rate_limiter cfg) =
  live_frames serde_json rmp_serde strs binary evs
    (Some (new_rate_limiter (stream_rate_limit_rps cfg) (stream_rate_limit_burst cfg)
             (parse_stream_rate_overrides cfg))).
Proof.
  intros Hu. unfold build_rate_limiter.
  set (rl := new_rate_limiter _ _ _). destruct (is_disabled rl) eqn:Hd; [|done].
  assert (∀ t0 t1 s, check t0 t1 s rl = ((true, i64_max), rl)) as Hc.
  { intros t0 t1 s. unfold check. pose proof (is_disabled_stream (stream_rate_limit_rps cfg)
      (stream_rate_limit_burst cfg) (parse_stream_rate_overrides cfg) s) as Hz.
    fold rl in Hz. destruct (stream_limits rl s) as [r b]. cbn in Hz. rewrite Hz; [done| |..|done].
    - by destruct Hu.
    - intros k p Hk. by destruct (parsed_overrides_u64 cfg k p Hk) as [[? _] _]. }
  induction evs as [|[m t0 t1 i|e| |i] evs IH]; cbn [live_frames]; try done.
  cbn [decide_message]. rewrite Hc. by rewrite IH.
Qed.

Lemma disabled_limiter_is_transparent_witness :
  live_frames silent_lib silent_lib ["s"] false demo_events
    (build_rate_limiter (default_config "n")) =
  live_frames silent_lib silent_lib ["s"] false demo_events (Some (new_rate_limiter 0 0 ∅)).
Proof.
  apply (disabled_limiter_is_transparent silent_lib silent_lib (default_config "n") ["s"] false
    demo_events).
  by vm_compute.
Defined.

(** Authentication is never silently off when a key file is configured: the process
    either exits or starts with a verifier for exactly the key in that file, and a failing
    key watcher does not change that; without a key file, authentication is off exactly when
    the key store cannot supply a valid key and a watch. *)
Theorem configured_key_is_enforced {Key} (parse_pem : string → result Key string)
    read_file ks cfg :
  match jwt_public_key_path cfg, init_jwt_verifier parse_pem read_file ks cfg with
  | Some path, ExitProcess code =>
      code = 1 ∧ ∀ bytes k, read_file path = Ok bytes → parse_pem bytes ≠ Ok k
  | Some path, Started (Some (v, _)) =>
      ∃ bytes k, read_file path = Ok bytes ∧ parse_pem bytes = Ok k ∧
        current_pem v = bytes ∧ cell (key v) = k ∧ verifier_ok parse_pem v
  | Some _, Started None => False
  | None, Started None => ∃ e, load_and_watch_from_nats parse_pem ks = Err e
  | None, Started (Some p) => load_and_watch_from_nats parse_pem ks = Ok p
  | None, ExitProcess _ => False
  | _, PanicProcess => False
  end.
Proof.
  unfold init_jwt_verifier. destruct (jwt_public_key_path cfg) as [path|].
  - destruct (read_file path) as [bytes|] eqn:Er; [|by split].
    destruct (from_rsa_pem parse_pem bytes) as [v|e] eqn:Ef.
    + destruct (from_rsa_pem_ok _ _ _ Ef) as [Hok Hpem].
      unfold from_rsa_pem in Ef. destruct (parse_pem bytes) as [k|] eqn:Ek; [|done].
      cbn in Ef. injection Ef as <-. exists bytes, k. done.
    + split; [done|]. intros b k [= <-] Hk. unfold from_rsa_pem in Ef. by rewrite Hk in Ef.
  - by destruct (load_and_watch_from_nats parse_pem ks); eauto.
Qed.

(** The public-key endpoint shows the PEM of the key tokens are verified with, after any
    number of key rotations; without authentication it answers 404. *)
Theorem pubkey_shows_key_in_use {Key} (parse_pem : string → result Key string) v events :
  verifier_ok parse_pem v →
  let v' := watch_loop parse_pem events v in
  parse_pem (current_pem v') = Ok (cell (key v')) ∧
  (pubkey_handler (Some v') = HttpOk "application/x-pem-file" (current_pem v') ∨
   utf8_valid (current_pem v') = false ∧ pubkey_handler (Some v') = HttpStatus 500) ∧
  pubkey_handler (Key := Key) None = HttpStatus 404.
Proof.
  intros Hok. destruct (watch_loop_ok parse_pem events v Hok) as ((Hk & Hp & Heq) & _).
  cbv zeta. split_and!; [|unfold pubkey_handler; case_match; auto|done].
  unfold current_pem. by rewrite Hp.
Qed.

Lemma pubkey_shows_key_in_use_witness :
  demo_parse_pem (current_pem (watch_loop demo_parse_pem [Ok "k2"; Ok "x"]
    (mkVerifier (mkLock "k1" false) (mkLock "k1" false) (mkValidation RS256 [])))) = Ok "k2".
Proof.
  apply (pubkey_shows_key_in_use demo_parse_pem
    (mkVerifier (mkLock "k1" false) (mkLock "k1" false) (mkValidation RS256 [])) [Ok "k2"; Ok "x"]).
  by vm_compute.
Defined.
