(* ===== verification/Run.v ===== *)
(** * The process ([run], [start] of [src/server.rs], [main] of [src/main.rs])

    From the configuration to the end of the process: metrics, shared state, listener,
    serving, shutdown.  [Server] has the parts ([run_startup], [run_shutdown]); here they are
    put together with the listener and with every way the process can end early.  What the
    operating system and axum answer is a record. *)

From stdpp Require Import base list gmap strings fin_maps.
From Stdlib Require Import ZArith Lia Ascii.
From S2P Require Import Prelude Channels Text Config Cli Limiter Protocol Jwt Float RateLimit Registry Metrics MetricsReg Nats Consumer Presence Handler Socket Server.

Local Open Scope string_scope.
Local Open Scope list_scope.
Local Open Scope Z_scope.

(** ** Listener *)

Inductive sock_call : Type :=
| SockNew
| SetReuseAddress
| SetReusePort
| SetNonblocking
| Bind (port : Z)
| Listen (backlog : Z)
| FromStd.

(** Calls made one after the other, each with its [?]: the outcome and the calls made. *)
Fixpoint try_calls (os_call : sock_call → result unit string) (calls : list sock_call)
    : result unit string * list sock_call :=
  match calls with
  | [] => (Ok (), [])
  | c :: calls' =>
      match os_call c with
      | Ok _ => let '(r, made) := try_calls os_call calls' in (r, c :: made)
      | Err e => (Err e, [c])
      end
  end.

Definition create_listener (os_call : sock_call → result unit string) (port : Z)
    : result unit string * list sock_call :=
  try_calls os_call
    [SockNew; SetReuseAddress; SetReusePort; SetNonblocking; Bind port; Listen 8192; FromStd].

(** ** Routes *)

Inductive endpoint : Type := Health | MetricsText | Pubkey | Cable.

(** The router's table; all routes are [GET]. *)
Definition routes : list (string * endpoint) :=
  [("/health", Health); ("/metrics", MetricsText); ("/pubkey", Pubkey); ("/cable", Cable)].

Definition metrics_handler {F} (gather : F) (encode_to_string : F → result string string)
    : http_response :=
  HttpOk "text/plain; version=0.0.4; charset=utf-8" (render gather encode_to_string).

(** ** The shutdown signal *)

(** How the future that waits for a signal ends. *)
Inductive signal_end : Type := SignalPanicked | SignalReceived | SignalNever.

(** [shutdown_signal] on unix: without a SIGTERM handler it panics, then the first signal
    resolves it; [ctrl_c] also resolves when its own handler cannot be installed. *)
Definition shutdown_signal (handler : result unit string) (sigterm : bool)
    (ctrl_c : option (result unit string)) : signal_end :=
  match handler with
  | Err _ => SignalPanicked
  | Ok _ => if sigterm || bool_decide (is_Some ctrl_c) then SignalReceived else SignalNever
  end.

(** What axum's [serve] makes of that future, or of its own errors. *)
Inductive serve_end : Type :=
| ServeReturned (r : result unit string)
| ServePanicked
| ServesOn.

(** ** The outside *)

(** What the operating system, NATS and axum answer.  Requests made at startup are answered;
    serving and the final flush may go on for ever ([ServesOn], [None]). *)

Record Outside (Key : Type) : Type := mkOutside {
  out_read_file : string → result string string;
  out_parse_pem : string → result Key string;
  out_keys : KeyStore;
  out_nats : result unit string;
  out_stream : StreamConfig → result unit string;
  out_presence : PresenceServer;
  out_sock : sock_call → result unit string;
  out_local_addr : result unit string;
  out_sigterm_handler : result unit string;
  out_sigterm : bool;
  out_ctrl_c : option (result unit string);
  out_serve : signal_end → serve_end;
  out_count : nat → Z;
  out_clock : nat → Z;
  out_stopped_at : Z;
  out_flush : option (result unit string);
}.
Arguments mkOutside {Key}.
Arguments out_read_file {Key}.
Arguments out_parse_pem {Key}.
Arguments out_keys {Key}.
Arguments out_nats {Key}.
Arguments out_stream {Key}.
Arguments out_presence {Key}.
Arguments out_sock {Key}.
Arguments out_local_addr {Key}.
Arguments out_sigterm_handler {Key}.
Arguments out_sigterm {Key}.
Arguments out_ctrl_c {Key}.
Arguments out_serve {Key}.
Arguments out_count {Key}.
Arguments out_clock {Key}.
Arguments out_stopped_at {Key}.
Arguments out_flush {Key}.

(** [NatsConsumer::flush] *)
Definition flush (r : result unit string) : result unit GatewayError :=
  map_err (λ e, JetStream ("flush: " +:+ e)) r.

(** ** [run] *)

(** How the process ends, or what it never gets past. *)
Inductive run_end : Type :=
| RunPanicked
| RunExited (code : Z)
| RunServing
| RunFlushing (acts : list shutdown_action)
| RunFinished (acts : list shutdown_action).

Section Run.
Context {R Key Tx Ev : Type} `{PromRegistry R}.

(** The shared state of [run]. *)
Definition build_state (o : Outside Key) (cfg : Config) : startup (AppState Key Tx Ev) :=
  run_startup (out_parse_pem o) (out_read_file o) (out_keys o) (out_nats o) (out_stream o)
    (out_presence o) cfg.

(** Listening, serving and shutting down; [None] if the drain loop runs out of fuel. *)
Definition run_server (o : Outside Key) (cfg : Config) (st : AppState Key Tx Ev) : option run_end :=
  match (create_listener (out_sock o) (port cfg)).1 with
  | Err _ => Some (RunExited 1)
  | Ok _ =>
      match out_local_addr o with
      | Err _ => Some RunPanicked
      | Ok _ =>
          match out_serve o (shutdown_signal (out_sigterm_handler o) (out_sigterm o) (out_ctrl_c o)) with
          | ServesOn => Some RunServing
          | ServePanicked => Some RunPanicked
          | ServeReturned (Err _) => Some (RunExited 1)
          | ServeReturned (Ok _) =>
              let shutdown := run_shutdown drain_bound (out_count o) (out_clock o) (out_stopped_at o) in
              match st_nats_consumer st, out_flush o with
              | None, _ => RunFinished <$> shutdown None
              | Some _, None => RunFlushing <$> shutdown None
              | Some _, Some r => RunFinished <$>
                  shutdown (Some (map_err gateway_error_to_string (flush r)))
              end
          end
      end
  end.

Definition run (o : Outside Key) (cfg : Config) (p : Process R) : option run_end :=
  match new_metrics p with
  | None => Some RunPanicked
  | Some _ =>
      match build_state o cfg with
      | ExitProcess code => Some (RunExited code)
      | PanicProcess => Some RunPanicked
      | Started st => run_server o cfg st
      end
  end.

(** ** [start] *)

(** The verifier of [start]: from the key file, never from the key store. *)
Definition start_verifier (o : Outside Key) (cfg : Config) : option (option (JwtVerifier Key)) :=
  match jwt_public_key_path cfg with
  | Some path =>
      match out_read_file o path with
      | Err _ => None
      | Ok bytes => match from_rsa_pem (out_parse_pem o) bytes with
                    | Err _ => None
                    | Ok v => Some (Some v)
                    end
      end
  | None => Some None
  end.

(** The state [start] serves with, when it does not panic. *)
Definition start (o : Outside Key) (cfg : Config) (p : Process R) : option (AppState Key Tx Ev) :=
  match new_metrics p with
  | None => None
  | Some _ =>
      match start_verifier o cfg with
      | None => None
      | Some verifier =>
          let rate_limiter := build_rate_limiter cfg in
          let nats := nats_connect (out_nats o) (out_stream o) (nats_stream_replicas cfg) in
          match semaphore_fits (max_replay_concurrency cfg),
                (create_listener (out_sock o) (port cfg)).1, out_local_addr o with
          | true, Ok _, Ok _ =>
              Some (mkAppState new_registry (new_limiter (max_connections_per_ip cfg))
                      (ping_interval_secs cfg) verifier
                      (init_nats_consumer cfg nats rate_limiter) (init_presence (out_presence o))
                      (ws_channel_capacity cfg) (ws_replay_channel_capacity cfg)
                      (replay_enforcement cfg) (max_replay_concurrency cfg))
          | _, _, _ => None
          end
      end
  end.

(** What a socket sees of the state. *)
Definition socket_env (st : AppState Key Tx Ev) (now : Z) : SocketEnv (Key := Key) :=
  mkSocketEnv (st_jwt_verifier st) now
    (mkEnv (st_replay_enforcement st) (bool_decide (is_Some (st_nats_consumer st))) (st_presence st))
    (Z.of_nat (st_ws_channel_capacity st)) (Z.of_nat (st_ws_replay_channel_capacity st))
    (st_ping_interval_secs st).
End Run.

(** ** [main] *)

(** [raise_fd_limit]: the [setrlimit] call it makes, if any, from the limits it reads. *)
Definition raise_fd_limit (target : Z) (limits : result (Z * Z) string) : option (Z * Z) :=
  match limits with
  | Ok (soft, hard) => if soft <? target then Some (Z.min target hard, hard) else None
  | Err _ => None
  end.

Definition FD_TARGET : Z := 2000000.

(** [main], after logging is set up: the limit it sets, and the server.  [Config::parse] exits
    with code 2 on arguments it cannot read. *)
Definition main {R Key Tx Ev} `{PromRegistry R} `{Clap} (uuid_simple : string)
    (inv : Invocation) (limits : result (Z * Z) string) (o : Outside Key) (p : Process R)
    : option (Z * Z) * option run_end :=
  match config_parse uuid_simple inv with
  | Err _ => (None, Some (RunExited 2))
  | Ok cfg => (raise_fd_limit FD_TARGET limits, run (Tx := Tx) (Ev := Ev) o cfg p)
  end.

(** ** Properties *)

Section Properties.
Context {R Key Tx Ev : Type} `{PromLaws R}.
Implicit Types (o : Outside Key) (cfg : Config).

Lemma try_calls_ok f calls :
  (try_calls f calls).1 = Ok () ↔ Forall (λ c, is_ok (f c) = true) calls.
Proof.
  induction calls as [|c calls IH]; cbn; [done|]. rewrite Forall_cons.
  destruct (f c) as [[]|]; cbn; [|naive_solver].
  destruct (try_calls f calls) as [r made]; cbn in *. rewrite <- IH. naive_solver.
Qed.

(** C35. The life of the process: the way it ends, or what it never gets past, tells why.  A
    panic is a failed metric registration, more replay permits than a semaphore can have, a
    listener without address, or axum passing on a panic; exit code 1 is an unusable key file,
    a listener that cannot be made or a failed server; the process runs on only while axum
    serves or NATS does not finish the flush.  Otherwise serving ended, all connections were
    told to close, the drain ended (after at most [drain_bound] polls, whatever the connections
    do), and NATS is flushed last, exactly when the gateway is connected to it. *)
Theorem run_lifecycle o cfg (p : Process R) :
  out_stopped_at o ≤ out_clock o 0%nat →
  (∀ j, out_clock o j + DRAIN_POLL_INTERVAL ≤ out_clock o (S j)) →
  let served := out_serve o (shutdown_signal (out_sigterm_handler o) (out_sigterm o) (out_ctrl_c o)) in
  let connected := is_ok (nats_connect (out_nats o) (out_stream o) (nats_stream_replicas cfg)) in
  ∃ e, run (Tx := Tx) (Ev := Ev) o cfg p = Some e ∧
  match e with
  | RunPanicked =>
      new_metrics p = None ∨ semaphore_fits (max_replay_concurrency cfg) = false ∨
      is_ok (out_local_addr o) = false ∨ served = ServePanicked
  | RunExited code =>
      code = 1 ∧ is_Some (new_metrics p) ∧
      ((∃ path, jwt_public_key_path cfg = Some path ∧
          ∀ bytes k, out_read_file o path = Ok bytes → out_parse_pem o bytes ≠ Ok k) ∨
       is_ok (create_listener (out_sock o) (port cfg)).1 = false ∨
       ∃ e, served = ServeReturned (Err e))
  | RunServing => served = ServesOn
  | RunFlushing acts =>
      served = ServeReturned (Ok ()) ∧ connected = true ∧ out_flush o = None ∧
      ∃ exit, acts = [SignalShutdown; DrainEnded exit]
  | RunFinished acts =>
      served = ServeReturned (Ok ()) ∧
      ∃ exit, acts = [SignalShutdown; DrainEnded exit] ++
        (if connected
         then [if decide (out_flush o = Some (Ok ())) then NatsFlushed else NatsFlushFailed] else [])
  end.
Proof using Type.
  intros Hs Hclk served connected. unfold run.
  destruct (new_metrics p) as [[m p']|] eqn:Em; [|exists RunPanicked; split; [done|by left]].
  unfold build_state, run_startup.
  destruct (init_jwt_verifier _ _ _ cfg) as [v|code|] eqn:Ev0.
  3: { unfold init_jwt_verifier in Ev0. by repeat case_match. }
  2: { eexists. split; [done|]. cbn. unfold init_jwt_verifier in Ev0.
       destruct (jwt_public_key_path cfg) as [path|]; [|by repeat case_match; simplify_eq].
       destruct (out_read_file o path) as [bytes|] eqn:Er.
       - unfold from_rsa_pem in Ev0. destruct (out_parse_pem o bytes) as [k|] eqn:Ek; [done|].
         cbn in Ev0. simplify_eq. split_and!; [done|by eauto|]. left. exists path.
         split; [done|]. intros b k Hb. rewrite Er in Hb. by simplify_eq; rewrite Ek.
       - simplify_eq. split_and!; [done|by eauto|]. left. exists path. split; [done|]. congruence. }
  destruct (semaphore_fits (max_replay_concurrency cfg)); [|exists RunPanicked; split; [done|by auto]].
  set (st := mkAppState _ _ _ _ _ _ _ _ _ _). unfold run_server. fold served.
  destruct (create_listener (out_sock o) (port cfg)).1 as [[]|] eqn:El.
  2: { exists (RunExited 1). split; [done|]. split_and!; [done|by eauto|]. right; left. by rewrite ?El. }
  destruct (out_local_addr o) as [[]|] eqn:Ela; [|exists RunPanicked; split; [done|right; right; left; by rewrite ?Ela]].
  destruct served as [[[]|err]| |] eqn:Ese.
  2: { exists (RunExited 1). split; [done|]. split_and!; [done|by eauto|]. right; right. by exists err. }
  2: { exists RunPanicked. split; [done|by auto]. }
  2: { by exists RunServing. }
  destruct (drain_loop_spec drain_bound (out_count o) (out_clock o)
    (out_stopped_at o + DRAIN_TIMEOUT_SECS * 1000) 0) as (e & j & Hd & _);
    [done| |unfold drain_bound; lia|].
  { unfold DRAIN_TIMEOUT_SECS, DRAIN_POLL_INTERVAL, drain_bound. lia. }
  unfold run_shutdown. rewrite Hd.
  unfold connected, st, init_nats_consumer, nats_connect, flush; cbn [st_nats_consumer].
  destruct (out_nats o) as [[]|], (out_stream o _) as [[]|], (out_flush o) as [[[]|]|];
    cbn; eexists; (split; [done|]); cbn; by eauto.
Qed.

(** The test entry point serves like the production one: whenever [start] comes up, [run]
    gets past its startup with a state that differs at most in the verifier, and not even
    there when a key file is configured; without one, [start] never authenticates, while
    [run] does if the key store has a key. *)
Theorem start_serves_like_run o cfg (p : Process R) (st : AppState Key Tx Ev) :
  start o cfg p = Some st →
  ∃ st', build_state o cfg = Started st' ∧
    run (Tx := Tx) (Ev := Ev) o cfg p = run_server o cfg st' ∧
    st_registry st' = st_registry st ∧ st_limiter st' = st_limiter st ∧
    st_nats_consumer st' = st_nats_consumer st ∧ st_presence st' = st_presence st ∧
    (∀ now, se_env (socket_env st' now) = se_env (socket_env st now) ∧
            channels_ok (socket_env st' now) = channels_ok (socket_env st now) ∧
            interval_ok (socket_env st' now) = interval_ok (socket_env st now)) ∧
    (is_Some (jwt_public_key_path cfg) → st' = st) ∧
    (jwt_public_key_path cfg = None →
       st_jwt_verifier st = None ∧
       (is_Some (st_jwt_verifier st') ↔
          is_ok (load_and_watch_from_nats (out_parse_pem o) (out_keys o)) = true)).
Proof using Type.
  unfold start, run. destruct (new_metrics p) as [[m p']|]; [|done].
  unfold start_verifier, build_state, run_startup, init_jwt_verifier.
  destruct (semaphore_fits (max_replay_concurrency cfg)); [|by repeat case_match].
  destruct (jwt_public_key_path cfg) as [path|].
  - destruct (out_read_file o path) as [bytes|]; [|done].
    destruct (from_rsa_pem (out_parse_pem o) bytes) as [v|]; [|done].
    destruct (create_listener (out_sock o) (port cfg)).1 as [[]|]; [|done].
    destruct (out_local_addr o); [|done]. intros [= <-].
    eexists. split; [done|]. by split_and!.
  - destruct (create_listener (out_sock o) (port cfg)).1 as [[]|]; [|done].
    destruct (out_local_addr o); [|done]. intros [= <-].
    destruct (load_and_watch_from_nats (out_parse_pem o) (out_keys o)) as [[v evs]|].
    + eexists. split; [done|]. by split_and!.
    + eexists. split; [done|]. split_and!; try done. intros _.
      split; [done|]. cbn. split; [by intros [? ?]|done].
Qed.

(** The listener is only ever put on the port after it was made shareable, and a failed
    call ends its construction: the calls made are a prefix of the full sequence, the whole
    of it exactly on success, and the last one made is the one that failed. *)
Theorem listener_call_order os_call port :
  let full := [SockNew; SetReuseAddress; SetReusePort; SetNonblocking; Bind port; Listen 8192;
               FromStd] in
  let '(r, made) := create_listener os_call port in
  made `prefix_of` full ∧
  (r = Ok () ↔ Forall (λ c, is_ok (os_call c) = true) full) ∧
  (r = Ok () → made = full) ∧
  (∀ e, r = Err e → ∃ before c, made = before ++ [c] ∧ os_call c = Err e ∧
                      Forall (λ c, is_ok (os_call c) = true) before).
Proof using Type.
  cbv zeta. unfold create_listener. generalize
    [SockNew; SetReuseAddress; SetReusePort; SetNonblocking; Bind port; Listen 8192; FromStd].
  intros full. pose proof (try_calls_ok os_call full) as Hok.
  destruct (try_calls os_call full) as [r made] eqn:E. cbn in Hok.
  cut (made `prefix_of` full ∧ (r = Ok () → made = full) ∧
       (∀ e, r = Err e → ∃ before c, made = before ++ [c] ∧ os_call c = Err e ∧
                           Forall (λ c, is_ok (os_call c) = true) before)); [naive_solver|].
  clear Hok. revert r made E. induction full as [|c full IH]; intros r made; cbn.
  - intros [= <- <-]. by split_and!.
  - destruct (os_call c) as [[]|e0] eqn:Ec.
    + destruct (try_calls os_call full) as [r1 made1]. intros [= <- <-].
      destruct (IH _ _ eq_refl) as (Hp & Ho & He). split_and!.
      * by apply prefix_cons.
      * intros Hr. by rewrite Ho.
      * intros e Hr. destruct (He e Hr) as (bf & c0 & -> & Hc0 & Hbf).
        exists (c :: bf), c0. split_and!; [done..|]. constructor; [by rewrite Ec|done].
    + intros [= <- <-]. split_and!; [|done|].
      * exists full. done.
      * intros e [= <-]. by exists [], c.
Qed.
End Properties.

(** Raising the descriptor limit never lowers it and never asks for more than the hard
    limit: the call made, if any, keeps the hard limit and sets a soft limit between the old
    one and the smaller of target and hard limit; none is made when the limit suffices. *)
Theorem fd_limit_only_raised target soft hard :
  soft ≤ hard →
  match raise_fd_limit target (Ok (soft, hard)) with
  | Some (new, hard') => hard' = hard ∧ soft ≤ new ≤ hard ∧ new ≤ target ∧
                         (target ≤ hard → new = target)
  | None => target ≤ soft
  end.
Proof.
  intros Hle. unfold raise_fd_limit. destruct (Z.ltb_spec soft target); [|lia].
  split_and!; lia.
Qed.

(** ** Witnesses *)

(** Everything works: a key file, a NATS server, no connections left at shutdown. *)
Definition sunny : Outside string :=
  mkOutside (λ _, Ok "k1") demo_parse_pem
    (mkKeyStore (Err "no server") (Err "") (Err "") (Err ""))
    (Ok ()) (λ _, Ok ()) (mkPresenceServer (Ok ()) (λ _, Ok ()) (λ _, Ok ())) (λ _, Ok ()) (Ok ())
    (Ok ()) true None (λ _, ServeReturned (Ok ())) (λ _, 0) (λ j, Z.of_nat j * 100) 0 (Some (Ok ())).

Definition keyed_config : Config :=
  {| port := 9292; nats_url := "nats://localhost:4222"; node_id := "n";
     ping_interval_secs := 30; max_connections_per_ip := 10;
     ws_channel_capacity := 4096; ws_replay_channel_capacity := 4096;
     jwt_public_key_path := Some "key.pem"; max_ack_pending := 10000; nats_stream_replicas := 1;
     replay_enforcement := Compat; max_replay_concurrency := 1000;
     stream_rate_limit_rps := 0; stream_rate_limit_burst := 0;
     stream_rate_overrides := "" |}.

Definition fresh_process : Process (gset string) := mkProcess None ∅.

Lemma run_lifecycle_witness :
  ∃ e, run (Tx := nat) (Ev := nat) sunny keyed_config fresh_process = Some e ∧
       e = RunFinished [SignalShutdown; DrainEnded Drained; NatsFlushed].
Proof.
  destruct (run_lifecycle (Tx := nat) (Ev := nat) sunny keyed_config fresh_process)
    as (e & He & _).
  - by vm_compute.
  - intros j. unfold DRAIN_POLL_INTERVAL, sunny. cbn [out_clock]. lia.
  - exists e. split; [exact He|]. vm_compute in He. by injection He as <-.
Defined.

Lemma start_serves_like_run_witness :
  ∃ st : AppState string nat nat,
    start sunny keyed_config fresh_process = Some st ∧
    build_state sunny keyed_config = Started st.
Proof.
  destruct (start sunny keyed_config fresh_process) as [st|] eqn:E; [|by vm_compute in E].
  destruct (start_serves_like_run (Tx := nat) (Ev := nat) sunny keyed_config fresh_process st E)
    as (st' & Hb & _ & _ & _ & _ & _ & _ & Hkey & _).
  exists st. split; [done|]. rewrite Hb. f_equal. apply Hkey. by eexists.
Defined.

Lemma fd_limit_only_raised_witness :
  raise_fd_limit FD_TARGET (Ok (1024, 4096)) = Some (4096, 4096) ∧ 1024 ≤ 4096.
Proof.
  split; [reflexivity|].
  pose proof (fd_limit_only_raised FD_TARGET 1024 4096) as H. cbn in H. lia.
Defined.

(** The default configuration gives sockets workable channels and a ping interval. *)
Example default_config_workable :
  let st := mkAppState (Key := string) (Tx := nat) (Ev := nat) new_registry (new_limiter 10)
              (ping_interval_secs (default_config "n")) None None false
              (ws_channel_capacity (default_config "n"))
              (ws_replay_channel_capacity (default_config "n")) Compat 1000 in
  channels_ok (socket_env st 0) = true ∧ interval_ok (socket_env st 0) = true.
Proof. by vm_compute. Qed.

(** The drain loop waits for the registry to be empty, not for the outbound tasks: a socket on
    which the shutdown signal is the first event is off the registry as soon as its inbound
    task has seen the signal.  The welcome frame is then still queued, the drain ends at its
    first poll and the process exits, whether or not the outbound task has run. *)
Example drain_ends_before_outbound_flush :
  let '(x, nd) := handle_socket sub_lib sub_lib demo_jwt_decode open_env (negotiate_protocol "")
                    None demo_ip 1%nat 1%nat [InShutdown] demo_node in
  x = Served [SendLive "frame"] ∧ connection_count (nd_registry nd) = 0 ∧
  run_shutdown drain_bound (λ _, connection_count (nd_registry nd)) (λ j, Z.of_nat j * 100) 0 None
    = Some [SignalShutdown; DrainEnded Drained].
Proof. by vm_compute. Qed.

(** A replay concurrency beyond a semaphore's permits is accepted as a configuration, and the
    process then panics at startup. *)
Lemma too_many_permits_panic {R Key Tx Ev} `{PromRegistry R} (o : Outside Key) cfg (p : Process R) :
  is_Some (new_metrics p) → jwt_public_key_path cfg = None →
  semaphore_fits (max_replay_concurrency cfg) = false →
  run (Tx := Tx) (Ev := Ev) o cfg p = Some RunPanicked.
Proof.
  intros [m Hm] Hj Hs. unfold run, build_state, run_startup, init_jwt_verifier.
  rewrite Hm, Hj, Hs. by repeat case_match; simplify_eq.
Qed.
