(* ===== verification/Tests.v ===== *)
(** * The repository's unit tests, run on the model

    Every definition here is one test of the sources (its name is the test's), written with
    the operations of the model in place of the code's; channels are bounded queues, JSON
    text is read and printed by [json_lib], MessagePack by [msgpack_lib]; the tests of
    [src/protocol/msgpack.rs] are in [MsgpackTests], those of [src/auth/jwt.rs] that sign
    tokens in [Token].  That they all hold is evidence that the model
    answers as the code does on the inputs its authors chose.  In JSON text an apostrophe
    stands for the quotation mark. *)

From stdpp Require Import base list gmap strings fin_maps.
From Stdlib Require Import ZArith Ascii String Lia.
From S2P Require Import Prelude Channels Text Config Protocol Json Msgpack Jwt Limiter Float RateLimit Registry RegistrySpec Metrics Nats Consumer Presence Handler.

Local Open Scope string_scope.
Local Open Scope list_scope.
Local Open Scope Z_scope.

(** ** [src/connection/registry.rs] *)

Module RegistryTests.

(** The registry with the channels of its connections; a channel has its connection's id. *)
Record Rig : Type := mkRig {
  reg : Registry nat nat;
  hb : gmap nat (BoundedQueue string);
  he : gmap nat (BoundedQueue unit);
}.

Definition test_registry : Rig := mkRig new_registry ∅ ∅.

Definition on_reg (f : Registry nat nat → Registry nat nat) (r : Rig) : Rig :=
  mkRig (f (reg r)) (hb r) (he r).

(** [allocate_id], [mpsc::channel(cap)] and [register]; [evict_rx] says whether the test keeps
    the eviction receiver. *)
Definition add_connection (cap : nat) (binary evict_rx : bool) (r : Rig) : Z * Rig :=
  let '(id, g) := allocate_id (reg r) in
  let c := Z.to_nat id in
  (id, mkRig (register id c binary c g) (<[c := fresh_queue cap]> (hb r))
         (<[c := mkQueue [] 1 evict_rx true]> (he r))).

Definition reg_add (cap : nat) (binary : bool) (r : Rig) : Z * Rig :=
  add_connection cap binary false r.

(** [n] connections on one stream. *)
Fixpoint add_many (n : nat) (cap : nat) (evict_rx : bool) (stream : string) (r : Rig) : Rig :=
  match n with
  | O => r
  | S n' =>
      let '(id, r1) := add_connection cap false evict_rx r in
      add_many n' cap evict_rx stream (on_reg (subscribe id stream) r1)
  end.

Definition fan_encoded (stream json binary : string) (r : Rig) : FanoutResult * Rig :=
  let '(res, g, hb', he') := fanout_encoded stream json binary (reg r) (hb r) (he r) in
  (res, mkRig g hb' he').

(** [Registry::fanout], which only exists for the tests. *)
Definition fanout (stream payload : string) (r : Rig) : FanoutResult * Rig :=
  fan_encoded stream payload payload r.

Definition received (id : Z) (r : Rig) : list string := queue (Z.to_nat id) (hb r).

Definition recv (id : Z) (r : Rig) : Rig :=
  mkRig (reg r) (try_recv (Z.to_nat id) (hb r)).2 (he r).

Definition ids (n : nat) : list Z := Z.of_nat <$> seq 1 n.

(** All [n] connections get the payload. *)
Definition register_and_fanout_to (n : nat) (stream payload : string) : bool :=
  let r := add_many n 16 false stream test_registry in
  let '(res, r') := fanout stream payload r in
  bool_decide (connection_count (reg r) = Z.of_nat n) &&
  bool_decide (sent res = n) && bool_decide (dropped res = 0%nat) &&
  forallb (λ id, bool_decide (received id r' = [payload])) (ids n).

Definition register_and_fanout_to_1000 : bool := register_and_fanout_to 1000 "chat_room_42" "hello".
Definition register_and_fanout_to_10000 : bool :=
  register_and_fanout_to 10000 "large_stream" "10k-fanout".

Definition slow_client_triggers_eviction : bool :=
  let r := add_many 10 1 true "stream_a" test_registry in
  let r1 := (fanout "stream_a" "fill" r).2 in
  let '(res, r2) := fanout "stream_a" "overflow" r1 in
  let res' := (fanout "stream_a" "retry" r2).1 in
  bool_decide (sent res = 0%nat) && bool_decide (dropped res = 10%nat) &&
  bool_decide (List.length (evicted res) = 10%nat) &&
  forallb (λ id, bool_decide (queue (Z.to_nat id) (he r2) = [()])) (ids 10) &&
  bool_decide (connection_count (reg r2) = 0) &&
  bool_decide (sent res' = 0%nat) && bool_decide (dropped res' = 0%nat) &&
  bool_decide (evicted res' = []).

Definition deregister_cleans_up_from_all_streams : bool :=
  let '(id, r) := reg_add 16 false test_registry in
  let r1 := on_reg (λ g, deregister id (subscribe id "stream_z" (subscribe id "stream_y"
              (subscribe id "stream_x" g)))) r in
  let res := (fanout "stream_x" "nope" r1).1 in
  bool_decide (connection_count (reg r1) = 0) &&
  bool_decide (connections (reg r1) !! id = None) &&
  bool_decide (conn_streams (reg r1) !! id = None) &&
  forallb (λ s, bool_decide (streams (reg r1) !! s = None)) ["stream_x"; "stream_y"; "stream_z"] &&
  bool_decide (sent res = 0%nat) && bool_decide (dropped res = 0%nat).

(** The tasks of the test, one after the other; [RegistryConc] interleaves them. *)
Definition concurrent_subscribe_from_multiple_tasks : bool :=
  let r := add_many 100 16 false "shared_stream" test_registry in
  let '(res, r1) := fanout "shared_stream" "broadcast" r in
  let r2 := on_reg (λ g, fold_left (λ g id, deregister id g) (ids 100) g) r1 in
  bool_decide (connection_count (reg r) = 100) && bool_decide (sent res = 100%nat) &&
  bool_decide (connection_count (reg r2) = 0) &&
  bool_decide (streams (reg r2) !! "shared_stream" = None).

Definition connection_count_after_concurrent_register_deregister : bool :=
  let r := fold_left (λ r _, (add_connection 1 false false r).2) (seq 0 500) test_registry in
  let r1 := on_reg (λ g, fold_left (λ g id, deregister id g) (ids 250) g) r in
  bool_decide (connection_count (reg r) = 500) && bool_decide (connection_count (reg r1) = 250).

Definition unsubscribe_removes_from_fanout : bool :=
  let '(id, r) := reg_add 16 false test_registry in
  let '(res, r1) := fanout "news" "msg1" (on_reg (subscribe id "news") r) in
  let r2 := on_reg (unsubscribe id "news") (recv id r1) in
  let '(res', r3) := fanout "news" "msg2" r2 in
  bool_decide (sent res = 1%nat) && bool_decide (received id r1 = ["msg1"]) &&
  bool_decide (sent res' = 0%nat) && bool_decide (received id r3 = []).

Definition duplicate_subscribe_is_idempotent : bool :=
  let '(id, r) := reg_add 16 false test_registry in
  let sub := on_reg (subscribe id "dup_stream") in
  let '(res, r1) := fanout "dup_stream" "once" (sub (sub (sub r))) in
  bool_decide (sent res = 1%nat) && bool_decide (received id r1 = ["once"]).

Definition deregister_is_idempotent : bool :=
  let '(id, r) := reg_add 16 false test_registry in
  let r1 := on_reg (λ g, deregister id (subscribe id "stream_q" g)) r in
  bool_decide (connection_count (reg r1) = 0) &&
  bool_decide (connection_count (deregister id (reg r1)) = 0).

Definition fanout_to_nonexistent_stream_is_noop : bool :=
  let res := (fanout "does_not_exist" "void" test_registry).1 in
  bool_decide (sent res = 0%nat) && bool_decide (dropped res = 0%nat).

Definition fanout_encoded_routes_by_codec : bool :=
  let '(json_id, r) := reg_add 16 false test_registry in
  let '(binary_id, r1) := reg_add 16 true r in
  let r2 := on_reg (λ g, subscribe binary_id "mixed" (subscribe json_id "mixed" g)) r1 in
  let '(res, r3) := fan_encoded "mixed" "json_frame" "msgpack_frame" r2 in
  bool_decide (sent res = 2%nat) && bool_decide (dropped res = 0%nat) &&
  bool_decide (received json_id r3 = ["json_frame"]) &&
  bool_decide (received binary_id r3 = ["msgpack_frame"]).

Definition fanout_encoded_all_json_connections : bool :=
  let r := add_many 5 16 false "json_only" test_registry in
  let r1 := (fan_encoded "json_only" "json_data" "binary_data" r).2 in
  forallb (λ id, bool_decide (received id r1 = ["json_data"])) (ids 5).

(** The rig after [k] connections were added to one stream. *)
Record many (stream : string) (k : nat) (r : Rig) : Prop := mkMany {
  mn_wf : registry_wf (reg r);
  mn_next : next_id (reg r) = Z.of_nat k + 1;
  mn_count : connection_count (reg r) = Z.of_nat k;
  mn_conn id : connections (reg r) !! id =
    if decide (1 ≤ id ≤ Z.of_nat k) then Some (mkEntry (Z.to_nat id) (Z.to_nat id) false) else None;
  mn_subs : subscribers (reg r) stream = ids k;
  mn_queue id : 1 ≤ id ≤ Z.of_nat k → hb r !! Z.to_nat id = Some (fresh_queue 16);
}.

Lemma elem_of_ids n id : id ∈ ids n ↔ 1 ≤ id ≤ Z.of_nat n.
Proof.
  unfold ids. rewrite list_elem_of_fmap. setoid_rewrite elem_of_seq. split; [intros (k & -> & Hk); lia|].
  intros H. exists (Z.to_nat id). lia.
Qed.

Lemma many_add stream k r :
  many stream k r → Z.of_nat k + 2 < u64_modulus →
  many stream (S k) (let '(id, r1) := add_connection 16 false false r in
                     on_reg (subscribe id stream) r1).
Proof.
  intros [Hwf Hn Hc Hconn Hsub Hq] Hk. unfold connection_count in Hc.
  unfold add_connection, allocate_id. rewrite Hn.
  remember (Z.of_nat k + 1) as id eqn:Hidk.
  set (g := mkRegistry _ _ _ _ _). set (g1 := register id (Z.to_nat id) false (Z.to_nat id) g).
  assert (connections (reg r) !! id = None) as Hfree.
  { rewrite Hconn, decide_False; [done|lia]. }
  assert (registry_wf g1) as Hwf1 by (apply register_wf; [done|by destruct Hwf]).
  assert (conn_streams g1 !! id = Some []) as Hown by apply lookup_insert_eq.
  destruct (subscribe_spec id stream g1 [] Hwf1 Hown) as (C1 & C2 & C3 & _ & C5 & _);
    [by apply not_elem_of_nil|].
  split; cbn [reg on_reg hb].
  - by apply subscribe_wf.
  - rewrite C2. cbn. rewrite wrapping_add_small; lia.
  - unfold connection_count. rewrite C3. cbn. rewrite wrapping_add_small; lia.
  - intros id'. rewrite C1. cbn. destruct (decide (id' = id)) as [->|Hne].
    + by rewrite lookup_insert_eq, decide_True by lia.
    + rewrite lookup_insert_ne by done. rewrite Hconn. repeat case_decide; (done || lia).
  - rewrite C5, decide_True by done. change (subscribers g1 stream) with (subscribers (reg r) stream).
    rewrite Hsub. unfold ids. rewrite seq_S, fmap_app. cbn. do 2 f_equal. lia.
  - intros id' Hid. destruct (decide (id' = id)) as [->|Hne]; [apply lookup_insert_eq|].
    rewrite lookup_insert_ne by lia. apply Hq. lia.
Qed.

Lemma many_add_many stream n k r :
  many stream k r → Z.of_nat (k + n) + 1 < u64_modulus →
  many stream (k + n) (add_many n 16 false stream r).
Proof.
  revert k r. induction n as [|n IH]; intros k r Hm Hb; [by rewrite Nat.add_0_r|].
  cbn [add_many]. pose proof (many_add stream k r Hm ltac:(lia)) as Hs.
  destruct (add_connection 16 false false r) as [id r1].
  rewrite Nat.add_succ_r, <- Nat.add_succ_l. apply IH; [done|lia].
Qed.

Lemma many_none stream : many stream 0 test_registry.
Proof.
  split; [apply new_registry_wf|reflexivity..| |reflexivity|lia].
  intros id. rewrite decide_False by lia. apply lookup_empty.
Qed.

(** The fan-out tests hold at every number of connections. *)
Lemma register_and_fanout_to_any n stream payload :
  Z.of_nat n + 1 < u64_modulus → register_and_fanout_to n stream payload = true.
Proof.
  intros Hn. pose proof (many_add_many stream n 0 _ (many_none stream) Hn) as [Hwf _ Hc Hconn Hsub Hq].
  cbn [Nat.add] in *. unfold register_and_fanout_to, fanout, fan_encoded, fanout_encoded.
  set (r := add_many _ _ _ _ _) in *. fold (subscribers (reg r) stream).
  destruct (fanout_loop _ _ _ _ _ _) as [[[k ev] hb'] he'] eqn:El.
  assert (senders_distinct (reg r)) as Hd.
  { intros id1 id2 e1 e2. rewrite !Hconn. repeat case_decide; [|done..].
    intros [= <-] [= <-]. cbn. lia. }
  assert (∀ id, 1 ≤ id ≤ Z.of_nat n → has_room (Z.to_nat id) (hb r) = true) as Hroom.
  { intros id Hid. unfold has_room. cbn. unfold bq_get. by rewrite (Hq id Hid). }
  destruct (fanout_loop_spec _ _ _ _ _ _ _ _ _ _ Hd (wf_nodup_subs _ Hwf stream)
    (λ id, subscriber_registered _ stream id Hwf) El) as (Hev & Hlen & Hqs & _).
  assert (ev = []) as ->.
  { apply elem_of_nil_inv. intros id. rewrite Hev, Hsub, list_elem_of_filter, elem_of_ids.
    intros [Hfull Hid]. unfold room_of in Hfull. rewrite Hconn, decide_True in Hfull by done.
    cbn [sender] in Hfull. by rewrite Hroom in Hfull. }
  rewrite Hsub in Hlen. unfold ids in Hlen. rewrite length_fmap, length_seq in Hlen.
  cbn [List.length sent dropped fold_left] in *. rewrite !andb_true_iff.
  split_and!; [by apply bool_decide_eq_true_2|apply bool_decide_eq_true_2; lia|done|].
  apply forallb_forall.
  intros id Hid%list_elem_of_In%elem_of_ids. apply bool_decide_eq_true_2. unfold received. cbn [hb].
  specialize (Hqs id (mkEntry (Z.to_nat id) (Z.to_nat id) false)). cbn [sender is_binary] in Hqs.
  rewrite Hqs by (by rewrite Hconn, decide_True).
  rewrite Hsub, bool_decide_eq_true_2, Hroom by (done || by apply elem_of_ids).
  cbn. unfold bq_get. by rewrite (Hq id Hid).
Qed.

(** The tests of the registry hold. *)
Lemma registry_tests_hold :
  register_and_fanout_to_1000 = true ∧ register_and_fanout_to_10000 = true ∧
  slow_client_triggers_eviction = true ∧ deregister_cleans_up_from_all_streams = true ∧
  concurrent_subscribe_from_multiple_tasks = true ∧
  connection_count_after_concurrent_register_deregister = true ∧
  unsubscribe_removes_from_fanout = true ∧ duplicate_subscribe_is_idempotent = true ∧
  deregister_is_idempotent = true ∧ fanout_to_nonexistent_stream_is_noop = true ∧
  fanout_encoded_routes_by_codec = true ∧ fanout_encoded_all_json_connections = true.
Proof.
  split; [by apply register_and_fanout_to_any|].
  split; [by apply register_and_fanout_to_any|].
  repeat split; vm_compute; reflexivity.
Qed.
End RegistryTests.

(** ** [src/connection/limiter.rs] *)

Module LimiterTests.

Definition localhost : IpAddr := V4 2130706433.
Definition other_ip : IpAddr := V4 167772161.

(** Acquisitions one after the other: the answers, and the limiter. *)
Fixpoint acquire_all (ips : list IpAddr) (lim : ConnectionLimiter) : list bool * ConnectionLimiter :=
  match ips with
  | [] => ([], lim)
  | ip :: ips' =>
      let '(b, lim1) := try_acquire lim ip in
      let '(bs, lim2) := acquire_all ips' lim1 in (b :: bs, lim2)
  end.

Definition allows_up_to_limit : bool :=
  bool_decide ((acquire_all (replicate 4 localhost) (new_limiter 3)).1 = [true; true; true; false]).

Definition different_ips_are_independent : bool :=
  bool_decide ((acquire_all (replicate 3 localhost ++ replicate 3 other_ip) (new_limiter 2)).1
    = [true; true; false; true; true; false]).

Definition release_frees_slot : bool :=
  let '(bs, lim) := acquire_all [localhost; localhost] (new_limiter 1) in
  bool_decide (bs = [true; false]) && (try_acquire (release lim localhost) localhost).1.

Definition release_cleans_up_zero_entries : bool :=
  let '(b, lim) := try_acquire (new_limiter 1) localhost in
  b && bool_decide (count_for lim localhost = 1) &&
  bool_decide (count_for (release lim localhost) localhost = 0).

Definition release_without_acquire_does_not_underflow : bool :=
  bool_decide (count_for (release (new_limiter 5) localhost) localhost = 0).

Definition concurrent_acquire_respects_limit : bool :=
  let '(bs, lim) := acquire_all (replicate 100 localhost) (new_limiter 50) in
  bool_decide (List.length (filter (λ b, b = true) bs) = 50%nat) &&
  bool_decide (count_for lim localhost = 50).

Lemma limiter_tests_hold :
  allows_up_to_limit = true ∧ different_ips_are_independent = true ∧ release_frees_slot = true ∧
  release_cleans_up_zero_entries = true ∧ release_without_acquire_does_not_underflow = true ∧
  concurrent_acquire_respects_limit = true.
Proof. repeat split; vm_compute; reflexivity. Qed.
End LimiterTests.

(** ** [src/fanout/mod.rs] *)

Module FanoutTests.

Definition limiter (rps burst : Z) : StreamRateLimiter := new_rate_limiter rps burst ∅.

(** Checks one after the other, at one instant: the answers. *)
Fixpoint check_all (l : list string) (rl : StreamRateLimiter) : list (bool * Z) :=
  match l with
  | [] => []
  | s :: l' => let '(r, rl') := check 0 0 s rl in r :: check_all l' rl'
  end.

Definition disabled_when_rps_zero : bool :=
  is_disabled (limiter 0 0) &&
  bool_decide ((check 0 0 "any_stream" (limiter 0 0)).1 = (true, i64_max)).

Definition burst_passes_then_limits : bool :=
  let answers := check_all (replicate 6 "s") (limiter 1 5) in
  bool_decide (answers.*1 = replicate 5 true ++ [false]) &&
  bool_decide (last answers = Some (false, 0)).

Definition independent_buckets_per_stream : bool :=
  bool_decide ((check_all ["stream_a"; "stream_b"; "stream_a"; "stream_b"] (limiter 1 1)).*1
    = [true; true; false; false]).

Definition per_stream_override_takes_precedence : bool :=
  let rl := new_rate_limiter 1 1 {[ "special" := (10, 10) ]} in
  bool_decide ((check_all (replicate 11 "special" ++ ["default"; "default"]) rl).*1
    = replicate 10 true ++ [false; true; false]).

Definition default_burst_is_2x_rps : bool :=
  bool_decide ((check_all (replicate 11 "s") (limiter 5 0)).*1 = replicate 10 true ++ [false]).

Definition not_disabled_with_override : bool :=
  negb (is_disabled (new_rate_limiter 0 0 {[ "x" := (10, 10) ]})).

Lemma fanout_tests_hold :
  disabled_when_rps_zero = true ∧ burst_passes_then_limits = true ∧
  independent_buckets_per_stream = true ∧ per_stream_override_takes_precedence = true ∧
  default_burst_is_2x_rps = true ∧ not_disabled_with_override = true.
Proof. repeat split; vm_compute; reflexivity. Qed.
End FanoutTests.

(** ** [src/config.rs], [src/presence/mod.rs], [src/auth/jwt.rs] (patterns) *)

Module SmallTests.

Definition requires_hello_first_only_outside_compat : bool :=
  negb (requires_hello_first Compat) && requires_hello_first SoftEnforce &&
  requires_hello_first HardEnforce.

Definition rejects_non_replay_subscribe_only_in_hard : bool :=
  negb (rejects_non_replay_subscribe Compat) && negb (rejects_non_replay_subscribe SoftEnforce) &&
  rejects_non_replay_subscribe HardEnforce.

Definition presence_key_format : bool :=
  bool_decide (presence_key "chat_room_1" "user_42" = "chat_room_1.user_42") &&
  bool_decide (presence_key "notifications" "alice" = "notifications.alice").

Definition heartbeat_interval_less_than_ttl : bool :=
  bool_decide (HEARTBEAT_INTERVAL_SECS < PRESENCE_TTL_SECS).

Definition stream_glob_chat_room_star_matches_chat_room_42 : bool :=
  is_allowed ["chat_room_*"] "chat_room_42".

Definition stream_glob_star_matches_anything : bool :=
  is_allowed ["*"] "any_stream_name" && is_allowed ["*"] "".

Definition stream_glob_exact_rejects_partial : bool :=
  negb (is_allowed ["chat_room_1"] "chat_room_10") && is_allowed ["chat_room_1"] "chat_room_1".

Definition stream_glob_multiple_patterns : bool :=
  let patterns := ["chat_room_*"; "notifications"] in
  is_allowed patterns "chat_room_42" && is_allowed patterns "notifications" &&
  negb (is_allowed patterns "admin_panel").

Definition stream_glob_empty_patterns_rejects_all : bool := negb (is_allowed [] "chat_room_1").

Lemma small_tests_hold :
  requires_hello_first_only_outside_compat = true ∧
  rejects_non_replay_subscribe_only_in_hard = true ∧ presence_key_format = true ∧
  heartbeat_interval_less_than_ttl = true ∧
  stream_glob_chat_room_star_matches_chat_room_42 = true ∧
  stream_glob_star_matches_anything = true ∧ stream_glob_exact_rejects_partial = true ∧
  stream_glob_multiple_patterns = true ∧ stream_glob_empty_patterns_rejects_all = true.
Proof. repeat split; vm_compute; reflexivity. Qed.
End SmallTests.

(** JSON text with apostrophes for quotation marks. *)
Fixpoint json_text (s : string) : string :=
  match s with
  | EmptyString => EmptyString
  | String a s' => String (if decide (a = "'"%char) then QUOTE else a) (json_text s')
  end.

(** [serde_json::from_str::<Value>] *)
Definition json_of (s : string) : option value :=
  to_json_value <$> ok_option (wire_parse json_lib (json_text s)).

(** ** [src/protocol/json.rs] *)

Module JsonTests.

Definition codec : Codec := json_codec json_lib.

Definition decodes (s : string) (f : ClientFrame) : Prop := decode codec (json_text s) = Ok f.
Definition refused (s : string) : Prop := ∃ e, decode codec s = Err (Protocol e).

(** [codec().encode(&msg)] read back as a value. *)
Definition encodes (m : ServerMessage) (s : string) : Prop :=
  ∃ b v, encode codec m = Ok b ∧ wire_parse json_lib b = Ok v ∧ Some (to_json_value v) = json_of s.

Definition decode_subscribe : Prop :=
  decodes "{'command':'subscribe','identifier':'{\'channel\':\'ChatChannel\',\'room_id\':1}'}"
    (Command (Subscribe (json_text "{'channel':'ChatChannel','room_id':1}"))).

Definition decode_unsubscribe : Prop :=
  decodes "{'command':'unsubscribe','identifier':'test_channel'}" (Command (Unsubscribe "test_channel")).

Definition decode_message : Prop :=
  decodes "{'command':'message','identifier':'chat_1','data':'{\'action\':\'speak\',\'text\':\'hello\'}'}"
    (Command (ClientMessage "chat_1" (json_text "{'action':'speak','text':'hello'}"))).

Definition decode_hello_fresh_connection : Prop :=
  decodes "{'type':'hello'}" (Hello (mkHello None [])).

Definition decode_hello_with_last_seq : Prop :=
  ∃ h, decode codec (json_text "{'type':'hello','last_seq':99}") = Ok (Hello h) ∧
       last_seq h = Some 99.

Definition decode_hello_replay_capable : Prop :=
  ∃ h, decode codec (json_text "{'type':'hello','last_seq':7,'capabilities':['replay_v1']}") = Ok (Hello h) ∧
       last_seq h = Some 7 ∧ is_replay_capable h = true.

Definition decode_hello_without_replay_capability : Prop :=
  ∃ h, decode codec (json_text "{'type':'hello'}") = Ok (Hello h) ∧ is_replay_capable h = false.

Definition encode_welcome : Prop := encodes Welcome "{'type': 'welcome'}".
Definition encode_ping : Prop :=
  encodes (Ping 1679012345) "{'type': 'ping', 'message': 1679012345}".
Definition encode_confirm_subscription : Prop :=
  encodes (ConfirmSubscription "chat_42") "{'type': 'confirm_subscription', 'identifier': 'chat_42'}".
Definition encode_reject_subscription : Prop :=
  encodes (RejectSubscription "secret_channel")
    "{'type': 'reject_subscription', 'identifier': 'secret_channel'}".
Definition encode_disconnect : Prop :=
  encodes (Disconnect "unauthorized" (Some true))
    "{'type': 'disconnect', 'reason': 'unauthorized', 'reconnect': true}".
Definition encode_disconnect_without_reconnect : Prop :=
  encodes (Disconnect "server_restart" None) "{'type': 'disconnect', 'reason': 'server_restart'}".
Definition encode_broadcast_message : Prop :=
  encodes (Message "chat_1" (VObj [("sender", VStr "alice"); ("text", VStr "hello")]) None None)
    "{'type': 'message', 'identifier': 'chat_1', 'message': {'text': 'hello', 'sender': 'alice'}}".
Definition encode_replayed_message_includes_seq : Prop :=
  encodes (Message "chat_1" (VObj [("text", VStr "replayed msg")]) (Some true) (Some 8841))
    "{'type': 'message', 'identifier': 'chat_1', 'message': {'text': 'replayed msg'},
      'replayed': true, 'seq': 8841}".

Definition decode_malformed_json_returns_error : Prop := refused "not valid json {{{".
Definition decode_unknown_command_returns_error : Prop :=
  refused (json_text "{'command':'unknown_cmd','identifier':'test'}").
Definition decode_missing_identifier_returns_error : Prop :=
  refused (json_text "{'command':'subscribe'}").
Definition decode_missing_command_field_returns_error : Prop :=
  refused (json_text "{'identifier':'test'}").
Definition decode_message_missing_data_returns_error : Prop :=
  refused (json_text "{'command':'message','identifier':'chat_1'}").
Definition decode_empty_input_returns_error : Prop := refused "".
Definition decode_random_bytes_returns_error : Prop :=
  refused (bytes_of [255; 254; 0; 1; 171]%N).

(** [to_vec] and [from_slice] on a client frame. *)
Definition frame_round_trip (f : ClientFrame) : Prop :=
  ∃ b, wire_print json_lib (client_frame_to_value f) = Ok b ∧ frame_from_slice json_lib b = Ok f.

Definition json_round_trip_subscribe : Prop := frame_round_trip (Command (Subscribe "room_99")).
Definition json_round_trip_hello : Prop :=
  frame_round_trip (Hello (mkHello (Some 123) ["replay_v1"])).

Definition server_round_trip (m : ServerMessage) : Prop :=
  ∃ b v, encode codec m = Ok b ∧ wire_parse json_lib b = Ok v ∧ server_message_of_value v = Some m.

Definition json_round_trip_all_server_messages : Prop :=
  Forall server_round_trip
    [Welcome; Ping 42; ConfirmSubscription "ch_1"; RejectSubscription "ch_2";
     Disconnect "idle" (Some false); Message "ch_3" (VObj [("key", VStr "value")]) None None].

Ltac run := repeat split; repeat eexists; vm_compute; reflexivity.

Lemma decode_tests_hold :
  decode_subscribe ∧ decode_unsubscribe ∧ decode_message ∧ decode_hello_fresh_connection ∧
  decode_hello_with_last_seq ∧ decode_hello_replay_capable ∧
  decode_hello_without_replay_capability ∧ decode_malformed_json_returns_error ∧
  decode_unknown_command_returns_error ∧ decode_missing_identifier_returns_error ∧
  decode_missing_command_field_returns_error ∧ decode_message_missing_data_returns_error ∧
  decode_empty_input_returns_error ∧ decode_random_bytes_returns_error.
Proof. run. Qed.

Lemma encode_tests_hold :
  encode_welcome ∧ encode_ping ∧ encode_confirm_subscription ∧ encode_reject_subscription ∧
  encode_disconnect ∧ encode_disconnect_without_reconnect ∧ encode_broadcast_message ∧
  encode_replayed_message_includes_seq.
Proof. run. Qed.

Lemma round_trip_tests_hold :
  json_round_trip_subscribe ∧ json_round_trip_hello ∧ json_round_trip_all_server_messages.
Proof. split_and!; [run|run|]. repeat constructor; run. Qed.
End JsonTests.

(** ** [src/pubsub/nats.rs] *)

Module NatsTests.

Definition extract_stream_name_strips_prefix : Prop :=
  extract_stream_name "TURBOCABLE.chat_room_42" = "chat_room_42" ∧
  extract_stream_name "TURBOCABLE.notifications" = "notifications" ∧
  extract_stream_name "TURBOCABLE.a.b.c" = "a.b.c".

Definition extract_stream_name_handles_missing_prefix : Prop :=
  extract_stream_name "chat_room_42" = "chat_room_42" ∧ extract_stream_name "" = "".

(** [str::contains] *)
Definition contains (s needle : string) : bool := bool_decide (is_Some (find needle s)).

(** [serde_json::to_string(&msg)] *)
Definition to_text (m : ServerMessage) : string := encode_or_default json_lib m.

Definition build_server_message_from_json_payload : Prop :=
  ∃ parsed, json_of "{'text':'hello','sender':'alice'}" = Some parsed ∧
  let encoded := to_text (Message "chat_room_1" parsed None (Some 42)) in
  contains encoded "chat_room_1" = true ∧ contains encoded "hello" = true ∧
  contains encoded (json_text "'seq':42") = true ∧ contains encoded "replayed" = false.

Definition build_replayed_server_message : Prop :=
  let encoded := to_text (Message "stream_x" (VObj [("data", VStr "replayed")]) (Some true) (Some 8841)) in
  contains encoded (json_text "'replayed':true") = true ∧
  contains encoded (json_text "'seq':8841") = true.

Definition server_message_without_optional_fields_omits_them : Prop :=
  let encoded := to_text (Message "stream_y" (VObj [("data", VStr "live")]) None None) in
  contains encoded "replayed" = false ∧ contains encoded "seq" = false.

(** Both encodings are there and read back as the same message. *)
Definition dual_codec_encoding_produces_valid_output : Prop :=
  let msg := Message "chat_1" (VObj [("text", VStr "hello")]) None (Some 100) in
  let json_bytes := encode_or_default json_lib msg in
  let msgpack_bytes := encode_or_default msgpack_lib msg in
  json_bytes ≠ "" ∧ msgpack_bytes ≠ "" ∧
  ∃ vj vm from, wire_parse json_lib json_bytes = Ok vj ∧ wire_parse msgpack_lib msgpack_bytes = Ok vm ∧
    server_message_of_value vj = Some from ∧ server_message_of_value vm = Some from.

Definition constants_are_consistent : Prop :=
  starts_with SUBJECT_PREFIX STREAM_NAME = true ∧
  strip_suffix_char "."%char SUBJECT_PREFIX = Some STREAM_NAME.

Lemma nats_tests_hold :
  extract_stream_name_strips_prefix ∧ extract_stream_name_handles_missing_prefix ∧
  build_server_message_from_json_payload ∧ build_replayed_server_message ∧
  server_message_without_optional_fields_omits_them ∧
  dual_codec_encoding_produces_valid_output ∧ constants_are_consistent.
Proof. repeat split; repeat eexists; vm_compute; (reflexivity || discriminate). Qed.
End NatsTests.

(** ** [src/protocol/mod.rs] *)

Module ProtocolTests.

Definition codec_for (protocol : string) : option Codec :=
  codec_for_protocol json_lib msgpack_lib protocol.

Definition codec_for_json_protocol : Prop := is_Some (codec_for SUB_PROTOCOL_JSON).
Definition codec_for_msgpack_protocol : Prop := is_Some (codec_for SUB_PROTOCOL_MSGPACK).
Definition codec_for_unknown_protocol : Prop := codec_for "unknown-v1" = None.

Definition json_codec_via_trait_object : Prop :=
  ∃ codec b, codec_for SUB_PROTOCOL_JSON = Some codec ∧
    decode codec (json_text "{'command':'subscribe','identifier':'ch_1'}")
      = Ok (Command (Subscribe "ch_1")) ∧
    encode codec Welcome = Ok b ∧ negb (bool_decide (b = "")) = true.

Definition json_codec_hello_frame : Prop :=
  ∃ codec hello, codec_for SUB_PROTOCOL_JSON = Some codec ∧
    decode codec (json_text "{'type':'hello','last_seq':42,'capabilities':['replay_v1']}")
      = Ok (Hello hello) ∧
    last_seq hello = Some 42 ∧ is_replay_capable hello = true.

Definition msgpack_codec_via_trait_object : Prop :=
  let original := Command (Subscribe "ch_2") in
  ∃ codec packed b, codec_for SUB_PROTOCOL_MSGPACK = Some codec ∧
    wire_print msgpack_lib (client_frame_to_value original) = Ok packed ∧
    decode codec packed = Ok original ∧
    encode codec (Ping 99) = Ok b ∧ negb (bool_decide (b = "")) = true.

Lemma protocol_tests_hold :
  codec_for_json_protocol ∧ codec_for_msgpack_protocol ∧ codec_for_unknown_protocol ∧
  json_codec_via_trait_object ∧ json_codec_hello_frame ∧ msgpack_codec_via_trait_object.
Proof. repeat split; repeat eexists; vm_compute; reflexivity. Qed.
End ProtocolTests.

(** ** [src/connection/handler.rs] *)

Module HandlerTests.

(** [make_state]: the parts of the state a frame handler reads, and a session before hello. *)
Definition make_state (enforcement : ReplayEnforcement) : AppEnv * World nat nat :=
  (mkEnv enforcement false false,
   mkWorld new_registry no_metrics AwaitingHello false None ∅ ∅ 0 []).

Definition make_ctx (conn_id : Z) : ConnContext := mkCtx conn_id (json_codec json_lib) ["*"] None.

(** The frames handed to [handle_client_frame] in order. *)
Definition after_frames (conn_id : Z) (enforcement : ReplayEnforcement) (frames : list string)
    : World nat nat :=
  let '(env, w) := make_state enforcement in
  fold_left (λ w f, handle_client_frame json_lib (make_ctx conn_id) env (json_text f) w) frames w.

Definition SUBSCRIBE : string := "{'command':'subscribe','identifier':'my_stream'}".
Definition HELLO : string := "{'type':'hello'}".
Definition HELLO_REPLAY : string := "{'type':'hello','capabilities':['replay_v1']}".

(** The frames on the live channel, as values. *)
Definition answers (w : World nat nat) : list (option value) :=
  omap (λ e, match e with
             | SendLive b => Some (ok_option (wire_parse json_lib b))
             | _ => None
             end) (w_log w).

Definition confirm : option value :=
  json_of "{'type':'confirm_subscription','identifier':'my_stream'}".

(** The [type] of an answer. *)
Definition answer_type (a : option value) : option string :=
  match a with Some v => value_get "type" v ≫= as_string | None => None end.

Definition compat_subscribe_before_hello_allows_with_warn_metric : Prop :=
  let w := after_frames 1 Compat [SUBSCRIBE] in
  w_conn_state w = Active ∧ scalar (w_metrics w) handshake_legacy_warn_total = 1 ∧
  map (fmap to_json_value) (answers w) = [confirm].

Definition soft_enforce_subscribe_before_hello_rejects : Prop :=
  let w := after_frames 2 SoftEnforce [SUBSCRIBE] in
  w_conn_state w = AwaitingHello ∧ (0 <? scalar (w_metrics w) handshake_rejected_total) = true ∧
  map answer_type (answers w) = [Some "reject_subscription"].

Definition soft_enforce_subscribe_without_replay_v1_allowed_with_warn_metric : Prop :=
  let w1 := after_frames 3 SoftEnforce [HELLO] in
  let w := after_frames 3 SoftEnforce [HELLO; SUBSCRIBE] in
  w_conn_state w1 = Active ∧ w_replay_capable w1 = false ∧
  scalar (w_metrics w) handshake_soft_non_replay_subscribe_allowed_total = 1 ∧
  map answer_type (answers w) = [Some "confirm_subscription"].

Definition hard_enforce_subscribe_before_hello_rejects : Prop :=
  let w := after_frames 4 HardEnforce [SUBSCRIBE] in
  w_conn_state w = AwaitingHello ∧ (0 <? scalar (w_metrics w) handshake_rejected_total) = true ∧
  map answer_type (answers w) = [Some "reject_subscription"].

Definition hard_enforce_subscribe_without_replay_v1_rejects : Prop :=
  let w1 := after_frames 5 HardEnforce [HELLO] in
  let w := after_frames 5 HardEnforce [HELLO; SUBSCRIBE] in
  w_conn_state w1 = Active ∧ w_replay_capable w1 = false ∧
  scalar (w_metrics w) handshake_rejected_non_replay_capable_total = 1 ∧
  map answer_type (answers w) = [Some "reject_subscription"].

Definition hard_enforce_subscribe_with_replay_v1_allowed : Prop :=
  let w1 := after_frames 6 HardEnforce [HELLO_REPLAY] in
  let w := after_frames 6 HardEnforce [HELLO_REPLAY; SUBSCRIBE] in
  w_conn_state w1 = Active ∧ w_replay_capable w1 = true ∧
  map answer_type (answers w) = [Some "confirm_subscription"].

Definition hello_with_replay_v1_increments_ok_replay_capable_metric : Prop :=
  let w := after_frames 7 Compat [HELLO_REPLAY] in
  w_conn_state w = Active ∧ w_replay_capable w = true ∧
  (0 <? scalar (w_metrics w) handshake_ok_replay_capable_total) = true.

Definition hello_without_replay_v1_increments_ok_legacy_metric : Prop :=
  let w := after_frames 8 Compat [HELLO] in
  w_conn_state w = Active ∧ w_replay_capable w = false ∧
  (0 <? scalar (w_metrics w) handshake_ok_legacy_total) = true.

Lemma handler_tests_hold :
  compat_subscribe_before_hello_allows_with_warn_metric ∧
  soft_enforce_subscribe_before_hello_rejects ∧
  soft_enforce_subscribe_without_replay_v1_allowed_with_warn_metric ∧
  hard_enforce_subscribe_before_hello_rejects ∧
  hard_enforce_subscribe_without_replay_v1_rejects ∧
  hard_enforce_subscribe_with_replay_v1_allowed ∧
  hello_with_replay_v1_increments_ok_replay_capable_metric ∧
  hello_without_replay_v1_increments_ok_legacy_metric.
Proof. repeat split; vm_compute; reflexivity. Qed.
End HandlerTests.

(** Structured identifiers, from their text: the stream is the [stream] member, an identifier
    without one or that is not JSON is the stream itself. *)
Example stream_keys :
  stream_key_from_identifier json_lib
    (json_text "{'channel':'Turbo::StreamsChannel','stream':'chat_1'}") = "chat_1" ∧
  stream_key_from_identifier json_lib (json_text "{'channel':'Chat'}")
    = json_text "{'channel':'Chat'}" ∧
  stream_key_from_identifier json_lib "chat_room_42" = "chat_room_42".
Proof. by vm_compute. Qed.
