(* ===== verification/MsgpackTests.v ===== *)
(** * The unit tests of [src/protocol/msgpack.rs], run on the model

    Written as in [Tests], with the concrete MessagePack library [msgpack_lib]. *)

From stdpp Require Import base list strings.
From Stdlib Require Import ZArith Ascii String.
From S2P Require Import Prelude Text Protocol Json Msgpack Tests.

Local Open Scope string_scope.
Local Open Scope list_scope.
Local Open Scope Z_scope.

Definition codec : Codec := msgpack_codec msgpack_lib.

(** [rmp_serde::to_vec_named] and [rmp_serde::from_slice] on a client frame. *)
Definition frame_round_trip (f : ClientFrame) : Prop :=
  ∃ b, wire_print msgpack_lib (client_frame_to_value f) = Ok b ∧ frame_from_slice msgpack_lib b = Ok f.

(** The same, decoding through the codec. *)
Definition codec_round_trip (f : ClientFrame) : Prop :=
  ∃ b, wire_print msgpack_lib (client_frame_to_value f) = Ok b ∧ decode codec b = Ok f.

(** The helper of the tests; [None] where it panics. *)
Definition decode_server_msg (data : string) : option ServerMessage :=
  match wire_parse msgpack_lib data with Ok v => server_message_of_value v | Err _ => None end.

Definition server_round_trip (m : ServerMessage) : Prop :=
  ∃ b, encode codec m = Ok b ∧ decode_server_msg b = Some m.

Definition refused (b : string) : Prop := ∃ e, decode codec b = Err (Protocol e).

Definition round_trip_subscribe : Prop :=
  frame_round_trip (Command (Subscribe (json_text "{'channel':'ChatChannel','room_id':1}"))).
Definition round_trip_unsubscribe : Prop := frame_round_trip (Command (Unsubscribe "notifications")).
Definition round_trip_message : Prop :=
  frame_round_trip (Command (ClientMessage "chat_42" (json_text "{'action':'speak','text':'hi'}"))).
Definition round_trip_hello_fresh : Prop := frame_round_trip (Hello (mkHello None [])).
Definition round_trip_hello_replay_capable : Prop :=
  frame_round_trip (Hello (mkHello (Some 555) ["replay_v1"])).

Definition round_trip_welcome : Prop := server_round_trip Welcome.
Definition round_trip_ping : Prop := server_round_trip (Ping 1700000000).
Definition round_trip_confirm_subscription : Prop := server_round_trip (ConfirmSubscription "chat_room_1").
Definition round_trip_reject_subscription : Prop := server_round_trip (RejectSubscription "secret_room").
Definition round_trip_disconnect : Prop := server_round_trip (Disconnect "unauthorized" (Some true)).
Definition round_trip_broadcast_message : Prop :=
  server_round_trip
    (Message "chat_1" (VObj [("count", VNum (NPos 42)); ("text", VStr "hello")]) None None).
Definition round_trip_replayed_message : Prop :=
  server_round_trip (Message "chat_1" (VObj [("text", VStr "replayed")]) (Some true) (Some 9001)).

Definition codec_trait_round_trip_subscribe : Prop := codec_round_trip (Command (Subscribe "room_5")).
Definition codec_trait_round_trip_message : Prop :=
  codec_round_trip (Command (ClientMessage "chat_99" "payload")).

Definition decode_empty_input_returns_error : Prop := refused "".
Definition decode_random_bytes_returns_error : Prop :=
  refused (bytes_of [255; 254; 0; 1; 171; 205]%N).
Definition decode_valid_msgpack_but_wrong_shape_returns_error : Prop :=
  ∃ wrong, wire_print msgpack_lib (VObj [("foo", VStr "bar")]) = Ok wrong ∧ refused wrong.

Ltac run := repeat split; repeat eexists; vm_compute; reflexivity.

Lemma msgpack_frame_tests_hold :
  round_trip_subscribe ∧ round_trip_unsubscribe ∧ round_trip_message ∧ round_trip_hello_fresh ∧
  round_trip_hello_replay_capable ∧ codec_trait_round_trip_subscribe ∧
  codec_trait_round_trip_message.
Proof. run. Qed.

Lemma msgpack_server_tests_hold :
  round_trip_welcome ∧ round_trip_ping ∧ round_trip_confirm_subscription ∧
  round_trip_reject_subscription ∧ round_trip_disconnect ∧ round_trip_broadcast_message ∧
  round_trip_replayed_message.
Proof. run. Qed.

Lemma msgpack_error_tests_hold :
  decode_empty_input_returns_error ∧ decode_random_bytes_returns_error ∧
  decode_valid_msgpack_but_wrong_shape_returns_error.
Proof. run. Qed.
